(** * dam.js — Downloadable Asset Manager: a shallow embedding

    The development follows [src/dam.js].  JavaScript objects used as maps
    ([this.bundles], [this.localURLs]) are finite maps of their own
    properties; a read that does not go through [hasOwnProperty] also
    sees what every object inherits ([objectPrototype] below).  Objects
    that are shared by reference (bundle records, arrays, tasks) live in
    explicit stores and are addressed by their position there;
    asynchronous work is a pending continuation that the environment
    resumes by a callback.  A function of the model gives [None] where
    the program would stop on an error it does not handle, and for the one
    input the model leaves out: a bundle named [__proto__], whose
    registration would replace the prototype of [this.bundles]. *)

From Stdlib Require Import ZArith QArith Lqa Lia Ascii String List Bool.
From stdpp Require Import base option list gmap strings.

Local Open Scope Z_scope.

(** ** JavaScript 32-bit integer operators

    The bitwise operators of JavaScript first convert their operands with
    ToInt32 (ToUint32 for [>>>]) and mask the shift count to five bits. *)

Module JsInt.

Definition ToInt32 (x : Z) : Z := (x + 2 ^ 31) mod 2 ^ 32 - 2 ^ 31.
Definition ToUint32 (x : Z) : Z := x mod 2 ^ 32.

Definition and (a b : Z) : Z := Z.land (ToInt32 a) (ToInt32 b).
Definition or (a b : Z) : Z := Z.lor (ToInt32 a) (ToInt32 b).
Definition xor (a b : Z) : Z := Z.lxor (ToInt32 a) (ToInt32 b).
Definition not (a : Z) : Z := Z.lnot (ToInt32 a).
Definition shl (a n : Z) : Z := ToInt32 (Z.shiftl (ToInt32 a) (n mod 32)).
Definition shr (a n : Z) : Z := Z.shiftr (ToInt32 a) (n mod 32).
Definition ushr (a n : Z) : Z := Z.shiftr (ToUint32 a) (n mod 32).

(** Arrays of numbers: a hole or an index past the end reads [undefined],
    which every consumer below passes to a bitwise operator, where it
    counts as 0; a write past the end extends the array. *)
Definition aget (a : list Z) (i : Z) : Z := nth (Z.to_nat i) a 0.

Definition aset (a : list Z) (i : Z) (v : Z) : list Z :=
  let n := Z.to_nat i in
  if (n <? length a)%nat then <[n := v]> a
  else a ++ replicate (n - length a)%nat 0 ++ [v].

End JsInt.

(** ** tiny-sha1 r4, as bundled in dam.js *)

Module Sha1.
Import JsInt.

Definition charCodeAt (t : string) (k : nat) : Z :=
  match String.get k t with
  | Some c => Z.of_nat (nat_of_ascii c)
  | None => 0
  end.

(** [function(t){var a=[],b=255,c=t.length*8; for(i=0;i<c;i+=8) a[i>>5]|=(t.charCodeAt(i/8)&b)<<(24-(i%32)); return a}] *)
Definition words (t : string) : list Z :=
  fold_left
    (fun a k =>
       let i := 8 * Z.of_nat k in
       aset a (shr i 5)
         (or (aget a (shr i 5)) (shl (and (charCodeAt t k) 255) (24 - i mod 32))))
    (seq 0 (String.length t)) [].

(** [L(a,b)]: rotate left. *)
Definition L (a b : Z) : Z := or (shl a b) (ushr a (32 - b)).
Definition P (a b c : Z) : Z := xor (xor a b) c.

(** [A(a,b)]: addition modulo 2^32 by 16-bit halves. *)
Definition A (a b : Z) : Z :=
  let c := and b 65535 + and a 65535 in
  let d := ushr b 16 + ushr a 16 + ushr c 16 in
  or (shl (and d 65535) 16) (and c 65535).

(** The five-operand sum of the round function. *)
Definition add5 (a b c d e : Z) : Z :=
  let f := and e 65535 + and a 65535 + and b 65535 + and c 65535 + and d 65535 in
  let g := ushr e 16 + ushr a 16 + ushr b 16 + ushr c 16 + ushr d 16 + ushr f 16 in
  or (shl (and g 65535) 16) (and f 65535).

Definition Ch (t a b : Z) : Z := xor (and t a) (and (not t) b).
Definition Maj (t a b : Z) : Z := xor (xor (and t a) (and t b)) (and a b).

(** [M]: the round constants, twenty of each. *)
Definition M : list Z :=
  replicate 20 1518500249 ++ replicate 20 1859775393
  ++ replicate 20 2400959708 ++ replicate 20 3395469782.

Record regs := Regs { rc : Z; rd : Z; re : Z; rf : Z; rg : Z }.

(** One pass of the inner loop, [j] from 0 to 79, over the block at [i];
    [W] is the source's array [O]. *)
Definition round (a : list Z) (i : Z) (st : list Z * regs) (jn : nat) : list Z * regs :=
  let '(W, r) := st in
  let j := Z.of_nat jn in
  let Wj :=
    if j <? 16 then aget a (j + i)
    else L (xor (xor (xor (aget W (j - 3)) (aget W (j - 8))) (aget W (j - 14))) (aget W (j - 16))) 1 in
  let W' := aset W j Wj in
  let fn :=
    if j <? 20 then Ch (rd r) (re r) (rf r)
    else if j <? 40 then P (rd r) (re r) (rf r)
    else if j <? 60 then Maj (rd r) (re r) (rf r)
    else P (rd r) (re r) (rf r) in
  let k := add5 fn (rg r) (aget M j) (aget W' j) (L (rc r) 5) in
  (W', Regs k (rc r) (L (rd r) 30) (re r) (rf r)).

Definition block (a : list Z) (hs : list Z) (blk : nat) : list Z :=
  let i := 16 * Z.of_nat blk in
  let r0 := Regs (aget hs 0) (aget hs 1) (aget hs 2) (aget hs 3) (aget hs 4) in
  let '(_, r) := fold_left (round a i) (seq 0 80) ([], r0) in
  [A (aget hs 0) (rc r); A (aget hs 1) (rd r); A (aget hs 2) (re r);
   A (aget hs 3) (rf r); A (aget hs 4) (rg r)].

(** [function(a,b){...}]: [h = a.length] is read before the padding is
    written, so the outer loop runs over the blocks of the unpadded words. *)
Definition digest (a : list Z) (b : Z) : list Z :=
  let h := length a in
  let a1 := aset a (shr b 5) (or (aget a (shr b 5)) (shl 128 (24 - b mod 32))) in
  let a2 := aset a1 (shl (shr (b + 65) 9) 4 + 15) b in
  fold_left (block a2)
    (seq 0 ((h + 15) / 16)%nat)
    [1732584193; 4023233417; 2562383102; 271733878; 3285377520].

Definition B : string := "0123456789abcdef".

Definition charAt (s : string) (n : Z) : string :=
  match String.get (Z.to_nat n) s with
  | Some c => String c EmptyString
  | None => EmptyString
  end.

(** [function(a){...}]: two hexadecimal digits for each of the [4 * a.length] bytes. *)
Definition hexbyte (a : list Z) (k : nat) : string :=
  let i := Z.of_nat k in
  let e := shr (aget a (shr i 2)) ((3 - i mod 4) * 8) in
  charAt B (and (shr e 4) 15) +:+ charAt B (and e 15).

Definition hex (a : list Z) : string :=
  fold_right String.append EmptyString (map (hexbyte a) (seq 0 (length a * 4))).

Definition SHA1 (s : string) : string :=
  hex (digest (words s) (Z.of_nat (String.length s) * 8)).

End Sha1.

(** ** Strings: the two methods [_localFileName] uses *)

Module JsString.

(** [s.lastIndexOf(c)] for a one-character needle: the index of the last
    occurrence, or [-1]. *)
Fixpoint lastIndexOf_from (s : string) (c : ascii) (i : Z) (found : Z) : Z :=
  match s with
  | EmptyString => found
  | String a s' => lastIndexOf_from s' c (i + 1) (if Ascii.eqb a c then i else found)
  end.

Definition lastIndexOf (s : string) (c : ascii) : Z := lastIndexOf_from s c 0 (-1).

(** [s.substr(l)] for [0 <= l]: the characters from index [l] to the end. *)
Fixpoint substr (s : string) (l : nat) : string :=
  match l, s with
  | O, _ => s
  | S l', String _ s' => substr s' l'
  | S _, EmptyString => EmptyString
  end.

End JsString.

(** [_localFileName(uri)] *)
Definition _localFileName (uri : string) : string :=
  let l := JsString.lastIndexOf uri "."%char in
  Sha1.SHA1 uri +:+
    (if (l <? 1) || (l =? Z.of_nat (String.length uri) - 1) then EmptyString
     else JsString.substr uri (Z.to_nat l)).

(** ** JavaScript values and the heap

    Objects and arrays are shared by reference: a reference [JRef l] names
    the cell [l] of the heap, and allocation appends a cell.  Numbers are
    the integers (sizes in bytes). *)

Module Js.

Abbreviation loc := nat (only parsing).

Inductive jsval :=
| JUndefined
| JNull
| JBool (b : bool)
| JNum (n : Z)
| JStr (s : string)
| JRef (l : loc).

Inductive jsobj :=
| JArray (elems : list jsval)
| JObject (props : gmap string jsval).

Inductive exn :=
| ExnString (msg : string)   (* [throw "..."] *)
| TypeError.                 (* a property read on [null] or [undefined] *)

Inductive completion (A : Type) :=
| Normal (a : A)
| Throw (e : exn).
Arguments Normal {A} a.
Arguments Throw {A} e.

Definition typeof (v : jsval) : string :=
  match v with
  | JUndefined => "undefined"
  | JNull => "object"
  | JBool _ => "boolean"
  | JNum _ => "number"
  | JStr _ => "string"
  | JRef _ => "object"
  end.

Definition truthy (v : jsval) : bool :=
  match v with
  | JUndefined | JNull => false
  | JBool b => b
  | JNum n => negb (n =? 0)
  | JStr s => negb (String.eqb s "")
  | JRef _ => true
  end.

(** [v.k]: [None] is the TypeError of a read on [null] or [undefined];
    a missing property reads [undefined]. *)
Definition getProp (h : list jsobj) (v : jsval) (k : string) : option jsval :=
  match v with
  | JUndefined | JNull => None
  | JRef l =>
      match h !! l with
      | Some (JObject ps) => Some (default JUndefined (ps !! k))
      | Some (JArray es) =>
          Some (if String.eqb k "length" then JNum (Z.of_nat (length es)) else JUndefined)
      | None => Some JUndefined
      end
  | JStr s =>
      Some (if String.eqb k "length" then JNum (Z.of_nat (String.length s)) else JUndefined)
  | _ => Some JUndefined
  end.

(** [o.k = v] on an object cell. *)
Definition setProp (h : list jsobj) (l : loc) (k : string) (v : jsval) : list jsobj :=
  match h !! l with
  | Some (JObject ps) => <[l := JObject (<[k := v]> ps)]> h
  | _ => h
  end.

(** [_isArray(o)] *)
Definition _isArray (h : list jsobj) (o : jsval) : bool :=
  match o with
  | JRef l => match h !! l with Some (JArray _) => true | _ => false end
  | _ => false
  end.

(** The elements of an array value ([a.length] and [a[i]] read them). *)
Definition elems (h : list jsobj) (a : jsval) : list jsval :=
  match a with
  | JRef l => match h !! l with Some (JArray es) => es | _ => [] end
  | _ => []
  end.

Definition alloc (h : list jsobj) (o : jsobj) : list jsobj * loc := (h ++ [o], length h).

(** [a.slice()]: a fresh array with the same elements; [None] when [a] is
    not an array. *)
Definition slice (h : list jsobj) (a : jsval) : option (list jsobj * jsval) :=
  if _isArray h a then
    let '(h', l) := alloc h (JArray (elems h a)) in Some (h', JRef l)
  else None.

End Js.
Export Js.

(** ** Bundles *)

(** A bundle record as the program reads it: [name], [files], the optional
    [fileSizes] and the [loaded] flag (absent on the records handed to
    clients). *)
Record bundle := Bundle {
  name : string;
  files : list string;
  fileSizes : option (list jsval);
  loaded : option bool
}.

Definition asStr (v : jsval) : option string :=
  match v with JStr s => Some s | _ => None end.

(** Reading the record in cell [l]; [None] when the cell does not hold a
    bundle record. *)
Definition readBundle (h : list jsobj) (l : loc) : option bundle :=
  match h !! l with
  | Some (JObject ps) =>
      match ps !! "name", ps !! "files" with
      | Some (JStr n), Some (JRef lf) =>
          match h !! lf with
          | Some (JArray es) =>
              fs ← mapM asStr es;
              sz ← match ps !! "fileSizes" with
                   | None | Some JUndefined => Some None
                   | Some (JRef ls) =>
                       match h !! ls with
                       | Some (JArray ss) => Some (Some ss)
                       | _ => None
                       end
                   | _ => None
                   end;
              ld ← match ps !! "loaded" with
                   | None => Some None
                   | Some (JBool b) => Some (Some b)
                   | _ => None
                   end;
              Some (Bundle n fs sz ld)
          | _ => None
          end
      | _, _ => None
      end
  | _ => None
  end.

(** [_malformedBundle(bundle)] *)
Definition _malformedBundle (h : list jsobj) (b : jsval) : completion bool :=
  if negb (String.eqb (typeof b) "object") then Normal true
  else
    match getProp h b "name", getProp h b "files", getProp h b "fileSizes" with
    | Some nm, Some fl, Some fsz =>
        if negb (String.eqb (typeof nm) "string") || negb (_isArray h fl) then Normal true
        else if existsb (fun x => negb (String.eqb (typeof x) "string")) (elems h fl)
        then Normal true
        else if negb (String.eqb (typeof fsz) "undefined")
                && (negb (_isArray h fsz)
                    || negb (length (elems h fsz) =? length (elems h fl))%nat)
        then Normal true
        else Normal false
    | _, _, _ => Throw TypeError
    end.

(** [_copyBundle(bundle)]: the copy is a new object with new arrays. *)
Definition _copyBundle (h : list jsobj) (b : jsval) : option (list jsobj * loc) :=
  nm ← getProp h b "name";
  fl ← getProp h b "files";
  '(h1, fl') ← slice h fl;
  let '(h2, copy) := alloc h1 (JObject (<["files" := fl']> {["name" := nm]})) in
  fsz ← getProp h2 b "fileSizes";
  if truthy fsz then
    '(h3, fsz') ← slice h2 fsz;
    Some (setProp h3 copy "fileSizes" fsz', copy)
  else Some (h2, copy).

(** ** Tasks, events and the manager *)

Inductive TaskType := TASK_TYPE_LOAD | TASK_TYPE_REMOVE.

Global Instance TaskType_eq_dec : EqDecision TaskType.
Proof. solve_decision. Defined.

(** Cordova's [FileTransferError]: [http_status] is [None] when the
    transport gives [null]. *)
Record FileTransferError := mkFileTransferError {
  code : Z;
  source : string;
  target : string;
  http_status : option Z
}.

(** The codes of Cordova's FileTransferError. *)
Definition FILE_NOT_FOUND_ERR : Z := 1.
Definition INVALID_URL_ERR : Z := 2.
Definition CONNECTION_ERR : Z := 3.
Definition ABORT_ERR : Z := 4.

(** The three messages [error(errorStr, retry)] is called with, by their
    parts: ["canceled"], ["FileTransferError: " + JSON.stringify(err)] and
    ["Unable to create file for download FileError code: " + err.code]. *)
Inductive ErrorMsg :=
| ErrCanceled
| ErrFileTransfer (err : FileTransferError)
| ErrCreateFile (code : Z).

(** [Task]: [extra] is the removed bundle's record for a Remove task and
    the empty object otherwise; [ft] tells whether [task.ft] is set.
    [attempts] is instrumentation: the number of times [doIt] ran. *)
Record Task := mkTask {
  bundleName : string;
  type : TaskType;
  extra : option loc;
  failed : bool;
  error : option ErrorMsg;
  canceled : bool;
  retry : bool;
  ft : bool;
  attempts : nat
}.

Definition set_failed (v : bool) (t : Task) : Task :=
  mkTask (bundleName t) (type t) (extra t) v (error t) (canceled t) (retry t) (ft t) (attempts t).
Definition set_error (v : option ErrorMsg) (t : Task) : Task :=
  mkTask (bundleName t) (type t) (extra t) (failed t) v (canceled t) (retry t) (ft t) (attempts t).
Definition set_canceled (v : bool) (t : Task) : Task :=
  mkTask (bundleName t) (type t) (extra t) (failed t) (error t) v (retry t) (ft t) (attempts t).
Definition set_retry (v : bool) (t : Task) : Task :=
  mkTask (bundleName t) (type t) (extra t) (failed t) (error t) (canceled t) v (ft t) (attempts t).
Definition set_ft (v : bool) (t : Task) : Task :=
  mkTask (bundleName t) (type t) (extra t) (failed t) (error t) (canceled t) (retry t) v (attempts t).
Definition set_attempts (v : nat) (t : Task) : Task :=
  mkTask (bundleName t) (type t) (extra t) (failed t) (error t) (canceled t) (retry t) (ft t) v.

(** The events; [done] is [None] when the quotient is not a finite number
    (a zero total, or a size hint that is not a number). *)
Inductive Event :=
| BUNDLE_EVENT_LOADING (name : string)
| BUNDLE_EVENT_PROGRESS (name : string) (done : option Q)
| BUNDLE_EVENT_LOADED (name : string)
| BUNDLE_EVENT_ERROR (name : string) (error : ErrorMsg)
| GLOBAL_EVENT_BUSY
| GLOBAL_EVENT_NOTBUSY.

(** [event.name] *)
Definition event_name (e : Event) : option string :=
  match e with
  | BUNDLE_EVENT_LOADING n | BUNDLE_EVENT_PROGRESS n _
  | BUNDLE_EVENT_LOADED n | BUNDLE_EVENT_ERROR n _ => Some n
  | GLOBAL_EVENT_BUSY | GLOBAL_EVENT_NOTBUSY => None
  end.

(** Instrumentation: the task, and its attempt, that an event was sent for. *)
Definition Tag : Type := option (nat * nat).

Inductive Obs :=
| Sent (by_task : Tag) (e : Event)   (* [_sendEvent] was called *)
| Exec (t : nat).                    (* [task.doIt] was called *)

(** The local variables of [_downloadBundle] and of its [loop(index)] that
    the pending callbacks close over.  [lf_tick] is instrumentation: the
    last [loaded / total] the transport reported for the file in flight. *)
Record LoadFrame := mkLoadFrame {
  lf_bundle : loc;
  lf_totalSize : option Z;
  lf_totalDoneSize : option Z;
  lf_index : nat;
  lf_remoteFile : string;
  lf_localName : string;
  lf_tick : Q
}.

(** What the running task waits for. *)
Inductive Phase :=
| LoadProbe (fr : LoadFrame)       (* [getFile(localName, {create: false})] *)
| LoadCreate (fr : LoadFrame)      (* [getFile(localName, {create: true})] *)
| LoadTransfer (fr : LoadFrame)    (* [task.ft.download(...)] *)
| RemoveLookup (bundle : loc) (index : nat) (fileName localFileName : string)
                                   (* [getFile(localFileName, {create: false})] *)
| RemoveDelete (bundle : loc) (index : nat).
                                   (* [fileEntry.remove(next, next)] *)

(** The closure of [onComplete]: the task and the index [i] it was found at. *)
Record Pending := mkPending {
  p_task : nat;
  p_i : nat;
  p_phase : Phase
}.

(** The manager object together with what its closures and collaborators hold:
    - [heap]: the cells of bundle records and arrays;
    - [bundles]: [this.bundles]: name to record;
    - [localURLs]: [this.localURLs]: remote file to local URL;
    - [tasks]: [this.tasks]: the queue, as references into [tstore];
    - [tstore]: the Task objects, by identity;
    - [doingTasks]: [this.doingTasks];
    - [eventQueue]: [this.eventQueue];
    - [eventTimer]: [this.eventTimer != null];
    - [storage]: [localStorage[bundlesKey]], before serialization;
    - [pending]: the callback the running task waits for;
    - [disk]: local file names the program has created and not removed;
    - [trace]: instrumentation: what happened, oldest first;
    - [delivered]: instrumentation: events handed to the listeners.
    The program never reads [disk], [trace] and [delivered]. *)
Record DAM := mkDAM {
  heap : list jsobj;
  bundles : gmap string loc;
  localURLs : gmap string string;
  tasks : list nat;
  tstore : list Task;
  doingTasks : bool;
  eventQueue : list (Tag * Event);
  eventTimer : bool;
  storage : option (gmap string bundle);
  pending : option Pending;
  disk : gset string;
  trace : list Obs;
  delivered : list (Tag * Event)
}.

Definition set_heap (v : list jsobj) (d : DAM) : DAM :=
  {| heap := v; bundles := bundles d; localURLs := localURLs d; tasks := tasks d; tstore := tstore d; doingTasks := doingTasks d; eventQueue := eventQueue d; eventTimer := eventTimer d; storage := storage d; pending := pending d; disk := disk d; trace := trace d; delivered := delivered d |}.
Definition set_bundles (v : gmap string loc) (d : DAM) : DAM :=
  {| heap := heap d; bundles := v; localURLs := localURLs d; tasks := tasks d; tstore := tstore d; doingTasks := doingTasks d; eventQueue := eventQueue d; eventTimer := eventTimer d; storage := storage d; pending := pending d; disk := disk d; trace := trace d; delivered := delivered d |}.
Definition set_localURLs (v : gmap string string) (d : DAM) : DAM :=
  {| heap := heap d; bundles := bundles d; localURLs := v; tasks := tasks d; tstore := tstore d; doingTasks := doingTasks d; eventQueue := eventQueue d; eventTimer := eventTimer d; storage := storage d; pending := pending d; disk := disk d; trace := trace d; delivered := delivered d |}.
Definition set_tasks (v : list nat) (d : DAM) : DAM :=
  {| heap := heap d; bundles := bundles d; localURLs := localURLs d; tasks := v; tstore := tstore d; doingTasks := doingTasks d; eventQueue := eventQueue d; eventTimer := eventTimer d; storage := storage d; pending := pending d; disk := disk d; trace := trace d; delivered := delivered d |}.
Definition set_tstore (v : list Task) (d : DAM) : DAM :=
  {| heap := heap d; bundles := bundles d; localURLs := localURLs d; tasks := tasks d; tstore := v; doingTasks := doingTasks d; eventQueue := eventQueue d; eventTimer := eventTimer d; storage := storage d; pending := pending d; disk := disk d; trace := trace d; delivered := delivered d |}.
Definition set_doingTasks (v : bool) (d : DAM) : DAM :=
  {| heap := heap d; bundles := bundles d; localURLs := localURLs d; tasks := tasks d; tstore := tstore d; doingTasks := v; eventQueue := eventQueue d; eventTimer := eventTimer d; storage := storage d; pending := pending d; disk := disk d; trace := trace d; delivered := delivered d |}.
Definition set_eventQueue (v : list (Tag * Event)) (d : DAM) : DAM :=
  {| heap := heap d; bundles := bundles d; localURLs := localURLs d; tasks := tasks d; tstore := tstore d; doingTasks := doingTasks d; eventQueue := v; eventTimer := eventTimer d; storage := storage d; pending := pending d; disk := disk d; trace := trace d; delivered := delivered d |}.
Definition set_eventTimer (v : bool) (d : DAM) : DAM :=
  {| heap := heap d; bundles := bundles d; localURLs := localURLs d; tasks := tasks d; tstore := tstore d; doingTasks := doingTasks d; eventQueue := eventQueue d; eventTimer := v; storage := storage d; pending := pending d; disk := disk d; trace := trace d; delivered := delivered d |}.
Definition set_storage (v : option (gmap string bundle)) (d : DAM) : DAM :=
  {| heap := heap d; bundles := bundles d; localURLs := localURLs d; tasks := tasks d; tstore := tstore d; doingTasks := doingTasks d; eventQueue := eventQueue d; eventTimer := eventTimer d; storage := v; pending := pending d; disk := disk d; trace := trace d; delivered := delivered d |}.
Definition set_pending (v : option Pending) (d : DAM) : DAM :=
  {| heap := heap d; bundles := bundles d; localURLs := localURLs d; tasks := tasks d; tstore := tstore d; doingTasks := doingTasks d; eventQueue := eventQueue d; eventTimer := eventTimer d; storage := storage d; pending := v; disk := disk d; trace := trace d; delivered := delivered d |}.
Definition set_disk (v : gset string) (d : DAM) : DAM :=
  {| heap := heap d; bundles := bundles d; localURLs := localURLs d; tasks := tasks d; tstore := tstore d; doingTasks := doingTasks d; eventQueue := eventQueue d; eventTimer := eventTimer d; storage := storage d; pending := pending d; disk := v; trace := trace d; delivered := delivered d |}.
Definition set_trace (v : list Obs) (d : DAM) : DAM :=
  {| heap := heap d; bundles := bundles d; localURLs := localURLs d; tasks := tasks d; tstore := tstore d; doingTasks := doingTasks d; eventQueue := eventQueue d; eventTimer := eventTimer d; storage := storage d; pending := pending d; disk := disk d; trace := v; delivered := delivered d |}.
Definition set_delivered (v : list (Tag * Event)) (d : DAM) : DAM :=
  {| heap := heap d; bundles := bundles d; localURLs := localURLs d; tasks := tasks d; tstore := tstore d; doingTasks := doingTasks d; eventQueue := eventQueue d; eventTimer := eventTimer d; storage := storage d; pending := pending d; disk := disk d; trace := trace d; delivered := v |}.

(** ** The event pipeline *)

(** [_sendEvent(manager, event)]: the event is queued and the zero-delay
    timer is armed if it is not. *)
Definition _sendEvent (tag : Tag) (e : Event) (d : DAM) : DAM :=
  set_trace (trace d ++ [Sent tag e])
    (set_eventTimer true (set_eventQueue (eventQueue d ++ [(tag, e)]) d)).

(** The timer callback set by [_sendEvent]: every queued event goes to every
    listener, then the queue is emptied. *)
Definition flushEvents (d : DAM) : DAM :=
  set_eventQueue [] (set_eventTimer false (set_delivered (delivered d ++ eventQueue d) d)).

(** [_purgeEvents(manager, bundleName)] *)
Definition _purgeEvents (bundleName : string) (d : DAM) : DAM :=
  set_eventQueue
    (filter (fun qe : Tag * Event => event_name qe.2 ≠ Some bundleName) (eventQueue d)) d.

(** ** The local cache map *)

(** The names that an object literal inherits from [Object.prototype]. *)
Definition objectPrototype : list string :=
  ["constructor"; "hasOwnProperty"; "isPrototypeOf"; "propertyIsEnumerable";
   "toLocaleString"; "toString"; "valueOf"; "__proto__";
   "__defineGetter__"; "__defineSetter__"; "__lookupGetter__"; "__lookupSetter__"].

(** What [o[k]] gives when [o] is an object used as a map to strings: the
    value of its own property, an inherited value, or [undefined]. *)
Inductive Lookup :=
| Own (v : string)
| Inherited (k : string)
| Undefined.

(** [DAM.prototype.localURL]: [this.localURLs[remoteFile]]. *)
Definition localURL (d : DAM) (remoteFile : string) : Lookup :=
  match localURLs d !! remoteFile with
  | Some url => Own url
  | None => if bool_decide (remoteFile ∈ objectPrototype) then Inherited remoteFile else Undefined
  end.

(** [_addLocalURL(manager, remoteURL, fileEntry)]; [url] is [fileEntry.toURL()].
    The assignment of a string to [__proto__] creates no property. *)
Definition _addLocalURL (remoteURL url : string) (d : DAM) : DAM :=
  match localURLs d !! remoteURL with
  | None =>
      if String.eqb remoteURL "__proto__" then d
      else set_localURLs (<[remoteURL := url]> (localURLs d)) d
  | Some _ => d
  end.

(** [_removeLocalURL(manager, remoteURL)] *)
Definition _removeLocalURL (remoteURL : string) (d : DAM) : DAM :=
  match localURLs d !! remoteURL with
  | Some _ => set_localURLs (delete remoteURL (localURLs d)) d
  | None => d
  end.

(** ** Tasks *)

Definition updTask (f : Task → Task) (t : nat) (d : DAM) : DAM :=
  set_tstore (alter f t (tstore d)) d.

Definition isCanceled (d : DAM) (t : nat) : bool :=
  match tstore d !! t with Some T => canceled T | None => false end.

Definition isFailed (d : DAM) (t : nat) : bool :=
  match tstore d !! t with Some T => failed T | None => false end.

Definition tagOf (t : nat) (d : DAM) : Tag :=
  T ← tstore d !! t; Some (t, attempts T).

(** [Task.prototype.abort]: [this.ft.abort()] only asks the transport to
    stop, which answers later through the failure callback. *)
Definition abort (t : nat) (d : DAM) : DAM :=
  match tstore d !! t with
  | Some T => _purgeEvents (bundleName T) (updTask (set_canceled true) t d)
  | None => d
  end.

Definition sameTask (bname : string) (ty : TaskType) (T : Task) : bool :=
  bool_decide (bundleName T = bname) && bool_decide (type T = ty).

(** [_cancelTask(manager, bundleName, type)] *)
Definition _cancelTask (bname : string) (ty : TaskType) (d : DAM) : DAM :=
  fold_left
    (fun d t =>
       match tstore d !! t with
       | Some T => if sameTask bname ty T then abort t d else d
       | None => d
       end)
    (tasks d) d.

(** The test of the loop in [_maybeAddTask]. *)
Definition liveTask (bname : string) (ty : TaskType) (d : DAM) : bool :=
  existsb
    (fun t =>
       match tstore d !! t with
       | Some T => sameTask bname ty T && negb (canceled T)
       | None => false
       end)
    (tasks d).

(** [new Task(manager, bundleName, type, extra)] *)
Definition newTask (bname : string) (ty : TaskType) (ex : option loc) : Task :=
  mkTask bname ty ex false None false false false 0.

(** ** Arithmetic of the progress events *)

Definition numOf (v : jsval) : option Z :=
  match v with JNum n => Some n | _ => None end.

(** [a += v], inside the numbers. *)
Definition js_add (a : option Z) (v : jsval) : option Z :=
  x ← a; y ← numOf v; Some (x + y).

(** [a / b]: not a finite number when [b] is 0. *)
Definition js_div (a b : option Z) : option Q :=
  x ← a; y ← b;
  if y =? 0 then None else Some (inject_Z x / inject_Z y)%Q.

(** [bundle.fileSizes ? bundle.fileSizes[index] : 1] *)
Definition weight (b : bundle) (index : nat) : jsval :=
  match fileSizes b with
  | Some ss => default JUndefined (ss !! index)
  | None => JNum 1
  end.

(** [(totalDoneSize + (e.loaded / e.total) * weight) / totalSize] *)
Definition tickFraction (totalDone : option Z) (w : jsval) (eloaded etotal : Z)
    (totalSize : option Z) : option Q :=
  x ← totalDone; y ← numOf w; z ← totalSize;
  if (etotal =? 0) || (z =? 0) then None
  else Some ((inject_Z x + (inject_Z eloaded / inject_Z etotal) * inject_Z y) / inject_Z z)%Q.

(** ** The bodies of the tasks *)

Inductive Outcome :=
| Completed                  (* [callback()] was called *)
| Suspended (ph : Phase).    (* an asynchronous request is under way *)

(** [localStorage.setItem(manager.bundlesKey, JSON.stringify(manager.bundles))] *)
Definition persist (d : DAM) : DAM :=
  set_storage (Some (omap (readBundle (heap d)) (bundles d))) d.

(** [error(errorStr, retry)] of [_downloadBundle]. *)
Definition error_ (t : nat) (l : loc) (errorStr : ErrorMsg) (rt : bool) (d : DAM)
    : option (DAM * Outcome) :=
  T ← tstore d !! t;
  let d1 := updTask (fun T => set_retry rt (set_error (Some errorStr) (set_failed true T))) t d in
  if negb rt && negb (canceled T) then
    b ← readBundle (heap d1) l;
    Some (_sendEvent (tagOf t d1) (BUNDLE_EVENT_ERROR (name b) errorStr) d1, Completed)
  else Some (d1, Completed).

(** [loop(index)] of [_downloadBundle], up to the request for the file. *)
Definition download_loop (t : nat) (l : loc) (totalSize totalDone : option Z)
    (index : nat) (d : DAM) : option (DAM * Outcome) :=
  T ← tstore d !! t;
  if canceled T then error_ t l ErrCanceled false d
  else
    b ← readBundle (heap d) l;
    if (index =? length (files b))%nat then
      let d1 := set_heap (setProp (heap d) l "loaded" (JBool true)) d in
      let d2 := persist d1 in
      Some (_sendEvent (tagOf t d2) (BUNDLE_EVENT_LOADED (name b)) d2, Completed)
    else
      remoteFile ← files b !! index;
      Some (d, Suspended (LoadProbe
        (mkLoadFrame l totalSize totalDone index remoteFile (_localFileName remoteFile) 0))).

(** [totalSize] of [_downloadBundle]: the sum of the size hints, or the
    number of files. *)
Definition totalSizeOf (b : bundle) : option Z :=
  match fileSizes b with
  | Some ss => fold_left js_add ss (Some 0)
  | None => Some (Z.of_nat (length (files b)))
  end.

(** [_downloadBundle(task, callback)], up to the first request. *)
Definition _downloadBundle (t : nat) (d : DAM) : option (DAM * Outcome) :=
  T ← tstore d !! t;
  l ← bundles d !! bundleName T;
  b ← readBundle (heap d) l;
  let d1 := _sendEvent (tagOf t d) (BUNDLE_EVENT_LOADING (name b)) d in
  download_loop t l (totalSizeOf b) (Some 0) 0 d1.

(** A file of the bundle was found or has been downloaded: the shared part
    of the two success callbacks. *)
Definition fileDone (t : nat) (fr : LoadFrame) (d : DAM) : option (DAM * Outcome) :=
  T ← tstore d !! t;
  if negb (canceled T) then
    b ← readBundle (heap d) (lf_bundle fr);
    let totalDone := js_add (lf_totalDoneSize fr) (weight b (lf_index fr)) in
    let d1 := _sendEvent (tagOf t d)
                (BUNDLE_EVENT_PROGRESS (name b) (js_div totalDone (lf_totalSize fr))) d in
    download_loop t (lf_bundle fr) (lf_totalSize fr) totalDone (S (lf_index fr)) d1
  else
    download_loop t (lf_bundle fr) (lf_totalSize fr) (lf_totalDoneSize fr) (S (lf_index fr)) d.

(** [task.ft.onprogress] *)
Definition onprogress (t : nat) (fr : LoadFrame) (lengthComputable : bool)
    (eloaded etotal : Z) (d : DAM) : option (DAM * Outcome) :=
  T ← tstore d !! t;
  let fr' := mkLoadFrame (lf_bundle fr) (lf_totalSize fr) (lf_totalDoneSize fr) (lf_index fr)
               (lf_remoteFile fr) (lf_localName fr)
               (if lengthComputable then (inject_Z eloaded / inject_Z etotal)%Q else lf_tick fr) in
  if lengthComputable && negb (canceled T) then
    b ← readBundle (heap d) (lf_bundle fr);
    Some (_sendEvent (tagOf t d)
            (BUNDLE_EVENT_PROGRESS (name b)
               (tickFraction (lf_totalDoneSize fr) (weight b (lf_index fr)) eloaded etotal
                  (lf_totalSize fr))) d,
          Suspended (LoadTransfer fr'))
  else Some (d, Suspended (LoadTransfer fr')).

(** [_downloadSuccess(fileEntry)]; [url] is [fileEntry.toURL()]. *)
Definition _downloadSuccess (t : nat) (fr : LoadFrame) (url : string) (d : DAM)
    : option (DAM * Outcome) :=
  fileDone t fr (_addLocalURL (lf_remoteFile fr) url (updTask (set_ft false) t d)).

(** [!err.http_status || err.http_status == 200] *)
Definition retryable (err : FileTransferError) : bool :=
  match http_status err with
  | None => true
  | Some s => (s =? 0) || (s =? 200)
  end.

(** [_downloadFail(err)] *)
Definition _downloadFail (t : nat) (fr : LoadFrame) (err : FileTransferError) (d : DAM)
    : option (DAM * Outcome) :=
  let d1 := set_disk (disk d ∖ {[lf_localName fr]}) (updTask (set_ft false) t d) in
  if code err =? ABORT_ERR then Some (d1, Completed)
  else error_ t (lf_bundle fr) (ErrFileTransfer err) (retryable err) d1.

(** The scan of [_removeBundleFiles]: does a registered bundle with another
    name list [fileName]? *)
Definition refsFile (h : list jsobj) (fileName : string) (l : loc) : bool :=
  match readBundle h l with
  | Some b => bool_decide (fileName ∈ files b)
  | None => false
  end.

Definition referenced (d : DAM) (bname fileName : string) : bool :=
  bool_decide
    (map_Exists (fun bName l => bName ≠ bname ∧ refsFile (heap d) fileName l = true)
       (bundles d)).

(** [loop(index)] of [_removeBundleFiles] over the files from [index] on:
    the first one that no other bundle lists, if any. *)
Fixpoint remove_scan (d : DAM) (bname : string) (rest : list string) (index : nat)
    : option (nat * string) :=
  match rest with
  | [] => None
  | fileName :: rest' =>
      if referenced d bname fileName then remove_scan d bname rest' (S index)
      else Some (index, fileName)
  end.

Definition remove_loop (t : nat) (l : loc) (index : nat) (d : DAM) : option (DAM * Outcome) :=
  T ← tstore d !! t;
  if canceled T then Some (d, Completed)
  else
    b ← readBundle (heap d) l;
    match remove_scan d (name b) (drop index (files b)) index with
    | None => Some (d, Completed)
    | Some (k, fileName) =>
        Some (d, Suspended (RemoveLookup l k fileName (_localFileName fileName)))
    end.

(** [_removeBundleFiles(task, callback)], up to the first request. *)
Definition _removeBundleFiles (t : nat) (d : DAM) : option (DAM * Outcome) :=
  T ← tstore d !! t;
  l ← extra T;
  remove_loop t l 0 d.

(** The file to delete exists: [fileEntry.remove(next, next)] and
    [_removeLocalURL(manager, fileName)]. *)
Definition removeFound (l : loc) (index : nat) (fileName localFileName : string) (d : DAM)
    : DAM * Outcome :=
  (_removeLocalURL fileName (set_disk (disk d ∖ {[localFileName]}) d),
   Suspended (RemoveDelete l index)).

(** Instrumentation: [doIt] is running on task [t]. *)
Definition noteExec (t : nat) (d : DAM) : DAM :=
  set_trace (trace d ++ [Exec t])
    (updTask (fun T => set_attempts (S (attempts T)) T) t d).

(** [Task.prototype.doIt] *)
Definition doIt (t : nat) (d : DAM) : option (DAM * Outcome) :=
  T ← tstore d !! t;
  match type T with
  | TASK_TYPE_LOAD => _downloadBundle t (noteExec t d)
  | TASK_TYPE_REMOVE => _removeBundleFiles t (noteExec t d)
  end.

(** ** The scheduler *)

(** [manager.tasks.splice(i,1)] *)
Definition splice (i : nat) (d : DAM) : DAM := set_tasks (delete i (tasks d)) d.

(** [onComplete()] of [_doTasks]. *)
Definition onComplete (t i : nat) (d : DAM) : DAM :=
  match tstore d !! t with
  | Some T =>
      if canceled T then d
      else if failed T then (if retry T then d else splice i d)
      else splice i d
  | None => d
  end.

(** The first loop of [loop()]: canceled tasks leave the queue. *)
Definition strip (d : DAM) : DAM :=
  set_tasks (filter (fun t => isCanceled d t = false) (tasks d)) d.

(** The second loop of [loop()]: the first task that has not failed, with
    its index. *)
Definition select (d : DAM) : option (nat * nat) :=
  list_find (fun t => isFailed d t = false) (tasks d).

Definition markIdle (d : DAM) : DAM :=
  if doingTasks d then _sendEvent None GLOBAL_EVENT_NOTBUSY (set_doingTasks false d) else d.

Definition markBusy (d : DAM) : DAM :=
  if doingTasks d then d else _sendEvent None GLOBAL_EVENT_BUSY (set_doingTasks true d).

(** [task.doIt(onComplete)] for the task found at index [i]: the body runs
    until it calls back ([true]) or waits for an answer, which is then
    pending ([false]). *)
Definition start (t i : nat) (d : DAM) : option (DAM * bool) :=
  '(d1, out) ← doIt t d;
  match out with
  | Suspended ph => Some (set_pending (Some (mkPending t i ph)) d1, false)
  | Completed => Some (d1, true)
  end.

(** [loop()] of [_doTasks].  A task that completes before [doIt] returns
    calls [onComplete], and through it [loop], at once; [fuel] bounds that
    recursion. *)
Fixpoint loop (fuel : nat) (d : DAM) : option DAM :=
  match fuel with
  | O => None
  | S fuel' =>
      let d1 := strip d in
      match select d1 with
      | None => Some (markIdle d1)
      | Some (i, t) =>
          match start t i (markBusy d1) with
          | Some (d2, true) => loop fuel' (onComplete t i d2)
          | Some (d2, false) => Some d2
          | None => None
          end
      end
  end.

(** Every pass of [loop] that does not return removes a task. *)
Definition drain (d : DAM) : option DAM := loop (S (length (tasks d))) d.

(** [_doTasks(manager)] *)
Definition _doTasks (d : DAM) : option DAM :=
  if doingTasks d then Some d else drain d.

Definition pushTask (T : Task) (d : DAM) : DAM :=
  set_tasks (tasks d ++ [length (tstore d)]) (set_tstore (tstore d ++ [T]) d).

(** [_maybeAddTask(manager, bundleName, type, extra)] *)
Definition _maybeAddTask (bname : string) (ty : TaskType) (ex : option loc) (d : DAM)
    : option DAM :=
  if liveTask bname ty d then Some d
  else _doTasks (pushTask (newTask bname ty ex) d).

(** [kickStartTasks()] of [init], run by the retry interval. *)
Definition rearm (T : Task) : Task :=
  if negb (canceled T) && failed T && retry T
  then set_retry false (set_failed false T) else T.

Definition rearmAll (d : DAM) : DAM :=
  fold_left (fun d t => updTask rearm t d) (tasks d) d.

Definition kickStartTasks (d : DAM) : option DAM := _doTasks (rearmAll d).

(** ** The client interface *)

Definition MalformedBundle : exn := ExnString "Malformed bundle passed to addBundle".

(** [this.bundles[bundleName] = copy] and the write to [localStorage]. *)
Definition register (bname : string) (copy : loc) (h : list jsobj) (d : DAM) : DAM :=
  persist (set_bundles (<[bname := copy]> (bundles d)) (set_heap h d)).

(** [delete this.bundles[bundleName]] and the write to [localStorage]. *)
Definition unregister (bname : string) (d : DAM) : DAM :=
  persist (set_bundles (delete bname (bundles d)) d).

(** [DAM.prototype.addBundle] *)
Definition addBundle (v : jsval) (d : DAM) : option (completion unit * DAM) :=
  match _malformedBundle (heap d) v with
  | Throw e => Some (Throw e, d)
  | Normal true => Some (Throw MalformedBundle, d)
  | Normal false =>
      nm ← getProp (heap d) v "name";
      bname ← asStr nm;
      match bundles d !! bname with
      | Some _ => Some (Normal (), d)
      | None =>
          if String.eqb bname "__proto__" then None else
          '(h, copy) ← _copyBundle (heap d) v;
          let d1 := register bname copy (setProp h copy "loaded" (JBool false)) d in
          let d2 := _cancelTask bname TASK_TYPE_REMOVE d1 in
          d3 ← _maybeAddTask bname TASK_TYPE_LOAD None d2;
          Some (Normal (), d3)
      end
  end.

(** [DAM.prototype.removeBundle] *)
Definition removeBundle (bname : string) (d : DAM) : option DAM :=
  match bundles d !! bname with
  | Some removedBundle =>
      let d1 := unregister bname d in
      let d2 := _cancelTask bname TASK_TYPE_LOAD d1 in
      _maybeAddTask bname TASK_TYPE_REMOVE (Some removedBundle) d2
  | None => Some d
  end.

(** [DAM.prototype.getBundle] *)
Definition getBundle (bname : string) (d : DAM) : option (jsval * DAM) :=
  match bundles d !! bname with
  | Some l => '(h, copy) ← _copyBundle (heap d) (JRef l); Some (JRef copy, set_heap h d)
  | None => Some (JUndefined, d)
  end.

(** [DAM.prototype.bundleAdded] *)
Definition bundleAdded (bname : string) (d : DAM) : bool :=
  bool_decide (is_Some (bundles d !! bname)).

(** [DAM.prototype.bundleLoaded] *)
Definition bundleLoaded (bname : string) (d : DAM) : option jsval :=
  match bundles d !! bname with
  | Some l => getProp (heap d) (JRef l) "loaded"
  | None => Some (JBool false)
  end.

(** ** The environment *)

(** The answers of the file system and of the transport. *)
Inductive Reply :=
| FileFound (url : string)          (* [getFile] succeeded *)
| FileMissing                       (* [getFile(.., {create: false})] failed *)
| FileCreateFailed (code : Z)       (* [getFile(.., {create: true})] failed *)
| FileRemoved                       (* either callback of [fileEntry.remove] *)
| TransferProgress (lengthComputable : bool) (eloaded etotal : Z)
| TransferSuccess (url : string)
| TransferFail (err : FileTransferError).

(** The pending callback runs, up to the next request or to [callback()]. *)
Definition callback (t : nat) (ph : Phase) (r : Reply) (d : DAM) : option (DAM * Outcome) :=
  match ph, r with
  | LoadProbe fr, FileFound _ => fileDone t fr d
  | LoadProbe fr, FileMissing => Some (d, Suspended (LoadCreate fr))
  | LoadCreate fr, FileFound _ =>
      Some (set_disk (disk d ∪ {[lf_localName fr]}) (updTask (set_ft true) t d),
            Suspended (LoadTransfer fr))
  | LoadCreate fr, FileCreateFailed c => error_ t (lf_bundle fr) (ErrCreateFile c) false d
  | LoadTransfer fr, TransferProgress lc el et => onprogress t fr lc el et d
  | LoadTransfer fr, TransferSuccess url => _downloadSuccess t fr url d
  | LoadTransfer fr, TransferFail err => _downloadFail t fr err d
  | RemoveLookup l index fileName localFileName, FileFound _ =>
      Some (removeFound l index fileName localFileName d)
  | RemoveLookup l index _ _, FileMissing => remove_loop t l (S index) d
  | RemoveDelete l index, FileRemoved => remove_loop t l (S index) d
  | _, _ => None
  end.

(** The answer to the pending request arrives: [true] when the task body
    has called [callback()], [false] when it waits again. *)
Definition answer (r : Reply) (d : DAM) : option (DAM * bool) :=
  p ← pending d;
  '(d1, out) ← callback (p_task p) (p_phase p) r d;
  match out with
  | Suspended ph => Some (set_pending (Some (mkPending (p_task p) (p_i p) ph)) d1, false)
  | Completed => Some (set_pending None d1, true)
  end.

(** After [callback()], [onComplete] and [loop] follow. *)
Definition resume (r : Reply) (d : DAM) : option DAM :=
  p ← pending d;
  match answer r d with
  | Some (d1, true) => drain (onComplete (p_task p) (p_i p) d1)
  | Some (d1, false) => Some d1
  | None => None
  end.

(** What can happen to the manager: a call of the client, a timer, or an
    answer to the pending request.  The client allocates the objects of
    its bundle, [objs], before it calls [addBundle]. *)
Inductive Input :=
| CallAddBundle (objs : list jsobj) (v : jsval)
| CallRemoveBundle (bname : string)
| CallGetBundle (bname : string)
| EventTimer
| RetryTimer
| Answer (r : Reply).

Definition step (i : Input) (d : DAM) : option DAM :=
  match i with
  | CallAddBundle objs v => snd <$> addBundle v (set_heap (heap d ++ objs) d)
  | CallRemoveBundle bname => removeBundle bname d
  | CallGetBundle bname => snd <$> getBundle bname d
  | EventTimer => if eventTimer d then Some (flushEvents d) else None
  | RetryTimer => kickStartTasks d
  | Answer r => resume r d
  end.

(** [new DAM(baseDir)] after [init] found nothing in [localStorage]. *)
Definition newDAM : DAM :=
  mkDAM [] ∅ ∅ [] [] false [] false None None ∅ [] [].

Fixpoint run (ins : list Input) (d : DAM) : option DAM :=
  match ins with
  | [] => Some d
  | i :: ins' => d' ← step i d; run ins' d'
  end.

Inductive reachable : DAM → Prop :=
| reachable_new : reachable newDAM
| reachable_step i d d' : reachable d → step i d = Some d' → reachable d'.

(** ** The file extension, in the words of the specification *)

(** The part of [s] from its last ['.'] on, when [s] has one. *)
Fixpoint fromLastDot (s : string) : option string :=
  match s with
  | EmptyString => None
  | String c s' =>
      match fromLastDot s' with
      | Some e => Some e
      | None => if Ascii.eqb c "."%char then Some s else None
      end
  end.

(** The extension that is kept: the part from the last ['.'] on, unless
    that ['.'] is the first or the last character. *)
Definition extension (uri : string) : string :=
  match fromLastDot uri with
  | Some e => if String.eqb e uri || String.eqb e "." then EmptyString else e
  | None => EmptyString
  end.

Definition hexdigits (s : string) : Prop :=
  Forall (fun c => In c (list_ascii_of_string Sha1.B)) (list_ascii_of_string s).

(** ** Well-formed bundles, in the words of the specification

    "name is a string, files is a sequence of strings, fileSizes absent or
    length-matched". *)

Definition nameIsString (h : list jsobj) (v : jsval) : Prop :=
  ∃ s, getProp h v "name" = Some (JStr s).

Definition filesAreStrings (h : list jsobj) (v : jsval) : Prop :=
  ∃ fl, getProp h v "files" = Some fl ∧ _isArray h fl = true
        ∧ Forall (fun x => ∃ s, x = JStr s) (elems h fl).

(** [fileSizes] is present and its [length] is not that of [files]. *)
Definition sizesMismatch (h : list jsobj) (v : jsval) : Prop :=
  ∃ fsz fl, getProp h v "fileSizes" = Some fsz ∧ fsz ≠ JUndefined
            ∧ getProp h v "files" = Some fl
            ∧ getProp h fsz "length" ≠ getProp h fl "length".

Definition malformed (h : list jsobj) (v : jsval) : Prop :=
  ¬ nameIsString h v ∨ ¬ filesAreStrings h v ∨ sizesMismatch h v.

(** [fileSizes] is absent, or an array as long as [files]. *)
Definition sizesMatch (h : list jsobj) (v : jsval) : Prop :=
  ∃ fsz fl, getProp h v "fileSizes" = Some fsz ∧ getProp h v "files" = Some fl
            ∧ (fsz = JUndefined
               ∨ (_isArray h fsz = true ∧ length (elems h fsz) = length (elems h fl))).

Definition wellFormed (h : list jsobj) (v : jsval) : Prop :=
  nameIsString h v ∧ filesAreStrings h v ∧ sizesMatch h v.

(** ** Footprints

    What the pieces of the program may change, stated once and used by
    every invariant below. *)

(** A change of a task that keeps what identifies it. *)
Definition flagsOnly (g : Task → Task) : Prop :=
  ∀ T, bundleName (g T) = bundleName T ∧ type (g T) = type T ∧ extra (g T) = extra T
       ∧ canceled (g T) = canceled T ∧ attempts (g T) = attempts T.

(** The records that can be read in [h] can be read in [h'], with the same
    name, files and sizes. *)
Definition heap_le (h h' : list jsobj) : Prop :=
  ∀ l b, readBundle h l = Some b →
    ∃ b', readBundle h' l = Some b' ∧ name b' = name b ∧ files b' = files b
          ∧ fileSizes b' = fileSizes b.

(** The footprint of the body of task [t], between two requests. *)
Record body_fp (t : nat) (d d' : DAM) : Prop := mk_body_fp {
  bf_tasks : tasks d' = tasks d;
  bf_doing : doingTasks d' = doingTasks d;
  bf_bundles : bundles d' = bundles d;
  bf_pending : pending d' = pending d;
  bf_delivered : delivered d' = delivered d;
  bf_tstore : ∃ g, flagsOnly g ∧ tstore d' = alter g t (tstore d);
  bf_trace : ∃ evs, Forall (fun e => is_Some (event_name e)) evs
                    ∧ trace d' = trace d ++ map (Sent (tagOf t d)) evs
                    ∧ eventQueue d' = eventQueue d ++ map (pair (tagOf t d)) evs;
  bf_heap : heap_le (heap d) (heap d')
}.

(** ** Invariants of the scheduler *)

(** The references in the queue name Task objects. *)
Definition ids_ok (d : DAM) : Prop :=
  ∀ t, t ∈ tasks d → (t < length (tstore d))%nat.

(** The (bundle, type) of a queued task that is not canceled. *)
Definition liveKey (d : DAM) (t : nat) : option (string * TaskType) :=
  T ← tstore d !! t;
  if canceled T then None else Some (bundleName T, type T).

Definition liveKeys (d : DAM) : list (string * TaskType) := omap (liveKey d) (tasks d).

(** At most one live task for a (bundle, type): two places of the queue
    that hold live tasks with the same bundle and type are one place. *)
Definition unique_live (d : DAM) : Prop :=
  ∀ i j ti tj Ti Tj,
    tasks d !! i = Some ti → tasks d !! j = Some tj →
    tstore d !! ti = Some Ti → tstore d !! tj = Some Tj →
    canceled Ti = false → canceled Tj = false →
    bundleName Ti = bundleName Tj → type Ti = type Tj →
    i = j.

(** Reading the trace from the start with the busy flag: a busy event
    must find the flag down and raises it, a not-busy event must find it
    up and lowers it, and a task may only run while it is up. *)
Fixpoint busy_scan (busy : bool) (tr : list Obs) : option bool :=
  match tr with
  | [] => Some busy
  | Sent _ GLOBAL_EVENT_BUSY :: tr' => if busy then None else busy_scan true tr'
  | Sent _ GLOBAL_EVENT_NOTBUSY :: tr' => if busy then busy_scan false tr' else None
  | Sent _ _ :: tr' => busy_scan busy tr'
  | Exec _ :: tr' => if busy then busy_scan busy tr' else None
  end.

Definition busy_ok (d : DAM) : Prop := busy_scan false (trace d) = Some (doingTasks d).

(** Between two of its steps the manager is busy exactly when a task waits
    for an answer, and when it is not busy no queued task can run. *)
Record quiescent (d : DAM) : Prop := mk_quiescent {
  q_pending : doingTasks d = true ↔ is_Some (pending d);
  q_idle : doingTasks d = false → ∀ t, t ∈ tasks d → isCanceled d t = true ∨ isFailed d t = true;
  q_ids : ids_ok d
}.

(** What the trace, the queue of events and the pending request say about
    a task presupposes that the task has run. *)
Record tags_ok (d : DAM) : Prop := mk_tags_ok {
  tg_exec : ∀ t, Exec t ∈ trace d → ∃ T, tstore d !! t = Some T ∧ (1 ≤ attempts T)%nat;
  tg_sent : ∀ t k e, Sent (Some (t, k)) e ∈ trace d →
                     ∃ T, tstore d !! t = Some T ∧ (1 ≤ k ≤ attempts T)%nat;
  tg_queue : ∀ q, q ∈ eventQueue d ++ delivered d → Sent q.1 q.2 ∈ trace d;
  tg_pending : ∀ p, pending d = Some p →
                    ∃ T, tstore d !! p_task p = Some T ∧ (1 ≤ attempts T)%nat
}.

(** How the Task objects change: none disappears, a task keeps its bundle,
    type and payload, stays canceled once canceled, and does not run once
    canceled. *)
Definition task_mono (d d' : DAM) : Prop :=
  ∀ t T, tstore d !! t = Some T →
    ∃ T', tstore d' !! t = Some T' ∧ bundleName T' = bundleName T ∧ type T' = type T
          ∧ extra T' = extra T ∧ (canceled T = true → canceled T' = true)
          ∧ (attempts T ≤ attempts T')%nat
          ∧ (canceled T = true → attempts T' = attempts T).

(** The size hints of a record have the length of its file list. *)
Definition sizes_ok (b : bundle) : Prop :=
  ∀ ss, fileSizes b = Some ss → length ss = length (files b).

(** Every registered record can be read, under its own name. *)
Definition registry_ok (P : bundle → Prop) (d : DAM) : Prop :=
  ∀ n l, bundles d !! n = Some l →
    ∃ b, readBundle (heap d) l = Some b ∧ name b = n ∧ sizes_ok b ∧ P b.

(** ** The steps of the program, one piece at a time

    Every step of the manager is a sequence of the pieces below.  The
    pieces are stated over an assumption [bundle_ok] on the records that
    get registered and an assumption [reply_ok] on the answers of the
    environment, so that what is proved of the pieces holds of the runs
    whose inputs meet the assumptions. *)

Section Pieces.

Variable bundle_ok : bundle → Prop.
Variable reply_ok : DAM → Reply → Prop.

Inductive piece : DAM → DAM → Prop :=
| piece_heap d h :
    heap_le (heap d) h → piece d (set_heap h d)
| piece_register d bname copy h b :
    heap_le (heap d) h → bundles d !! bname = None →
    readBundle h copy = Some b → name b = bname → sizes_ok b → bundle_ok b →
    piece d (register bname copy h d)
| piece_unregister d bname :
    piece d (unregister bname d)
| piece_abort d t :
    piece d (abort t d)
| piece_push d bname ty ex :
    liveTask bname ty d = false → piece d (pushTask (newTask bname ty ex) d)
| piece_rearm d t :
    piece d (updTask rearm t d)
| piece_strip d :
    pending d = None → piece d (strip d)
| piece_busy d :
    pending d = None → piece d (markBusy d)
| piece_idle d :
    pending d = None → select d = None → piece d (markIdle d)
| piece_start d t i d' c :
    pending d = None → doingTasks d = true →
    select d = Some (i, t) → isCanceled d t = false →
    start t i d = Some (d', c) → piece d d'
| piece_answer d r d' c :
    reply_ok d r → answer r d = Some (d', c) → piece d d'
| piece_complete d t i :
    pending d = None → piece d (onComplete t i d)
| piece_flush d :
    piece d (flushEvents d).

(** The inputs that meet the assumptions. *)
Definition input_ok (d : DAM) (i : Input) : Prop :=
  match i with
  | CallAddBundle objs v =>
      ∀ h copy b, _copyBundle (heap d ++ objs) v = Some (h, copy) →
                  readBundle (setProp h copy "loaded" (JBool false)) copy = Some b →
                  bundle_ok b
  | Answer r => reply_ok d r
  | _ => True
  end.

End Pieces.

(** A change of a task that keeps its bundle, its type and whether it is
    canceled. *)
Definition keyOnly (g : Task → Task) : Prop :=
  ∀ T, bundleName (g T) = bundleName T ∧ type (g T) = type T ∧ extra (g T) = extra T
       ∧ canceled (g T) = canceled T.

(** The events of a trace, and those of them that are global. *)
Definition sentEvents (tr : list Obs) : list Event :=
  omap (fun o => match o with Sent _ e => Some e | Exec _ => None end) tr.

Definition globals (es : list Event) : list Event :=
  filter (fun e => event_name e = None) es.

(** The flag follows the busy and not-busy events, and the listeners are
    given, or will be given, the global events in the order they were sent. *)
Definition busy_inv (d : DAM) : Prop :=
  busy_ok d ∧ globals (delivered d ++ eventQueue d).*2 = globals (sentEvents (trace d)).

(** Every lifecycle event of the trace is attributed to a task: the events
    sent for no task are the global ones. *)
Definition attributed (d : DAM) : Prop :=
  ∀ e, Sent None e ∈ trace d → event_name e = None.

(** ** The progress of a Load task

    The events sent for one run of a task, and what can be read off them. *)

Definition eventsOf (tag : nat * nat) (tr : list Obs) : list Event :=
  omap (fun o => match o with
                 | Sent (Some tg) e => if bool_decide (tg = tag) then Some e else None
                 | _ => None
                 end) tr.

(** Reading the events of one run of a task: the run is open, with the
    last fraction it reported if it reported one ([any]), or closed by a
    loaded or an error event. *)
Inductive AttemptLog :=
| Open (any : bool) (last : Q)
| Closed.

(** A progress event must carry a fraction that is not below the last one
    and not above 1; a loaded event must come when no fraction was
    reported or the last one is 1; nothing comes after a loaded or an
    error event. *)
Definition attempt_step (st : AttemptLog) (e : Event) : option AttemptLog :=
  match st, e with
  | Open _ _, BUNDLE_EVENT_LOADING _ => Some st
  | Open _ last, BUNDLE_EVENT_PROGRESS _ (Some q) =>
      if Qle_bool last q && Qle_bool q 1 then Some (Open true q) else None
  | Open any last, BUNDLE_EVENT_LOADED _ =>
      if negb any || Qle_bool 1 last then Some Closed else None
  | Open _ _, BUNDLE_EVENT_ERROR _ _ => Some Closed
  | _, _ => None
  end.

Definition attempt_scan (st : AttemptLog) (es : list Event) : option AttemptLog :=
  fold_left (fun acc e => acc ≫= fun st => attempt_step st e) es (Some st).

(** The run of a task as its events tell it, from the start. *)
Definition attemptOf (tag : nat * nat) (d : DAM) : option AttemptLog :=
  attempt_scan (Open false 0) (eventsOf tag (trace d)).

Definition sumZ (ws : list Z) : Z := foldr Z.add 0 ws.

(** The weights of the files of a record: its size hints, or 1 for each
    file. *)
Definition hintsOf (b : bundle) : list jsval :=
  match fileSizes b with
  | Some ss => ss
  | None => replicate (length (files b)) (JNum 1)
  end.

(** The assumption on the records: the weights are numbers, none of them
    negative, and not all of them 0. *)
Definition hints_ok (b : bundle) : Prop :=
  ∃ ws, hintsOf b = JNum <$> ws ∧ Forall (fun w => 0 <= w) ws ∧ (ws = [] ∨ 0 < sumZ ws).

(** The assumption on the transport: a progress tick with a computable
    length reports a part of the whole, and not less than the tick before
    it for the same file. *)
Definition tick_ok (d : DAM) (r : Reply) : Prop :=
  match r with
  | TransferProgress true el et =>
      0 <= el <= et ∧ 0 < et
      ∧ ∀ p fr, pending d = Some p → p_phase p = LoadTransfer fr →
                (lf_tick fr <= inject_Z el / inject_Z et)%Q
  | _ => True
  end.

(** The inputs of a run meet the two assumptions. *)
Fixpoint inputs_ok (ins : list Input) (d : DAM) : Prop :=
  match ins with
  | [] => True
  | i :: ins' => input_ok hints_ok tick_ok d i ∧ ∀ d', step i d = Some d' → inputs_ok ins' d'
  end.

(** The frame of a phase of a Load task. *)
Definition loadFrame (ph : Phase) : option LoadFrame :=
  match ph with
  | LoadProbe fr | LoadCreate fr | LoadTransfer fr => Some fr
  | RemoveLookup _ _ _ _ | RemoveDelete _ _ => None
  end.

(** What the frame of the running Load task [t] holds: the totals are those
    of the weights of the record, the index is that of a file, and the
    last fraction reported is not above what the frame stands for. *)
Definition frame_ok (d : DAM) (t : nat) (fr : LoadFrame) : Prop :=
  ∃ T b ws any last w,
    tstore d !! t = Some T
    ∧ readBundle (heap d) (lf_bundle fr) = Some b
    ∧ hintsOf b = JNum <$> ws ∧ length ws = length (files b)
    ∧ Forall (fun w => 0 <= w) ws ∧ 0 < sumZ ws
    ∧ ws !! lf_index fr = Some w
    ∧ lf_totalSize fr = Some (sumZ ws)
    ∧ lf_totalDoneSize fr = Some (sumZ (take (lf_index fr) ws))
    ∧ (0 <= lf_tick fr <= 1)%Q
    ∧ attemptOf (t, attempts T) d = Some (Open any last)
    ∧ (last <= (inject_Z (sumZ (take (lf_index fr) ws)) + lf_tick fr * inject_Z w)
               / inject_Z (sumZ ws))%Q.

(** The invariant of the progress events. *)
Record prog_inv (d : DAM) : Prop := mk_prog_inv {
  pi_tags : tags_ok d;
  pi_registry : registry_ok hints_ok d;
  pi_attempts : ∀ tag, is_Some (attemptOf tag d);
  pi_frame : ∀ p fr, pending d = Some p → loadFrame (p_phase p) = Some fr →
                     frame_ok d (p_task p) fr
}.

(** What a piece of the body of task [t], in its run [k], does to the
    progress: the events of the run still read well, the events of the
    other runs are as before, and the frame of the request it ends with
    is in order. *)
Definition body_prog (t k : nat) (d d' : DAM) (out : Outcome) : Prop :=
  is_Some (attemptOf (t, k) d')
  ∧ (∀ tag, tag ≠ (t, k) → eventsOf tag (trace d') = eventsOf tag (trace d))
  ∧ (∀ ph fr, out = Suspended ph → loadFrame ph = Some fr → frame_ok d' t fr).

(** The two assumptions can be checked along a run. *)
Definition hints_okb (b : bundle) : bool :=
  match mapM numOf (hintsOf b) with
  | Some ws => forallb (fun w => 0 <=? w) ws && (bool_decide (ws = []) || (0 <? sumZ ws))
  | None => false
  end.

Definition tick_okb (d : DAM) (r : Reply) : bool :=
  match r with
  | TransferProgress true el et =>
      (0 <=? el) && (el <=? et) && (0 <? et)
      && match pending d with
         | Some p =>
             match p_phase p with
             | LoadTransfer fr => Qle_bool (lf_tick fr) (inject_Z el / inject_Z et)
             | _ => true
             end
         | None => true
         end
  | _ => true
  end.

Definition input_okb (d : DAM) (i : Input) : bool :=
  match i with
  | CallAddBundle objs v =>
      match _copyBundle (heap d ++ objs) v with
      | Some (h, copy) =>
          match readBundle (setProp h copy "loaded" (JBool false)) copy with
          | Some b => hints_okb b
          | None => true
          end
      | None => true
      end
  | Answer r => tick_okb d r
  | _ => true
  end.

Fixpoint inputs_okb (ins : list Input) (d : DAM) : bool :=
  match ins with
  | [] => true
  | i :: ins' =>
      input_okb d i
      && match step i d with
         | Some d' => inputs_okb ins' d'
         | None => true
         end
  end.

(** The fractions of the progress events of a bundle, of whatever run. *)
Definition progressOfBundle (n : string) (tr : list Obs) : list (option Q) :=
  omap (fun o => match o with
                 | Sent _ (BUNDLE_EVENT_PROGRESS n' q) => if String.eqb n' n then Some q else None
                 | _ => None
                 end) tr.

(** ** What the scheduler needs to run a task, and what it does to the heap *)

(** The only write of the scheduler to the cells of the heap is
    [bundle.loaded = true]. *)
Definition cells_le (h h' : list jsobj) : Prop :=
  length h' = length h
  ∧ ∀ l, h' !! l = h !! l
         ∨ ∃ ps, h !! l = Some (JObject ps)
                 ∧ h' !! l = Some (JObject (<["loaded" := JBool true]> ps)).

(** The body of task [t] finds what it reads first: the record of its
    bundle, registered for a Load task and carried by a Remove task. *)
Definition runnable (d : DAM) (t : nat) : Prop :=
  ∃ T, tstore d !! t = Some T
       ∧ match type T with
         | TASK_TYPE_LOAD =>
             ∃ l b, bundles d !! bundleName T = Some l ∧ readBundle (heap d) l = Some b
         | TASK_TYPE_REMOVE =>
             ∃ l b, extra T = Some l ∧ readBundle (heap d) l = Some b
         end.

(** The tasks that the scheduler may still choose. *)
Definition candidate (d : DAM) (t : nat) : Prop :=
  isCanceled d t = false ∧ isFailed d t = false.

Definition candidates (d : DAM) : list nat := filter (candidate d) (tasks d).

Definition candidates_ok (d : DAM) : Prop := ∀ t, t ∈ candidates d → runnable d t.

(** ** Auxiliary definitions of the proofs *)

(** A record with its [loaded] flag replaced. *)
Definition set_loaded (v : option bool) (b : bundle) : bundle :=
  Bundle (name b) (files b) (fileSizes b) v.

(** The cells [_copyBundle] allocates for a well-formed bundle. *)
Definition copyCells (h : list jsobj) (nm fl fsz : jsval) : list jsobj :=
  let n := length h in
  if truthy fsz then
    [JArray (elems h fl);
     JObject (<["fileSizes" := JRef (S (S n))]> (<["files" := JRef n]> {["name" := nm]}));
     JArray (elems h fsz)]
  else
    [JArray (elems h fl); JObject (<["files" := JRef n]> {["name" := nm]})].

(** [_cancelTask] over the tasks it has still to visit. *)
Definition cancelFold (bname : string) (ty : TaskType) (ts : list nat) (d : DAM) : DAM :=
  fold_left
    (fun d t =>
       match tstore d !! t with
       | Some T => if sameTask bname ty T then abort t d else d
       | None => d
       end) ts d.

(** [rearmAll] over the tasks it has still to visit. *)
Definition rearmFold (ts : list nat) (d : DAM) : DAM :=
  fold_left (fun d t => updTask rearm t d) ts d.

(** The queue names Task objects and no (bundle, type) is live twice. *)
Definition live_inv (d : DAM) : Prop := ids_ok d ∧ NoDup (liveKeys d).

(** The bundle of the specification's example: [files = ["a"]] with
    [fileSizes = ["x", "y"]]. *)
Definition mismatch_objs : list jsobj :=
  [JArray [JStr "a"]; JArray [JStr "x"; JStr "y"];
   JObject (<["fileSizes" := JRef 1%nat]> (<["files" := JRef 0%nat]> {["name" := JStr "b"]}))].

(** ** An example run

    A client adds the bundle [b1], adds [b2] while [b1] is loading, and
    removes [b2] before its Load task has run.  The cached file of [b1] is
    missing, is downloaded with one progress tick, and the Remove task of
    [b2] finds nothing to delete. *)

(** The cells a client allocates for a bundle without size hints, the
    array of files at [base] and the record after it. *)
Definition bundleCells (base : nat) (nm : string) (fs : list string) : list jsobj :=
  [JArray (JStr <$> fs); JObject (<["files" := JRef base]> {["name" := JStr nm]})].

Definition ex_calls : list Input :=
  [CallAddBundle (bundleCells 0 "b1" ["http://h/a.png"]) (JRef 1%nat);
   CallAddBundle (bundleCells 4 "b2" ["http://h/c.png"]) (JRef 5%nat);
   CallRemoveBundle "b2"].

Definition ex_answers : list Input :=
  [Answer FileMissing;
   Answer (FileFound "cdvfile://localhost/persistent/a");
   Answer (TransferProgress true 50 100);
   Answer (TransferSuccess "cdvfile://localhost/persistent/a");
   Answer FileMissing;
   EventTimer].

(** The manager after the three calls, and at the end of the run. *)
Definition ex_mid : DAM := default newDAM (run ex_calls newDAM).
Definition ex_end : DAM := default newDAM (run ex_answers ex_mid).

(** ** Two bundles that share a file

    [b1] is downloaded, [b2] finds the file of [b1] cached, and [b1] is
    removed; then [b2] is removed as well. *)
Definition ex_shared : list Input :=
  [CallAddBundle (bundleCells 0 "b1" ["http://h/a.png"]) (JRef 1%nat);
   Answer FileMissing;
   Answer (FileFound "cdvfile://localhost/persistent/a");
   Answer (TransferSuccess "cdvfile://localhost/persistent/a");
   CallAddBundle (bundleCells 4 "b2" ["http://h/a.png"]) (JRef 5%nat);
   Answer (FileFound "cdvfile://localhost/persistent/a");
   CallRemoveBundle "b1"].

Definition ex_unshared : list Input :=
  [CallRemoveBundle "b2";
   Answer (FileFound "cdvfile://localhost/persistent/a");
   Answer FileRemoved].

(** ** A download that fails

    The cached file of [b1] is missing and the file for the download has
    been created: the transfer is under way. *)
Definition ex_load : list Input :=
  [CallAddBundle (bundleCells 0 "b1" ["http://h/a.png"]) (JRef 1%nat);
   Answer FileMissing;
   Answer (FileFound "cdvfile://localhost/persistent/a")].

Definition ex_transfer : DAM := default newDAM (run ex_load newDAM).

(** The server answers 404. *)
Definition err404 : FileTransferError :=
  mkFileTransferError FILE_NOT_FOUND_ERR "http://h/a.png" "/a" (Some 404).

(** The error that [FileTransferWrapper] makes when its timeout fires. *)
Definition errTimeout : FileTransferError :=
  mkFileTransferError CONNECTION_ERR "http://h/a.png" "/a" None.

(** The frame of the loop of the Load task of [b1] at its one file. *)
Definition ex_frame : LoadFrame :=
  mkLoadFrame 3 (Some 1) (Some 0) 0 "http://h/a.png" (_localFileName "http://h/a.png") 0.

(** ** A download that is retried, and size hints that are not sizes

    The first file of [b1] is cached; the transfer of the second reports
    half of it and then times out.  The retry cycle runs the task again,
    which finds the first file again. *)
Definition ex_retry : list Input :=
  [CallAddBundle (bundleCells 0 "b1" ["http://h/a.png"; "http://h/b.png"]) (JRef 1%nat);
   Answer (FileFound "cdvfile://localhost/persistent/a");
   Answer FileMissing;
   Answer (FileFound "cdvfile://localhost/persistent/b");
   Answer (TransferProgress true 50 100);
   Answer (TransferFail errTimeout);
   RetryTimer;
   Answer (FileFound "cdvfile://localhost/persistent/a")].

(** The cells of a client's bundle with size hints: the files at [base],
    the hints after them, then the record. *)
Definition sizedBundleCells (base : nat) (nm : string) (fs : list string) (ss : list jsval)
    : list jsobj :=
  [JArray (JStr <$> fs); JArray ss;
   JObject (<["fileSizes" := JRef (S base)]> (<["files" := JRef base]> {["name" := JStr nm]}))].

(** A bundle whose hints are 2 and -1, and whose first file is cached. *)
Definition ex_negative : list Input :=
  [CallAddBundle
     (sizedBundleCells 0 "b1" ["http://h/a.png"; "http://h/b.png"] [JNum 2; JNum (-1)])
     (JRef 2%nat);
   Answer (FileFound "cdvfile://localhost/persistent/a")].

(** A transport that reports more than the whole. *)
Definition ex_overshoot : list Input :=
  ex_load ++ [Answer (TransferProgress true 200 100)].

(** * dam.js: further parts of the program *)

(** ** The digest, one character at a time *)

(** The body of the loop of [Sha1.words] for the character at [k]. *)
Definition words_step (t : string) (a : list Z) (k : nat) : list Z :=
  let i := 8 * Z.of_nat k in
  JsInt.aset a (JsInt.shr i 5)
    (JsInt.or (JsInt.aget a (JsInt.shr i 5))
       (JsInt.shl (JsInt.and (Sha1.charCodeAt t k) 255) (24 - i mod 32))).

(** The character with code 128, the first byte of the padding. *)
Definition x80 : string := String (ascii_of_nat 128) EmptyString.

(** A remote file of 63 characters, none of them a dot. *)
Definition ex_uri63 : string :=
  "http://localhost/assets/sprites/level-01/background-layer-3xxxx".

(** ** The loop of [_purgeEvents], as it is written

    [for (i = 0; i < queue.length; ) { if (queue[i].name == bundleName)
    queue.splice(i, 1); else i++; }]: an event of the bundle is cut out in
    place and the index stays, any other event is stepped over.  Every pass
    shortens what is left to visit, so [fuel] passes suffice for a queue of
    that length. *)
Fixpoint purge_loop (fuel : nat) (bundleName : string) (i : nat) (q : list (Tag * Event))
    : list (Tag * Event) :=
  match fuel with
  | O => q
  | S fuel' =>
      match q !! i with
      | None => q
      | Some qe =>
          if bool_decide (event_name qe.2 = Some bundleName)
          then purge_loop fuel' bundleName i (delete i q)
          else purge_loop fuel' bundleName (S i) q
      end
  end.

(** ** [FileTransferWrapper]: the download with a timeout

    [_cordova_download(context)] starts the transfer of Cordova and a timer;
    [timed_out] and [timeout_armed] are its two local variables, the second
    telling whether [timeout_id] names a timer that has not fired. *)
Record Download := mkDownload {
  timed_out : bool;
  timeout_armed : bool
}.

(** What can happen to a download: the three callbacks of Cordova's
    transfer, and the timer. *)
Inductive TransportEvent :=
| FtProgress (lengthComputable : bool) (eloaded etotal : Z)
| FtSuccess (url : string)
| FtError (err : FileTransferError)
| TimeoutFires.

(** [new FileTransferError(FileTransferError.CONNECTION_ERR, context.uri,
    context.localPath, null)] *)
Definition timeoutError (uri localPath : string) : FileTransferError :=
  mkFileTransferError CONNECTION_ERR uri localPath None.

(** [_cordova_download(context)] up to its return:
    [ENFORCE_DOWNLOAD_TIMEOUT] is [true], so the timer is set. *)
Definition _cordova_download : Download := mkDownload false true.

(** One callback of the download, with what it passes on to the callbacks
    of the task ([onprogress], [_downloadSuccess], [_downloadFail]); [None]
    when the timer is said to fire while it is not set. *)
Definition download_step (uri localPath : string) (ev : TransportEvent) (w : Download)
    : option (Download * list Reply) :=
  match ev with
  | FtProgress lc el et =>
      if timed_out w then Some (w, [])
      else Some (mkDownload false true, [TransferProgress lc el et])
  | FtSuccess url =>
      if timed_out w then Some (w, [])
      else Some (mkDownload false false, [TransferSuccess url])
  | FtError err =>
      if timed_out w then Some (w, [])
      else Some (mkDownload false false, [TransferFail err])
  | TimeoutFires =>
      if timeout_armed w
      then Some (mkDownload true false, [TransferFail (timeoutError uri localPath)])
      else None
  end.

Fixpoint download_run (uri localPath : string) (evs : list TransportEvent) (w : Download)
    : option (Download * list Reply) :=
  match evs with
  | [] => Some (w, [])
  | ev :: evs' =>
      '(w1, out1) ← download_step uri localPath ev w;
      '(w2, out2) ← download_run uri localPath evs' w1;
      Some (w2, out1 ++ out2)
  end.

(** Cordova's transfer calls back for success or for failure at most once,
    and reports no progress after that; [answered] tells whether it has. *)
Fixpoint transport_ok (answered : bool) (evs : list TransportEvent) : bool :=
  match evs with
  | [] => true
  | FtProgress _ _ _ :: evs' => negb answered && transport_ok answered evs'
  | FtSuccess _ :: evs' | FtError _ :: evs' => negb answered && transport_ok true evs'
  | TimeoutFires :: evs' => transport_ok answered evs'
  end.

Definition isProgress (r : Reply) : bool :=
  match r with TransferProgress _ _ _ => true | _ => false end.

Definition isTerminal (r : Reply) : bool :=
  match r with TransferSuccess _ | TransferFail _ => true | _ => false end.

(** A download whose transfer reports half of the file, falls silent until
    the timer fires, and then succeeds after all. *)
Definition ex_download : list TransportEvent :=
  [FtProgress true 50 100; TimeoutFires; FtSuccess "cdvfile://localhost/persistent/a"].

(** ** The steps of the program, move by move

    Every step of the manager is a sequence of the moves below; each move
    is one of the state changes that the functions of the program make
    between two points where the client, a timer or an answer can come in,
    or where the scheduler looks at the queue again. *)

Inductive move : DAM → DAM → Prop :=
| mv_objs d objs :
    (* the client allocates the objects of its bundle *)
    move d (set_heap (heap d ++ objs) d)
| mv_copy d bname l h copy :
    (* [getBundle]: the copy handed to the client *)
    bundles d !! bname = Some l → _copyBundle (heap d) (JRef l) = Some (h, copy) →
    move d (set_heap h d)
| mv_add d v bname h copy :
    (* [addBundle], up to [_maybeAddTask], which finds a live Load task *)
    _malformedBundle (heap d) v = Normal false →
    getProp (heap d) v "name" = Some (JStr bname) →
    bundles d !! bname = None → bname ≠ "__proto__" →
    _copyBundle (heap d) v = Some (h, copy) →
    liveTask bname TASK_TYPE_LOAD
      (_cancelTask bname TASK_TYPE_REMOVE
         (register bname copy (setProp h copy "loaded" (JBool false)) d)) = true →
    move d (_cancelTask bname TASK_TYPE_REMOVE
              (register bname copy (setProp h copy "loaded" (JBool false)) d))
| mv_add_push d v bname h copy :
    (* [addBundle], up to [_doTasks] *)
    _malformedBundle (heap d) v = Normal false →
    getProp (heap d) v "name" = Some (JStr bname) →
    bundles d !! bname = None → bname ≠ "__proto__" →
    _copyBundle (heap d) v = Some (h, copy) →
    liveTask bname TASK_TYPE_LOAD
      (_cancelTask bname TASK_TYPE_REMOVE
         (register bname copy (setProp h copy "loaded" (JBool false)) d)) = false →
    move d (pushTask (newTask bname TASK_TYPE_LOAD None)
              (_cancelTask bname TASK_TYPE_REMOVE
                 (register bname copy (setProp h copy "loaded" (JBool false)) d)))
| mv_remove d bname l :
    (* [removeBundle], up to [_maybeAddTask], which finds a live Remove task *)
    bundles d !! bname = Some l →
    liveTask bname TASK_TYPE_REMOVE (_cancelTask bname TASK_TYPE_LOAD (unregister bname d))
      = true →
    move d (_cancelTask bname TASK_TYPE_LOAD (unregister bname d))
| mv_remove_push d bname l :
    (* [removeBundle], up to [_doTasks] *)
    bundles d !! bname = Some l →
    liveTask bname TASK_TYPE_REMOVE (_cancelTask bname TASK_TYPE_LOAD (unregister bname d))
      = false →
    move d (pushTask (newTask bname TASK_TYPE_REMOVE (Some l))
              (_cancelTask bname TASK_TYPE_LOAD (unregister bname d)))
| mv_rearm d :
    (* the loop of [kickStartTasks] *)
    move d (rearmAll d)
| mv_strip d :
    pending d = None → move d (strip d)
| mv_busy d :
    pending d = None → move d (markBusy d)
| mv_idle d :
    pending d = None → select d = None → move d (markIdle d)
| mv_start_wait d t i d' :
    (* the task chosen runs up to its first request *)
    pending d = None → doingTasks d = true →
    select d = Some (i, t) → isCanceled d t = false →
    start t i d = Some (d', false) → move d d'
| mv_start_done d t i d' :
    (* the task chosen runs to its end, and [onComplete] follows *)
    pending d = None → doingTasks d = true →
    select d = Some (i, t) → isCanceled d t = false →
    start t i d = Some (d', true) → move d (onComplete t i d')
| mv_answer_wait d r d' :
    (* an answer, after which the task waits again *)
    answer r d = Some (d', false) → move d d'
| mv_answer_done d r p d' :
    (* an answer with which the task ends, and [onComplete] follows *)
    pending d = Some p → answer r d = Some (d', true) →
    move d (onComplete (p_task p) (p_i p) d')
| mv_flush d :
    eventTimer d = true → move d (flushEvents d).

(** ** Invariants of the moves *)

(** [localStorage] holds the registry as it is. *)
Definition mirrored (d : DAM) : Prop :=
  storage d = Some (omap (readBundle (heap d)) (bundles d)).

(** A change of the state by the body of task [t] that leaves the heap and
    [localStorage] alone and, of the task, changes neither whether it has
    failed nor whether it is to be retried. *)
Definition neutral (t : nat) (d d' : DAM) : Prop :=
  heap d' = heap d ∧ storage d' = storage d
  ∧ ∃ g, tstore d' = alter g t (tstore d)
         ∧ ∀ T, failed (g T) = failed T ∧ retry (g T) = retry T.

(** What the callback of a request reads when the answer comes: the record
    of the bundle, and for a Load task the file at the index of its loop. *)
Definition phase_ok (h : list jsobj) (ph : Phase) : Prop :=
  match ph with
  | LoadProbe fr | LoadCreate fr | LoadTransfer fr =>
      ∃ b, readBundle h (lf_bundle fr) = Some b ∧ is_Some (files b !! lf_index fr)
  | RemoveLookup l _ _ _ | RemoveDelete l _ => is_Some (readBundle h l)
  end.

(** The queue names each task once; the index that the completion of the
    running task will use is the place of the task in the queue; a queued
    task that has failed is canceled or waits for a retry; the running
    task has not failed. *)
Record sched_inv (d : DAM) : Prop := mk_sched_inv {
  si_ids : ids_ok d;
  si_nodup : NoDup (tasks d);
  si_index : ∀ p, pending d = Some p → tasks d !! p_i p = Some (p_task p);
  si_failed : ∀ t T, t ∈ tasks d → tstore d !! t = Some T → failed T = true →
                     canceled T = true ∨ retry T = true;
  si_running : ∀ p T, pending d = Some p → tstore d !! p_task p = Some T → failed T = false
}.

(** [_cancelTask] on one Task object. *)
Definition cancelOne (bname : string) (ty : TaskType) (T : Task) : Task :=
  if sameTask bname ty T then set_canceled true T else T.

(** The outcome of a body, in one statement: waiting, it has been neutral;
    ended, it has left heap and [localStorage] alone or has written the
    one through to the other. *)
Definition body_out (t : nat) (d d' : DAM) (out : Outcome) : Prop :=
  match out with
  | Suspended _ => neutral t d d'
  | Completed =>
      (heap d' = heap d ∧ storage d' = storage d)
      ∨ (mirrored d' ∧ ∃ l, heap d' = setProp (heap d) l "loaded" (JBool true))
  end.

(** Every registered record can be read under its name; every queued
    task that is not canceled finds the record its body reads first; the
    task of the pending request exists, and the callback of the request
    finds the record and the file it reads. *)
Record serviceable (d : DAM) : Prop := mk_serviceable {
  sv_registry : registry_ok (fun _ => True) d;
  sv_tasks : ∀ t, t ∈ tasks d → isCanceled d t = false → runnable d t;
  sv_pending : ∀ p, pending d = Some p →
                    is_Some (tstore d !! p_task p) ∧ phase_ok (heap d) (p_phase p)
}.

(** The answers that a request can get. *)
Definition fits (ph : Phase) (r : Reply) : bool :=
  match ph, r with
  | LoadProbe _, FileFound _ | LoadProbe _, FileMissing
  | LoadCreate _, FileFound _ | LoadCreate _, FileCreateFailed _
  | LoadTransfer _, TransferProgress _ _ _ | LoadTransfer _, TransferSuccess _
  | LoadTransfer _, TransferFail _
  | RemoveLookup _ _ _ _, FileFound _ | RemoveLookup _ _ _ _, FileMissing
  | RemoveDelete _ _, FileRemoved => true
  | _, _ => false
  end.

(** The inputs that can come in state [d]: any call of the client, but for
    [addBundle] of a bundle named [__proto__]; the timer of the events
    when it is set; the timer of the retries; an answer that the pending
    request can get. *)
Definition expected (d : DAM) (i : Input) : Prop :=
  match i with
  | CallAddBundle objs v => getProp (heap d ++ objs) v "name" ≠ Some (JStr "__proto__")
  | CallRemoveBundle _ | CallGetBundle _ | RetryTimer => True
  | EventTimer => eventTimer d = true
  | Answer r => ∃ p, pending d = Some p ∧ fits (p_phase p) r = true
  end.

(** The Task objects keep what identifies them, and stay canceled. *)
Definition task_keys (d d' : DAM) : Prop :=
  ∀ t T, tstore d !! t = Some T →
    ∃ T', tstore d' !! t = Some T' ∧ type T' = type T ∧ bundleName T' = bundleName T
          ∧ extra T' = extra T ∧ (canceled T = true → canceled T' = true).

(** [localStorage] is written through: it is empty as long as no bundle
    has been registered, and holds the registry as it is from then on. *)
Definition write_through (d : DAM) : Prop :=
  match storage d with
  | None => bundles d = ∅
  | Some m => m = omap (readBundle (heap d)) (bundles d)
  end.

(** ** The way of an event *)

(** The events of a trace with the runs they were sent for. *)
Definition sentQ (tr : list Obs) : list (Tag * Event) :=
  omap (fun o => match o with Sent tag e => Some (tag, e) | Exec _ => None end) tr.

(** The queue and the timer are as they were, or the timer is set. *)
Definition timer_kept (d d' : DAM) : Prop :=
  (eventQueue d' = eventQueue d ∧ eventTimer d' = eventTimer d) ∨ eventTimer d' = true.

(** What was handed to the listeners and what waits in the queue was
    sent, in that order and not more often than it was sent; and while an
    event waits the timer that will hand it over is set. *)
Definition queue_inv (d : DAM) : Prop :=
  (delivered d ++ eventQueue d) `sublist_of` sentQ (trace d)
  ∧ (eventQueue d ≠ [] → eventTimer d = true).

(** ** The frame of the running Load task *)

(** [totalDoneSize] after the first [k] files: their weights, added up. *)
Definition doneUpTo (b : bundle) (k : nat) : option Z :=
  fold_left js_add (map (weight b) (seq 0 k)) (Some 0).

(** What the frame of the pending request of a Load task holds: the record
    it reads is that of the bundle of the task, which is still the one
    registered unless the task is canceled; the totals are those of the
    weights of the record; and the file in flight is the one at the index. *)
Definition frame_inv (d : DAM) : Prop :=
  ∀ p fr T,
    pending d = Some p → loadFrame (p_phase p) = Some fr → tstore d !! p_task p = Some T →
    type T = TASK_TYPE_LOAD
    ∧ (canceled T = false → bundles d !! bundleName T = Some (lf_bundle fr))
    ∧ ∃ b, readBundle (heap d) (lf_bundle fr) = Some b
           ∧ name b = bundleName T
           ∧ lf_totalSize fr = totalSizeOf b
           ∧ lf_totalDoneSize fr = doneUpTo b (lf_index fr)
           ∧ files b !! lf_index fr = Some (lf_remoteFile fr)
           ∧ lf_localName fr = _localFileName (lf_remoteFile fr).

(** The progress events of the files [index], ..., [index + n - 1] of a
    bundle when each of them is found in the cache. *)
Fixpoint cachedProgress (b : bundle) (total done : option Z) (index n : nat) : list Event :=
  match n with
  | O => []
  | S n' =>
      let done' := js_add done (weight b index) in
      BUNDLE_EVENT_PROGRESS (name b) (js_div done' total)
        :: cachedProgress b total done' (S index) n'
  end.

(** The invariants of the scheduler, of the registry and of the frame. *)
Definition all_inv (d : DAM) : Prop := sched_inv d ∧ serviceable d ∧ frame_inv d.

(** ** A bundle of two files, both cached

    [b1] has been added and its Load task waits for the answer of the first
    [getFile]. *)
Definition ex_probe_calls : list Input :=
  [CallAddBundle (bundleCells 0 "b1" ["http://h/a.png"; "http://h/b.png"]) (JRef 1%nat)].

Definition ex_probe : DAM := default newDAM (run ex_probe_calls newDAM).

Definition ex_found : list string :=
  ["cdvfile://localhost/persistent/a"; "cdvfile://localhost/persistent/b"].

(** ** Whose events wait in the queue *)

(** Every bundle event that waits in the queue was sent for a Load task of
    that bundle, and the task has not been canceled. *)
Definition owned (d : DAM) : Prop :=
  ∀ tag e m, (tag, e) ∈ eventQueue d → event_name e = Some m →
    ∃ t k T, tag = Some (t, k) ∧ tstore d !! t = Some T
             ∧ bundleName T = m ∧ type T = TASK_TYPE_LOAD ∧ canceled T = false.

(** What the body of task [t] does to the queue between [d0] and [d]: of
    the Task objects it changes its own, and neither its bundle, its type
    nor whether it is canceled; an event it has put in the queue bears the
    name of the bundle of the task, which is then a Load task that is not
    canceled. *)
Definition own_body (t : nat) (d0 d : DAM) : Prop :=
  (∃ g, keyOnly g ∧ tstore d = alter g t (tstore d0))
  ∧ ∀ q, q ∈ eventQueue d →
      q ∈ eventQueue d0
      ∨ ∃ k T, q.1 = Some (t, k) ∧ tstore d0 !! t = Some T
               ∧ type T = TASK_TYPE_LOAD ∧ canceled T = false
               ∧ event_name q.2 = Some (bundleName T).

(** The record that the body of task [t] reads in cell [l] is that of the
    bundle of the task, a Load task. *)
Definition own_cell (t : nat) (l : loc) (d : DAM) : Prop :=
  ∀ T b, tstore d !! t = Some T → readBundle (heap d) l = Some b →
         type T = TASK_TYPE_LOAD ∧ name b = bundleName T.

(** A bundle whose one file was found in the cache: its Load task has
    ended, and the events of the task wait in the queue. *)
Definition ex_loaded_calls : list Input :=
  [CallAddBundle (bundleCells 0 "b1" ["http://h/a.png"]) (JRef 1%nat);
   Answer (FileFound "cdvfile://localhost/persistent/a")].

Definition ex_loaded : DAM := default newDAM (run ex_loaded_calls newDAM).

(** ** A Remove task, to its end *)

(** The answers to the request for the cached file of the file at one
    index: found, and then removed; or missing. *)
Definition answers_of (found : option string) : list Reply :=
  match found with
  | Some url => [FileFound url; FileRemoved]
  | None => [FileMissing]
  end.

(** The answers that a Remove task gets for the files [fs], which are at
    the indices from [k] on, of the bundle [bname] it deletes: none for a
    file that another bundle lists; [found] tells for each index
    whether the cached file is there. *)
Fixpoint remove_answers (found : nat → option string) (d : DAM) (bname : string)
    (fs : list string) (k : nat) : list Reply :=
  match fs with
  | [] => []
  | g :: fs' =>
      (if referenced d bname g then [] else answers_of (found k))
        ++ remove_answers found d bname fs' (S k)
  end.

(** The answer [r] to the request [ph] makes the loop of the Remove task
    go on with the index after [k]. *)
Definition continues (ph : Phase) (r : Reply) (l : loc) (k : nat) : Prop :=
  match ph, r with
  | RemoveDelete l' k', FileRemoved => l' = l ∧ k' = k
  | RemoveLookup l' k' _ _, FileMissing => l' = l ∧ k' = k
  | _, _ => False
  end.

(** What the rest of the Remove task [t], from after the index [k] on,
    has done between [d] and [d']: the task has left the queue and no event
    was sent for it; no local URL was entered; the local URL of a file that
    no other bundle lists is gone when its cached file was found; and the
    local URL of any other file is as it was. *)
Definition removed_after (found : nat → option string) (b : bundle) (t k : nat)
    (d d' : DAM) : Prop :=
  (t ∉ tasks d')
  ∧ (∀ j, eventsOf (t, j) (trace d') = eventsOf (t, j) (trace d))
  ∧ (∀ g u, localURLs d' !! g = Some u → localURLs d !! g = Some u)
  ∧ (∀ j g, (k < j)%nat → files b !! j = Some g → referenced d (name b) g = false →
            is_Some (found j) → localURLs d' !! g = None)
  ∧ (∀ g, (∀ j, (k < j)%nat → files b !! j = Some g →
                referenced d (name b) g = true ∨ found j = None) →
          localURLs d' !! g = localURLs d !! g).

(** A bundle of two files of which another bundle lists the first: [b1]
    has been loaded, [b2] has been loaded and removed, and its Remove task
    looks for the cached file of [c.png]. *)
Definition ex_removing_calls : list Input :=
  [CallAddBundle (bundleCells 0 "b1" ["http://h/a.png"]) (JRef 1%nat);
   Answer (FileFound "cdvfile://localhost/persistent/a");
   CallAddBundle (bundleCells 4 "b2" ["http://h/a.png"; "http://h/c.png"]) (JRef 5%nat);
   Answer (FileFound "cdvfile://localhost/persistent/a");
   Answer FileMissing;
   Answer (FileFound "cdvfile://localhost/persistent/c");
   Answer (TransferSuccess "cdvfile://localhost/persistent/c");
   CallRemoveBundle "b2"].

Definition ex_removing : DAM := default newDAM (run ex_removing_calls newDAM).

(** ** Start-up: which bundles of [localStorage] are still in the cache

    [init] reads the registry from [localStorage], gets the directory of
    the cache and calls [_haveDirectoryEntry], which the definitions below
    follow.  No task runs and no file is written while the check runs, so
    the directory is a function [cache] from the name of a local file to
    the URL of its entry, [None] when [getFile(.., {create: false})] calls
    its error callback.  The two [for .. in] loops over [manager.bundles]
    visit the names in an order the language leaves open: [bundlenames]
    and [names] are these orders. *)

(** [{success: .., loaded: ..}] *)
Record Status := mkStatus {
  st_success : bool;
  st_loaded : bool
}.

(** [loop(index)] of [_checkBundleLoadStatus], over the files from [index]
    on. *)
Fixpoint checkStatus_loop (cache : string → option string) (fs : list string) (d : DAM)
    : Status * DAM :=
  match fs with
  | [] => (mkStatus true true, d)
  | f :: fs' =>
      match cache (_localFileName f) with
      | Some url => checkStatus_loop cache fs' (_addLocalURL f url d)
      | None => (mkStatus true false, d)
      end
  end.

(** [_checkBundleLoadStatus(manager, bundle, callback)] for the record in
    cell [l]. *)
Definition _checkBundleLoadStatus (cache : string → option string) (l : loc) (d : DAM)
    : option (Status * DAM) :=
  b ← readBundle (heap d) l;
  Some (checkStatus_loop cache (files b) d).

(** [loop(index)] of [_checkBundleLoadStatusAll], over the names from
    [index] on. *)
Fixpoint checkAll_loop (cache : string → option string) (bundlenames : list string)
    (allLoaded allSuccess : bool) (d : DAM) : option (Status * DAM) :=
  match bundlenames with
  | [] => Some (mkStatus allSuccess allLoaded, persist d)
  | n :: rest =>
      l ← bundles d !! n;
      '(status, d1) ← _checkBundleLoadStatus cache l d;
      checkAll_loop cache rest (allLoaded && st_loaded status) (allSuccess && st_success status)
        (set_heap (setProp (heap d1) l "loaded" (JBool (st_loaded status))) d1)
  end.

(** [_checkBundleLoadStatusAll(manager, callback)] *)
Definition _checkBundleLoadStatusAll (cache : string → option string)
    (bundlenames : list string) (d : DAM) : option (Status * DAM) :=
  checkAll_loop cache bundlenames true true d.

(** What [init] hands to its callback once it has the directory:
    [{success: true}], or the status of the check. *)
Inductive InitResult :=
| InitSuccess
| InitStatus (status : Status).

(** The loop of the callback that [_haveDirectoryEntry] gives to the
    check: a bundle that is not loaded gets a Load task, a loaded one its
    event.  [bundle.loaded == false] holds of the flag [false] only: the
    flag is a boolean, the check has just set it. *)
Fixpoint init_loop (names : list string) (d : DAM) : option DAM :=
  match names with
  | [] => Some d
  | n :: rest =>
      l ← bundles d !! n;
      b ← readBundle (heap d) l;
      d1 ← match loaded b with
           | Some false => _maybeAddTask (name b) TASK_TYPE_LOAD None d
           | _ => Some (_sendEvent None (BUNDLE_EVENT_LOADED (name b)) d)
           end;
      init_loop rest d1
  end.

(** [_haveDirectoryEntry(entry)] of [init] *)
Definition _haveDirectoryEntry (cache : string → option string) (bundlenames names : list string)
    (d : DAM) : option (InitResult * DAM) :=
  '(status, d1) ← _checkBundleLoadStatusAll cache bundlenames d;
  if st_success status then d2 ← init_loop names d1; Some (InitSuccess, d2)
  else Some (InitStatus status, d1).

(** Every file of the list is in the cache. *)
Definition cachedAll (cache : string → option string) (fs : list string) : bool :=
  forallb (fun f => bool_decide (is_Some (cache (_localFileName f)))) fs.

(** The manager that [init] hands to [_haveDirectoryEntry]: as the
    constructor made it, with the registry that [JSON.parse] built in the
    cells [h]. *)
Definition parsedDAM (h : list jsobj) (bs : gmap string loc) (s : option (gmap string bundle))
    : DAM :=
  set_storage s (set_bundles bs (set_heap h newDAM)).

(** The cells that the check has written to: those of the names. *)
Definition cellsOf (d : DAM) (names : list string) : list loc :=
  omap (fun n => bundles d !! n) names.

(** [bundle.loaded] of the bundle registered as [n]. *)
Definition flagOf (d : DAM) (n : string) : option bool :=
  l ← bundles d !! n; b ← readBundle (heap d) l; loaded b.

(** What holds while the loop of [_haveDirectoryEntry] runs from [d0], when
    it has visited the names [pre]: the registry and its cells are as the
    check left them; the queue holds one Load task for each name visited
    whose flag is [false], in the order of the visits, and the first of them
    is running; the loaded event of every other name visited is in the
    queue of the events, and no other loaded event is. *)
Record boot_inv (d0 : DAM) (pre : list string) (d : DAM) : Prop := mk_boot_inv {
  bi_heap : heap d = heap d0;
  bi_bundles : bundles d = bundles d0;
  bi_urls : localURLs d = localURLs d0;
  bi_storage : storage d = storage d0;
  bi_tasks : tasks d = seq 0 (length (tstore d));
  bi_tstore : ∀ t T, tstore d !! t = Some T →
                type T = TASK_TYPE_LOAD ∧ canceled T = false ∧ failed T = false
                ∧ bundleName T ∈ pre ∧ flagOf d0 (bundleName T) = Some false;
  bi_queued : ∀ n, n ∈ pre → flagOf d0 n = Some false →
                ∃ t T, tstore d !! t = Some T ∧ bundleName T = n;
  bi_doing : doingTasks d = negb (bool_decide (tstore d = []));
  bi_pending : is_Some (pending d) ↔ tstore d ≠ [];
  bi_loaded : ∀ n, n ∈ pre → flagOf d0 n ≠ Some false →
                (None, BUNDLE_EVENT_LOADED n) ∈ eventQueue d;
  bi_events : ∀ tag n, (tag, BUNDLE_EVENT_LOADED n) ∈ eventQueue d →
                tag = None ∧ n ∈ pre ∧ flagOf d0 n ≠ Some false;
  bi_timer : eventQueue d ≠ [] → eventTimer d = true
}.

(** A registry of two bundles with stale flags: [b1] is said not to be
    loaded and [b2] to be loaded, and of their files only [a.png] is in
    the cache. *)
Definition ex_boot_heap : list jsobj :=
  [JArray [JStr "http://h/a.png"];
   JObject (<["loaded" := JBool false]> (<["files" := JRef 0%nat]> {["name" := JStr "b1"]}));
   JArray [JStr "http://h/a.png"; JStr "http://h/c.png"];
   JObject (<["loaded" := JBool true]> (<["files" := JRef 2%nat]> {["name" := JStr "b2"]}))].

Definition ex_boot_bundles : gmap string loc := <["b2" := 3%nat]> {["b1" := 1%nat]}.

Definition ex_boot : DAM := parsedDAM ex_boot_heap ex_boot_bundles None.

Definition ex_cache (localName : string) : option string :=
  if String.eqb localName (_localFileName "http://h/a.png")
  then Some "cdvfile://localhost/persistent/a" else None.

(** * Facts about the bundled SHA-1 and [_localFileName] *)

Example sha1_abc : Sha1.SHA1 "abc" = "a9993e364706816aba3e25717850c26c9cd0d89d"%string.
Proof. vm_compute. reflexivity. Qed.

Example localFileName_png :
  _localFileName "http://x/f1.png" = "2396b117fbaae2ce69f3825d8c013be62a929489.png"%string.
Proof. vm_compute. reflexivity. Qed.

Section Sha1Facts.
Import JsInt Sha1.

Lemma block_length a hs blk : length (block a hs blk) = 5%nat.
Proof. unfold block. destruct (fold_left _ _ _). reflexivity. Qed.

Lemma fold_left_length {A X : Type} (f : list A → X → list A) (n : nat) xs init :
  (∀ hs x, length (f hs x) = n) → length init = n → length (fold_left f xs init) = n.
Proof.
  intros Hf. revert init. induction xs as [|x xs IH]; intros init Hinit; simpl; [exact Hinit|].
  apply IH, Hf.
Qed.

Lemma digest_length a b : length (digest a b) = 5%nat.
Proof.
  unfold digest. apply fold_left_length; [|reflexivity].
  intros hs x. apply block_length.
Qed.

Lemma and_15_range x : 0 <= and x 15 < 16.
Proof.
  unfold and. change (ToInt32 15) with 15.
  change 15 with (Z.ones 4). rewrite Z.land_ones by lia.
  change (2 ^ 4) with 16. apply Z.mod_pos_bound. lia.
Qed.

Lemma charAt_B n :
  0 <= n < 16 →
  ∃ c, charAt B n = String c EmptyString ∧ In c (list_ascii_of_string B).
Proof.
  intros Hn. unfold charAt.
  assert (Hc : (Z.to_nat n < 16)%nat) by lia.
  revert Hc. generalize (Z.to_nat n). intros k Hk.
  do 16 (destruct k as [|k]; [vm_compute; eexists; split; [reflexivity|tauto]|]).
  lia.
Qed.

Lemma hexbyte_spec a k :
  ∃ c1 c2, hexbyte a k = String c1 (String c2 EmptyString)
           ∧ In c1 (list_ascii_of_string B) ∧ In c2 (list_ascii_of_string B).
Proof.
  unfold hexbyte.
  destruct (charAt_B _ (and_15_range (shr (shr (aget a (shr (Z.of_nat k) 2))
                                             ((3 - Z.of_nat k mod 4) * 8)) 4)))
    as (c1 & -> & H1).
  destruct (charAt_B _ (and_15_range (shr (aget a (shr (Z.of_nat k) 2))
                                        ((3 - Z.of_nat k mod 4) * 8))))
    as (c2 & -> & H2).
  exists c1, c2. auto.
Qed.

Lemma hex_spec a :
  String.length (hex a) = (8 * length a)%nat ∧ hexdigits (hex a).
Proof.
  unfold hex, hexdigits.
  replace (8 * length a)%nat with (2 * length (seq 0 (length a * 4)))%nat
    by (rewrite length_seq; lia).
  generalize (seq 0 (length a * 4)). intros ks.
  induction ks as [|k ks [IH1 IH2]].
  - split; [reflexivity|constructor].
  - change (fold_right String.append EmptyString (map (hexbyte a) (k :: ks)))
      with (hexbyte a k +:+ fold_right String.append EmptyString (map (hexbyte a) ks)).
    destruct (hexbyte_spec a k) as (c1 & c2 & -> & H1 & H2).
    change (String c1 (String c2 EmptyString) +:+ ?s) with (String c1 (String c2 s)).
    split.
    + change (String.length (String c1 (String c2 ?s))) with (S (S (String.length s))).
      rewrite IH1. change (length (k :: ks)) with (S (length ks)). lia.
    + change (list_ascii_of_string (String c1 (String c2 ?s)))
        with (c1 :: c2 :: list_ascii_of_string s).
      constructor; [exact H1|]. constructor; [exact H2|]. exact IH2.
Qed.

Lemma SHA1_spec s : String.length (SHA1 s) = 40%nat ∧ hexdigits (SHA1 s).
Proof.
  unfold SHA1. destruct (hex_spec (digest (words s) (Z.of_nat (String.length s) * 8))) as [H1 H2].
  rewrite digest_length in H1. auto.
Qed.

End Sha1Facts.

Section LocalFileName.
Import JsString.

Lemma fromLastDot_suffix s e :
  fromLastDot s = Some e →
  (1 <= String.length e <= String.length s)%nat
  ∧ e = substr s (String.length s - String.length e)
  ∧ ∃ e', e = String "."%char e'.
Proof.
  revert e. induction s as [|c s IH]; intros e; simpl; [discriminate|].
  destruct (fromLastDot s) as [e0|] eqn:He0.
  - intros [= <-]. destruct (IH e0 eq_refl) as (Hl & Hs & He).
    split; [lia|]. split; [|exact He].
    replace (S (String.length s) - String.length e0)%nat
      with (S (String.length s - String.length e0)) by lia.
    simpl. exact Hs.
  - destruct (Ascii.eqb c ".") eqn:Hc; [|discriminate].
    intros [= <-]. apply Ascii.eqb_eq in Hc. subst c. simpl.
    split; [lia|]. rewrite Nat.sub_diag. simpl. eauto.
Qed.

Lemma lastIndexOf_from_spec s i found :
  lastIndexOf_from s "."%char i found =
    match fromLastDot s with
    | Some e => i + (Z.of_nat (String.length s) - Z.of_nat (String.length e))
    | None => found
    end.
Proof.
  revert i found. induction s as [|c s IH]; intros i found; simpl; [reflexivity|].
  rewrite IH. destruct (fromLastDot s) as [e0|] eqn:He0.
  - lia.
  - destruct (Ascii.eqb c "."); simpl; lia.
Qed.

Lemma length_1_dot e e' : e = String "."%char e' → String.length e = 1%nat → e = "."%string.
Proof. intros -> H. destruct e'; [reflexivity|discriminate]. Qed.

Lemma localFileName_extension uri :
  _localFileName uri = Sha1.SHA1 uri +:+ extension uri.
Proof.
  unfold _localFileName, extension, lastIndexOf. f_equal.
  rewrite lastIndexOf_from_spec.
  destruct (fromLastDot uri) as [e|] eqn:He; [|reflexivity].
  destruct (fromLastDot_suffix _ _ He) as (Hl & Hs & e' & He').
  assert (E1 : String.eqb e uri = true ↔ String.length e = String.length uri).
  { rewrite String.eqb_eq. split; [intros ->; reflexivity|].
    intros Heq. rewrite Heq, Nat.sub_diag in Hs. destruct uri; exact Hs. }
  assert (E2 : String.eqb e "." = true ↔ String.length e = 1%nat).
  { rewrite String.eqb_eq. split; [intros ->; reflexivity|].
    intros H1. eapply length_1_dot; eauto. }
  set (n := String.length uri) in *. set (m := String.length e) in *.
  destruct (Z.ltb_spec (0 + (Z.of_nat n - Z.of_nat m)) 1) as [H1|H1].
  - assert (Hm : m = n) by lia. apply E1 in Hm. rewrite Hm. reflexivity.
  - destruct (String.eqb e uri) eqn:E1'.
    { assert (m = n) by (apply E1; reflexivity). lia. }
    destruct (Z.eqb_spec (0 + (Z.of_nat n - Z.of_nat m)) (Z.of_nat n - 1)) as [H2|H2].
    + assert (Hm : m = 1%nat) by lia. apply E2 in Hm. rewrite Hm. reflexivity.
    + destruct (String.eqb e ".") eqn:E2'.
      { assert (m = 1%nat) by (apply E2; reflexivity). lia. }
      simpl. replace (Z.to_nat (0 + (Z.of_nat n - Z.of_nat m))) with (n - m)%nat by lia.
      symmetry. exact Hs.
Qed.

End LocalFileName.

Lemma append_length s1 s2 :
  String.length (s1 +:+ s2) = (String.length s1 + String.length s2)%nat.
Proof. induction s1 as [|c s1 IH]; simpl; [reflexivity|]. rewrite IH. reflexivity. Qed.

(** The extension read off a decomposition of the identifier. *)
Lemma fromLastDot_app pre ext :
  fromLastDot ext = None →
  fromLastDot (pre +:+ String "."%char ext) = Some (String "."%char ext).
Proof.
  intros Hext. induction pre as [|c pre IH]; simpl.
  - rewrite Hext. reflexivity.
  - rewrite IH. reflexivity.
Qed.

Lemma extension_app pre ext :
  pre ≠ EmptyString → ext ≠ EmptyString → fromLastDot ext = None →
  extension (pre +:+ String "."%char ext) = String "."%char ext.
Proof.
  intros Hpre Hext Hnone. unfold extension. rewrite fromLastDot_app by exact Hnone.
  destruct (String.eqb_spec (String "."%char ext) (pre +:+ String "."%char ext)) as [E|_].
  - exfalso. apply (f_equal String.length) in E.
    rewrite append_length in E. simpl in E.
    destruct pre; [congruence|simpl in E; lia].
  - destruct (String.eqb_spec (String "."%char ext) ".") as [E|_]; [|reflexivity].
    congruence.
Qed.

(** C9, as stated, fails where the only ['.'] of the identifier is its
    first character: [".png"] has a ['.'] that is present and not trailing,
    and its local name is the bare digest. *)
Lemma C9_leading_dot_counterexample :
  ∃ uri e, fromLastDot uri = Some e ∧ e ≠ "."%string
           ∧ _localFileName uri = Sha1.SHA1 uri
           ∧ _localFileName uri ≠ Sha1.SHA1 uri +:+ e.
Proof.
  exists ".png"%string, ".png"%string.
  split; [reflexivity|]. split; [discriminate|].
  split; [vm_compute; reflexivity|].
  vm_compute. discriminate.
Qed.

(** C9 (amended): the local name of a remote file is the bundled SHA-1
    digest of its identifier, forty hexadecimal digits, followed by the
    part of the identifier from its last ['.'] on when that ['.'] is
    neither the first nor the last character, and by nothing otherwise;
    being this function of the identifier, it is the same for equal
    identifiers. *)
Theorem C9_localFileName_digest_extension (uri : string) :
  _localFileName uri = Sha1.SHA1 uri +:+ extension uri
  ∧ String.length (Sha1.SHA1 uri) = 40%nat
  ∧ hexdigits (Sha1.SHA1 uri).
Proof.
  split; [apply localFileName_extension|apply SHA1_spec].
Qed.

(** * Validation of the bundle passed to [addBundle] *)

Lemma typeof_string v : String.eqb (typeof v) "string" = true ↔ ∃ s, v = JStr s.
Proof. destruct v; simpl; split; try discriminate; eauto; intros [? ?]; discriminate. Qed.

Lemma typeof_undefined v : String.eqb (typeof v) "undefined" = true ↔ v = JUndefined.
Proof. destruct v; simpl; split; try discriminate; eauto. Qed.

Lemma typeof_object v :
  String.eqb (typeof v) "object" = true ↔ v = JNull ∨ ∃ l, v = JRef l.
Proof.
  destruct v; simpl; split; try discriminate; eauto;
    intros [?|[? ?]]; discriminate.
Qed.

Lemma existsb_not_string es :
  existsb (fun x => negb (String.eqb (typeof x) "string")) es = false
  ↔ Forall (fun x => ∃ s, x = JStr s) es.
Proof.
  induction es as [|x es IH]; simpl.
  - split; [constructor|reflexivity].
  - rewrite orb_false_iff, negb_false_iff, typeof_string, IH, Forall_cons. reflexivity.
Qed.

Lemma getProp_length_array h a :
  _isArray h a = true → getProp h a "length" = Some (JNum (Z.of_nat (length (elems h a)))).
Proof.
  destruct a as [| | | | |l]; simpl; try discriminate.
  destruct (h !! l) as [[es|ps]|]; try discriminate. reflexivity.
Qed.

Lemma getProp_ref h l k : ∃ x, getProp h (JRef l) k = Some x.
Proof. simpl. destruct (h !! l) as [[es|ps]|]; eauto. Qed.

(** What [_malformedBundle] answers on an object. *)
Lemma malformedBundle_ref h l nm fl fsz :
  getProp h (JRef l) "name" = Some nm →
  getProp h (JRef l) "files" = Some fl →
  getProp h (JRef l) "fileSizes" = Some fsz →
  _malformedBundle h (JRef l) =
    Normal (negb (String.eqb (typeof nm) "string") || negb (_isArray h fl)
            || existsb (fun x => negb (String.eqb (typeof x) "string")) (elems h fl)
            || negb (String.eqb (typeof fsz) "undefined")
               && (negb (_isArray h fsz)
                   || negb (length (elems h fsz) =? length (elems h fl))%nat)).
Proof.
  intros Hn Hf Hs. unfold _malformedBundle.
  change (negb (String.eqb (typeof (JRef l)) "object")) with false. cbv iota.
  rewrite Hn, Hf, Hs.
  destruct (negb (String.eqb (typeof nm) "string") || negb (_isArray h fl)); [reflexivity|].
  destruct (existsb _ _); [reflexivity|].
  destruct (negb (String.eqb (typeof fsz) "undefined") && _); reflexivity.
Qed.

Lemma malformedBundle_malformed h v :
  malformed h v →
  _malformedBundle h v = Normal true ∨ (v = JNull ∧ _malformedBundle h v = Throw TypeError).
Proof.
  intros Hm. destruct v as [| | | | |l]; try (left; reflexivity); [right; split; reflexivity|].
  left.
  destruct (getProp_ref h l "name") as [nm Hn].
  destruct (getProp_ref h l "files") as [fl Hf].
  destruct (getProp_ref h l "fileSizes") as [fsz Hs].
  rewrite (malformedBundle_ref h l nm fl fsz Hn Hf Hs). f_equal.
  destruct (String.eqb (typeof nm) "string") eqn:E1; [|reflexivity].
  destruct (_isArray h fl) eqn:E2; [|reflexivity].
  destruct (existsb _ (elems h fl)) eqn:E3; [reflexivity|].
  apply typeof_string in E1 as [s ->]. apply existsb_not_string in E3.
  destruct Hm as [Hm|[Hm|Hm]].
  - exfalso. apply Hm. exists s. exact Hn.
  - exfalso. apply Hm. exists fl. auto.
  - destruct Hm as (fsz' & fl' & Hs' & Hne & Hf' & Hlen).
    rewrite Hs in Hs'. rewrite Hf in Hf'. injection Hs' as <-. injection Hf' as <-.
    simpl. destruct (String.eqb (typeof fsz) "undefined") eqn:E4.
    { apply typeof_undefined in E4. contradiction. }
    simpl. destruct (_isArray h fsz) eqn:E5; [|reflexivity]. simpl.
    rewrite (getProp_length_array _ _ E5), (getProp_length_array _ _ E2) in Hlen.
    destruct (Nat.eqb_spec (length (elems h fsz)) (length (elems h fl))) as [E|E];
      [|reflexivity].
    exfalso. apply Hlen. rewrite E. reflexivity.
Qed.

Lemma malformedBundle_wellFormed h v :
  wellFormed h v → ∃ l, v = JRef l ∧ _malformedBundle h v = Normal false.
Proof.
  intros ([s Hn] & (fl & Hf & Harr & Hstr) & (fsz & fl' & Hs & Hf' & Hsz)).
  rewrite Hf in Hf'. injection Hf' as <-.
  destruct v as [| | | | |l]; try discriminate;
    try (simpl in Hf; injection Hf as <-; discriminate).
  exists l. split; [reflexivity|].
  rewrite (malformedBundle_ref h l _ _ _ Hn Hf Hs). f_equal.
  rewrite Harr. apply existsb_not_string in Hstr. rewrite Hstr. simpl.
  destruct Hsz as [->|[Ha Hl]]; [reflexivity|].
  rewrite Ha, Hl, Nat.eqb_refl. simpl. apply andb_false_r.
Qed.

(** C5: [addBundle] of a malformed bundle throws and changes nothing: the
    registry, the task list, the stored registry and every other part of
    the manager are as before.  What is thrown is the string "Malformed
    bundle passed to addBundle", except for [null], whose [name] cannot be
    read (a TypeError). *)
Theorem C5_addBundle_malformed (d : DAM) (v : jsval) :
  malformed (heap d) v →
  ∃ e, addBundle v d = Some (Throw e, d) ∧ (v ≠ JNull → e = MalformedBundle).
Proof.
  intros Hm. unfold addBundle.
  destruct (malformedBundle_malformed _ _ Hm) as [->|[-> ->]].
  - exists MalformedBundle. auto.
  - exists TypeError. split; [reflexivity|]. intros H. contradiction.
Qed.


Lemma C5_witness :
  ∃ e, addBundle (JRef 2%nat) (set_heap mismatch_objs newDAM)
         = Some (Throw e, set_heap mismatch_objs newDAM)
       ∧ (JRef 2%nat ≠ JNull → e = MalformedBundle).
Proof.
  apply (C5_addBundle_malformed (set_heap mismatch_objs newDAM) (JRef 2%nat)).
  right. right. exists (JRef 1%nat), (JRef 0%nat).
  split; [vm_compute; reflexivity|]. split; [discriminate|].
  split; [vm_compute; reflexivity|]. vm_compute. discriminate.
Defined.

(** * Footprints of the task bodies *)

Arguments _localFileName : simpl never.
Arguments readBundle : simpl never.
Arguments referenced : simpl never.
Arguments setProp : simpl never.
Arguments _copyBundle : simpl never.
Arguments _malformedBundle : simpl never.
Arguments getProp : simpl never.
Arguments _isArray : simpl never.
Arguments elems : simpl never.

Lemma flagsOnly_id : flagsOnly id.
Proof. intros T. auto. Qed.

Lemma flagsOnly_compose g1 g2 : flagsOnly g1 → flagsOnly g2 → flagsOnly (g2 ∘ g1).
Proof.
  intros H1 H2 T. destruct (H1 T) as (?&?&?&?&?), (H2 (g1 T)) as (?&?&?&?&?).
  simpl. repeat split; congruence.
Qed.

Lemma flagsOnly_set_failed b : flagsOnly (set_failed b).
Proof. intros T. auto. Qed.
Lemma flagsOnly_set_error e : flagsOnly (set_error e).
Proof. intros T. auto. Qed.
Lemma flagsOnly_set_retry b : flagsOnly (set_retry b).
Proof. intros T. auto. Qed.
Lemma flagsOnly_set_ft b : flagsOnly (set_ft b).
Proof. intros T. auto. Qed.
Lemma flagsOnly_rearm : flagsOnly rearm.
Proof. intros T. unfold rearm. destruct (_ && _); auto. Qed.

Lemma tagOf_alter g t t' d :
  flagsOnly g → tagOf t (set_tstore (alter g t' (tstore d)) d) = tagOf t d.
Proof.
  intros Hg. unfold tagOf. simpl.
  destruct (decide (t = t')) as [->|Hne].
  - rewrite list_lookup_alter_eq. destruct (tstore d !! t') as [T|]; [|reflexivity].
    simpl. destruct (Hg T) as (_&_&_&_&->). reflexivity.
  - rewrite list_lookup_alter_ne by congruence. reflexivity.
Qed.

(** ** The heap only grows, and only [loaded] is written *)

Lemma heap_le_refl h : heap_le h h.
Proof. intros l b H. eauto. Qed.

Lemma heap_le_trans h1 h2 h3 : heap_le h1 h2 → heap_le h2 h3 → heap_le h1 h3.
Proof.
  intros H12 H23 l b H. destruct (H12 _ _ H) as (b2 & Hb2 & ? & ? & ?).
  destruct (H23 _ _ Hb2) as (b3 & Hb3 & ? & ? & ?). exists b3. repeat split; congruence.
Qed.

Lemma readBundle_app h objs l b :
  readBundle h l = Some b → readBundle (h ++ objs) l = Some b.
Proof.
  unfold readBundle. intros H.
  destruct (h !! l) as [[es|ps]|] eqn:Hl; try discriminate.
  rewrite (lookup_app_l_Some _ _ _ _ Hl).
  destruct (ps !! "name") as [[| | | |n|]|]; try discriminate.
  destruct (ps !! "files") as [[| | | | |lf]|]; try discriminate.
  destruct (h !! lf) as [[es|ps']|] eqn:Hlf; try discriminate.
  rewrite (lookup_app_l_Some _ _ _ _ Hlf).
  destruct (ps !! "fileSizes") as [[| | | | |ls]|]; try exact H.
  destruct (h !! ls) as [[ss|ps']|] eqn:Hls; try (destruct (mapM asStr es); discriminate).
  rewrite (lookup_app_l_Some _ _ _ _ Hls). exact H.
Qed.

Lemma heap_le_app h objs : heap_le h (h ++ objs).
Proof. intros l b H. exists b. split; [apply readBundle_app, H|auto]. Qed.


(** Writing [loaded] in a cell leaves every record readable. *)
Lemma readBundle_setProp_loaded h l v l' b :
  readBundle h l' = Some b →
  readBundle (setProp h l "loaded" (JBool v)) l' =
    Some (if decide (l' = l) then set_loaded (Some v) b else b).
Proof.
  unfold setProp. intros H.
  destruct (h !! l) as [[es0|ps0]|] eqn:Hl;
    try (destruct (decide (l' = l)) as [->|]; [|exact H];
         unfold readBundle in H; rewrite Hl in H; discriminate).
  assert (Hlen : (l < length h)%nat) by (eapply lookup_lt_Some; eauto).
  unfold readBundle in *.
  assert (Harr : ∀ k es, h !! k = Some (JArray es) →
                 <[l := JObject (<["loaded" := JBool v]> ps0)]> h !! k = Some (JArray es)).
  { intros k es Hk. rewrite list_lookup_insert_ne; [exact Hk|].
    intros ->. rewrite Hl in Hk. discriminate. }
  destruct (decide (l' = l)) as [->|Hne].
  - rewrite Hl in H. rewrite list_lookup_insert_eq by exact Hlen.
    rewrite (lookup_insert_ne ps0 "loaded" "name") by discriminate.
    rewrite (lookup_insert_ne ps0 "loaded" "files") by discriminate.
    rewrite (lookup_insert_ne ps0 "loaded" "fileSizes") by discriminate.
    destruct (ps0 !! "name") as [[| | | |n|]|]; try discriminate.
    destruct (ps0 !! "files") as [[| | | | |lf]|]; try discriminate.
    destruct (h !! lf) as [[es|ps']|] eqn:Hlf; try discriminate.
    rewrite (Harr _ _ Hlf). rewrite lookup_insert_eq.
    destruct (mapM asStr es) as [fs|]; [|discriminate]. simpl in *.
    destruct (ps0 !! "fileSizes") as [[| | | | |ls]|]; simpl in *; try discriminate.
    + destruct (ps0 !! "loaded") as [[]|]; simpl in H; try discriminate;
        injection H as <-; reflexivity.
    + destruct (h !! ls) as [[ss|ps']|] eqn:Hls; try discriminate.
      rewrite (Harr _ _ Hls). simpl in *.
      destruct (ps0 !! "loaded") as [[]|]; simpl in H; try discriminate;
        injection H as <-; reflexivity.
    + destruct (ps0 !! "loaded") as [[]|]; simpl in H; try discriminate;
        injection H as <-; reflexivity.
  - rewrite list_lookup_insert_ne by congruence.
    destruct (h !! l') as [[es|ps]|] eqn:Hl'; try discriminate.
    destruct (ps !! "name") as [[| | | |n|]|]; try discriminate.
    destruct (ps !! "files") as [[| | | | |lf]|]; try discriminate.
    destruct (h !! lf) as [[es|ps']|] eqn:Hlf; try discriminate.
    rewrite (Harr _ _ Hlf).
    destruct (ps !! "fileSizes") as [[| | | | |ls]|]; try exact H.
    destruct (h !! ls) as [[ss|ps']|] eqn:Hls; try (destruct (mapM asStr es); discriminate).
    rewrite (Harr _ _ Hls). exact H.
Qed.

Lemma heap_le_setProp_loaded h l v : heap_le h (setProp h l "loaded" (JBool v)).
Proof.
  intros l' b H. rewrite (readBundle_setProp_loaded _ _ _ _ _ H).
  destruct (decide (l' = l)); eauto.
Qed.

(** ** The bodies of the tasks *)

Lemma tagOf_tstore t d d' : tstore d' = tstore d → tagOf t d' = tagOf t d.
Proof. unfold tagOf. intros ->. reflexivity. Qed.

Lemma body_fp_tagOf t d d' : body_fp t d d' → tagOf t d' = tagOf t d.
Proof.
  intros [_ _ _ _ _ (g & Hg & Hts) _ _].
  rewrite <- (tagOf_alter g t t d Hg). apply tagOf_tstore. simpl. exact Hts.
Qed.

Lemma body_fp_refl t d : body_fp t d d.
Proof.
  constructor; try reflexivity.
  - exists id. split; [apply flagsOnly_id|]. symmetry. apply list_alter_id. reflexivity.
  - exists []. split; [constructor|]. simpl. rewrite !app_nil_r. auto.
  - apply heap_le_refl.
Qed.

Lemma body_fp_trans t d1 d2 d3 : body_fp t d1 d2 → body_fp t d2 d3 → body_fp t d1 d3.
Proof.
  intros H12 H23. pose proof (body_fp_tagOf _ _ _ H12) as Htag.
  destruct H12 as [A1 A2 A3 A4 A5 (g1 & Hg1 & A6) (e1 & He1 & A7 & A8) A9].
  destruct H23 as [B1 B2 B3 B4 B5 (g2 & Hg2 & B6) (e2 & He2 & B7 & B8) B9].
  constructor; try congruence.
  - exists (g2 ∘ g1). split; [apply flagsOnly_compose; assumption|].
    rewrite B6, A6. apply list_alter_alter_eq.
  - exists (e1 ++ e2). split; [apply Forall_app; auto|].
    rewrite B7, B8, A7, A8, Htag, !map_app, !app_assoc. auto.
  - eapply heap_le_trans; eassumption.
Qed.

Lemma body_fp_send t e d d1 :
  body_fp t d d1 → is_Some (event_name e) → body_fp t d (_sendEvent (tagOf t d1) e d1).
Proof.
  intros H He. eapply body_fp_trans; [exact H|].
  constructor; try reflexivity.
  - exists id. split; [apply flagsOnly_id|]. symmetry. apply list_alter_id. reflexivity.
  - exists [e]. split; [constructor; [exact He|constructor]|]. simpl. auto.
  - apply heap_le_refl.
Qed.

Lemma body_fp_upd t g d d1 : body_fp t d d1 → flagsOnly g → body_fp t d (updTask g t d1).
Proof.
  intros H Hg. eapply body_fp_trans; [exact H|].
  constructor; try reflexivity.
  - exists g. split; [exact Hg|reflexivity].
  - exists []. split; [constructor|]. simpl. rewrite !app_nil_r. auto.
  - apply heap_le_refl.
Qed.

Lemma body_fp_frame t d d1 d2 :
  body_fp t d d1 →
  tasks d2 = tasks d1 → doingTasks d2 = doingTasks d1 → bundles d2 = bundles d1 →
  pending d2 = pending d1 → delivered d2 = delivered d1 → tstore d2 = tstore d1 →
  trace d2 = trace d1 → eventQueue d2 = eventQueue d1 → heap_le (heap d1) (heap d2) →
  body_fp t d d2.
Proof.
  intros H E1 E2 E3 E4 E5 E6 E7 E8 E9. eapply body_fp_trans; [exact H|].
  constructor; try assumption.
  - exists id. split; [apply flagsOnly_id|]. rewrite E6. symmetry. apply list_alter_id. reflexivity.
  - exists []. split; [constructor|]. simpl. rewrite !app_nil_r. auto.
Qed.

Ltac bf_frame d1 :=
  apply (body_fp_frame _ _ d1);
  [ | reflexivity | reflexivity | reflexivity | reflexivity | reflexivity | reflexivity
    | reflexivity | reflexivity
    | first [ apply heap_le_refl | apply heap_le_setProp_loaded ] ].

Lemma body_fp_persist t d d1 : body_fp t d d1 → body_fp t d (persist d1).
Proof. intros H. unfold persist. bf_frame d1. exact H. Qed.

Lemma body_fp_set_loaded t d d1 l v :
  body_fp t d d1 → body_fp t d (set_heap (setProp (heap d1) l "loaded" (JBool v)) d1).
Proof. intros H. bf_frame d1. exact H. Qed.

Lemma body_fp_set_disk t d d1 s : body_fp t d d1 → body_fp t d (set_disk s d1).
Proof. intros H. bf_frame d1. exact H. Qed.

Lemma body_fp_addLocalURL t d d1 f u : body_fp t d d1 → body_fp t d (_addLocalURL f u d1).
Proof.
  intros H. unfold _addLocalURL. destruct (localURLs d1 !! f); [exact H|].
  destruct (String.eqb f "__proto__"); [exact H|]. bf_frame d1. exact H.
Qed.

Lemma body_fp_removeLocalURL t d d1 f : body_fp t d d1 → body_fp t d (_removeLocalURL f d1).
Proof. intros H. unfold _removeLocalURL. destruct (localURLs d1 !! f); [|exact H]. bf_frame d1. exact H. Qed.

Ltac bf :=
  repeat first
    [ apply body_fp_refl
    | assumption
    | apply body_fp_send; [|simpl; eauto]
    | apply body_fp_upd; [|first [ apply flagsOnly_set_ft | apply flagsOnly_set_failed
                                 | apply flagsOnly_set_retry | apply flagsOnly_set_error
                                 | (intros ?; simpl; auto) ]]
    | apply body_fp_persist
    | apply body_fp_set_loaded
    | apply body_fp_set_disk
    | apply body_fp_addLocalURL
    | apply body_fp_removeLocalURL ].

Ltac inv_opt H :=
  repeat first
    [ discriminate H
    | progress simplify_option_eq
    | match type of H with
      | context [match ?x with _ => _ end] => destruct x eqn:?
      | context [if ?x then _ else _] => destruct x eqn:?
      end ].

Lemma error_fp t l msg rt d d' out :
  error_ t l msg rt d = Some (d', out) → body_fp t d d' ∧ out = Completed.
Proof.
  unfold error_. intros H.
  destruct (tstore d !! t) as [T|]; simpl in H; [|discriminate].
  destruct (negb rt && negb (canceled T)).
  - destruct (readBundle _ l) as [b|]; simpl in H; [|discriminate].
    injection H as <- <-. split; [bf|reflexivity].
  - injection H as <- <-. split; [bf|reflexivity].
Qed.

Lemma download_loop_fp t l ts td i d d' out :
  download_loop t l ts td i d = Some (d', out) → body_fp t d d'.
Proof.
  unfold download_loop. intros H.
  destruct (tstore d !! t) as [T|]; simpl in H; [|discriminate].
  destruct (canceled T); [apply error_fp in H as [H _]; exact H|].
  destruct (readBundle (heap d) l) as [b|]; simpl in H; [|discriminate].
  destruct (i =? length (files b))%nat.
  - injection H as <- <-. bf.
  - destruct (files b !! i); simpl in H; [|discriminate]. injection H as <- <-. bf.
Qed.

Lemma downloadBundle_fp t d d' out :
  _downloadBundle t d = Some (d', out) → body_fp t d d'.
Proof.
  unfold _downloadBundle. intros H.
  destruct (tstore d !! t) as [T|]; simpl in H; [|discriminate].
  destruct (bundles d !! bundleName T) as [l|]; simpl in H; [|discriminate].
  destruct (readBundle (heap d) l) as [b|]; simpl in H; [|discriminate].
  apply download_loop_fp in H. eapply body_fp_trans; [|exact H]. bf.
Qed.

Lemma fileDone_fp t fr d d' out : fileDone t fr d = Some (d', out) → body_fp t d d'.
Proof.
  unfold fileDone. intros H.
  destruct (tstore d !! t) as [T|]; simpl in H; [|discriminate].
  destruct (negb (canceled T)).
  - destruct (readBundle (heap d) (lf_bundle fr)) as [b|]; simpl in H; [|discriminate].
    apply download_loop_fp in H. eapply body_fp_trans; [|exact H]. bf.
  - apply download_loop_fp in H. exact H.
Qed.

Lemma onprogress_fp t fr lc el et d d' out :
  onprogress t fr lc el et d = Some (d', out) → body_fp t d d'.
Proof.
  unfold onprogress. intros H.
  destruct (tstore d !! t) as [T|]; simpl in H; [|discriminate].
  destruct (lc && negb (canceled T)).
  - destruct (readBundle (heap d) (lf_bundle fr)) as [b|]; simpl in H; [|discriminate].
    injection H as <- <-. bf.
  - injection H as <- <-. bf.
Qed.

Lemma downloadSuccess_fp t fr url d d' out :
  _downloadSuccess t fr url d = Some (d', out) → body_fp t d d'.
Proof.
  unfold _downloadSuccess. intros H. apply fileDone_fp in H.
  eapply body_fp_trans; [|exact H]. bf.
Qed.

Lemma downloadFail_fp t fr err d d' out :
  _downloadFail t fr err d = Some (d', out) → body_fp t d d' ∧ out = Completed.
Proof.
  unfold _downloadFail. intros H. destruct (code err =? ABORT_ERR).
  - injection H as <- <-. split; [bf|reflexivity].
  - apply error_fp in H as [H ->]. split; [|reflexivity].
    eapply body_fp_trans; [|exact H]. bf.
Qed.

Lemma remove_loop_fp t l i d d' out : remove_loop t l i d = Some (d', out) → d' = d.
Proof.
  unfold remove_loop. intros H.
  destruct (tstore d !! t) as [T|]; simpl in H; [|discriminate].
  destruct (canceled T); [congruence|].
  destruct (readBundle (heap d) l) as [b|]; simpl in H; [|discriminate].
  destruct (remove_scan _ _ _ _) as [[k f]|]; congruence.
Qed.

Lemma removeBundleFiles_fp t d d' out : _removeBundleFiles t d = Some (d', out) → d' = d.
Proof.
  unfold _removeBundleFiles. intros H.
  destruct (tstore d !! t) as [T|]; simpl in H; [|discriminate].
  destruct (extra T) as [l|]; simpl in H; [|discriminate].
  eapply remove_loop_fp, H.
Qed.

Lemma callback_fp t ph r d d' out : callback t ph r d = Some (d', out) → body_fp t d d'.
Proof.
  unfold callback, removeFound. intros H.
  destruct ph, r; try discriminate H;
    first
      [ eapply fileDone_fp, H
      | eapply onprogress_fp, H
      | eapply downloadSuccess_fp, H
      | (apply downloadFail_fp in H as [H _]; exact H)
      | (apply error_fp in H as [H _]; exact H)
      | (apply remove_loop_fp in H as ->; bf)
      | (injection H as <- <-; bf) ].
Qed.

(** * Copies of bundle records *)

Lemma malformedBundle_false h v :
  _malformedBundle h v = Normal false → wellFormed h v.
Proof.
  intros H. destruct v as [| | | | |l]; try discriminate H.
  destruct (getProp_ref h l "name") as [nm Hn].
  destruct (getProp_ref h l "files") as [fl Hf].
  destruct (getProp_ref h l "fileSizes") as [fsz Hs].
  rewrite (malformedBundle_ref h l nm fl fsz Hn Hf Hs) in H. injection H as H.
  apply orb_false_iff in H as [H H4]. apply orb_false_iff in H as [H H3].
  apply orb_false_iff in H as [H1 H2].
  apply negb_false_iff in H1, H2. apply typeof_string in H1 as [s ->].
  apply existsb_not_string in H3.
  split; [exists s; exact Hn|]. split; [exists fl; auto|].
  exists fsz, fl. split; [exact Hs|]. split; [exact Hf|].
  apply andb_false_iff in H4 as [H4|H4].
  - left. apply negb_false_iff, typeof_undefined in H4. exact H4.
  - right. apply orb_false_iff in H4 as [H5 H6].
    apply negb_false_iff in H5, H6. split; [exact H5|]. apply Nat.eqb_eq, H6.
Qed.

Lemma mapM_asStr es :
  Forall (fun x => ∃ s, x = JStr s) es → ∃ fs, mapM asStr es = Some fs ∧ JStr <$> fs = es.
Proof.
  induction 1 as [|x es [s ->] _ (fs & IH & Hfs)]; [exists []; auto|].
  exists (s :: fs). simpl. rewrite IH. simpl. split; [reflexivity|].
  rewrite <- Hfs. reflexivity.
Qed.

Lemma getProp_app h ext l k :
  (l < length h)%nat → getProp (h ++ ext) (JRef l) k = getProp h (JRef l) k.
Proof. intros Hl. unfold getProp. rewrite lookup_app_l by exact Hl. reflexivity. Qed.

Lemma elems_app h ext l :
  (l < length h)%nat → elems (h ++ ext) (JRef l) = elems h (JRef l).
Proof. intros Hl. unfold elems. rewrite lookup_app_l by exact Hl. reflexivity. Qed.

Lemma isArray_app h ext a : _isArray h a = true → _isArray (h ++ ext) a = true.
Proof.
  destruct a as [| | | | |l]; try discriminate. unfold _isArray.
  destruct (h !! l) as [o|] eqn:Hl; [|discriminate].
  rewrite (lookup_app_l_Some _ _ _ _ Hl). auto.
Qed.

Lemma isArray_lt h a : _isArray h a = true → ∃ l, a = JRef l ∧ (l < length h)%nat.
Proof.
  destruct a as [| | | | |l]; try discriminate. unfold _isArray.
  destruct (h !! l) as [o|] eqn:Hl; [|discriminate].
  intros _. exists l. split; [reflexivity|]. eapply lookup_lt_Some, Hl.
Qed.


Lemma copyBundle_cells h l nm fl fsz :
  (l < length h)%nat →
  getProp h (JRef l) "name" = Some nm →
  getProp h (JRef l) "files" = Some fl → _isArray h fl = true →
  getProp h (JRef l) "fileSizes" = Some fsz →
  (fsz = JUndefined ∨ _isArray h fsz = true) →
  _copyBundle h (JRef l) = Some (h ++ copyCells h nm fl fsz, S (length h)).
Proof.
  intros Hl Hn Hf Ha Hs Hsz. unfold _copyBundle, slice, alloc.
  rewrite Hn, Hf. simpl. rewrite Ha. simpl.
  rewrite length_app. simpl length. rewrite Nat.add_1_r.
  rewrite <- (app_assoc h [_] [_]).
  rewrite (getProp_app h _ l "fileSizes" Hl), Hs. simpl.
  unfold copyCells.
  destruct Hsz as [->|Hfa].
  - simpl. reflexivity.
  - destruct (isArray_lt _ _ Hfa) as (ls & -> & Hls). simpl truthy. cbv iota.
    rewrite (isArray_app _ _ _ Hfa). simpl.
    rewrite (elems_app h _ ls Hls).
    f_equal. f_equal. unfold setProp.
    rewrite <- app_assoc.
    assert (Hc : (h ++ [JArray (elems h fl);
                        JObject (<["files":=JRef (length h)]> {["name":=nm]})]
                    ++ [JArray (elems h (JRef ls))]) !! S (length h)
                 = Some (JObject (<["files":=JRef (length h)]> {["name":=nm]}))).
    { rewrite lookup_app_r by lia. replace (S (length h) - length h)%nat with 1%nat by lia.
      reflexivity. }
    rewrite Hc.
    rewrite insert_app_r_alt by lia.
    replace (S (length h) - length h)%nat with 1%nat by lia.
    rewrite length_app. simpl length.
    replace (length h + 2)%nat with (S (S (length h))) by lia. reflexivity.
Qed.

(** The properties of the two object literals of [_copyBundle]. *)
Section CopyProps.
Variables (nm fl fsz : jsval).
Let ps2 : gmap string jsval := <["files" := fl]> {["name" := nm]}.
Let ps3 : gmap string jsval := <["fileSizes" := fsz]> (<["files" := fl]> {["name" := nm]}).

Lemma ps2_name : ps2 !! "name" = Some nm.
Proof. unfold ps2. rewrite lookup_insert_ne by discriminate. apply lookup_singleton_eq. Qed.
Lemma ps2_files : ps2 !! "files" = Some fl.
Proof. unfold ps2. apply lookup_insert_eq. Qed.
Lemma ps2_fileSizes : ps2 !! "fileSizes" = None.
Proof. unfold ps2. rewrite lookup_insert_ne by discriminate. apply lookup_singleton_ne. discriminate. Qed.
Lemma ps2_loaded : ps2 !! "loaded" = None.
Proof. unfold ps2. rewrite lookup_insert_ne by discriminate. apply lookup_singleton_ne. discriminate. Qed.
Lemma ps3_name : ps3 !! "name" = Some nm.
Proof. unfold ps3. rewrite lookup_insert_ne by discriminate. apply ps2_name. Qed.
Lemma ps3_files : ps3 !! "files" = Some fl.
Proof. unfold ps3. rewrite lookup_insert_ne by discriminate. apply ps2_files. Qed.
Lemma ps3_fileSizes : ps3 !! "fileSizes" = Some fsz.
Proof. unfold ps3. apply lookup_insert_eq. Qed.
Lemma ps3_loaded : ps3 !! "loaded" = None.
Proof. unfold ps3. rewrite lookup_insert_ne by discriminate. apply ps2_loaded. Qed.
End CopyProps.

(** What can be read in the copy. *)
Lemma readBundle_copyCells h nm n fl fs fsz h' :
  nm = JStr n → mapM asStr (elems h fl) = Some fs →
  (fsz = JUndefined ∨ _isArray h fsz = true) →
  readBundle (h ++ copyCells h nm fl fsz ++ h') (S (length h)) =
    Some (Bundle n fs (if truthy fsz then Some (elems h fsz) else None) None).
Proof.
  intros -> Hfs Hsz.
  assert (H0 : ∀ a b rest, (h ++ a :: b :: rest) !! length h = Some a).
  { intros. rewrite lookup_app_r by lia. rewrite Nat.sub_diag. reflexivity. }
  assert (H1 : ∀ a b rest, (h ++ a :: b :: rest) !! S (length h) = Some b).
  { intros. rewrite lookup_app_r by lia.
    replace (S (length h) - length h)%nat with 1%nat by lia. reflexivity. }
  assert (H2 : ∀ a b c rest, (h ++ a :: b :: c :: rest) !! S (S (length h)) = Some c).
  { intros. rewrite lookup_app_r by lia.
    replace (S (S (length h)) - length h)%nat with 2%nat by lia. reflexivity. }
  unfold readBundle, copyCells.
  destruct Hsz as [->|Hfa].
  - simpl truthy. cbv iota. simpl app.
    rewrite H1. rewrite ps2_name, ps2_files, ps2_fileSizes, ps2_loaded.
    rewrite H0. rewrite Hfs. reflexivity.
  - destruct (isArray_lt _ _ Hfa) as (ls & -> & Hls). simpl truthy. cbv iota. simpl app.
    rewrite H1. rewrite ps3_name, ps3_files, ps3_fileSizes, ps3_loaded.
    rewrite H0. rewrite Hfs. rewrite H2. reflexivity.
Qed.

Lemma getProp_Some_lt h l k x : getProp h (JRef l) k = Some x → x ≠ JUndefined → (l < length h)%nat.
Proof.
  unfold getProp. destruct (h !! l) as [o|] eqn:Hl.
  - intros _ _. eapply lookup_lt_Some, Hl.
  - intros [= <-] H. contradiction.
Qed.

Lemma heap_le_copyCells h nm fl fsz l v :
  (length h ≤ l)%nat → heap_le h (setProp (h ++ copyCells h nm fl fsz) l "loaded" (JBool v)).
Proof.
  intros Hl. eapply heap_le_trans; [apply heap_le_app|apply heap_le_setProp_loaded].
Qed.

(** [addBundle] copies a bundle that passed the validation: the copy can
    be read, with the name, the files and the sizes of the original. *)
Lemma copyBundle_validated h v :
  _malformedBundle h v = Normal false →
  ∃ l n fl fsz fs,
    v = JRef l ∧ (l < length h)%nat
    ∧ getProp h v "name" = Some (JStr n)
    ∧ getProp h v "files" = Some fl ∧ _isArray h fl = true
    ∧ getProp h v "fileSizes" = Some fsz
    ∧ (fsz = JUndefined ∨ _isArray h fsz = true ∧ length (elems h fsz) = length (elems h fl))
    ∧ mapM asStr (elems h fl) = Some fs ∧ JStr <$> fs = elems h fl
    ∧ _copyBundle h v = Some (h ++ copyCells h (JStr n) fl fsz, S (length h))
    ∧ ∀ h', readBundle (h ++ copyCells h (JStr n) fl fsz ++ h') (S (length h)) =
        Some (Bundle n fs (if truthy fsz then Some (elems h fsz) else None) None).
Proof.
  intros H. apply malformedBundle_false in H.
  destruct H as ([n Hn] & (fl & Hf & Harr & Hstr) & (fsz & fl' & Hs & Hf' & Hsz)).
  rewrite Hf in Hf'. injection Hf' as <-.
  destruct v as [| | | | |l]; try discriminate Hn.
  assert (Hl : (l < length h)%nat) by (eapply getProp_Some_lt; [exact Hn|discriminate]).
  destruct (mapM_asStr _ Hstr) as (fs & Hfs & Hfs').
  assert (Hsz' : fsz = JUndefined ∨ _isArray h fsz = true) by (destruct Hsz as [?|[? ?]]; auto).
  exists l, n, fl, fsz, fs. repeat split; auto.
  - apply copyBundle_cells; auto.
  - intros h'. apply readBundle_copyCells; auto.
Qed.

Lemma truthy_array h a : _isArray h a = true → truthy a = true.
Proof. destruct a; try discriminate. reflexivity. Qed.

(** The properties of a cell that can be read as a bundle record. *)
Lemma readBundle_props h l b :
  readBundle h l = Some b →
  ∃ fl fsz,
    (l < length h)%nat
    ∧ getProp h (JRef l) "name" = Some (JStr (name b))
    ∧ getProp h (JRef l) "files" = Some fl ∧ _isArray h fl = true
    ∧ mapM asStr (elems h fl) = Some (files b)
    ∧ getProp h (JRef l) "fileSizes" = Some fsz
    ∧ (fsz = JUndefined ∧ fileSizes b = None
       ∨ _isArray h fsz = true ∧ fileSizes b = Some (elems h fsz)).
Proof.
  unfold readBundle, getProp. intros H.
  destruct (h !! l) as [[es|ps]|] eqn:Hl; try discriminate.
  destruct (ps !! "name") as [[| | | |n|]|] eqn:Hn; try discriminate.
  destruct (ps !! "files") as [[| | | | |lf]|] eqn:Hf; try discriminate.
  destruct (h !! lf) as [[es|ps']|] eqn:Hlf; try discriminate.
  destruct (mapM asStr es) as [fs|] eqn:Hfs; [|discriminate]. simpl in H.
  assert (Ha : _isArray h (JRef lf) = true) by (unfold _isArray; rewrite Hlf; reflexivity).
  assert (He : elems h (JRef lf) = es) by (unfold elems; rewrite Hlf; reflexivity).
  assert (Hlt : (l < length h)%nat) by (eapply lookup_lt_Some, Hl).
  destruct (ps !! "fileSizes") as [[| | | | |ls]|] eqn:Hs; simpl in H; try discriminate.
  - destruct (ps !! "loaded") as [[]|]; simpl in H; try discriminate; injection H as <-;
      exists (JRef lf), JUndefined; simpl; rewrite He; repeat split; auto.
  - destruct (h !! ls) as [[ss|ps']|] eqn:Hls; try discriminate. simpl in H.
    assert (Ha' : _isArray h (JRef ls) = true) by (unfold _isArray; rewrite Hls; reflexivity).
    assert (He' : elems h (JRef ls) = ss) by (unfold elems; rewrite Hls; reflexivity).
    destruct (ps !! "loaded") as [[]|]; simpl in H; try discriminate; injection H as <-;
      exists (JRef lf), (JRef ls); simpl; rewrite He, He'; repeat split; auto.
  - destruct (ps !! "loaded") as [[]|]; simpl in H; try discriminate; injection H as <-;
      exists (JRef lf), JUndefined; simpl; rewrite He; repeat split; auto.
Qed.

(** [getBundle] copies a registered record: the copy has its name, files
    and sizes, and no [loaded]. *)
Lemma copyBundle_record h l b :
  readBundle h l = Some b →
  ∃ cells,
    _copyBundle h (JRef l) = Some (h ++ cells, S (length h))
    ∧ (2 ≤ length cells ≤ 3)%nat
    ∧ ∀ h', readBundle (h ++ cells ++ h') (S (length h)) = Some (set_loaded None b).
Proof.
  intros H. destruct (readBundle_props _ _ _ H) as (fl & fsz & Hl & Hn & Hf & Ha & Hfs & Hs & Hsz).
  exists (copyCells h (JStr (name b)) fl fsz).
  assert (Hsz' : fsz = JUndefined ∨ _isArray h fsz = true) by (destruct Hsz as [[? ?]|[? ?]]; auto).
  split; [apply copyBundle_cells; auto|].
  split.
  { unfold copyCells. destruct (truthy fsz); simpl; lia. }
  intros h'. rewrite (readBundle_copyCells h _ (name b) fl (files b) fsz h' eq_refl Hfs Hsz').
  f_equal. unfold set_loaded. f_equal.
  destruct Hsz as [[-> ->]|[Hfa ->]]; [reflexivity|].
  rewrite (truthy_array _ _ Hfa). reflexivity.
Qed.

(** * The scheduler, piece by piece *)

Lemma doIt_fp t d d' out :
  doIt t d = Some (d', out) → is_Some (tstore d !! t) ∧ body_fp t (noteExec t d) d'.
Proof.
  unfold doIt. intros H.
  destruct (tstore d !! t) as [T|]; simpl in H; [|discriminate].
  split; [eauto|]. destruct (type T).
  - eapply downloadBundle_fp, H.
  - apply removeBundleFiles_fp in H as ->. apply body_fp_refl.
Qed.

Lemma start_fp t i d d' c :
  start t i d = Some (d', c) →
  ∃ d1, is_Some (tstore d !! t) ∧ body_fp t (noteExec t d) d1
        ∧ (c = true ∧ d' = d1
           ∨ c = false ∧ ∃ ph, d' = set_pending (Some (mkPending t i ph)) d1).
Proof.
  unfold start. intros H.
  destruct (doIt t d) as [[d1 out]|] eqn:Hd; simpl in H; [|discriminate].
  apply doIt_fp in Hd as [Ht Hfp]. exists d1. split; [exact Ht|]. split; [exact Hfp|].
  destruct out; injection H as <- <-; eauto.
Qed.

Lemma answer_fp r d d' c :
  answer r d = Some (d', c) →
  ∃ p d1, pending d = Some p ∧ body_fp (p_task p) d d1
          ∧ (c = true ∧ d' = set_pending None d1
             ∨ c = false ∧ ∃ ph, d' = set_pending (Some (mkPending (p_task p) (p_i p) ph)) d1).
Proof.
  unfold answer. intros H.
  destruct (pending d) as [p|]; simpl in H; [|discriminate].
  destruct (callback _ _ _ _) as [[d1 out]|] eqn:Hc; simpl in H; [|discriminate].
  apply callback_fp in Hc. exists p, d1. split; [reflexivity|]. split; [exact Hc|].
  destruct out; injection H as <- <-; eauto.
Qed.

(** ** The references of the queue *)

Lemma ids_ok_sublist d d' :
  tasks d' `sublist_of` tasks d → (length (tstore d) ≤ length (tstore d'))%nat →
  ids_ok d → ids_ok d'.
Proof.
  intros Hs Hl H t Ht. eapply Nat.lt_le_trans; [|exact Hl].
  apply H. eapply elem_of_sublist; eauto.
Qed.

Lemma body_fp_tstore_length t d d' : body_fp t d d' → length (tstore d') = length (tstore d).
Proof. intros [_ _ _ _ _ (g & _ & ->) _ _]. apply length_alter. Qed.

Lemma ids_ok_body t d d' : body_fp t d d' → ids_ok d → ids_ok d'.
Proof.
  intros H. apply ids_ok_sublist.
  - rewrite (bf_tasks _ _ _ H). reflexivity.
  - rewrite (body_fp_tstore_length _ _ _ H). reflexivity.
Qed.

Lemma ids_ok_noteExec t d : ids_ok d → ids_ok (noteExec t d).
Proof. apply ids_ok_sublist; simpl; [reflexivity|]. rewrite length_alter. reflexivity. Qed.

Lemma ids_ok_onComplete t i d : ids_ok d → ids_ok (onComplete t i d).
Proof.
  unfold onComplete, splice. intros H.
  destruct (tstore d !! t) as [T|]; [|exact H].
  destruct (canceled T); [exact H|].
  destruct (failed T); [destruct (retry T); [exact H|]|];
    (eapply ids_ok_sublist; [| |exact H]; simpl; [apply sublist_delete|reflexivity]).
Qed.

Lemma ids_ok_strip d : ids_ok d → ids_ok (strip d).
Proof. apply ids_ok_sublist; simpl; [apply sublist_filter|reflexivity]. Qed.

Lemma ids_ok_markBusy d : ids_ok d → ids_ok (markBusy d).
Proof. unfold markBusy. destruct (doingTasks d); [auto|]. apply ids_ok_sublist; simpl; reflexivity. Qed.

Lemma ids_ok_markIdle d : ids_ok d → ids_ok (markIdle d).
Proof. unfold markIdle. destruct (doingTasks d); [|auto]. apply ids_ok_sublist; simpl; reflexivity. Qed.

Lemma ids_ok_pushTask T d : ids_ok d → ids_ok (pushTask T d).
Proof.
  intros H t Ht. unfold pushTask in *. simpl in *. rewrite length_app. simpl.
  apply elem_of_app in Ht as [Ht|Ht].
  - apply H in Ht. lia.
  - apply list_elem_of_singleton in Ht as ->. lia.
Qed.

(** ** [loop] ends busy with a pending request, or idle with nothing to run *)

Lemma select_None d t :
  select d = None → t ∈ tasks d → isFailed d t = true.
Proof.
  unfold select. intros H Ht.
  pose proof (proj1 (list_find_None _ _) H) as Hall.
  rewrite Forall_forall in Hall. specialize (Hall t Ht).
  destruct (isFailed d t); [reflexivity|contradiction].
Qed.

Lemma select_Some d i t :
  select d = Some (i, t) → tasks d !! i = Some t ∧ isFailed d t = false.
Proof. unfold select. intros H. apply list_find_Some in H as (H1 & H2 & _). auto. Qed.

Lemma strip_elem d t : t ∈ tasks (strip d) → isCanceled d t = false ∧ t ∈ tasks d.
Proof. unfold strip. simpl. intros H. apply list_elem_of_filter in H. exact H. Qed.

Lemma markBusy_doing d : doingTasks (markBusy d) = true.
Proof. unfold markBusy. destruct (doingTasks d) eqn:E; [exact E|reflexivity]. Qed.

Lemma markIdle_doing d : doingTasks (markIdle d) = false.
Proof. unfold markIdle. destruct (doingTasks d) eqn:E; [reflexivity|exact E]. Qed.

Lemma markBusy_fields d :
  tasks (markBusy d) = tasks d ∧ tstore (markBusy d) = tstore d
  ∧ pending (markBusy d) = pending d ∧ heap (markBusy d) = heap d
  ∧ bundles (markBusy d) = bundles d.
Proof. unfold markBusy. destruct (doingTasks d); simpl; auto. Qed.

Lemma markIdle_fields d :
  tasks (markIdle d) = tasks d ∧ tstore (markIdle d) = tstore d
  ∧ pending (markIdle d) = pending d ∧ heap (markIdle d) = heap d
  ∧ bundles (markIdle d) = bundles d.
Proof. unfold markIdle. destruct (doingTasks d); simpl; auto. Qed.

Lemma onComplete_fields t i d :
  tstore (onComplete t i d) = tstore d ∧ pending (onComplete t i d) = pending d
  ∧ doingTasks (onComplete t i d) = doingTasks d ∧ heap (onComplete t i d) = heap d
  ∧ bundles (onComplete t i d) = bundles d ∧ trace (onComplete t i d) = trace d
  ∧ eventQueue (onComplete t i d) = eventQueue d ∧ delivered (onComplete t i d) = delivered d
  ∧ localURLs (onComplete t i d) = localURLs d.
Proof.
  unfold onComplete, splice. destruct (tstore d !! t) as [T|]; [|auto 10].
  destruct (canceled T); [auto 10|]. destruct (failed T); [destruct (retry T)|]; simpl; auto 10.
Qed.

Lemma isFailed_tstore d d' t : tstore d' = tstore d → isFailed d' t = isFailed d t.
Proof. unfold isFailed. intros ->. reflexivity. Qed.

Lemma isCanceled_tstore d d' t : tstore d' = tstore d → isCanceled d' t = isCanceled d t.
Proof. unfold isCanceled. intros ->. reflexivity. Qed.

Lemma loop_post fuel d d' :
  loop fuel d = Some d' → pending d = None → ids_ok d →
  (doingTasks d' = true ↔ is_Some (pending d'))
  ∧ (doingTasks d' = false → ∀ t, t ∈ tasks d' → isFailed d' t = true)
  ∧ ids_ok d'.
Proof.
  revert d. induction fuel as [|fuel IH]; intros d H Hp Hids; [discriminate|].
  simpl in H.
  destruct (select (strip d)) as [[i t]|] eqn:Hsel.
  - destruct (start t i (markBusy (strip d))) as [[d2 c]|] eqn:Hst; [|discriminate].
    apply start_fp in Hst as (d1 & _ & Hfp & Hc).
    assert (Hp1 : pending d1 = None).
    { rewrite (bf_pending _ _ _ Hfp). simpl.
      destruct (markBusy_fields (strip d)) as (_ & _ & -> & _). exact Hp. }
    assert (Hids1 : ids_ok d1).
    { eapply ids_ok_body; [exact Hfp|]. apply ids_ok_noteExec, ids_ok_markBusy, ids_ok_strip, Hids. }
    destruct Hc as [[-> ->]|[-> [ph ->]]].
    + apply IH in H; [exact H| |apply ids_ok_onComplete, Hids1].
      destruct (onComplete_fields t i d1) as (_ & -> & _). exact Hp1.
    + injection H as <-. simpl. split; [|split].
      * rewrite (bf_doing _ _ _ Hfp). simpl. rewrite markBusy_doing. split; eauto.
      * rewrite (bf_doing _ _ _ Hfp). simpl. rewrite markBusy_doing. discriminate.
      * eapply ids_ok_sublist; [| |exact Hids1]; simpl; reflexivity.
  - injection H as <-. destruct (markIdle_fields (strip d)) as (Ht & Hts & Hpe & _).
    split; [|split].
    + rewrite markIdle_doing, Hpe. simpl. rewrite Hp. split; [discriminate|].
      intros [? ?]; discriminate.
    + intros _ t Hin. rewrite Ht in Hin.
      rewrite (isFailed_tstore (strip d) (markIdle (strip d))) by exact Hts.
      eapply select_None; eauto.
    + apply ids_ok_markIdle, ids_ok_strip, Hids.
Qed.

Lemma doTasks_post d d' :
  _doTasks d = Some d' → (doingTasks d = true ↔ is_Some (pending d)) → ids_ok d →
  (doingTasks d = true → d' = d)
  ∧ (doingTasks d' = true ↔ is_Some (pending d'))
  ∧ (doingTasks d = false → doingTasks d' = false → ∀ t, t ∈ tasks d' → isFailed d' t = true)
  ∧ ids_ok d'.
Proof.
  unfold _doTasks, drain. intros H Hq Hids. destruct (doingTasks d) eqn:Hd.
  - injection H as <-. split; [auto|]. split; [rewrite Hd; exact Hq|].
    split; [discriminate|exact Hids].
  - apply loop_post in H; [|destruct (pending d) eqn:E; [|reflexivity];
                             destruct Hq as [_ Hq]; discriminate Hq; eauto|exact Hids].
    destruct H as (H1 & H2 & H3). split; [discriminate|]. auto.
Qed.

(** ** Every step is a sequence of pieces, and ends quiescent *)

Lemma quiescent_frame d d' :
  tasks d' = tasks d → doingTasks d' = doingTasks d → pending d' = pending d →
  length (tstore d') = length (tstore d) →
  (∀ t, isCanceled d t = true → isCanceled d' t = true) →
  (∀ t, isFailed d t = true → isFailed d' t = true) →
  quiescent d → quiescent d'.
Proof.
  intros Ht Hd Hp Hl Hc Hf [Q1 Q2 Q3]. constructor.
  - rewrite Hd, Hp. exact Q1.
  - rewrite Hd, Ht. intros Hi t Hin. destruct (Q2 Hi t Hin); auto.
  - intros t Hin. rewrite Hl. apply Q3. rewrite <- Ht. exact Hin.
Qed.

Lemma isCanceled_abort t d t' :
  isCanceled d t' = true → isCanceled (abort t d) t' = true.
Proof.
  unfold abort, isCanceled. destruct (tstore d !! t) as [T|] eqn:Ht; [|auto]. simpl.
  destruct (decide (t' = t)) as [->|Hne].
  - rewrite list_lookup_alter_eq, Ht. simpl. auto.
  - rewrite list_lookup_alter_ne by congruence. auto.
Qed.

Lemma isFailed_abort t d t' : isFailed (abort t d) t' = isFailed d t'.
Proof.
  unfold abort, isFailed. destruct (tstore d !! t) as [T|] eqn:Ht; [|auto]. simpl.
  destruct (decide (t' = t)) as [->|Hne].
  - rewrite list_lookup_alter_eq, Ht. reflexivity.
  - rewrite list_lookup_alter_ne by congruence. reflexivity.
Qed.

Lemma abort_fields t d :
  tasks (abort t d) = tasks d ∧ doingTasks (abort t d) = doingTasks d
  ∧ pending (abort t d) = pending d ∧ length (tstore (abort t d)) = length (tstore d)
  ∧ heap (abort t d) = heap d ∧ bundles (abort t d) = bundles d
  ∧ trace (abort t d) = trace d ∧ localURLs (abort t d) = localURLs d
  ∧ delivered (abort t d) = delivered d.
Proof.
  unfold abort. destruct (tstore d !! t); simpl; rewrite ?length_alter; auto 10.
Qed.

Lemma quiescent_abort t d : quiescent d → quiescent (abort t d).
Proof.
  destruct (abort_fields t d) as (H1 & H2 & H3 & H4 & _).
  apply quiescent_frame; auto.
  - apply isCanceled_abort.
  - intros t'. rewrite isFailed_abort. auto.
Qed.


Lemma cancelTask_fold bname ty d : _cancelTask bname ty d = cancelFold bname ty (tasks d) d.
Proof. reflexivity. Qed.

Lemma cancelFold_ind (P : DAM → Prop) bname ty ts d :
  (∀ t d, P d → P (abort t d)) → P d → P (cancelFold bname ty ts d).
Proof.
  intros Hstep. revert d. induction ts as [|t ts IH]; intros d Hd; simpl; [exact Hd|].
  apply IH. destruct (tstore d !! t) as [T|]; [|exact Hd].
  destruct (sameTask bname ty T); [apply Hstep|]; exact Hd.
Qed.

Lemma quiescent_cancelTask bname ty d : quiescent d → quiescent (_cancelTask bname ty d).
Proof. rewrite cancelTask_fold. apply cancelFold_ind. intros. apply quiescent_abort; auto. Qed.

Lemma cancelTask_fields bname ty d :
  tasks (_cancelTask bname ty d) = tasks d ∧ doingTasks (_cancelTask bname ty d) = doingTasks d
  ∧ pending (_cancelTask bname ty d) = pending d
  ∧ heap (_cancelTask bname ty d) = heap d ∧ bundles (_cancelTask bname ty d) = bundles d
  ∧ trace (_cancelTask bname ty d) = trace d
  ∧ localURLs (_cancelTask bname ty d) = localURLs d
  ∧ delivered (_cancelTask bname ty d) = delivered d.
Proof.
  rewrite cancelTask_fold.
  apply (cancelFold_ind (fun d' =>
    tasks d' = tasks d ∧ doingTasks d' = doingTasks d ∧ pending d' = pending d
    ∧ heap d' = heap d ∧ bundles d' = bundles d ∧ trace d' = trace d
    ∧ localURLs d' = localURLs d ∧ delivered d' = delivered d)); [|auto 10].
  intros t d' (H1 & H2 & H3 & H4 & H5 & H6 & H7 & H8).
  destruct (abort_fields t d') as (A1 & A2 & A3 & _ & A4 & A5 & A6 & A7 & A8).
  repeat split; congruence.
Qed.


Lemma rearmFold_ind (P : DAM → Prop) ts d :
  (∀ t d, P d → P (updTask rearm t d)) → P d → P (rearmFold ts d).
Proof.
  intros Hstep. revert d. induction ts as [|t ts IH]; intros d Hd; simpl; [exact Hd|].
  apply IH, Hstep, Hd.
Qed.

Lemma rearmAll_fields d :
  tasks (rearmAll d) = tasks d ∧ doingTasks (rearmAll d) = doingTasks d
  ∧ pending (rearmAll d) = pending d ∧ length (tstore (rearmAll d)) = length (tstore d)
  ∧ heap (rearmAll d) = heap d ∧ bundles (rearmAll d) = bundles d
  ∧ trace (rearmAll d) = trace d ∧ localURLs (rearmAll d) = localURLs d.
Proof.
  unfold rearmAll. change (fold_left _ (tasks d) d) with (rearmFold (tasks d) d).
  apply (rearmFold_ind (fun d' =>
    tasks d' = tasks d ∧ doingTasks d' = doingTasks d ∧ pending d' = pending d
    ∧ length (tstore d') = length (tstore d) ∧ heap d' = heap d ∧ bundles d' = bundles d
    ∧ trace d' = trace d ∧ localURLs d' = localURLs d)); [|auto 10].
  intros t d' (H1 & H2 & H3 & H4 & H5 & H6 & H7 & H8). simpl. rewrite length_alter. auto 10.
Qed.

Section Steps.

Variable bundle_ok : bundle → Prop.
Variable reply_ok : DAM → Reply → Prop.

Abbreviation piece := (piece bundle_ok reply_ok).
Abbreviation input_ok := (input_ok bundle_ok reply_ok).

Lemma select_fields d d' :
  tasks d' = tasks d → tstore d' = tstore d → select d' = select d.
Proof.
  unfold select. intros -> Hts. apply list_find_ext. intros t.
  rewrite (isFailed_tstore d d' t Hts). reflexivity.
Qed.

Lemma loop_pieces fuel d d' :
  loop fuel d = Some d' → pending d = None → rtc piece d d'.
Proof.
  revert d. induction fuel as [|fuel IH]; intros d H Hp; [discriminate|].
  simpl in H.
  assert (Hps : pending (strip d) = None) by exact Hp.
  eapply rtc_l; [apply piece_strip, Hp|].
  destruct (select (strip d)) as [[i t]|] eqn:Hsel.
  - destruct (markBusy_fields (strip d)) as (Ht & Hts & Hpe & _).
    eapply rtc_l; [apply piece_busy, Hps|].
    destruct (start t i (markBusy (strip d))) as [[d2 c]|] eqn:Hst; [|discriminate].
    assert (Hpc : piece (markBusy (strip d)) d2).
    { eapply piece_start; [| | | |exact Hst].
      - rewrite Hpe. exact Hps.
      - apply markBusy_doing.
      - rewrite (select_fields (strip d)); auto.
      - rewrite (isCanceled_tstore (strip d)) by exact Hts.
        apply select_Some in Hsel as [Hi _].
        apply list_elem_of_lookup_2, strip_elem in Hi as [Hc _]. exact Hc. }
    eapply rtc_l; [exact Hpc|].
    apply start_fp in Hst as (d1 & _ & Hfp & Hc).
    assert (Hp1 : pending d1 = None).
    { rewrite (bf_pending _ _ _ Hfp). simpl. rewrite Hpe. exact Hps. }
    destruct Hc as [[-> ->]|[-> [ph ->]]].
    + eapply rtc_l; [apply piece_complete, Hp1|].
      apply IH; [exact H|].
      destruct (onComplete_fields t i d1) as (_ & -> & _). exact Hp1.
    + injection H as <-. apply rtc_refl.
  - injection H as <-. apply rtc_once. apply piece_idle; assumption.
Qed.

Lemma doTasks_pieces d d' :
  _doTasks d = Some d' → (doingTasks d = true ↔ is_Some (pending d)) → rtc piece d d'.
Proof.
  unfold _doTasks, drain. intros H Hq. destruct (doingTasks d) eqn:Hd.
  - injection H as <-. apply rtc_refl.
  - eapply loop_pieces; [exact H|].
    destruct (pending d) eqn:E; [|reflexivity]. destruct Hq as [_ Hq]. discriminate Hq; eauto.
Qed.

Lemma cancelTask_pieces bname ty d : rtc piece d (_cancelTask bname ty d).
Proof.
  rewrite cancelTask_fold. generalize (tasks d). intros ts. revert d.
  induction ts as [|t ts IH]; intros d; simpl; [apply rtc_refl|].
  destruct (tstore d !! t) as [T|]; [|apply IH].
  destruct (sameTask bname ty T); [|apply IH].
  eapply rtc_l; [apply piece_abort|apply IH].
Qed.

Lemma rearmAll_pieces d : rtc piece d (rearmAll d).
Proof.
  unfold rearmAll. generalize (tasks d). intros ts. revert d.
  induction ts as [|t ts IH]; intros d; simpl; [apply rtc_refl|].
  eapply rtc_l; [apply piece_rearm|apply IH].
Qed.

(** [_maybeAddTask] from a state that is quiescent. *)
Lemma maybeAddTask_ok bname ty ex d d' :
  _maybeAddTask bname ty ex d = Some d' → quiescent d →
  rtc piece d d' ∧ quiescent d'.
Proof.
  unfold _maybeAddTask. intros H Q. destruct (liveTask bname ty d) eqn:Hlive.
  - injection H as <-. split; [apply rtc_refl|exact Q].
  - destruct Q as [Q1 Q2 Q3].
    assert (Hq : doingTasks (pushTask (newTask bname ty ex) d) = true
                 ↔ is_Some (pending (pushTask (newTask bname ty ex) d))) by exact Q1.
    split.
    + eapply rtc_l; [apply piece_push, Hlive|]. eapply doTasks_pieces; eauto.
    + pose proof (doTasks_post _ _ H Hq (ids_ok_pushTask _ _ Q3)) as (E & P1 & P2 & P3).
      constructor; [exact P1| |exact P3].
      destruct (doingTasks d) eqn:Hd.
      * rewrite (E Hd). simpl. rewrite Hd. discriminate.
      * intros Hd' t Hin. right. apply P2; auto.
Qed.

Lemma quiescent_heap h d : quiescent d → quiescent (set_heap h d).
Proof. apply quiescent_frame; auto. Qed.

Lemma quiescent_register bname copy h d : quiescent d → quiescent (register bname copy h d).
Proof. apply quiescent_frame; auto. Qed.

Lemma quiescent_unregister bname d : quiescent d → quiescent (unregister bname d).
Proof. apply quiescent_frame; auto. Qed.

Lemma quiescent_flush d : quiescent d → quiescent (flushEvents d).
Proof. apply quiescent_frame; auto. Qed.

Lemma heap_le_copyBundle h v h' copy :
  _copyBundle h v = Some (h', copy) → ∃ cells, h' = h ++ cells.
Proof.
  unfold _copyBundle, slice, alloc. intros H.
  destruct (getProp h v "name") as [nm|]; simpl in H; [|discriminate].
  destruct (getProp h v "files") as [fl|]; simpl in H; [|discriminate].
  destruct (_isArray h fl); simpl in H; [|discriminate].
  destruct (getProp _ v "fileSizes") as [fsz|]; simpl in H; [|discriminate].
  destruct (truthy fsz).
  - destruct (_isArray _ fsz); simpl in H; [|discriminate].
    injection H as <- <-. unfold setProp.
    destruct (_ !! length (h ++ [JArray (elems h fl)])) as [[|ps]|] eqn:Hc.
    + rewrite <- !app_assoc. eauto.
    + rewrite <- !app_assoc. rewrite insert_app_r_alt by (rewrite length_app; lia). eauto.
    + rewrite <- !app_assoc. eauto.
  - injection H as <- <-. rewrite <- app_assoc. eauto.
Qed.

Lemma addBundle_ok v d r d' :
  addBundle v d = Some (r, d') → quiescent d →
  (∀ h copy b, _copyBundle (heap d) v = Some (h, copy) →
               readBundle (setProp h copy "loaded" (JBool false)) copy = Some b →
               bundle_ok b) →
  rtc piece d d' ∧ quiescent d'.
Proof.
  unfold addBundle. intros H Q Hin.
  destruct (_malformedBundle (heap d) v) as [[|]|e] eqn:Hm;
    try (injection H as <- <-; split; [apply rtc_refl|exact Q]).
  destruct (copyBundle_validated _ _ Hm)
    as (l & n & fl & fsz & fs & -> & Hl & Hn & Hf & Ha & Hs & Hsz & Hfs & Hfs' & Hcopy & Hread).
  rewrite Hn in H. simpl in H.
  destruct (bundles d !! n) as [l0|] eqn:Hreg.
  { injection H as <- <-. split; [apply rtc_refl|exact Q]. }
  destruct (String.eqb n "__proto__"); [discriminate|].
  rewrite Hcopy in H. simpl in H.
  destruct (_maybeAddTask n TASK_TYPE_LOAD None _) as [d3|] eqn:Hadd; simpl in H; [|discriminate].
  injection H as <- <-.
  set (h1 := setProp (heap d ++ copyCells (heap d) (JStr n) fl fsz) (S (length (heap d)))
               "loaded" (JBool false)) in *.
  assert (Hrd : readBundle h1 (S (length (heap d)))
                = Some (Bundle n fs (if truthy fsz then Some (elems (heap d) fsz) else None)
                          (Some false))).
  { unfold h1. specialize (Hread []). rewrite app_nil_r in Hread.
    rewrite (readBundle_setProp_loaded _ _ _ _ _ Hread).
    destruct (decide _); [reflexivity|contradiction]. }
  apply maybeAddTask_ok in Hadd as [Hp Hq];
    [|apply quiescent_cancelTask, quiescent_register, Q].
  split; [|exact Hq].
  eapply rtc_l; [|eapply rtc_trans; [apply cancelTask_pieces|exact Hp]].
  eapply piece_register; eauto.
  - apply heap_le_copyCells. lia.
  - intros ss Hss. simpl in *. destruct Hsz as [->|[Hfa Hlen]]; [discriminate|].
    rewrite (truthy_array _ _ Hfa) in Hss. injection Hss as <-.
    rewrite Hlen, <- Hfs', length_fmap. reflexivity.
Qed.

Lemma removeBundle_ok bname d d' :
  removeBundle bname d = Some d' → quiescent d → rtc piece d d' ∧ quiescent d'.
Proof.
  unfold removeBundle. intros H Q.
  destruct (bundles d !! bname) as [l|]; [|injection H as <-; split; [apply rtc_refl|exact Q]].
  apply maybeAddTask_ok in H as [Hp Hq];
    [|apply quiescent_cancelTask, quiescent_unregister, Q].
  split; [|exact Hq].
  eapply rtc_l; [apply piece_unregister|].
  eapply rtc_trans; [apply cancelTask_pieces|exact Hp].
Qed.

Lemma getBundle_ok bname d r d' :
  getBundle bname d = Some (r, d') → quiescent d → rtc piece d d' ∧ quiescent d'.
Proof.
  unfold getBundle. intros H Q.
  destruct (bundles d !! bname) as [l|]; [|injection H as <- <-; split; [apply rtc_refl|exact Q]].
  destruct (_copyBundle (heap d) (JRef l)) as [[h copy]|] eqn:Hc; simpl in H; [|discriminate].
  injection H as <- <-. split; [|apply quiescent_heap, Q].
  apply rtc_once, piece_heap. apply heap_le_copyBundle in Hc as [cells ->]. apply heap_le_app.
Qed.

Lemma kickStartTasks_ok d d' :
  kickStartTasks d = Some d' → quiescent d → rtc piece d d' ∧ quiescent d'.
Proof.
  unfold kickStartTasks. intros H [Q1 Q2 Q3].
  destruct (rearmAll_fields d) as (Ht & Hd & Hp & Hl & _).
  assert (Hq : doingTasks (rearmAll d) = true ↔ is_Some (pending (rearmAll d)))
    by (rewrite Hd, Hp; exact Q1).
  assert (Hids : ids_ok (rearmAll d)).
  { intros t Hin. rewrite Hl. apply Q3. rewrite <- Ht. exact Hin. }
  split.
  - eapply rtc_trans; [apply rearmAll_pieces|]. eapply doTasks_pieces; eauto.
  - pose proof (doTasks_post _ _ H Hq Hids) as (E & P1 & P2 & P3).
    constructor; [exact P1| |exact P3].
    destruct (doingTasks d) eqn:Hd0.
    + rewrite (E Hd), Hd. discriminate.
    + intros Hd' t Hin. right. apply P2; auto.
Qed.

Lemma resume_ok r d d' :
  resume r d = Some d' → quiescent d → reply_ok d r → rtc piece d d' ∧ quiescent d'.
Proof.
  unfold resume. intros H [Q1 Q2 Q3] Hr.
  destruct (pending d) as [p|] eqn:Hp; simpl in H; [|discriminate].
  destruct (answer r d) as [[d1 c]|] eqn:Ha; [|discriminate].
  pose proof (piece_answer bundle_ok reply_ok _ _ _ _ Hr Ha) as Hpc.
  apply answer_fp in Ha as (p' & d0 & Hp' & Hfp & Hc).
  assert (Hids : ids_ok d0) by (eapply ids_ok_body; eauto).
  destruct Hc as [[-> ->]|[-> [ph ->]]].
  - assert (Hpn : pending (onComplete (p_task p) (p_i p) (set_pending None d0)) = None).
    { destruct (onComplete_fields (p_task p) (p_i p) (set_pending None d0)) as (_ & -> & _).
      reflexivity. }
    split.
    + eapply rtc_l; [exact Hpc|]. eapply rtc_l; [apply piece_complete; reflexivity|].
      eapply loop_pieces; eauto.
    + apply loop_post in H as (P1 & P2 & P3); [|exact Hpn|].
      * constructor; auto.
      * apply ids_ok_onComplete. eapply ids_ok_sublist; [| |exact Hids]; simpl; reflexivity.
  - injection H as <-. split; [apply rtc_once, Hpc|].
    assert (Hd : doingTasks d0 = true).
    { rewrite (bf_doing _ _ _ Hfp). apply Q1. eauto. }
    constructor; simpl.
    + rewrite Hd. split; eauto.
    + rewrite Hd. discriminate.
    + eapply ids_ok_sublist; [| |exact Hids]; simpl; reflexivity.
Qed.

(** Every step from a quiescent state is a sequence of pieces and ends in
    a quiescent state. *)
Lemma step_ok i d d' :
  step i d = Some d' → quiescent d → input_ok d i → rtc piece d d' ∧ quiescent d'.
Proof.
  destruct i as [objs v|bname|bname| | |r]; simpl; intros H Q Hin.
  - destruct (addBundle v (set_heap (heap d ++ objs) d)) as [[r d1]|] eqn:Ha; [|discriminate].
    injection H as <-.
    apply addBundle_ok in Ha as [Hp Hq]; [|apply quiescent_heap, Q|exact Hin].
    split; [|exact Hq].
    eapply rtc_l; [apply piece_heap, heap_le_app|exact Hp].
  - eapply removeBundle_ok; eauto.
  - destruct (getBundle bname d) as [[r d1]|] eqn:Hg; [|discriminate].
    injection H as <-. eapply getBundle_ok; eauto.
  - destruct (eventTimer d); [|discriminate]. injection H as <-.
    split; [apply rtc_once, piece_flush|apply quiescent_flush, Q].
  - apply kickStartTasks_ok; auto.
  - eapply resume_ok; eauto.
Qed.

End Steps.

Lemma quiescent_new : quiescent newDAM.
Proof.
  constructor; simpl.
  - split; [discriminate|]. intros [? ?]; discriminate.
  - intros _ t Ht. apply elem_of_nil in Ht. contradiction.
  - intros t Ht. apply elem_of_nil in Ht. contradiction.
Qed.

Lemma reachable_quiescent d : reachable d → quiescent d.
Proof.
  induction 1 as [|i d d' _ IH Hstep]; [apply quiescent_new|].
  eapply (step_ok (fun _ => True) (fun _ _ => True)); eauto.
  destruct i; simpl; auto.
Qed.

(** An invariant that every piece keeps holds in every reachable state. *)
Lemma reachable_pieces (P : DAM → Prop) :
  P newDAM →
  (∀ d d', P d → piece (fun _ => True) (fun _ _ => True) d d' → P d') →
  ∀ d, reachable d → P d.
Proof.
  intros Hnew Hpiece d Hr. induction Hr as [|i d d' Hr IH Hstep]; [exact Hnew|].
  assert (Hq := reachable_quiescent _ Hr).
  destruct (step_ok (fun _ => True) (fun _ _ => True) i d d' Hstep Hq) as [Hp _].
  { destruct i; simpl; auto. }
  clear Hstep Hq Hr. induction Hp as [|x y z Hxy _ IHp]; [exact IH|].
  apply IHp. eapply Hpiece; eauto.
Qed.

(** * What a run of a task body adds to the trace *)

Ltac conjs := repeat match goal with |- _ ∧ _ => split end.

Lemma flagsOnly_keyOnly g : flagsOnly g → keyOnly g.
Proof. intros H T. destruct (H T) as (?&?&?&?&?). auto. Qed.

Lemma start_summary t i d d' c :
  start t i d = Some (d', c) →
  ∃ T g evs,
    tstore d !! t = Some T
    ∧ tasks d' = tasks d ∧ doingTasks d' = doingTasks d ∧ bundles d' = bundles d
    ∧ delivered d' = delivered d
    ∧ keyOnly g ∧ attempts (g T) = S (attempts T) ∧ tstore d' = alter g t (tstore d)
    ∧ Forall (fun e => is_Some (event_name e)) evs
    ∧ trace d' = trace d ++ Exec t :: map (Sent (Some (t, S (attempts T)))) evs
    ∧ eventQueue d' = eventQueue d ++ map (pair (Some (t, S (attempts T)))) evs
    ∧ heap_le (heap d) (heap d')
    ∧ (if c then pending d' = pending d
       else ∃ ph, pending d' = Some (mkPending t i ph)).
Proof.
  intros H. apply start_fp in H as (d1 & [T HT] & Hfp & Hc).
  destruct Hfp as [A1 A2 A3 A4 A5 (g & Hg & A6) (evs & He & A7 & A8) A9].
  assert (Htag : tagOf t (noteExec t d) = Some (t, S (attempts T))).
  { unfold tagOf, noteExec. simpl. rewrite list_lookup_alter_eq, HT. reflexivity. }
  rewrite Htag in A7, A8.
  exists T, (g ∘ (fun T => set_attempts (S (attempts T)) T)), evs.
  assert (Hk : keyOnly (g ∘ (fun T => set_attempts (S (attempts T)) T))).
  { intros T0. destruct (Hg (set_attempts (S (attempts T0)) T0)) as (?&?&?&?&?). simpl. auto. }
  assert (Hat : attempts ((g ∘ (fun T => set_attempts (S (attempts T)) T)) T) = S (attempts T)).
  { destruct (Hg (set_attempts (S (attempts T)) T)) as (_&_&_&_&Ha). simpl. rewrite Ha.
    reflexivity. }
  assert (Hts : tstore d1 = alter (g ∘ (fun T => set_attempts (S (attempts T)) T)) t (tstore d)).
  { rewrite A6. simpl. apply list_alter_alter_eq. }
  assert (Htr : trace d1 = trace d ++ Exec t :: map (Sent (Some (t, S (attempts T)))) evs).
  { rewrite A7. simpl. rewrite <- app_assoc. reflexivity. }
  destruct Hc as [[-> ->]|[-> [ph ->]]]; simpl; conjs; auto; eauto.
Qed.

Lemma answer_summary r d d' c :
  answer r d = Some (d', c) →
  ∃ p g evs,
    pending d = Some p
    ∧ tasks d' = tasks d ∧ doingTasks d' = doingTasks d ∧ bundles d' = bundles d
    ∧ delivered d' = delivered d
    ∧ flagsOnly g ∧ tstore d' = alter g (p_task p) (tstore d)
    ∧ Forall (fun e => is_Some (event_name e)) evs
    ∧ trace d' = trace d ++ map (Sent (tagOf (p_task p) d)) evs
    ∧ eventQueue d' = eventQueue d ++ map (pair (tagOf (p_task p) d)) evs
    ∧ heap_le (heap d) (heap d')
    ∧ (if c then pending d' = None
       else ∃ ph, pending d' = Some (mkPending (p_task p) (p_i p) ph)).
Proof.
  intros H. apply answer_fp in H as (p & d1 & Hp & Hfp & Hc).
  destruct Hfp as [A1 A2 A3 A4 A5 (g & Hg & A6) (evs & He & A7 & A8) A9].
  exists p, g, evs.
  destruct Hc as [[-> ->]|[-> [ph ->]]]; simpl; conjs; auto; eauto.
Qed.

(** * C4: at most one live task for a bundle and a type *)


Lemma liveKey_alter g t ts d t' :
  keyOnly g → tstore d = ts → liveKey (set_tstore (alter g t ts) d) t' = liveKey d t'.
Proof.
  intros Hg <-. unfold liveKey. simpl.
  destruct (decide (t' = t)) as [->|Hne].
  - rewrite list_lookup_alter_eq. destruct (tstore d !! t) as [T|]; [|reflexivity]. simpl.
    destruct (Hg T) as (-> & -> & _ & ->). reflexivity.
  - rewrite list_lookup_alter_ne by congruence. reflexivity.
Qed.

Lemma omap_ext_in {A B} (f g : A → option B) (l : list A) :
  (∀ x, x ∈ l → f x = g x) → omap f l = omap g l.
Proof.
  induction l as [|a l IH]; intros H; [reflexivity|].
  assert (E : omap f l = omap g l).
  { apply IH. intros x Hx. apply H. apply list_elem_of_further, Hx. }
  change (omap f (a :: l)) with (match f a with Some y => y :: omap f l | None => omap f l end).
  change (omap g (a :: l)) with (match g a with Some y => y :: omap g l | None => omap g l end).
  rewrite (H a) by apply list_elem_of_here. rewrite E. reflexivity.
Qed.

Lemma liveKeys_ext d d' :
  tasks d' = tasks d → (∀ t, liveKey d' t = liveKey d t) → liveKeys d' = liveKeys d.
Proof.
  unfold liveKeys. intros -> H. apply omap_ext_in. intros t _. apply H.
Qed.

Lemma liveKey_tstore d d' t : tstore d' = tstore d → liveKey d' t = liveKey d t.
Proof. unfold liveKey. intros ->. reflexivity. Qed.

Lemma omap_sublist {A B} (f f' : A → option B) (l l' : list A) :
  l' `sublist_of` l → (∀ x, f' x = f x ∨ f' x = None) →
  omap f' l' `sublist_of` omap f l.
Proof.
  intros Hs Hf. induction Hs as [|x l1 l2 _ IH|x l1 l2 _ IH]; simpl.
  - constructor.
  - destruct (Hf x) as [->| ->].
    + destruct (f x); [constructor|]; exact IH.
    + destruct (f x); [apply sublist_cons|]; exact IH.
  - destruct (f x); [apply sublist_cons|]; exact IH.
Qed.

Lemma live_inv_sub d d' :
  tasks d' `sublist_of` tasks d → (length (tstore d) ≤ length (tstore d'))%nat →
  (∀ t, liveKey d' t = liveKey d t ∨ liveKey d' t = None) →
  live_inv d → live_inv d'.
Proof.
  intros Hs Hl Hk [H1 H2]. split; [eapply ids_ok_sublist; eauto|].
  assert (Hsub : liveKeys d' `sublist_of` liveKeys d).
  { apply (omap_sublist (liveKey d) (liveKey d')); assumption. }
  exact (sublist_NoDup _ _ H2 Hsub).
Qed.

Lemma live_inv_alter g t d d' :
  keyOnly g → tasks d' = tasks d → tstore d' = alter g t (tstore d) →
  live_inv d → live_inv d'.
Proof.
  intros Hg Ht Hts. apply live_inv_sub.
  - rewrite Ht. reflexivity.
  - rewrite Hts, length_alter. reflexivity.
  - intros t'. left. rewrite <- (liveKey_alter g t (tstore d) d t' Hg eq_refl).
    apply liveKey_tstore. simpl. exact Hts.
Qed.

Lemma liveKey_abort t d t' :
  liveKey (abort t d) t' = liveKey d t' ∨ liveKey (abort t d) t' = None.
Proof.
  unfold abort, liveKey. destruct (tstore d !! t) as [T|] eqn:Ht; [|auto]. simpl.
  destruct (decide (t' = t)) as [->|Hne].
  - rewrite list_lookup_alter_eq, Ht. simpl. auto.
  - rewrite list_lookup_alter_ne by congruence. auto.
Qed.

Lemma liveTask_false bname ty d :
  liveTask bname ty d = false → (bname, ty) ∉ liveKeys d.
Proof.
  unfold liveTask, liveKeys. intros H Hin.
  apply list_elem_of_omap in Hin as (t & Ht & Hk).
  assert (Hex : existsb (fun t => match tstore d !! t with
                                  | Some T => sameTask bname ty T && negb (canceled T)
                                  | None => false end) (tasks d) = true).
  { apply existsb_exists. exists t. split; [apply list_elem_of_In, Ht|].
    unfold liveKey in Hk. destruct (tstore d !! t) as [T|]; [|discriminate]. simpl in Hk.
    destruct (canceled T); [discriminate|]. injection Hk as <- <-.
    unfold sameTask. rewrite !bool_decide_eq_true_2 by reflexivity. reflexivity. }
  congruence.
Qed.

Lemma live_inv_push bname ty ex d :
  liveTask bname ty d = false → live_inv d → live_inv (pushTask (newTask bname ty ex) d).
Proof.
  intros Hlive [H1 H2]. split; [apply ids_ok_pushTask, H1|].
  unfold liveKeys, pushTask. simpl. rewrite omap_app. simpl.
  assert (Hold : omap (liveKey (set_tasks (tasks d ++ [length (tstore d)])
                                  (set_tstore (tstore d ++ [newTask bname ty ex]) d))) (tasks d)
                 = liveKeys d).
  { unfold liveKeys. apply omap_ext_in. intros t Ht. unfold liveKey. simpl.
    rewrite lookup_app_l by (apply H1; exact Ht). reflexivity. }
  rewrite Hold. unfold liveKey at 1. simpl.
  rewrite lookup_app_r by lia. rewrite Nat.sub_diag. simpl.
  apply NoDup_app. split; [exact H2|]. split; [|apply NoDup_singleton].
  intros k Hk Hin. apply list_elem_of_singleton in Hin as ->.
  eapply liveTask_false; eauto.
Qed.

Lemma live_inv_piece P R d d' : live_inv d → piece P R d d' → live_inv d'.
Proof.
  intros Hinv Hp. destruct Hp.
  - revert Hinv. apply live_inv_sub; simpl; auto.
  - revert Hinv. apply live_inv_sub; simpl; auto.
  - revert Hinv. apply live_inv_sub; simpl; auto.
  - revert Hinv. destruct (abort_fields t d) as (Ht & _ & _ & Hl & _).
    apply live_inv_sub; [rewrite Ht; reflexivity|rewrite Hl; reflexivity|apply liveKey_abort].
  - apply live_inv_push; assumption.
  - revert Hinv. apply (live_inv_alter rearm t); [apply flagsOnly_keyOnly, flagsOnly_rearm| |];
      reflexivity.
  - revert Hinv. apply live_inv_sub; simpl; auto. apply sublist_filter.
  - revert Hinv. destruct (markBusy_fields d) as (Ht & Hts & _).
    apply live_inv_sub; [rewrite Ht; reflexivity|rewrite Hts; reflexivity|].
    intros t. left. apply liveKey_tstore, Hts.
  - revert Hinv. destruct (markIdle_fields d) as (Ht & Hts & _).
    apply live_inv_sub; [rewrite Ht; reflexivity|rewrite Hts; reflexivity|].
    intros t. left. apply liveKey_tstore, Hts.
  - match goal with H : start _ _ _ = Some _ |- _ =>
      apply start_summary in H as (T & g & evs & _ & Ht & _ & _ & _ & Hg & _ & Hts & _) end.
    revert Hinv. apply (live_inv_alter g t); assumption.
  - match goal with H : answer _ _ = Some _ |- _ =>
      apply answer_summary in H as (p & g & evs & _ & Ht & _ & _ & _ & Hg & Hts & _) end.
    revert Hinv. apply (live_inv_alter g (p_task p)); [apply flagsOnly_keyOnly| |]; assumption.
  - revert Hinv. destruct (onComplete_fields t i d) as (Hts & _).
    apply live_inv_sub; [|rewrite Hts; reflexivity|intros t'; left; apply liveKey_tstore, Hts].
    unfold onComplete, splice. destruct (tstore d !! t) as [T|]; [|reflexivity].
    destruct (canceled T); [reflexivity|].
    destruct (failed T); [destruct (retry T); [reflexivity|]|]; apply sublist_delete.
  - revert Hinv. apply live_inv_sub; simpl; auto.
Qed.

Lemma NoDup_omap_lookup {A B} (f : A → option B) (l : list A) i j x y k :
  NoDup (omap f l) → l !! i = Some x → l !! j = Some y → f x = Some k → f y = Some k → i = j.
Proof.
  revert i j. induction l as [|a l IH]; intros i j Hnd Hi Hj Hx Hy; [discriminate|].
  simpl in Hnd.
  assert (Hin : ∀ n z, l !! n = Some z → f z = Some k → k ∈ omap f l).
  { intros n z Hn Hz. apply list_elem_of_omap. exists z. split; [|exact Hz].
    eapply list_elem_of_lookup_2, Hn. }
  assert (Htl : NoDup (omap f l)).
  { destruct (f a); [apply NoDup_cons in Hnd as [_ ?]|]; assumption. }
  destruct i as [|i], j as [|j]; simpl in Hi, Hj.
  - reflexivity.
  - injection Hi as ->. rewrite Hx in Hnd. apply NoDup_cons in Hnd as [Hn _].
    exfalso. apply Hn. eapply Hin; eauto.
  - injection Hj as ->. rewrite Hy in Hnd. apply NoDup_cons in Hnd as [Hn _].
    exfalso. apply Hn. eapply Hin; eauto.
  - f_equal. eapply IH; eauto.
Qed.

Lemma live_inv_unique d : live_inv d → unique_live d.
Proof.
  intros [_ Hnd] i j ti tj Ti Tj Hi Hj HTi HTj Hci Hcj Hn Hty.
  eapply (NoDup_omap_lookup (liveKey d) (tasks d) i j ti tj (bundleName Ti, type Ti));
    eauto; unfold liveKey.
  - rewrite HTi. simpl. rewrite Hci. reflexivity.
  - rewrite HTj. simpl. rewrite Hcj, Hn, Hty. reflexivity.
Qed.

Lemma reachable_live_inv d : reachable d → live_inv d.
Proof.
  apply reachable_pieces.
  - split; [intros t Ht; apply elem_of_nil in Ht; contradiction|constructor].
  - intros. eapply live_inv_piece; eauto.
Qed.

Lemma existsb_pointwise {A} (f g : A → bool) (l : list A) :
  (∀ x, f x = g x) → existsb f l = existsb g l.
Proof. intros H. induction l as [|a l IH]; simpl; [reflexivity|]. rewrite H, IH. reflexivity. Qed.

Lemma liveTask_frame b ty d d' :
  tasks d' = tasks d → tstore d' = tstore d → liveTask b ty d' = liveTask b ty d.
Proof. unfold liveTask. intros -> ->. reflexivity. Qed.

Lemma sameTask_other b ty ty' T : ty ≠ ty' → sameTask b ty' T = true → sameTask b ty T = false.
Proof.
  unfold sameTask. intros Hne H. apply andb_true_iff in H as [_ H].
  apply bool_decide_eq_true in H. apply andb_false_iff. right.
  apply bool_decide_eq_false. congruence.
Qed.

Lemma liveTask_abort_other b ty t d T :
  tstore d !! t = Some T → sameTask b ty T = false →
  liveTask b ty (abort t d) = liveTask b ty d.
Proof.
  intros HT Hs. unfold abort. rewrite HT. unfold liveTask. simpl.
  apply existsb_pointwise. intros t'. destruct (decide (t' = t)) as [->|Hne].
  - rewrite list_lookup_alter_eq, HT. simpl.
    change (sameTask b ty (set_canceled true T)) with (sameTask b ty T). rewrite Hs. reflexivity.
  - rewrite list_lookup_alter_ne by congruence. reflexivity.
Qed.

Lemma cancelFold_ind_same (P : DAM → Prop) bname ty ts d :
  (∀ t d T, tstore d !! t = Some T → sameTask bname ty T = true → P d → P (abort t d)) →
  P d → P (cancelFold bname ty ts d).
Proof.
  intros Hstep. revert d. induction ts as [|t ts IH]; intros d Hd; simpl; [exact Hd|].
  apply IH. destruct (tstore d !! t) as [T|] eqn:HT; [|exact Hd].
  destruct (sameTask bname ty T) eqn:Hs; [eapply Hstep; eauto|exact Hd].
Qed.

Lemma liveTask_cancel_other b ty ty' d :
  ty ≠ ty' → liveTask b ty (_cancelTask b ty' d) = liveTask b ty d.
Proof.
  intros Hne. rewrite cancelTask_fold.
  apply (cancelFold_ind_same (fun d' => liveTask b ty d' = liveTask b ty d)); [|reflexivity].
  intros t d' T HT Hs <-. eapply liveTask_abort_other; [exact HT|].
  eapply sameTask_other; eauto.
Qed.

Lemma cancelTask_length bname ty d : length (tstore (_cancelTask bname ty d)) = length (tstore d).
Proof.
  rewrite cancelTask_fold.
  apply (cancelFold_ind (fun d' => length (tstore d') = length (tstore d))); [|reflexivity].
  intros t d' <-. apply abort_fields.
Qed.

Lemma run_reachable ins : ∀ d d', reachable d → run ins d = Some d' → reachable d'.
Proof.
  induction ins as [|i ins IH]; simpl; intros d d' Hr H.
  - injection H as <-. exact Hr.
  - destruct (step i d) as [d1|] eqn:Hs; [|discriminate]. simpl in H.
    eapply IH; [|exact H]. eapply reachable_step; eauto.
Qed.

(** A second Load task for a bundle that has a live one is not created by
    [addBundle], whether or not the bundle is registered. *)
Lemma addBundle_live_load objs v bname d :
  wellFormed (heap d ++ objs) v → getProp (heap d ++ objs) v "name" = Some (JStr bname) →
  bname ≠ "__proto__" →
  liveTask bname TASK_TYPE_LOAD d = true →
  ∃ d', step (CallAddBundle objs v) d = Some d' ∧ tasks d' = tasks d
        ∧ length (tstore d') = length (tstore d).
Proof.
  intros Hwf Hn Hnp Hlive. simpl. unfold addBundle. simpl.
  destruct (malformedBundle_wellFormed _ _ Hwf) as (l & -> & Hm). rewrite Hm, Hn. simpl.
  destruct (bundles d !! bname) eqn:Hb; simpl.
  - eexists. split; [reflexivity|]. split; reflexivity.
  - apply String.eqb_neq in Hnp. rewrite Hnp.
    destruct (copyBundle_validated _ _ Hm)
      as (l' & n & fl & fsz & fs & _ & _ & _ & _ & _ & _ & _ & _ & _ & Hc & _).
    rewrite Hc. simpl.
    set (d1 := register bname _ _ _).
    assert (H1 : liveTask bname TASK_TYPE_LOAD (_cancelTask bname TASK_TYPE_REMOVE d1) = true).
    { rewrite liveTask_cancel_other by discriminate. rewrite <- Hlive.
      apply liveTask_frame; reflexivity. }
    unfold _maybeAddTask. rewrite H1. simpl. eexists. split; [reflexivity|].
    destruct (cancelTask_fields bname TASK_TYPE_REMOVE d1) as (Ht & _).
    rewrite Ht, cancelTask_length. split; reflexivity.
Qed.

(** C4: in every state the manager can reach, two places of the task list
    that hold non-canceled tasks of the same bundle and type are the same
    place; [_maybeAddTask] for a bundle and type that has a live task
    returns the manager as it is; and [addBundle] of a well-formed bundle
    (not named [__proto__]) whose Load task is live returns with the task
    list as it was and no Task object created. *)
Theorem C4_one_live_task_per_bundle_and_type (d : DAM) :
  reachable d →
  unique_live d
  ∧ (∀ bname ty ex, liveTask bname ty d = true → _maybeAddTask bname ty ex d = Some d)
  ∧ (∀ objs v bname,
       wellFormed (heap d ++ objs) v →
       getProp (heap d ++ objs) v "name" = Some (JStr bname) →
       bname ≠ "__proto__" →
       liveTask bname TASK_TYPE_LOAD d = true →
       ∃ d', step (CallAddBundle objs v) d = Some d' ∧ tasks d' = tasks d
             ∧ length (tstore d') = length (tstore d)).
Proof.
  intros Hr. split; [apply live_inv_unique, reachable_live_inv, Hr|]. split.
  - intros bname ty ex H. unfold _maybeAddTask. rewrite H. reflexivity.
  - intros objs v bname. apply addBundle_live_load.
Qed.

Lemma C4_witness :
  reachable ex_mid
  ∧ unique_live ex_mid
  ∧ (∀ bname ty ex, liveTask bname ty ex_mid = true → _maybeAddTask bname ty ex ex_mid = Some ex_mid)
  ∧ (∀ objs v bname,
       wellFormed (heap ex_mid ++ objs) v →
       getProp (heap ex_mid ++ objs) v "name" = Some (JStr bname) →
       bname ≠ "__proto__" →
       liveTask bname TASK_TYPE_LOAD ex_mid = true →
       ∃ d', step (CallAddBundle objs v) ex_mid = Some d' ∧ tasks d' = tasks ex_mid
             ∧ length (tstore d') = length (tstore ex_mid)).
Proof.
  assert (Hr : reachable ex_mid).
  { apply (run_reachable ex_calls newDAM); [apply reachable_new|vm_compute; reflexivity]. }
  split; [exact Hr|]. apply (C4_one_live_task_per_bundle_and_type ex_mid Hr).
Defined.

(** * C8: the busy and not-busy events *)

Lemma busy_scan_app b tr tr' :
  busy_scan b (tr ++ tr') = busy_scan b tr ≫= fun b' => busy_scan b' tr'.
Proof.
  revert b. induction tr as [|o tr IH]; intros b; [reflexivity|].
  destruct o as [tag e|t]; simpl.
  - destruct e; simpl; try apply IH; destruct b; simpl; try reflexivity; apply IH.
  - destruct b; [apply IH|reflexivity].
Qed.

Lemma busy_scan_named b tag evs :
  Forall (fun e => is_Some (event_name e)) evs → busy_scan b (map (Sent tag) evs) = Some b.
Proof.
  induction 1 as [|e evs He _ IH]; [reflexivity|].
  destruct e; simpl; try exact IH; destruct He; discriminate.
Qed.

Lemma sentEvents_app tr tr' : sentEvents (tr ++ tr') = sentEvents tr ++ sentEvents tr'.
Proof. apply omap_app. Qed.

Lemma sentEvents_map tag evs : sentEvents (map (Sent tag) evs) = evs.
Proof. induction evs as [|e evs IH]; [reflexivity|]. simpl. f_equal. exact IH. Qed.

Lemma globals_app es es' : globals (es ++ es') = globals es ++ globals es'.
Proof. apply filter_app. Qed.

Lemma globals_cons e es :
  globals (e :: es) = if decide (event_name e = None) then e :: globals es else globals es.
Proof. unfold globals. rewrite filter_cons. reflexivity. Qed.

Lemma globals_named evs : Forall (fun e => is_Some (event_name e)) evs → globals evs = [].
Proof.
  induction 1 as [|e evs He _ IH]; [reflexivity|].
  rewrite globals_cons. destruct (decide (event_name e = None)) as [E|_].
  - rewrite E in He. destruct He; discriminate.
  - exact IH.
Qed.

Lemma snd_map_pair (tag : Tag) (evs : list Event) : (map (pair tag) evs).*2 = evs.
Proof. induction evs as [|e evs IH]; [reflexivity|]. simpl. f_equal. exact IH. Qed.

Lemma globals_purge bname (q : list (Tag * Event)) :
  globals (filter (fun qe : Tag * Event => event_name qe.2 ≠ Some bname) q).*2 = globals q.*2.
Proof.
  induction q as [|[tag e] q IH]; [reflexivity|].
  rewrite filter_cons.
  destruct (decide (event_name (tag, e).2 ≠ Some bname)) as [Hn|Hn];
    rewrite !fmap_cons, !globals_cons, IH; cbn [snd] in *; [reflexivity|].
  destruct (decide (event_name e = None)) as [E|_]; [|reflexivity].
  exfalso. apply Hn. rewrite E. discriminate.
Qed.

(** What appending the events of a task body does to the invariant. *)
Lemma busy_inv_body d d' tag tr evs :
  doingTasks d' = doingTasks d → delivered d' = delivered d →
  Forall (fun e => is_Some (event_name e)) evs →
  trace d' = trace d ++ tr ++ map (Sent tag) evs →
  busy_scan (doingTasks d) tr = Some (doingTasks d) → sentEvents tr = [] →
  eventQueue d' = eventQueue d ++ map (pair tag) evs →
  busy_inv d → busy_inv d'.
Proof.
  intros Hd Hdel He Htr Hscan Hsent Hq [H1 H2]. split.
  - unfold busy_ok in *. rewrite Htr, Hd, busy_scan_app, H1. simpl.
    rewrite busy_scan_app, Hscan. simpl.
    apply busy_scan_named, He.
  - rewrite Htr, Hq, Hdel, !sentEvents_app, Hsent, sentEvents_map. simpl.
    rewrite app_assoc, fmap_app, !globals_app, H2, snd_map_pair. reflexivity.
Qed.

Lemma busy_inv_frame d d' :
  doingTasks d' = doingTasks d → trace d' = trace d →
  globals (delivered d' ++ eventQueue d').*2 = globals (delivered d ++ eventQueue d).*2 →
  busy_inv d → busy_inv d'.
Proof.
  intros Hd Ht Hq [H1 H2]. unfold busy_inv, busy_ok. rewrite Hd, Ht, Hq. auto.
Qed.

Lemma busy_inv_send d e b :
  event_name e = None → busy_scan (doingTasks d) [Sent None e] = Some b →
  busy_inv d → busy_inv (_sendEvent None e (set_doingTasks b d)).
Proof.
  intros He Hs [H1 H2]. split.
  - unfold busy_ok in *. simpl. rewrite busy_scan_app, H1. simpl. exact Hs.
  - simpl. rewrite sentEvents_app, app_assoc, fmap_app, !globals_app, H2. reflexivity.
Qed.

Lemma busy_inv_piece P R d d' : busy_inv d → piece P R d d' → busy_inv d'.
Proof.
  intros Hinv Hp. destruct Hp.
  - revert Hinv. apply busy_inv_frame; reflexivity.
  - revert Hinv. apply busy_inv_frame; reflexivity.
  - revert Hinv. apply busy_inv_frame; reflexivity.
  - revert Hinv. destruct (abort_fields t d) as (_ & Hd & _ & _ & _ & _ & Htr & _ & Hdel).
    apply busy_inv_frame; [exact Hd|exact Htr|].
    unfold abort. destruct (tstore d !! t) as [T|]; [|reflexivity]. simpl.
    rewrite !fmap_app, !globals_app, globals_purge. reflexivity.
  - revert Hinv. apply busy_inv_frame; reflexivity.
  - revert Hinv. apply busy_inv_frame; reflexivity.
  - revert Hinv. apply busy_inv_frame; reflexivity.
  - unfold markBusy. destruct (doingTasks d) eqn:Hd; [exact Hinv|].
    apply busy_inv_send; [reflexivity|rewrite Hd; reflexivity|exact Hinv].
  - unfold markIdle. destruct (doingTasks d) eqn:Hd; [|exact Hinv].
    apply busy_inv_send; [reflexivity|rewrite Hd; reflexivity|exact Hinv].
  - match goal with H : start _ _ _ = Some _ |- _ =>
      apply start_summary in H
        as (T & g & evs & _ & _ & Hd & _ & Hdel & _ & _ & _ & He & Htr & Hq & _) end.
    revert Hinv.
    apply (busy_inv_body d d' (Some (t, S (attempts T))) [Exec t] evs); auto.
    match goal with H : doingTasks d = true |- _ => rewrite H end. reflexivity.
  - match goal with H : answer _ _ = Some _ |- _ =>
      apply answer_summary in H
        as (p & g & evs & _ & _ & Hd & _ & Hdel & _ & _ & He & Htr & Hq & _) end.
    revert Hinv.
    apply (busy_inv_body d d' (tagOf (p_task p) d) [] evs); auto.
  - revert Hinv. destruct (onComplete_fields t i d) as (_ & Hrest).
    apply busy_inv_frame; unfold onComplete, splice; destruct (tstore d !! t) as [T|];
      try reflexivity; destruct (canceled T), (failed T), (retry T); reflexivity.
  - revert Hinv. apply busy_inv_frame; try reflexivity. simpl.
    rewrite app_nil_r. reflexivity.
Qed.

Lemma reachable_busy_inv d : reachable d → busy_inv d.
Proof.
  apply reachable_pieces.
  - split; reflexivity.
  - intros. eapply busy_inv_piece; eauto.
Qed.

(** C8: in every state the manager can reach, the trace read from the
    start alternates busy and not-busy events, the first of them a busy
    event, every run of a task lies after a busy event and before the next
    not-busy event, and the flag [doingTasks] is up exactly after a busy
    event; the manager is busy exactly while a task waits for an answer,
    and when it is not busy every queued task is failed or canceled; the
    listeners are given the global events in the order they were sent. *)
Theorem C8_busy_events_bracket_work (d : DAM) :
  reachable d →
  busy_scan false (trace d) = Some (doingTasks d)
  ∧ (doingTasks d = true ↔ is_Some (pending d))
  ∧ (doingTasks d = false →
     ∀ t, t ∈ tasks d → isCanceled d t = true ∨ isFailed d t = true)
  ∧ globals (delivered d ++ eventQueue d).*2 = globals (sentEvents (trace d)).
Proof.
  intros Hr. destruct (reachable_busy_inv d Hr) as [H1 H2].
  destruct (reachable_quiescent d Hr) as [Q1 Q2 _]. auto.
Qed.

Lemma ex_end_reachable : reachable ex_end.
Proof.
  apply (run_reachable ex_answers ex_mid); [|vm_compute; reflexivity].
  apply (run_reachable ex_calls newDAM); [apply reachable_new|vm_compute; reflexivity].
Qed.

Lemma C8_witness :
  reachable ex_end
  ∧ busy_scan false (trace ex_end) = Some (doingTasks ex_end)
  ∧ (doingTasks ex_end = true ↔ is_Some (pending ex_end))
  ∧ (doingTasks ex_end = false →
     ∀ t, t ∈ tasks ex_end → isCanceled ex_end t = true ∨ isFailed ex_end t = true)
  ∧ globals (delivered ex_end ++ eventQueue ex_end).*2 = globals (sentEvents (trace ex_end)).
Proof.
  split; [exact ex_end_reachable|].
  apply (C8_busy_events_bracket_work ex_end ex_end_reachable).
Defined.

(** * C7: a task canceled before it ran sends nothing *)

Lemma task_mono_refl d : task_mono d d.
Proof. intros t T H. exists T. auto 10. Qed.

Lemma task_mono_trans d1 d2 d3 : task_mono d1 d2 → task_mono d2 d3 → task_mono d1 d3.
Proof.
  intros H1 H2 t T HT. destruct (H1 t T HT) as (T' & HT' & A1 & A2 & A3 & A4 & A5 & A6).
  destruct (H2 t T' HT') as (T'' & HT'' & B1 & B2 & B3 & B4 & B5 & B6).
  exists T''. split; [exact HT''|]. conjs; try congruence.
  - auto.
  - lia.
  - intros Hc. rewrite (B6 (A4 Hc)). auto.
Qed.

Lemma task_mono_tstore d d' : tstore d' = tstore d → task_mono d d'.
Proof. intros E t T H. exists T. rewrite E. auto 10. Qed.

Lemma task_mono_alter g t d d' :
  tstore d' = alter g t (tstore d) →
  (∀ T, tstore d !! t = Some T →
     bundleName (g T) = bundleName T ∧ type (g T) = type T ∧ extra (g T) = extra T
     ∧ (canceled T = true → canceled (g T) = true) ∧ (attempts T ≤ attempts (g T))%nat
     ∧ (canceled T = true → attempts (g T) = attempts T)) →
  task_mono d d'.
Proof.
  intros E Hg t' T HT. rewrite E. destruct (decide (t' = t)) as [->|Hne].
  - exists (g T). rewrite list_lookup_alter_eq, HT. split; [reflexivity|]. apply Hg, HT.
  - exists T. rewrite list_lookup_alter_ne by congruence. split; [exact HT|]. auto 10.
Qed.

Lemma task_mono_flags g t d d' :
  flagsOnly g → tstore d' = alter g t (tstore d) → task_mono d d'.
Proof.
  intros Hg E. apply (task_mono_alter g t); [exact E|]. intros T _.
  destruct (Hg T) as (H1 & H2 & H3 & H4 & H5). rewrite H1, H2, H3, H4, H5. auto 10.
Qed.

Lemma task_mono_piece P R d d' : piece P R d d' → task_mono d d'.
Proof.
  intros Hp. destruct Hp.
  - apply task_mono_tstore. reflexivity.
  - apply task_mono_tstore. reflexivity.
  - apply task_mono_tstore. reflexivity.
  - unfold abort. destruct (tstore d !! t) as [T|] eqn:HT; [|apply task_mono_refl].
    apply (task_mono_alter (set_canceled true) t); [reflexivity|]. intros T0 _. simpl. auto 10.
  - intros t T HT. exists T. simpl. rewrite lookup_app_l by (eapply lookup_lt_Some, HT).
    auto 10.
  - apply (task_mono_flags rearm t); [apply flagsOnly_rearm|reflexivity].
  - apply task_mono_tstore. reflexivity.
  - apply task_mono_tstore. apply markBusy_fields.
  - apply task_mono_tstore. apply markIdle_fields.
  - match goal with H : start _ _ _ = Some _ |- _ =>
      apply start_summary in H as (T & g & evs & HT & _ & _ & _ & _ & Hg & Ha & Hts & _) end.
    apply (task_mono_alter g t); [exact Hts|]. intros T0 HT0.
    rewrite HT in HT0. injection HT0 as <-.
    destruct (Hg T) as (K1 & K2 & K3 & K4).
    assert (Hc : canceled T = false).
    { match goal with H : isCanceled d t = false |- _ => unfold isCanceled in H;
        rewrite HT in H; exact H end. }
    rewrite K1, K2, K3, Ha, Hc. conjs; auto; try discriminate.
  - match goal with H : answer _ _ = Some _ |- _ =>
      apply answer_summary in H as (p & g & evs & _ & _ & _ & _ & _ & Hg & Hts & _) end.
    apply (task_mono_flags g (p_task p)); assumption.
  - apply task_mono_tstore. apply onComplete_fields.
  - apply task_mono_tstore. reflexivity.
Qed.

Lemma task_mono_pieces P R d d' : rtc (piece P R) d d' → task_mono d d'.
Proof.
  induction 1 as [|x y z Hxy _ IH]; [apply task_mono_refl|].
  eapply task_mono_trans; [eapply task_mono_piece, Hxy|exact IH].
Qed.

Lemma run_task_mono ins : ∀ d d', reachable d → run ins d = Some d' → task_mono d d'.
Proof.
  induction ins as [|i ins IH]; simpl; intros d d' Hr H.
  - injection H as <-. apply task_mono_refl.
  - destruct (step i d) as [d1|] eqn:Hs; [|discriminate]. simpl in H.
    destruct (step_ok (fun _ => True) (fun _ _ => True) i d d1 Hs (reachable_quiescent _ Hr))
      as [Hp _].
    { destruct i; simpl; auto. }
    eapply task_mono_trans; [eapply task_mono_pieces, Hp|].
    eapply IH; [|exact H]. eapply reachable_step; eauto.
Qed.

(** ** The tags of the trace name tasks that have run *)

Lemma elem_of_map {A B} (f : A → B) (l : list A) (y : B) :
  y ∈ map f l → ∃ x, y = f x ∧ x ∈ l.
Proof.
  intros H. apply list_elem_of_In, in_map_iff in H as (x & <- & Hx).
  exists x. split; [reflexivity|]. apply list_elem_of_In, Hx.
Qed.

Lemma elem_of_map_2 {A B} (f : A → B) (l : list A) (x : A) : x ∈ l → f x ∈ map f l.
Proof. intros H. apply list_elem_of_In, in_map, list_elem_of_In, H. Qed.

Lemma tags_ok_step d d' tr :
  tags_ok d → task_mono d d' →
  trace d' = trace d ++ tr →
  (∀ t, Exec t ∈ tr → ∃ T, tstore d' !! t = Some T ∧ (1 ≤ attempts T)%nat) →
  (∀ t k e, Sent (Some (t, k)) e ∈ tr →
            ∃ T, tstore d' !! t = Some T ∧ (1 ≤ k ≤ attempts T)%nat) →
  (∀ q, q ∈ eventQueue d' ++ delivered d' →
        q ∈ eventQueue d ++ delivered d ∨ Sent q.1 q.2 ∈ tr) →
  (∀ p, pending d' = Some p →
        (∃ p0, pending d = Some p0 ∧ p_task p0 = p_task p)
        ∨ ∃ T, tstore d' !! p_task p = Some T ∧ (1 ≤ attempts T)%nat) →
  tags_ok d'.
Proof.
  intros [G1 G2 G3 G4] Hm Htr He Hs Hq Hp. constructor.
  - intros t Ht. rewrite Htr in Ht. apply elem_of_app in Ht as [Ht|Ht]; [|auto].
    destruct (G1 t Ht) as (T & HT & Ha).
    destruct (Hm t T HT) as (T' & HT' & _ & _ & _ & _ & Hle & _). exists T'. split; [auto|lia].
  - intros t k e Ht. rewrite Htr in Ht. apply elem_of_app in Ht as [Ht|Ht]; [|eauto].
    destruct (G2 t k e Ht) as (T & HT & Ha).
    destruct (Hm t T HT) as (T' & HT' & _ & _ & _ & _ & Hle & _). exists T'. split; [auto|lia].
  - intros q Hin. rewrite Htr. apply elem_of_app. destruct (Hq q Hin) as [H|H]; auto.
  - intros p Hpd. destruct (Hp p Hpd) as [(p0 & Hp0 & E)|H]; [|exact H].
    destruct (G4 p0 Hp0) as (T & HT & Ha). rewrite E in HT.
    destruct (Hm _ T HT) as (T' & HT' & _ & _ & _ & _ & Hle & _). exists T'. split; [auto|lia].
Qed.

Lemma tags_ok_frame d d' :
  tags_ok d → task_mono d d' → trace d' = trace d →
  (∀ q, q ∈ eventQueue d' ++ delivered d' → q ∈ eventQueue d ++ delivered d) →
  pending d' = pending d →
  tags_ok d'.
Proof.
  intros G Hm Htr Hq Hp. apply (tags_ok_step d d' []); auto.
  - rewrite app_nil_r. exact Htr.
  - intros t Ht. apply elem_of_nil in Ht. contradiction.
  - intros t k e Ht. apply elem_of_nil in Ht. contradiction.
  - intros p Hpd. left. exists p. rewrite <- Hp. auto.
Qed.

Lemma tags_ok_send d e b :
  tags_ok d → tags_ok (_sendEvent None e (set_doingTasks b d)).
Proof.
  intros G. apply (tags_ok_step d _ [Sent None e]); auto.
  - apply task_mono_tstore. reflexivity.
  - intros t Ht. apply list_elem_of_singleton in Ht. discriminate.
  - intros t k e' Ht. apply list_elem_of_singleton in Ht. discriminate.
  - simpl. intros q Hin. rewrite <- app_assoc in Hin.
    apply elem_of_app in Hin as [Hin|Hin]; [left; apply elem_of_app; auto|].
    apply elem_of_cons in Hin as [->|Hin]; [right; apply list_elem_of_singleton; reflexivity|].
    left. apply elem_of_app. auto.
  - intros p Hpd. left. exists p. auto.
Qed.

Lemma tags_ok_piece P R d d' : tags_ok d → piece P R d d' → tags_ok d'.
Proof.
  intros G Hp. pose proof (task_mono_piece P R d d' Hp) as Hm. destruct Hp.
  - apply (tags_ok_frame d); auto.
  - apply (tags_ok_frame d); auto.
  - apply (tags_ok_frame d); auto.
  - destruct (abort_fields t d) as (_ & _ & Hpd & _ & _ & _ & Htr & _ & Hdel).
    apply (tags_ok_frame d); auto.
    intros q Hin. rewrite Hdel in Hin. apply elem_of_app in Hin as [Hin|Hin];
      apply elem_of_app; [left|right; exact Hin].
    unfold abort in Hin. destruct (tstore d !! t) as [T|]; [|exact Hin]. simpl in Hin.
    apply list_elem_of_filter in Hin as [_ Hin]. exact Hin.
  - apply (tags_ok_frame d); auto.
  - apply (tags_ok_frame d); auto.
  - apply (tags_ok_frame d); auto.
  - unfold markBusy. destruct (doingTasks d); [exact G|]. apply tags_ok_send, G.
  - unfold markIdle. destruct (doingTasks d); [|exact G]. apply tags_ok_send, G.
  - match goal with H : start _ _ _ = Some _ |- _ =>
      apply start_summary in H
        as (T & g & evs & HT & _ & _ & _ & Hdel & Hg & Ha & Hts & _ & Htr & Hq & _ & Hpd) end.
    assert (HT' : tstore d' !! t = Some (g T)).
    { rewrite Hts, list_lookup_alter_eq, HT. reflexivity. }
    apply (tags_ok_step d d' (Exec t :: map (Sent (Some (t, S (attempts T)))) evs)); auto.
    + intros t' Ht. apply elem_of_cons in Ht as [Ht|Ht].
      * injection Ht as ->. exists (g T). split; [exact HT'|lia].
      * apply elem_of_map in Ht as (x & Hx & _). discriminate.
    + intros t' k e Ht. apply elem_of_cons in Ht as [Ht|Ht]; [discriminate|].
      apply elem_of_map in Ht as (x & Hx & _). injection Hx as -> -> _.
      exists (g T). split; [exact HT'|lia].
    + intros q Hin. rewrite Hq, Hdel, <- app_assoc in Hin.
      apply elem_of_app in Hin as [Hin|Hin]; [left; apply elem_of_app; auto|].
      apply elem_of_app in Hin as [Hin|Hin]; [|left; apply elem_of_app; auto].
      right. apply elem_of_map in Hin as (x & -> & Hx). simpl.
      apply elem_of_cons. right. apply elem_of_map_2, Hx.
    + intros p Hp'. destruct c.
      * left. exists p. rewrite <- Hpd. auto.
      * right. destruct Hpd as [ph Hph]. rewrite Hph in Hp'. injection Hp' as <-. simpl.
        exists (g T). split; [exact HT'|lia].
  - match goal with H : answer _ _ = Some _ |- _ =>
      apply answer_summary in H
        as (p & g & evs & Hp0 & _ & _ & _ & Hdel & Hg & Hts & _ & Htr & Hq & _ & Hpd) end.
    destruct (tg_pending d G p Hp0) as (T & HT & Ha).
    assert (Htag : tagOf (p_task p) d = Some (p_task p, attempts T)).
    { unfold tagOf. rewrite HT. reflexivity. }
    assert (HT' : tstore d' !! p_task p = Some (g T)).
    { rewrite Hts, list_lookup_alter_eq, HT. reflexivity. }
    assert (Hat : attempts (g T) = attempts T) by apply Hg.
    rewrite Htag in Htr, Hq.
    apply (tags_ok_step d d' (map (Sent (Some (p_task p, attempts T))) evs)); auto.
    + intros t' Ht. apply elem_of_map in Ht as (x & Hx & _). discriminate.
    + intros t' k e Ht. apply elem_of_map in Ht as (x & Hx & _). injection Hx as -> -> _.
      exists (g T). split; [exact HT'|lia].
    + intros q Hin. rewrite Hq, Hdel, <- app_assoc in Hin.
      apply elem_of_app in Hin as [Hin|Hin]; [left; apply elem_of_app; auto|].
      apply elem_of_app in Hin as [Hin|Hin]; [|left; apply elem_of_app; auto].
      right. apply elem_of_map in Hin as (x & -> & Hx). simpl. apply elem_of_map_2, Hx.
    + intros p' Hp'. destruct c.
      * rewrite Hpd in Hp'. discriminate.
      * destruct Hpd as [ph Hph]. rewrite Hph in Hp'. injection Hp' as <-. simpl.
        left. exists p. auto.
  - destruct (onComplete_fields t i d) as (_ & Hpd & _ & _ & _ & Htr & Hq & Hdel & _).
    apply (tags_ok_frame d); auto. rewrite Hq, Hdel. auto.
  - apply (tags_ok_frame d); auto. simpl. intros q Hin.
    apply elem_of_app in Hin as [Hin|Hin]; apply elem_of_app; auto.
Qed.

Lemma reachable_tags_ok d : reachable d → tags_ok d.
Proof.
  apply reachable_pieces.
  - constructor; simpl.
    + intros t Ht. apply elem_of_nil in Ht. contradiction.
    + intros t k e Ht. apply elem_of_nil in Ht. contradiction.
    + intros q Ht. apply elem_of_nil in Ht. contradiction.
    + discriminate.
  - intros. eapply tags_ok_piece; eauto.
Qed.

Lemma attributed_piece P R d d' : tags_ok d → attributed d → piece P R d d' → attributed d'.
Proof.
  intros G A Hp. destruct Hp; try exact A.
  - intros e. destruct (abort_fields t d) as (_ & _ & _ & _ & _ & _ & -> & _). apply A.
  - unfold markBusy. destruct (doingTasks d); [exact A|]. intros e He. simpl in He.
    apply elem_of_app in He as [He|He]; [apply A, He|].
    apply list_elem_of_singleton in He. injection He as ->. reflexivity.
  - unfold markIdle. destruct (doingTasks d); [|exact A]. intros e He. simpl in He.
    apply elem_of_app in He as [He|He]; [apply A, He|].
    apply list_elem_of_singleton in He. injection He as ->. reflexivity.
  - match goal with H : start _ _ _ = Some _ |- _ =>
      apply start_summary in H
        as (T & g & evs & _ & _ & _ & _ & _ & _ & _ & _ & _ & Htr & _) end.
    intros e He. rewrite Htr in He. apply elem_of_app in He as [He|He]; [apply A, He|].
    apply elem_of_cons in He as [He|He]; [discriminate|].
    apply elem_of_map in He as (x & Hx & _). discriminate.
  - match goal with H : answer _ _ = Some _ |- _ =>
      apply answer_summary in H
        as (p & g & evs & Hp0 & _ & _ & _ & _ & _ & _ & _ & Htr & _) end.
    destruct (tg_pending d G p Hp0) as (T & HT & _).
    unfold tagOf in Htr. rewrite HT in Htr. simpl in Htr.
    intros e He. rewrite Htr in He. apply elem_of_app in He as [He|He]; [apply A, He|].
    apply elem_of_map in He as (x & Hx & _). discriminate.
  - intros e. destruct (onComplete_fields t i d) as (_ & _ & _ & _ & _ & -> & _). apply A.
Qed.

Lemma reachable_attributed d : reachable d → tags_ok d ∧ attributed d.
Proof.
  apply (reachable_pieces (fun d => tags_ok d ∧ attributed d)).
  - split; [apply reachable_tags_ok, reachable_new|].
    intros e He. apply elem_of_nil in He. contradiction.
  - intros d0 d1 [G A] Hp. split; [eapply tags_ok_piece|eapply attributed_piece]; eauto.
Qed.

(** C7: a task that is canceled before it has run never runs and sends no
    event.  In every state that a run from there reaches, the trace has
    no run of the task and no event sent for it, no event of the task is
    queued for the listeners or was given to them, the task is not the
    one that waits for an answer, and the next pass of the scheduler drops
    it from the queue.  Every lifecycle event of the trace is attributed
    to the task whose body sent it. *)
Theorem C7_task_canceled_before_it_ran_sends_nothing
    (d : DAM) (t : nat) (T : Task) (ins : list Input) (d' : DAM) :
  reachable d →
  tstore d !! t = Some T → canceled T = true → attempts T = 0%nat →
  run ins d = Some d' →
  (Exec t ∉ trace d')
  ∧ (∀ k e, Sent (Some (t, k)) e ∉ trace d')
  ∧ (∀ k e, (Some (t, k), e) ∉ delivered d' ++ eventQueue d')
  ∧ (∀ p, pending d' = Some p → p_task p ≠ t)
  ∧ (t ∉ tasks (strip d'))
  ∧ attributed d'.
Proof.
  intros Hr HT Hc Ha Hrun.
  destruct (run_task_mono ins d d' Hr Hrun t T HT) as (T' & HT' & _ & _ & _ & Hc' & _ & Ha').
  specialize (Hc' Hc). specialize (Ha' Hc). rewrite Ha in Ha'.
  destruct (reachable_attributed d' (run_reachable ins d d' Hr Hrun)) as [[G1 G2 G3 G4] GA].
  assert (S1 : ∀ k e, Sent (Some (t, k)) e ∉ trace d').
  { intros k e Hin. destruct (G2 t k e Hin) as (T0 & HT0 & Hk).
    rewrite HT' in HT0. injection HT0 as <-. lia. }
  conjs.
  - intros Hin. destruct (G1 t Hin) as (T0 & HT0 & Hk).
    rewrite HT' in HT0. injection HT0 as <-. lia.
  - exact S1.
  - intros k e Hin. apply (S1 k e). apply (G3 (Some (t, k), e)).
    apply elem_of_app in Hin as [Hin|Hin]; apply elem_of_app; auto.
  - intros p Hp E. destruct (G4 p Hp) as (T0 & HT0 & Hk). rewrite E, HT' in HT0.
    injection HT0 as <-. lia.
  - intros Hin. apply strip_elem in Hin as [Hin _]. unfold isCanceled in Hin.
    rewrite HT', Hc' in Hin. discriminate.
  - exact GA.
Qed.

Lemma ex_mid_reachable : reachable ex_mid.
Proof. apply (run_reachable ex_calls newDAM); [apply reachable_new|vm_compute; reflexivity]. Qed.

Lemma C7_witness :
  (Exec 1%nat ∉ trace ex_end)
  ∧ (∀ k e, Sent (Some (1%nat, k)) e ∉ trace ex_end)
  ∧ (∀ k e, (Some (1%nat, k), e) ∉ delivered ex_end ++ eventQueue ex_end)
  ∧ (∀ p, pending ex_end = Some p → p_task p ≠ 1%nat)
  ∧ (1%nat ∉ tasks (strip ex_end))
  ∧ attributed ex_end.
Proof.
  apply (C7_task_canceled_before_it_ran_sends_nothing ex_mid 1%nat
           (mkTask "b2" TASK_TYPE_LOAD None false None true false false 0) ex_answers ex_end).
  - exact ex_mid_reachable.
  - vm_compute. reflexivity.
  - reflexivity.
  - reflexivity.
  - vm_compute. reflexivity.
Defined.

(** * C10: the map of local URLs *)

Lemma error_urls t l msg rt d d' out :
  error_ t l msg rt d = Some (d', out) → localURLs d' = localURLs d.
Proof.
  unfold error_. intros H.
  destruct (tstore d !! t) as [T|]; simpl in H; [|discriminate].
  destruct (negb rt && negb (canceled T)).
  - destruct (readBundle _ l) as [b|]; simpl in H; [|discriminate].
    injection H as <- <-. reflexivity.
  - injection H as <- <-. reflexivity.
Qed.

Lemma download_loop_urls t l ts td i d d' out :
  download_loop t l ts td i d = Some (d', out) → localURLs d' = localURLs d.
Proof.
  unfold download_loop. intros H.
  destruct (tstore d !! t) as [T|]; simpl in H; [|discriminate].
  destruct (canceled T); [eapply error_urls, H|].
  destruct (readBundle (heap d) l) as [b|]; simpl in H; [|discriminate].
  destruct (i =? length (files b))%nat.
  - injection H as <- <-. reflexivity.
  - destruct (files b !! i); simpl in H; [|discriminate]. injection H as <- <-. reflexivity.
Qed.

Lemma downloadBundle_urls t d d' out :
  _downloadBundle t d = Some (d', out) → localURLs d' = localURLs d.
Proof.
  unfold _downloadBundle. intros H.
  destruct (tstore d !! t) as [T|]; simpl in H; [|discriminate].
  destruct (bundles d !! bundleName T) as [l|]; simpl in H; [|discriminate].
  destruct (readBundle (heap d) l) as [b|]; simpl in H; [|discriminate].
  apply download_loop_urls in H. exact H.
Qed.

Lemma fileDone_urls t fr d d' out :
  fileDone t fr d = Some (d', out) → localURLs d' = localURLs d.
Proof.
  unfold fileDone. intros H.
  destruct (tstore d !! t) as [T|]; simpl in H; [|discriminate].
  destruct (negb (canceled T)).
  - destruct (readBundle (heap d) (lf_bundle fr)) as [b|]; simpl in H; [|discriminate].
    apply download_loop_urls in H. exact H.
  - apply download_loop_urls in H. exact H.
Qed.

Lemma onprogress_urls t fr lc el et d d' out :
  onprogress t fr lc el et d = Some (d', out) → localURLs d' = localURLs d.
Proof.
  unfold onprogress. intros H.
  destruct (tstore d !! t) as [T|]; simpl in H; [|discriminate].
  destruct (lc && negb (canceled T)).
  - destruct (readBundle (heap d) (lf_bundle fr)) as [b|]; simpl in H; [|discriminate].
    injection H as <- <-. reflexivity.
  - injection H as <- <-. reflexivity.
Qed.

Lemma addLocalURL_urls f u t g d :
  localURLs (_addLocalURL f u (updTask g t d)) = localURLs (_addLocalURL f u d).
Proof.
  unfold _addLocalURL. simpl. destruct (localURLs d !! f); [reflexivity|].
  destruct (String.eqb f "__proto__"); reflexivity.
Qed.

Lemma downloadSuccess_urls t fr url d d' out :
  _downloadSuccess t fr url d = Some (d', out) →
  localURLs d' = localURLs (_addLocalURL (lf_remoteFile fr) url d).
Proof.
  unfold _downloadSuccess. intros H. apply fileDone_urls in H. rewrite H.
  apply addLocalURL_urls.
Qed.

Lemma downloadFail_urls t fr err d d' out :
  _downloadFail t fr err d = Some (d', out) → localURLs d' = localURLs d.
Proof.
  unfold _downloadFail. intros H. destruct (code err =? ABORT_ERR).
  - injection H as <- <-. reflexivity.
  - apply error_urls in H. exact H.
Qed.

(** The one callback that adds a local URL and the one that removes one. *)
Lemma callback_urls t ph r d d' out :
  callback t ph r d = Some (d', out) →
  localURLs d' = localURLs d
  ∨ (∃ fr url, ph = LoadTransfer fr ∧ r = TransferSuccess url
               ∧ localURLs d' = localURLs (_addLocalURL (lf_remoteFile fr) url d))
  ∨ (∃ l k f lf url, ph = RemoveLookup l k f lf ∧ r = FileFound url
                     ∧ localURLs d' = localURLs (_removeLocalURL f d)).
Proof.
  unfold callback, removeFound. intros H.
  destruct ph as [fr|fr|fr|l k f lf|l k], r as [url| |c| |lc el et|url|err];
    try discriminate H.
  - left. eapply fileDone_urls, H.
  - left. injection H as <- <-. reflexivity.
  - left. injection H as <- <-. reflexivity.
  - left. eapply error_urls, H.
  - left. eapply onprogress_urls, H.
  - right. left. exists fr, url. split; [reflexivity|]. split; [reflexivity|].
    eapply downloadSuccess_urls, H.
  - left. eapply downloadFail_urls, H.
  - right. right. exists l, k, f, lf, url.
    split; [reflexivity|]. split; [reflexivity|]. injection H as <- <-.
    unfold _removeLocalURL. simpl. destruct (localURLs d !! f); reflexivity.
  - left. apply remove_loop_fp in H as ->. reflexivity.
  - left. apply remove_loop_fp in H as ->. reflexivity.
Qed.

Lemma start_urls t i d d' c : start t i d = Some (d', c) → localURLs d' = localURLs d.
Proof.
  unfold start, doIt. intros H.
  destruct (tstore d !! t) as [T|]; simpl in H; [|discriminate].
  assert (E : ∀ d1 out, (match type T with
                         | TASK_TYPE_LOAD => _downloadBundle t (noteExec t d)
                         | TASK_TYPE_REMOVE => _removeBundleFiles t (noteExec t d)
                         end) = Some (d1, out) → localURLs d1 = localURLs d).
  { intros d1 out E. destruct (type T).
    - apply downloadBundle_urls in E. exact E.
    - apply removeBundleFiles_fp in E as ->. reflexivity. }
  destruct (match type T with TASK_TYPE_LOAD => _ | TASK_TYPE_REMOVE => _ end)
    as [[d1 out]|] eqn:Hd; simpl in H; [|discriminate].
  specialize (E d1 out eq_refl). destruct out; injection H as <- <-; exact E.
Qed.

Lemma urls_piece P d d' : piece P (fun _ _ => False) d d' → localURLs d' = localURLs d.
Proof.
  intros Hp. destruct Hp; try reflexivity.
  - apply abort_fields.
  - unfold markBusy. destruct (doingTasks d); reflexivity.
  - unfold markIdle. destruct (doingTasks d); reflexivity.
  - eapply start_urls; eauto.
  - contradiction.
  - apply onComplete_fields.
Qed.

Lemma urls_pieces P d d' : rtc (piece P (fun _ _ => False)) d d' → localURLs d' = localURLs d.
Proof.
  induction 1 as [|x y z Hxy _ IH]; [reflexivity|].
  rewrite IH. eapply urls_piece, Hxy.
Qed.

(** A step that is not an answer of the environment keeps the map. *)
Lemma step_urls i d d' :
  quiescent d → step i d = Some d' → (∀ r, i ≠ Answer r) → localURLs d' = localURLs d.
Proof.
  intros Q Hs Hi.
  destruct (step_ok (fun _ => True) (fun _ _ => False) i d d' Hs Q) as [Hp _].
  { destruct i; simpl; auto. exfalso. eapply Hi. reflexivity. }
  eapply urls_pieces, Hp.
Qed.

(** After an answer the map is as the callback left it. *)
Lemma resume_urls r d d' :
  resume r d = Some d' →
  ∃ p d1 out, pending d = Some p ∧ callback (p_task p) (p_phase p) r d = Some (d1, out)
              ∧ localURLs d' = localURLs d1.
Proof.
  unfold resume, answer. intros H.
  destruct (pending d) as [p|]; simpl in H; [|discriminate].
  destruct (callback _ _ _ _) as [[d1 out]|] eqn:Hc; simpl in H; [|discriminate].
  exists p, d1, out. split; [reflexivity|]. split; [exact Hc|].
  destruct out; simpl in H.
  - unfold drain in H.
    apply (loop_pieces (fun _ => True) (fun _ _ => False)) in H.
    + apply urls_pieces in H. rewrite H.
      destruct (onComplete_fields (p_task p) (p_i p) (set_pending None d1))
        as (_ & _ & _ & _ & _ & _ & _ & _ & ->). reflexivity.
    + destruct (onComplete_fields (p_task p) (p_i p) (set_pending None d1)) as (_ & -> & _).
      reflexivity.
  - injection H as <-. reflexivity.
Qed.

Lemma localURL_own d f u : localURL d f = Own u ↔ localURLs d !! f = Some u.
Proof.
  unfold localURL. destruct (localURLs d !! f) as [u'|].
  - split; intros H; injection H as ->; reflexivity.
  - destruct (bool_decide _); split; discriminate.
Qed.

(** C10: [localURL] of a file that has no local URL is not always
    [undefined].  On a new manager, whose map of local URLs is empty,
    [localURL("toString")] is the value that every object inherits under
    that name: the read [this.localURLs[remoteFile]] does not go through
    [hasOwnProperty], as the reads of [_addLocalURL] and [_removeLocalURL]
    do. *)
Theorem C10_localURL_of_inherited_name :
  localURLs newDAM !! "toString" = None
  ∧ localURL newDAM "toString" = Inherited "toString"
  ∧ _addLocalURL "toString" "cdvfile://localhost/persistent/t" newDAM
    = set_localURLs {["toString" := "cdvfile://localhost/persistent/t"]} newDAM.
Proof. split; [reflexivity|]. split; reflexivity. Qed.

(** X1: [_addLocalURL] for a file that has a local URL changes nothing;
    over a step of the manager the local URL of a file stays what it is,
    except when the step is the answer that the file to delete was found,
    given to the Remove task that looked it up, after which the file has
    no local URL; and [localURL] of a file without a local URL is
    [undefined], unless the file is called like a property that every
    object inherits, for which it is the inherited value. *)
Theorem localURL_kept_until_removed (d : DAM) :
  reachable d →
  (∀ f u, is_Some (localURLs d !! f) → _addLocalURL f u d = d)
  ∧ (∀ i d' f u,
       step i d = Some d' → localURL d f = Own u →
       localURL d' f = Own u
       ∨ ∃ p l k lf url,
           pending d = Some p ∧ p_phase p = RemoveLookup l k f lf
           ∧ i = Answer (FileFound url) ∧ localURLs d' !! f = None)
  ∧ (∀ f, localURLs d !! f = None →
          localURL d f = if bool_decide (f ∈ objectPrototype) then Inherited f else Undefined).
Proof.
  intros Hr. conjs.
  - intros f u [u0 H]. unfold _addLocalURL. rewrite H. reflexivity.
  - intros i d' f u Hs Hu. apply localURL_own in Hu.
    destruct i as [objs v|bname|bname| | |r];
      try (left; apply localURL_own;
           rewrite (step_urls _ d d' (reachable_quiescent d Hr) Hs) by discriminate; exact Hu).
    simpl in Hs. apply resume_urls in Hs as (p & d1 & out & Hp & Hc & E).
    apply callback_urls in Hc as [Hc|[(fr & url & Hph & -> & Hc)|(l & k & f' & lf & url & Hph & -> & Hc)]].
    + left. apply localURL_own. rewrite E, Hc. exact Hu.
    + left. apply localURL_own. rewrite E, Hc. unfold _addLocalURL.
      destruct (localURLs d !! lf_remoteFile fr) eqn:Hl; [exact Hu|].
      destruct (String.eqb _ "__proto__"); [exact Hu|]. simpl.
      rewrite lookup_insert_ne; [exact Hu|]. intros <-. congruence.
    + destruct (decide (f' = f)) as [->|Hne].
      * right. exists p, l, k, lf, url. conjs; auto.
        rewrite E, Hc. unfold _removeLocalURL. rewrite Hu. simpl. apply lookup_delete_eq.
      * left. apply localURL_own. rewrite E, Hc. unfold _removeLocalURL.
        destruct (localURLs d !! f'); [|exact Hu]. simpl.
        rewrite lookup_delete_ne by exact Hne. exact Hu.
  - intros f H. unfold localURL. rewrite H. reflexivity.
Qed.

Lemma localURL_kept_until_removed_witness :
  reachable ex_end
  ∧ (∀ f u, is_Some (localURLs ex_end !! f) → _addLocalURL f u ex_end = ex_end)
  ∧ (∀ i d' f u,
       step i ex_end = Some d' → localURL ex_end f = Own u →
       localURL d' f = Own u
       ∨ ∃ p l k lf url,
           pending ex_end = Some p ∧ p_phase p = RemoveLookup l k f lf
           ∧ i = Answer (FileFound url) ∧ localURLs d' !! f = None)
  ∧ (∀ f, localURLs ex_end !! f = None →
          localURL ex_end f
          = if bool_decide (f ∈ objectPrototype) then Inherited f else Undefined).
Proof.
  split; [exact ex_end_reachable|].
  apply (localURL_kept_until_removed ex_end ex_end_reachable).
Defined.

(** * C3: the Remove task *)

Lemma referenced_spec d bname f :
  referenced d bname f = true ↔
  ∃ n l b, bundles d !! n = Some l ∧ n ≠ bname
           ∧ readBundle (heap d) l = Some b ∧ f ∈ files b.
Proof.
  unfold referenced. rewrite bool_decide_eq_true. unfold map_Exists, refsFile. split.
  - intros (n & l & Hl & Hn & Hf).
    destruct (readBundle (heap d) l) as [b|] eqn:Hb; [|discriminate].
    apply bool_decide_eq_true in Hf. exists n, l, b. auto.
  - intros (n & l & b & Hl & Hn & Hb & Hf). exists n, l. split; [exact Hl|].
    split; [exact Hn|]. rewrite Hb. apply bool_decide_eq_true. exact Hf.
Qed.

Lemma drop_lookup_cons {A} (l : list A) i x : l !! i = Some x → drop i l = x :: drop (S i) l.
Proof.
  revert i. induction l as [|a l IH]; intros [|i] H; try discriminate.
  - injection H as ->. reflexivity.
  - simpl. apply IH, H.
Qed.

Lemma remove_loop_shared t T l b index f d :
  tstore d !! t = Some T → canceled T = false →
  readBundle (heap d) l = Some b → files b !! index = Some f →
  referenced d (name b) f = true →
  remove_loop t l index d = remove_loop t l (S index) d.
Proof.
  intros HT Hc Hb Hf Hr. unfold remove_loop. rewrite HT. simpl. rewrite Hc, Hb. simpl.
  rewrite (drop_lookup_cons _ _ _ Hf). simpl. rewrite Hr. reflexivity.
Qed.

Lemma remove_loop_unshared t T l b index f d :
  tstore d !! t = Some T → canceled T = false →
  readBundle (heap d) l = Some b → files b !! index = Some f →
  referenced d (name b) f = false →
  remove_loop t l index d = Some (d, Suspended (RemoveLookup l index f (_localFileName f))).
Proof.
  intros HT Hc Hb Hf Hr. unfold remove_loop. rewrite HT. simpl. rewrite Hc, Hb. simpl.
  rewrite (drop_lookup_cons _ _ _ Hf). simpl. rewrite Hr. reflexivity.
Qed.

Lemma removeLocalURL_urls f d : localURLs (_removeLocalURL f d) = delete f (localURLs d).
Proof.
  unfold _removeLocalURL. destruct (localURLs d !! f) eqn:E; [reflexivity|].
  symmetry. apply delete_id, E.
Qed.

Lemma removeLocalURL_disk f d : disk (_removeLocalURL f d) = disk d.
Proof. unfold _removeLocalURL. destruct (localURLs d !! f); reflexivity. Qed.

(** The run of [ex_shared] and [ex_unshared]: the file that [b1] and [b2]
    share outlives the removal of [b1], with its local URL, and goes with
    the removal of [b2]. *)
Lemma shared_file_outlives_first_removal :
  ∃ d1 d2,
    run ex_shared newDAM = Some d1 ∧ run ex_unshared d1 = Some d2
    ∧ tasks d1 = [] ∧ pending d1 = None
    ∧ elements (disk d1) = [_localFileName "http://h/a.png"]
    ∧ localURLs d1 !! "http://h/a.png" = Some "cdvfile://localhost/persistent/a"
    ∧ tasks d2 = [] ∧ pending d2 = None
    ∧ elements (disk d2) = []
    ∧ localURLs d2 !! "http://h/a.png" = None.
Proof.
  eexists. eexists. split; [vm_compute; reflexivity|]. split; [vm_compute; reflexivity|].
  vm_compute. repeat split.
Qed.



(** * C2: a download that fails *)

Lemma retryable_spec err :
  retryable err = true ↔
  http_status err = None ∨ http_status err = Some 0 ∨ http_status err = Some 200.
Proof.
  unfold retryable. destruct (http_status err) as [s|]; [|split; auto].
  rewrite orb_true_iff, !Z.eqb_eq. split.
  - intros [->| ->]; auto.
  - intros [H|[H|H]]; [discriminate|injection H as ->; auto..].
Qed.

Lemma rearm_idem T : rearm (rearm T) = rearm T.
Proof.
  unfold rearm. destruct T as [bn ty ex fl er cn rt f a]. simpl.
  destruct cn, fl, rt; reflexivity.
Qed.

Lemma rearmFold_lookup ts : ∀ d t T,
  tstore d !! t = Some T →
  tstore (rearmFold ts d) !! t = Some (if bool_decide (t ∈ ts) then rearm T else T).
Proof.
  induction ts as [|a ts IH]; intros d t T HT; simpl.
  - exact HT.
  - destruct (decide (t = a)) as [->|Hne].
    + rewrite (IH _ a (rearm T)) by (simpl; rewrite list_lookup_alter_eq, HT; reflexivity).
      rewrite (bool_decide_eq_true_2 (a ∈ a :: ts)) by apply list_elem_of_here.
      rewrite rearm_idem. destruct (bool_decide _); reflexivity.
    + rewrite (IH _ t T) by (simpl; rewrite list_lookup_alter_ne by congruence; exact HT).
      destruct (decide (t ∈ ts)) as [Hin|Hin].
      * rewrite !bool_decide_eq_true_2; auto. apply list_elem_of_further, Hin.
      * rewrite !bool_decide_eq_false_2; auto.
        intros H. apply elem_of_cons in H as [H|H]; contradiction.
Qed.

(** The retry cycle makes a failed task that may be retried eligible again. *)
Lemma rearmAll_eligible d t T :
  t ∈ tasks d → tstore d !! t = Some T →
  canceled T = false → failed T = true → retry T = true →
  t ∈ tasks (strip (rearmAll d)) ∧ isFailed (strip (rearmAll d)) t = false.
Proof.
  intros Hin HT Hc Hf Hr.
  assert (HT' : tstore (rearmAll d) !! t = Some (set_retry false (set_failed false T))).
  { unfold rearmAll. change (fold_left _ (tasks d) d) with (rearmFold (tasks d) d).
    rewrite (rearmFold_lookup _ _ _ _ HT), bool_decide_eq_true_2 by exact Hin.
    unfold rearm. rewrite Hc, Hf, Hr. reflexivity. }
  destruct (rearmAll_fields d) as (Ht & _). split.
  - unfold strip. simpl. apply list_elem_of_filter. split; [|rewrite Ht; exact Hin].
    unfold isCanceled. rewrite HT'. simpl. exact Hc.
  - unfold isFailed, strip. simpl. rewrite HT'. reflexivity.
Qed.

(** ** The retry cycle runs the task, or leaves it queued behind the one
    that is running *)

Lemma markBusy_trace d : ∃ tr, trace (markBusy d) = trace d ++ tr.
Proof.
  unfold markBusy. destruct (doingTasks d); simpl.
  - exists []. rewrite app_nil_r. reflexivity.
  - eexists. reflexivity.
Qed.

Lemma markIdle_trace d : ∃ tr, trace (markIdle d) = trace d ++ tr.
Proof.
  unfold markIdle. destruct (doingTasks d); simpl.
  - eexists. reflexivity.
  - exists []. rewrite app_nil_r. reflexivity.
Qed.

Lemma onComplete_trace t i d : trace (onComplete t i d) = trace d.
Proof.
  unfold onComplete. destruct (tstore d !! t) as [T|]; [|reflexivity].
  destruct (canceled T), (failed T), (retry T); reflexivity.
Qed.

Lemma loop_trace fuel : ∀ d d', loop fuel d = Some d' → ∃ tr, trace d' = trace d ++ tr.
Proof.
  induction fuel as [|fuel IH]; intros d d' H; [discriminate|]. simpl in H.
  destruct (select (strip d)) as [[i t]|] eqn:Hsel.
  - destruct (start t i (markBusy (strip d))) as [[d2 c]|] eqn:Hst; [|discriminate].
    destruct (markBusy_trace (strip d)) as [tr1 Htr1].
    apply start_summary in Hst
      as (T & g & evs & _ & _ & _ & _ & _ & _ & _ & _ & _ & Htr & _).
    rewrite Htr1 in Htr. change (trace (strip d)) with (trace d) in Htr.
    destruct c.
    + apply IH in H as [tr2 Htr2]. rewrite onComplete_trace, Htr in Htr2.
      eexists. rewrite Htr2, <- !app_assoc. reflexivity.
    + injection H as <-. eexists. rewrite Htr, <- app_assoc. reflexivity.
  - injection H as <-. exact (markIdle_trace (strip d)).
Qed.

Lemma elem_of_delete_other (l : list nat) i t t' :
  l !! i = Some t' → t ≠ t' → t ∈ l → t ∈ delete i l.
Proof.
  revert i. induction l as [|a l IH]; intros i Hi Hne Hin; [inversion Hin|].
  destruct i as [|i]; simpl in *.
  - injection Hi as ->. apply elem_of_cons in Hin as [->|Hin]; [contradiction|exact Hin].
  - apply elem_of_cons in Hin as [->|Hin]; [apply list_elem_of_here|].
    apply list_elem_of_further, (IH i); assumption.
Qed.

Lemma onComplete_keeps t t' i d :
  tasks d !! i = Some t' → t ≠ t' → t ∈ tasks d → t ∈ tasks (onComplete t' i d).
Proof.
  intros Hi Hne Hin. unfold onComplete. destruct (tstore d !! t') as [T|]; [|exact Hin].
  destruct (canceled T), (failed T), (retry T); simpl;
    first [exact Hin | eapply elem_of_delete_other; eassumption].
Qed.

(** A pass of [loop] over a queue that holds a task which is neither
    canceled nor failed runs that task, or stops at a task that waits for an
    answer and leaves the first one as it was. *)
Lemma loop_runs fuel : ∀ d d' t,
  loop fuel d = Some d' → t ∈ tasks d → candidate d t →
  (∃ tr, trace d' = trace d ++ tr ∧ Exec t ∈ tr)
  ∨ (is_Some (pending d') ∧ t ∈ tasks d' ∧ candidate d' t).
Proof.
  induction fuel as [|fuel IH]; intros d d' t H Hin [Hc Hf]; [discriminate|]. simpl in H.
  assert (Hin1 : t ∈ tasks (strip d)).
  { unfold strip. simpl. apply list_elem_of_filter. split; assumption. }
  destruct (select (strip d)) as [[i t']|] eqn:Hsel.
  2:{ apply (select_None _ t) in Hsel; [|exact Hin1].
      rewrite (isFailed_tstore d (strip d)) in Hsel by reflexivity. congruence. }
  apply select_Some in Hsel as [Hi _].
  destruct (start t' i (markBusy (strip d))) as [[d2 c]|] eqn:Hst; [|discriminate].
  destruct (markBusy_trace (strip d)) as [tr1 Htr1].
  destruct (markBusy_fields (strip d)) as (Bt & Bs & _).
  apply start_summary in Hst
    as (T & g & evs & _ & Ht2 & _ & _ & _ & _ & _ & Hs2 & _ & Htr & _ & _ & Hp).
  rewrite Htr1 in Htr. change (trace (strip d)) with (trace d) in Htr.
  rewrite Bt in Ht2. rewrite Bs in Hs2. change (tstore (strip d)) with (tstore d) in Hs2.
  destruct (decide (t = t')) as [<-|Hne].
  - left. destruct c.
    + apply loop_trace in H as [tr2 Htr2]. rewrite onComplete_trace, Htr in Htr2.
      eexists. split; [rewrite Htr2, <- !app_assoc; reflexivity|].
      apply elem_of_app. right. apply elem_of_app. left. apply list_elem_of_here.
    + injection H as <-. eexists. split; [rewrite Htr, <- app_assoc; reflexivity|].
      apply elem_of_app. right. apply list_elem_of_here.
  - assert (Hcand : candidate d2 t).
    { unfold candidate, isCanceled, isFailed. rewrite Hs2, list_lookup_alter_ne by congruence.
      split; assumption. }
    assert (Hin2 : t ∈ tasks d2) by (rewrite Ht2; exact Hin1).
    destruct c.
    + destruct (onComplete_fields t' i d2) as (Os & _).
      apply (IH _ _ t) in H.
      * destruct H as [(tr2 & Htr2 & Hex)|H]; [left|right; exact H].
        rewrite onComplete_trace, Htr in Htr2.
        eexists. split; [rewrite Htr2, <- !app_assoc; reflexivity|].
        apply elem_of_app. right. apply elem_of_app. right. exact Hex.
      * apply onComplete_keeps; [rewrite Ht2; exact Hi|exact Hne|exact Hin2].
      * unfold candidate. rewrite (isCanceled_tstore d2), (isFailed_tstore d2) by exact Os.
        exact Hcand.
    + injection H as <-. right. destruct Hp as [ph Hp]. rewrite Hp.
      split; [eexists; reflexivity|]. split; assumption.
Qed.

(** The retry cycle on a queue that holds a failed task marked for a retry. *)
Lemma kickStart_retries d d' t T :
  quiescent d → t ∈ tasks d → tstore d !! t = Some T →
  canceled T = false → failed T = true → retry T = true →
  kickStartTasks d = Some d' →
  (∃ tr, trace d' = trace d ++ tr ∧ Exec t ∈ tr)
  ∨ (is_Some (pending d') ∧ t ∈ tasks d' ∧ candidate d' t).
Proof.
  intros Hq Hin HT Hc Hf Hr H.
  assert (HT' : tstore (rearmAll d) !! t = Some (set_retry false (set_failed false T))).
  { unfold rearmAll. change (fold_left _ (tasks d) d) with (rearmFold (tasks d) d).
    rewrite (rearmFold_lookup _ _ _ _ HT), bool_decide_eq_true_2 by exact Hin.
    unfold rearm. rewrite Hc, Hf, Hr. reflexivity. }
  destruct (rearmAll_fields d) as (Ht & Hd & Hp & _ & _ & _ & Htr & _).
  assert (Hcand : candidate (rearmAll d) t).
  { unfold candidate, isCanceled, isFailed. rewrite HT'. simpl. auto. }
  unfold kickStartTasks, _doTasks in H. rewrite Hd in H.
  destruct (doingTasks d) eqn:Hdo.
  - injection H as <-. right. rewrite Hp, Ht.
    split; [apply (q_pending _ Hq); exact Hdo|]. split; assumption.
  - apply (loop_runs _ _ _ t) in H; [|rewrite Ht; exact Hin|exact Hcand].
    rewrite Htr in H. exact H.
Qed.

Lemma C2_http_404_counterexample :
  (code err404 =? ABORT_ERR) = false
  ∧ ∃ d', run [Answer (TransferFail err404); RetryTimer] ex_transfer = Some d'
          ∧ tstore d' = [mkTask "b1" TASK_TYPE_LOAD None true (Some (ErrFileTransfer err404))
                           false false false 1]
          ∧ tasks d' = []
          ∧ trace d' = [Sent None GLOBAL_EVENT_BUSY; Exec 0%nat;
                        Sent (Some (0%nat, 1%nat)) (BUNDLE_EVENT_LOADING "b1");
                        Sent (Some (0%nat, 1%nat))
                          (BUNDLE_EVENT_ERROR "b1" (ErrFileTransfer err404));
                        Sent None GLOBAL_EVENT_NOTBUSY].
Proof.
  split; [reflexivity|]. eexists. split; [vm_compute; reflexivity|].
  split; [reflexivity|]. split; reflexivity.
Qed.

(** C2: a transfer of the Load task [t] fails with an error that is not
    that of a canceled transfer.  The task is marked failed with the error
    as its message and stays in the state of the manager; [retry] is set
    exactly when the error carries no HTTP status, the status 0 or the
    status 200.  With [retry] set no event is sent and the task keeps its
    place in the queue, and the retry cycle makes such a task eligible
    again: in a reachable state the cycle runs the task, or leaves it
    queued and eligible behind the task that waits for an answer.  With
    [retry] not set, and the task not canceled, an error event is sent and
    the task leaves the queue. *)
Theorem C2_failed_transfer_is_retried_by_status
    (d : DAM) (t : nat) (T : Task) (fr : LoadFrame) (b : bundle) (err : FileTransferError) :
  tstore d !! t = Some T → readBundle (heap d) (lf_bundle fr) = Some b →
  code err ≠ ABORT_ERR →
  (retryable err = true ↔
     http_status err = None ∨ http_status err = Some 0 ∨ http_status err = Some 200)
  ∧ (∃ d',
       _downloadFail t fr err d = Some (d', Completed)
       ∧ tstore d' !! t
           = Some (set_retry (retryable err)
                     (set_error (Some (ErrFileTransfer err)) (set_failed true (set_ft false T))))
       ∧ tasks d' = tasks d
       ∧ (retryable err = true →
            eventQueue d' = eventQueue d ∧ ∀ i, tasks (onComplete t i d') = tasks d')
       ∧ (retryable err = false → canceled T = false →
            eventQueue d'
              = eventQueue d
                ++ [(Some (t, attempts T), BUNDLE_EVENT_ERROR (name b) (ErrFileTransfer err))]
            ∧ ∀ i, tasks (onComplete t i d') = delete i (tasks d')))
  ∧ (∀ dr Tr,
       t ∈ tasks dr → tstore dr !! t = Some Tr →
       canceled Tr = false → failed Tr = true → retry Tr = true →
       (t ∈ tasks (strip (rearmAll dr)) ∧ isFailed (strip (rearmAll dr)) t = false)
       ∧ ∀ dr', reachable dr → step RetryTimer dr = Some dr' →
           (∃ tr, trace dr' = trace dr ++ tr ∧ Exec t ∈ tr)
           ∨ (is_Some (pending dr') ∧ t ∈ tasks dr' ∧ candidate dr' t)).
Proof.
  intros HT Hb Hcode. split; [apply retryable_spec|].
  split.
  2:{ intros dr Tr K1 K2 K3 K4 K5. split; [eapply rearmAll_eligible; eauto|].
      intros dr' Hreach Hstep. eapply kickStart_retries; eauto.
      apply reachable_quiescent, Hreach. }
  unfold _downloadFail. apply Z.eqb_neq in Hcode. rewrite Hcode.
  unfold error_. simpl. rewrite list_lookup_alter_eq, HT. simpl.
  destruct (retryable err) eqn:Hr; simpl.
  - eexists. split; [reflexivity|]. simpl. rewrite list_alter_alter_eq, list_lookup_alter_eq, HT.
    conjs; try reflexivity; [|discriminate].
    intros _. split; [reflexivity|]. intros i. unfold onComplete. simpl.
    rewrite !list_lookup_alter_eq, HT. simpl. destruct (canceled T); reflexivity.
  - destruct (canceled T) eqn:Hc; simpl.
    + eexists. split; [reflexivity|]. simpl.
      rewrite list_alter_alter_eq, list_lookup_alter_eq, HT.
      conjs; try reflexivity; discriminate.
    + rewrite Hb. simpl. eexists. split; [reflexivity|]. simpl.
      rewrite list_alter_alter_eq, list_lookup_alter_eq, HT.
      conjs; try reflexivity; [discriminate|].
      intros _ _. split.
      * unfold tagOf. simpl. rewrite !list_lookup_alter_eq, HT. reflexivity.
      * intros i. unfold onComplete. simpl. rewrite !list_lookup_alter_eq, HT. simpl.
        rewrite Hc. reflexivity.
Qed.

Lemma C2_witness :
  ∃ d', _downloadFail 0 ex_frame errTimeout ex_transfer = Some (d', Completed)
        ∧ (retry <$> tstore d' !! 0%nat) = Some true
        ∧ tasks d' = tasks ex_transfer
        ∧ eventQueue d' = eventQueue ex_transfer
        ∧ ∃ d2, run [Answer (TransferFail errTimeout); RetryTimer] ex_transfer = Some d2
                ∧ (attempts <$> tstore d2 !! 0%nat) = Some 2%nat
                ∧ (failed <$> tstore d2 !! 0%nat) = Some false.
Proof.
  destruct (C2_failed_transfer_is_retried_by_status ex_transfer 0%nat
              (mkTask "b1" TASK_TYPE_LOAD None false None false false true 1) ex_frame
              (Bundle "b1" ["http://h/a.png"] None (Some false)) errTimeout)
    as (_ & (d' & H1 & H2 & H3 & H4 & _) & _).
  - vm_compute. reflexivity.
  - vm_compute. reflexivity.
  - discriminate.
  - exists d'. split; [exact H1|]. split; [rewrite H2; reflexivity|]. split; [exact H3|].
    split; [apply H4; reflexivity|].
    eexists. split; [vm_compute; reflexivity|]. split; reflexivity.
Defined.

(** * C6: the progress events of a Load task *)

(** ** The events of one run of a task *)

Lemma eventsOf_app tag tr tr' : eventsOf tag (tr ++ tr') = eventsOf tag tr ++ eventsOf tag tr'.
Proof. apply omap_app. Qed.

Lemma eventsOf_same tag evs : eventsOf tag (map (Sent (Some tag)) evs) = evs.
Proof.
  induction evs as [|e evs IH]; [reflexivity|]. unfold eventsOf in *. simpl.
  rewrite bool_decide_eq_true_2 by reflexivity. f_equal. exact IH.
Qed.

Lemma eventsOf_other tag tag' evs : tag' ≠ tag → eventsOf tag (map (Sent (Some tag')) evs) = [].
Proof.
  intros Hne. induction evs as [|e evs IH]; [reflexivity|]. unfold eventsOf in *. simpl.
  rewrite bool_decide_eq_false_2 by exact Hne. exact IH.
Qed.

Lemma eventsOf_tagOf tag t d evs :
  tagOf t d ≠ Some tag → eventsOf tag (map (Sent (tagOf t d)) evs) = [].
Proof.
  intros Hne. destruct (tagOf t d) as [tg|].
  - apply eventsOf_other. congruence.
  - induction evs as [|e evs IH]; [reflexivity|]. exact IH.
Qed.

Lemma eventsOf_elem tag tr e : e ∈ eventsOf tag tr → Sent (Some tag) e ∈ tr.
Proof.
  unfold eventsOf. intros H. apply list_elem_of_omap in H as (o & Ho & He).
  destruct o as [[tg|] e'|]; try discriminate.
  destruct (bool_decide (tg = tag)) eqn:E; [|discriminate].
  apply bool_decide_eq_true in E. injection He as ->. rewrite <- E. exact Ho.
Qed.

(** A run that has not begun has no events. *)
Lemma eventsOf_fresh d t T k :
  tags_ok d → tstore d !! t = Some T → (attempts T < k)%nat → eventsOf (t, k) (trace d) = [].
Proof.
  intros G HT Hk. destruct (eventsOf (t, k) (trace d)) as [|e es] eqn:E; [reflexivity|].
  assert (He : e ∈ eventsOf (t, k) (trace d)) by (rewrite E; apply list_elem_of_here).
  apply eventsOf_elem in He. destruct (tg_sent d G t k e He) as (T' & HT' & Hle).
  rewrite HT in HT'. injection HT' as <-. lia.
Qed.

Lemma scan_None es :
  fold_left (fun acc e => acc ≫= fun st => attempt_step st e) es None = None.
Proof. induction es as [|e es IH]; [reflexivity|exact IH]. Qed.

Lemma attempt_scan_cons st e es :
  attempt_scan st (e :: es) = attempt_step st e ≫= fun st' => attempt_scan st' es.
Proof.
  unfold attempt_scan. simpl. destruct (attempt_step st e); [reflexivity|apply scan_None].
Qed.

Lemma attempt_scan_app st es es' :
  attempt_scan st (es ++ es') = attempt_scan st es ≫= fun st' => attempt_scan st' es'.
Proof.
  revert st. induction es as [|e es IH]; intros st; [reflexivity|].
  rewrite <- app_comm_cons, !attempt_scan_cons.
  destruct (attempt_step st e) as [st'|]; [apply IH|reflexivity].
Qed.

(** ** Sums of weights *)

Lemma sumZ_nonneg ws : Forall (fun w => 0 <= w) ws → 0 <= sumZ ws.
Proof. induction 1 as [|w ws Hw _ IH]; simpl; lia. Qed.

Lemma sumZ_take_S ws i w :
  ws !! i = Some w → sumZ (take (S i) ws) = sumZ (take i ws) + w.
Proof.
  revert i. induction ws as [|a ws IH]; intros [|i] H; try discriminate.
  - injection H as ->. simpl. lia.
  - simpl in H. change (take (S (S i)) (a :: ws)) with (a :: take (S i) ws).
    change (take (S i) (a :: ws)) with (a :: take i ws). simpl. rewrite (IH i H). lia.
Qed.

Lemma sumZ_take_le ws i : Forall (fun w => 0 <= w) ws → sumZ (take i ws) <= sumZ ws.
Proof.
  intros H. revert i. induction H as [|w ws Hw Hws IH]; intros [|i]; simpl; try lia.
  - pose proof (sumZ_nonneg ws Hws). lia.
  - specialize (IH i). lia.
Qed.

Lemma fold_js_add ws a : fold_left js_add (JNum <$> ws) (Some a) = Some (a + sumZ ws).
Proof.
  revert a. induction ws as [|w ws IH]; intros a; simpl; [f_equal; lia|].
  rewrite IH. f_equal. lia.
Qed.

Lemma replicate_ones ws n :
  JNum <$> ws = replicate n (JNum 1) → sumZ ws = Z.of_nat n.
Proof.
  revert n. induction ws as [|w ws IH]; intros [|n] H; try discriminate; [reflexivity|].
  simpl in H. injection H as -> H. simpl sumZ. rewrite (IH n H). lia.
Qed.

Lemma weight_hints b ws i w :
  hintsOf b = JNum <$> ws → ws !! i = Some w → weight b i = JNum w.
Proof.
  unfold hintsOf, weight. intros H Hi. destruct (fileSizes b) as [ss|].
  - rewrite H, list_lookup_fmap, Hi. reflexivity.
  - assert (E : (JNum <$> ws) !! i = Some (JNum w)) by (rewrite list_lookup_fmap, Hi; reflexivity).
    rewrite <- H in E. apply lookup_replicate in E as [E _]. congruence.
Qed.

Lemma totalSize_hints b ws :
  hintsOf b = JNum <$> ws → totalSizeOf b = Some (sumZ ws).
Proof.
  unfold hintsOf, totalSizeOf. intros H. destruct (fileSizes b) as [ss|].
  - rewrite H, fold_js_add. reflexivity.
  - symmetry in H. apply replicate_ones in H. rewrite H. reflexivity.
Qed.

(** ** Fractions *)

Local Open Scope Q_scope.

Lemma Qdiv_le_compat x y t : x <= y → 0 < t → x / t <= y / t.
Proof.
  intros H Ht. unfold Qdiv. apply Qmult_le_compat_r; [exact H|].
  apply Qlt_le_weak, Qinv_lt_0_compat, Ht.
Qed.

Lemma inject_Z_pos t : (0 < t)%Z → 0 < inject_Z t.
Proof. intros H. change 0 with (inject_Z 0). rewrite <- Zlt_Qlt. exact H. Qed.

Lemma inject_Z_nonneg t : (0 <= t)%Z → 0 <= inject_Z t.
Proof. intros H. change 0 with (inject_Z 0). rewrite <- Zle_Qle. exact H. Qed.

(** A tick is a part of the whole. *)
Lemma tick_range el et : (0 <= el <= et)%Z → (0 < et)%Z → 0 <= inject_Z el / inject_Z et <= 1.
Proof.
  intros [H1 H2] H3. pose proof (inject_Z_pos et H3) as Ht. split.
  - apply Qle_shift_div_l; [exact Ht|]. rewrite Qmult_0_l. apply inject_Z_nonneg, H1.
  - apply Qle_shift_div_r; [exact Ht|]. rewrite Qmult_1_l. rewrite <- Zle_Qle. exact H2.
Qed.

(** The fraction of a frame grows with the tick, up to the fraction of the
    file done, which is at most 1. *)
Lemma frame_fraction_mono done w total x y :
  (0 <= w)%Z → (0 < total)%Z → x <= y →
  (inject_Z done + x * inject_Z w) / inject_Z total
  <= (inject_Z done + y * inject_Z w) / inject_Z total.
Proof.
  intros Hw Ht Hxy. apply Qdiv_le_compat; [|apply inject_Z_pos, Ht].
  apply Qplus_le_r. apply Qmult_le_compat_r; [exact Hxy|apply inject_Z_nonneg, Hw].
Qed.

Lemma frame_fraction_done done w total :
  (inject_Z done + 1 * inject_Z w) / inject_Z total == inject_Z (done + w) / inject_Z total.
Proof. rewrite inject_Z_plus, Qmult_1_l. reflexivity. Qed.

Lemma frame_fraction_start done w total :
  (inject_Z done + 0 * inject_Z w) / inject_Z total == inject_Z done / inject_Z total.
Proof. rewrite Qmult_0_l, Qplus_0_r. reflexivity. Qed.

Lemma fraction_le_1 a total : (a <= total)%Z → (0 < total)%Z → inject_Z a / inject_Z total <= 1.
Proof.
  intros H Ht. apply Qle_shift_div_r; [apply inject_Z_pos, Ht|].
  rewrite Qmult_1_l, <- Zle_Qle. exact H.
Qed.

Lemma fraction_whole total : (0 < total)%Z → 1 <= inject_Z total / inject_Z total.
Proof.
  intros Ht. apply Qle_shift_div_l; [apply inject_Z_pos, Ht|]. rewrite Qmult_1_l. apply Qle_refl.
Qed.

Local Close Scope Q_scope.

(** ** The bodies *)

Lemma attemptOf_trace tag d d' : trace d' = trace d → attemptOf tag d' = attemptOf tag d.
Proof. unfold attemptOf. intros ->. reflexivity. Qed.

(** Events sent for the run [(t, k)]. *)
Lemma attemptOf_send t k d d' st st' evs :
  trace d' = trace d ++ map (Sent (Some (t, k))) evs →
  attemptOf (t, k) d = Some st → attempt_scan st evs = Some st' →
  attemptOf (t, k) d' = Some st'
  ∧ (∀ tag, tag ≠ (t, k) → eventsOf tag (trace d') = eventsOf tag (trace d)).
Proof.
  intros Htr Hst Hscan. split.
  - unfold attemptOf in *. rewrite Htr, eventsOf_app, eventsOf_same, attempt_scan_app, Hst.
    exact Hscan.
  - intros tag Hne. rewrite Htr, eventsOf_app, eventsOf_other by congruence. apply app_nil_r.
Qed.

Lemma frame_ok_frame d d' t fr :
  frame_ok d t fr →
  heap_le (heap d) (heap d') →
  (∀ T, tstore d !! t = Some T → ∃ T', tstore d' !! t = Some T' ∧ attempts T' = attempts T) →
  trace d' = trace d →
  frame_ok d' t fr.
Proof.
  intros (T & b & ws & any & last & w & HT & Hb & Hh & Hlen & Hnn & Hpos & Hw & Hts & Htd
          & Htick & Hat & Hlast) Hheap Hst Htr.
  destruct (Hst T HT) as (T' & HT' & Ha).
  destruct (Hheap _ _ Hb) as (b' & Hb' & _ & Hf & Hs).
  exists T', b', ws, any, last, w. conjs; auto.
  - unfold hintsOf in *. rewrite Hs, Hf. exact Hh.
  - rewrite Hf. exact Hlen.
  - apply Htick.
  - apply Htick.
  - rewrite Ha. rewrite (attemptOf_trace _ d d' Htr). exact Hat.
Qed.

Lemma tagOf_Some t d T : tstore d !! t = Some T → tagOf t d = Some (t, attempts T).
Proof. unfold tagOf. intros ->. reflexivity. Qed.

Lemma error_prog t T l msg rt d d' out any last :
  tstore d !! t = Some T → attemptOf (t, attempts T) d = Some (Open any last) →
  error_ t l msg rt d = Some (d', out) →
  body_prog t (attempts T) d d' out ∧ out = Completed.
Proof.
  unfold error_. intros HT Hat H. rewrite HT in H. simpl in H.
  destruct (negb rt && negb (canceled T)).
  - destruct (readBundle _ l) as [b|]; simpl in H; [|discriminate].
    injection H as <- <-. split; [|reflexivity].
    destruct (attemptOf_send t (attempts T) d
                (_sendEvent (tagOf t (updTask (fun T0 => set_retry rt (set_error (Some msg)
                   (set_failed true T0))) t d)) (BUNDLE_EVENT_ERROR (name b) msg)
                   (updTask (fun T0 => set_retry rt (set_error (Some msg)
                      (set_failed true T0))) t d))
                (Open any last) Closed [BUNDLE_EVENT_ERROR (name b) msg]) as [A1 A2].
    + simpl. unfold tagOf. simpl. rewrite list_lookup_alter_eq, HT. reflexivity.
    + exact Hat.
    + reflexivity.
    + split; [rewrite A1; eauto|]. split; [exact A2|]. intros ph fr E. discriminate.
  - injection H as <- <-. split; [|reflexivity].
    split; [unfold attemptOf in *; simpl; rewrite Hat; eauto|].
    split; [reflexivity|]. intros ph fr E. discriminate.
Qed.

Lemma body_prog_trans t k d d1 d' out :
  (∀ tag, tag ≠ (t, k) → eventsOf tag (trace d1) = eventsOf tag (trace d)) →
  body_prog t k d1 d' out → body_prog t k d d' out.
Proof.
  intros H1 (A & B & C). split; [exact A|]. split; [|exact C].
  intros tag Hne. rewrite (B tag Hne). apply H1, Hne.
Qed.

Lemma download_loop_canceled t T l ts td i d :
  tstore d !! t = Some T → canceled T = true →
  download_loop t l ts td i d = error_ t l ErrCanceled false d.
Proof. unfold download_loop. intros -> Hc. simpl. rewrite Hc. reflexivity. Qed.

Lemma download_loop_prog t T l b ws index d d' out any last :
  tstore d !! t = Some T → readBundle (heap d) l = Some b →
  hintsOf b = JNum <$> ws → length ws = length (files b) →
  Forall (fun w => 0 <= w) ws → (ws = [] ∨ 0 < sumZ ws) →
  attemptOf (t, attempts T) d = Some (Open any last) →
  (last <= inject_Z (sumZ (take index ws)) / inject_Z (sumZ ws))%Q →
  (index = length ws → any = false ∨ (1 <= last)%Q) →
  download_loop t l (Some (sumZ ws)) (Some (sumZ (take index ws))) index d = Some (d', out) →
  body_prog t (attempts T) d d' out.
Proof.
  intros HT Hb Hh Hlen Hnn Hpos Hat Hlast Hend H.
  destruct (canceled T) eqn:Hc.
  { rewrite (download_loop_canceled _ _ _ _ _ _ _ HT Hc) in H.
    eapply error_prog in H as [H _]; eauto. }
  unfold download_loop in H. rewrite HT in H. simpl in H. rewrite Hc, Hb in H. simpl in H.
  destruct (index =? length (files b))%nat eqn:E.
  - apply Nat.eqb_eq in E. injection H as <- <-.
    set (d2 := persist (set_heap (setProp (heap d) l "loaded" (JBool true)) d)).
    destruct (attemptOf_send t (attempts T) d
                (_sendEvent (tagOf t d2) (BUNDLE_EVENT_LOADED (name b)) d2)
                (Open any last) Closed [BUNDLE_EVENT_LOADED (name b)]) as [A1 A2].
    + simpl. rewrite (tagOf_Some t d2 T HT). reflexivity.
    + exact Hat.
    + unfold attempt_scan. simpl. destruct (Hend (eq_trans E (eq_sym Hlen))) as [->|Hl].
      * reflexivity.
      * apply Qle_bool_iff in Hl. rewrite Hl, orb_true_r. reflexivity.
    + split; [rewrite A1; eauto|]. split; [exact A2|]. intros ph fr Hph. discriminate.
  - apply Nat.eqb_neq in E.
    destruct (files b !! index) as [f|] eqn:Hf; simpl in H; [|discriminate].
    injection H as <- <-.
    split; [rewrite Hat; eauto|]. split; [reflexivity|].
    intros ph fr Hph Hfr. injection Hph as <-. simpl in Hfr. injection Hfr as <-.
    assert (Hlt : (index < length ws)%nat) by (rewrite Hlen; eapply lookup_lt_Some, Hf).
    destruct (lookup_lt_is_Some_2 ws index Hlt) as [w Hw].
    exists T, b, ws, any, last, w. simpl. conjs; auto.
    + destruct Hpos as [->|Hp]; [simpl in Hlt; lia|exact Hp].
    + apply Qle_refl.
    + discriminate.
    + rewrite frame_fraction_start. exact Hlast.
Qed.

Lemma fileDone_prog t T fr d d' out :
  tstore d !! t = Some T → frame_ok d t fr →
  fileDone t fr d = Some (d', out) → body_prog t (attempts T) d d' out.
Proof.
  intros HT (T0 & b & ws & any & last & w & HT0 & Hb & Hh & Hlen & Hnn & Hpos & Hw & Hts & Htd
             & Htick & Hat & Hlast) H.
  rewrite HT in HT0. injection HT0 as <-.
  unfold fileDone in H. rewrite HT in H. simpl in H.
  destruct (canceled T) eqn:Hc; simpl in H.
  { rewrite (download_loop_canceled _ _ _ _ _ _ _ HT Hc) in H.
    eapply error_prog in H as [H _]; eauto. }
  rewrite Hb in H. simpl in H.
  rewrite (weight_hints b ws _ w Hh Hw), Hts, Htd in H. simpl in H.
  assert (Hz : (sumZ ws =? 0) = false) by (apply Z.eqb_neq; lia).
  rewrite Hz in H.
  rewrite <- (sumZ_take_S ws _ w Hw) in H.
  set (q := (inject_Z (sumZ (take (S (lf_index fr)) ws)) / inject_Z (sumZ ws))%Q) in *.
  set (d1 := _sendEvent (tagOf t d) (BUNDLE_EVENT_PROGRESS (name b) (Some q)) d) in *.
  assert (Hw0 : 0 <= w).
  { rewrite Forall_forall in Hnn. apply Hnn. eapply list_elem_of_lookup_2, Hw. }
  assert (Hq1 : (q <= 1)%Q).
  { apply fraction_le_1; [apply sumZ_take_le, Hnn|exact Hpos]. }
  assert (Hlq : (last <= q)%Q).
  { eapply Qle_trans; [exact Hlast|].
    eapply Qle_trans; [apply (frame_fraction_mono _ w _ (lf_tick fr) 1 Hw0 Hpos), Htick|].
    rewrite frame_fraction_done, <- (sumZ_take_S ws _ w Hw). apply Qle_refl. }
  destruct (attemptOf_send t (attempts T) d d1 (Open any last) (Open true q)
              [BUNDLE_EVENT_PROGRESS (name b) (Some q)]) as [A1 A2].
  { unfold d1. simpl. rewrite (tagOf_Some t d T HT). reflexivity. }
  { exact Hat. }
  { unfold attempt_scan. simpl. apply Qle_bool_iff in Hq1, Hlq. rewrite Hq1, Hlq. reflexivity. }
  apply (body_prog_trans t (attempts T) d d1 d' out A2).
  apply (download_loop_prog t T (lf_bundle fr) b ws (S (lf_index fr)) d1 d' out true q);
    auto.
  - apply Qle_refl.
  - intros E. right. unfold q. rewrite take_ge by lia. apply fraction_whole, Hpos.
Qed.

Lemma onprogress_prog t T fr lc el et d d' out :
  tstore d !! t = Some T → frame_ok d t fr →
  (lc = true → 0 <= el <= et ∧ 0 < et ∧ (lf_tick fr <= inject_Z el / inject_Z et)%Q) →
  onprogress t fr lc el et d = Some (d', out) → body_prog t (attempts T) d d' out.
Proof.
  intros HT (T0 & b & ws & any & last & w & HT0 & Hb & Hh & Hlen & Hnn & Hpos & Hw & Hts & Htd
             & Htick & Hat & Hlast) Hlc H.
  rewrite HT in HT0. injection HT0 as <-.
  assert (Hw0 : 0 <= w).
  { rewrite Forall_forall in Hnn. apply Hnn. eapply list_elem_of_lookup_2, Hw. }
  unfold onprogress in H. rewrite HT in H. simpl in H.
  set (tick' := if lc then (inject_Z el / inject_Z et)%Q else lf_tick fr) in *.
  assert (Ht' : (lf_tick fr <= tick')%Q ∧ (0 <= tick' <= 1)%Q).
  { unfold tick'. destruct lc; [|split; [apply Qle_refl|exact Htick]].
    destruct (Hlc eq_refl) as (H1 & H2 & H3). split; [exact H3|apply tick_range; assumption]. }
  destruct Ht' as [Hmono Hrange].
  assert (Hcur : (last <= (inject_Z (sumZ (take (lf_index fr) ws)) + tick' * inject_Z w)
                          / inject_Z (sumZ ws))%Q).
  { eapply Qle_trans; [exact Hlast|]. apply frame_fraction_mono; assumption. }
  destruct (lc && negb (canceled T)) eqn:Hsend.
  - rewrite Hb in H. simpl in H. injection H as <- <-.
    apply andb_true_iff in Hsend as [-> Hc]. destruct (Hlc eq_refl) as (H1 & H2 & H3).
    subst tick'. cbv iota in Hcur, Hrange.
    rewrite (weight_hints b ws _ w Hh Hw), Hts, Htd. unfold tickFraction. simpl.
    assert (Hz : (sumZ ws =? 0) = false) by (apply Z.eqb_neq; lia).
    assert (Hz' : (et =? 0) = false) by (apply Z.eqb_neq; lia).
    rewrite Hz, Hz'. simpl.
    set (q := ((inject_Z (sumZ (take (lf_index fr) ws)) + inject_Z el / inject_Z et * inject_Z w)
               / inject_Z (sumZ ws))%Q) in *.
    assert (Hq1 : (q <= 1)%Q).
    { eapply Qle_trans;
        [apply (frame_fraction_mono _ w _ (inject_Z el / inject_Z et)%Q 1 Hw0 Hpos), Hrange|].
      rewrite frame_fraction_done, <- (sumZ_take_S ws _ w Hw).
      apply fraction_le_1; [apply sumZ_take_le, Hnn|exact Hpos]. }
    destruct (attemptOf_send t (attempts T) d
                (_sendEvent (tagOf t d) (BUNDLE_EVENT_PROGRESS (name b) (Some q)) d)
                (Open any last) (Open true q) [BUNDLE_EVENT_PROGRESS (name b) (Some q)])
      as [A1 A2].
    { simpl. rewrite (tagOf_Some t d T HT). reflexivity. }
    { exact Hat. }
    { unfold attempt_scan. simpl. apply Qle_bool_iff in Hq1, Hcur. rewrite Hq1, Hcur.
      reflexivity. }
    split; [rewrite A1; eauto|]. split; [exact A2|].
    intros ph fr' Hph Hfr. injection Hph as <-. simpl in Hfr. injection Hfr as <-.
    exists T, b, ws, true, q, w. simpl. conjs; auto; try apply Hrange. apply Qle_refl.
  - injection H as <- <-. split; [rewrite Hat; eauto|]. split; [reflexivity|].
    intros ph fr' Hph Hfr. injection Hph as <-. simpl in Hfr. injection Hfr as <-.
    exists T, b, ws, any, last, w. simpl. conjs; auto; apply Hrange.
Qed.

Lemma hints_length b ws :
  sizes_ok b → hintsOf b = JNum <$> ws → length ws = length (files b).
Proof.
  unfold sizes_ok, hintsOf. intros Hs H. destruct (fileSizes b) as [ss|].
  - rewrite <- (Hs ss eq_refl), H, length_fmap. reflexivity.
  - apply (f_equal length) in H. rewrite length_replicate, length_fmap in H. auto.
Qed.

Lemma remove_loop_out t l i d d' out :
  remove_loop t l i d = Some (d', out) →
  d' = d ∧ ∀ ph, out = Suspended ph → loadFrame ph = None.
Proof.
  intros H. split; [eapply remove_loop_fp, H|].
  unfold remove_loop in H. destruct (tstore d !! t) as [T|]; simpl in H; [|discriminate].
  destruct (canceled T); [injection H as <- <-; discriminate|].
  destruct (readBundle (heap d) l) as [b|]; simpl in H; [|discriminate].
  destruct (remove_scan _ _ _ _) as [[k f]|]; injection H as <- <-; [|discriminate].
  intros ph E. injection E as <-. reflexivity.
Qed.

Lemma alter_attempts g t (ts : list Task) t' T :
  (∀ T0, attempts (g T0) = attempts T0) → ts !! t' = Some T →
  ∃ T', alter g t ts !! t' = Some T' ∧ attempts T' = attempts T.
Proof.
  intros Hg HT. destruct (decide (t' = t)) as [->|Hne].
  - exists (g T). rewrite list_lookup_alter_eq, HT. split; [reflexivity|apply Hg].
  - exists T. rewrite list_lookup_alter_ne by congruence. auto.
Qed.

Lemma addLocalURL_fields f u d :
  trace (_addLocalURL f u d) = trace d ∧ heap (_addLocalURL f u d) = heap d
  ∧ tstore (_addLocalURL f u d) = tstore d.
Proof.
  unfold _addLocalURL. destruct (localURLs d !! f); [auto|].
  destruct (String.eqb f "__proto__"); auto.
Qed.

Lemma removeLocalURL_fields f d :
  trace (_removeLocalURL f d) = trace d ∧ heap (_removeLocalURL f d) = heap d
  ∧ tstore (_removeLocalURL f d) = tstore d.
Proof. unfold _removeLocalURL. destruct (localURLs d !! f); auto. Qed.

Lemma body_prog_same t k d d' out :
  is_Some (attemptOf (t, k) d) → trace d' = trace d →
  (∀ ph fr, out = Suspended ph → loadFrame ph = Some fr → frame_ok d' t fr) →
  body_prog t k d d' out.
Proof.
  intros H Htr Hfr. split; [rewrite (attemptOf_trace _ d d' Htr); exact H|].
  split; [intros; rewrite Htr; reflexivity|exact Hfr].
Qed.

Lemma callback_prog t T ph r d d' out :
  tstore d !! t = Some T →
  is_Some (attemptOf (t, attempts T) d) →
  (∀ fr, loadFrame ph = Some fr → frame_ok d t fr) →
  (∀ fr el et, ph = LoadTransfer fr → r = TransferProgress true el et →
               0 <= el <= et ∧ 0 < et ∧ (lf_tick fr <= inject_Z el / inject_Z et)%Q) →
  callback t ph r d = Some (d', out) →
  body_prog t (attempts T) d d' out.
Proof.
  intros HT Hat Hfr Htick H. unfold callback in H.
  destruct ph as [fr|fr|fr|l k f lf|l k], r as [url| |c| |lc el et|url|err];
    try discriminate H.
  - eapply fileDone_prog; eauto.
  - injection H as <- <-. apply body_prog_same; auto.
    intros ph fr' E1 E2. injection E1 as <-. injection E2 as <-. apply Hfr. reflexivity.
  - injection H as <- <-. apply body_prog_same; auto.
    intros ph fr' E1 E2. injection E1 as <-. injection E2 as <-.
    apply (frame_ok_frame d); [apply Hfr; reflexivity|apply heap_le_refl| |reflexivity].
    intros T0 HT0. apply alter_attempts; [intros ?; reflexivity|exact HT0].
  - destruct (Hfr fr eq_refl)
      as (T0 & b & ws & any & last & w & HT0 & _ & _ & _ & _ & _ & _ & _ & _ & _ & Ha & _).
    rewrite HT in HT0. injection HT0 as <-.
    eapply error_prog in H as [H _]; eauto.
  - eapply onprogress_prog; eauto. intros ->. eapply Htick; reflexivity.
  - unfold _downloadSuccess in H.
    set (d0 := _addLocalURL (lf_remoteFile fr) url (updTask (set_ft false) t d)) in *.
    destruct (addLocalURL_fields (lf_remoteFile fr) url (updTask (set_ft false) t d))
      as (E1 & E2 & E3).
    assert (HT0 : tstore d0 !! t = Some (set_ft false T)).
    { unfold d0. rewrite E3. simpl. rewrite list_lookup_alter_eq, HT. reflexivity. }
    assert (F0 : frame_ok d0 t fr).
    { apply (frame_ok_frame d); [apply Hfr; reflexivity| | |exact E1].
      - unfold d0. rewrite E2. apply heap_le_refl.
      - intros T0 HT1. unfold d0. rewrite E3. simpl.
        apply alter_attempts; [intros ?; reflexivity|exact HT1]. }
    apply (fileDone_prog t _ fr d0 d' out HT0 F0) in H. simpl in H.
    eapply body_prog_trans; [|exact H]. intros tag _. unfold d0. rewrite E1. reflexivity.
  - unfold _downloadFail in H.
    set (d1 := set_disk (disk d ∖ {[lf_localName fr]}) (updTask (set_ft false) t d)) in *.
    assert (HT1 : tstore d1 !! t = Some (set_ft false T)).
    { simpl. rewrite list_lookup_alter_eq, HT. reflexivity. }
    destruct (code err =? ABORT_ERR).
    + injection H as <- <-. apply body_prog_same; auto. intros ph fr' E. discriminate.
    + destruct Hat as [st Hst].
      destruct (Hfr fr eq_refl)
        as (T0 & b & ws & any & last & w & HT0 & _ & _ & _ & _ & _ & _ & _ & _ & _ & Ha & _).
      rewrite HT in HT0. injection HT0 as <-.
      apply (error_prog t _ _ _ _ d1 d' out any last HT1) in H as [H _]; [|exact Ha].
      simpl in H. eapply body_prog_trans; [|exact H]. intros tag _. reflexivity.
  - unfold removeFound in H. injection H as <- <-.
    destruct (removeLocalURL_fields f (set_disk (disk d ∖ {[lf]}) d)) as (E1 & _).
    apply body_prog_same; auto. intros ph fr' E. injection E as <-. discriminate.
  - apply remove_loop_out in H as [-> Hout]. apply body_prog_same; auto.
    intros ph fr' E1 E2. rewrite (Hout ph E1) in E2. discriminate.
  - apply remove_loop_out in H as [-> Hout]. apply body_prog_same; auto.
    intros ph fr' E1 E2. rewrite (Hout ph E1) in E2. discriminate.
Qed.

Lemma eventsOf_exec tag tr t : eventsOf tag (tr ++ [Exec t]) = eventsOf tag tr.
Proof. rewrite eventsOf_app. apply app_nil_r. Qed.

Lemma eventsOf_global tag tr e : eventsOf tag (tr ++ [Sent None e]) = eventsOf tag tr.
Proof. rewrite eventsOf_app. apply app_nil_r. Qed.

(** The first piece of the body of a task, in a new run. *)
Lemma doIt_prog t T d d1 out :
  tags_ok d → registry_ok hints_ok d → tstore d !! t = Some T →
  doIt t d = Some (d1, out) →
  body_prog t (S (attempts T)) d d1 out.
Proof.
  intros G Hreg HT H. unfold doIt in H. rewrite HT in H. simpl in H.
  assert (Hfresh : eventsOf (t, S (attempts T)) (trace d) = []).
  { eapply eventsOf_fresh; eauto. }
  set (dn := noteExec t d) in *.
  assert (HTn : tstore dn !! t = Some (set_attempts (S (attempts T)) T)).
  { simpl. rewrite list_lookup_alter_eq, HT. reflexivity. }
  assert (Hothers : ∀ tag, eventsOf tag (trace dn) = eventsOf tag (trace d)).
  { intros tag. apply eventsOf_exec. }
  assert (Hatn : attemptOf (t, S (attempts T)) dn = Some (Open false 0)).
  { unfold attemptOf. rewrite Hothers, Hfresh. reflexivity. }
  destruct (type T).
  - unfold _downloadBundle in H. rewrite HTn in H. simpl in H.
    destruct (bundles d !! bundleName T) as [l|] eqn:Hl; simpl in H; [|discriminate].
    destruct (Hreg _ _ Hl) as (b & Hb & _ & Hsz & (ws & Hh & Hnn & Hpos)).
    change (heap dn) with (heap d) in H. rewrite Hb in H. simpl in H.
    rewrite (totalSize_hints b ws Hh) in H.
    set (d0 := _sendEvent (tagOf t dn) (BUNDLE_EVENT_LOADING (name b)) dn) in *.
    destruct (attemptOf_send t (S (attempts T)) dn d0 (Open false 0) (Open false 0)
                [BUNDLE_EVENT_LOADING (name b)]) as [A1 A2].
    { unfold d0. simpl. rewrite (tagOf_Some t dn _ HTn). reflexivity. }
    { exact Hatn. }
    { reflexivity. }
    apply (body_prog_trans t (S (attempts T)) d d0 d1 out).
    { intros tag Hne. rewrite (A2 tag Hne). apply Hothers. }
    change (Some 0) with (Some (sumZ (take 0 ws))) in H.
    apply (download_loop_prog t (set_attempts (S (attempts T)) T) l b ws 0 d0 d1 out false 0);
      auto.
    + eapply hints_length; eauto.
    + unfold Qdiv. simpl take. simpl sumZ. rewrite Qmult_0_l. apply Qle_refl.
  - apply removeBundleFiles_fp in H as Hd. subst d1.
    apply body_prog_trans with (d1 := dn); [intros; apply Hothers|].
    apply body_prog_same; [rewrite Hatn; eauto|reflexivity|].
    intros ph fr E1 E2. unfold _removeBundleFiles in H.
    rewrite HTn in H. simpl in H. destruct (extra T); simpl in H; [|discriminate].
    apply remove_loop_out in H as [_ Hout]. rewrite (Hout ph E1) in E2. discriminate.
Qed.

(** ** The registry *)

Lemma hints_ok_ext b b' : files b' = files b → fileSizes b' = fileSizes b → hints_ok b → hints_ok b'.
Proof. unfold hints_ok, hintsOf. intros -> ->. auto. Qed.

Lemma sizes_ok_ext b b' : files b' = files b → fileSizes b' = fileSizes b → sizes_ok b → sizes_ok b'.
Proof. unfold sizes_ok. intros -> ->. auto. Qed.

Lemma registry_frame d d' :
  bundles d' = bundles d → heap_le (heap d) (heap d') →
  registry_ok hints_ok d → registry_ok hints_ok d'.
Proof.
  intros Hb Hh Hreg n l Hl. rewrite Hb in Hl.
  destruct (Hreg n l Hl) as (b & Hrd & Hn & Hs & Hok).
  destruct (Hh _ _ Hrd) as (b' & Hrd' & Hn' & Hf & Hsz).
  exists b'. split; [exact Hrd'|]. split; [congruence|].
  split; [eapply sizes_ok_ext; eauto|eapply hints_ok_ext; eauto].
Qed.

Lemma registry_piece R d d' :
  registry_ok hints_ok d → piece hints_ok R d d' → registry_ok hints_ok d'.
Proof.
  intros Hreg Hp. destruct Hp.
  - revert Hreg. apply registry_frame; [reflexivity|assumption].
  - intros n l Hl. simpl in Hl. destruct (decide (n = bname)) as [->|Hne].
    + rewrite lookup_insert_eq in Hl. injection Hl as <-. exists b. simpl. auto.
    + rewrite lookup_insert_ne in Hl by congruence.
      destruct (Hreg n l Hl) as (b0 & Hrd & Hn & Hs & Hok).
      match goal with Hle : heap_le (heap d) h |- _ =>
        destruct (Hle _ _ Hrd) as (b' & Hrd' & Hn' & Hf & Hsz) end.
      exists b'. simpl. split; [exact Hrd'|]. split; [congruence|].
      split; [eapply sizes_ok_ext; eauto|eapply hints_ok_ext; eauto].
  - intros n l Hl. simpl in Hl. apply lookup_delete_Some in Hl as [_ Hl].
    destruct (Hreg n l Hl) as (b0 & Hrd & Hrest). exists b0. simpl. auto.
  - revert Hreg. destruct (abort_fields t d) as (_ & _ & _ & _ & Hh & Hb & _).
    apply registry_frame; [exact Hb|rewrite Hh; apply heap_le_refl].
  - revert Hreg. apply registry_frame; [reflexivity|apply heap_le_refl].
  - revert Hreg. apply registry_frame; [reflexivity|apply heap_le_refl].
  - revert Hreg. apply registry_frame; [reflexivity|apply heap_le_refl].
  - revert Hreg. destruct (markBusy_fields d) as (_ & _ & _ & Hh & Hb).
    apply registry_frame; [exact Hb|rewrite Hh; apply heap_le_refl].
  - revert Hreg. destruct (markIdle_fields d) as (_ & _ & _ & Hh & Hb).
    apply registry_frame; [exact Hb|rewrite Hh; apply heap_le_refl].
  - match goal with H : start _ _ _ = Some _ |- _ =>
      apply start_summary in H
        as (T & g & evs & _ & _ & _ & Hb & _ & _ & _ & _ & _ & _ & _ & Hh & _) end.
    revert Hreg. apply registry_frame; assumption.
  - match goal with H : answer _ _ = Some _ |- _ =>
      apply answer_summary in H
        as (p & g & evs & _ & _ & _ & Hb & _ & _ & _ & _ & _ & _ & Hh & _) end.
    revert Hreg. apply registry_frame; assumption.
  - revert Hreg. destruct (onComplete_fields t i d) as (_ & _ & _ & Hh & Hb & _).
    apply registry_frame; [exact Hb|rewrite Hh; apply heap_le_refl].
  - revert Hreg. apply registry_frame; [reflexivity|apply heap_le_refl].
Qed.

(** ** The invariant, piece by piece *)

Lemma prog_inv_frame d d' :
  prog_inv d → tags_ok d' → registry_ok hints_ok d' →
  trace d' = trace d → (pending d' = pending d ∨ pending d' = None) →
  heap_le (heap d) (heap d') →
  (∀ t T, tstore d !! t = Some T → ∃ T', tstore d' !! t = Some T' ∧ attempts T' = attempts T) →
  prog_inv d'.
Proof.
  intros [I1 I2 I3 I4] G R Htr Hp Hh Hts. constructor; auto.
  - intros tag. rewrite (attemptOf_trace tag d d' Htr). apply I3.
  - intros p fr Hpd Hfr. destruct Hp as [Hp|Hp]; [|rewrite Hp in Hpd; discriminate].
    rewrite Hp in Hpd. apply (frame_ok_frame d); auto.
Qed.

Lemma prog_inv_global d e b :
  prog_inv d → pending d = None →
  tags_ok (_sendEvent None e (set_doingTasks b d)) →
  registry_ok hints_ok (_sendEvent None e (set_doingTasks b d)) →
  prog_inv (_sendEvent None e (set_doingTasks b d)).
Proof.
  intros [I1 I2 I3 I4] Hp G R. constructor; auto.
  - intros tag. unfold attemptOf. simpl. rewrite eventsOf_global. apply I3.
  - intros p fr Hpd. simpl in Hpd. rewrite Hp in Hpd. discriminate.
Qed.

Lemma prog_inv_body t k d d1 d' out :
  prog_inv d → tags_ok d' → registry_ok hints_ok d' →
  body_prog t k d d1 out →
  trace d' = trace d1 → heap d' = heap d1 → tstore d' = tstore d1 →
  (∀ p, pending d' = Some p → p_task p = t ∧ out = Suspended (p_phase p)) →
  prog_inv d'.
Proof.
  intros [I1 I2 I3 I4] G R (A & B & C) Htr Hh Hts Hp. constructor; auto.
  - intros tag. rewrite (attemptOf_trace tag d1 d' Htr).
    destruct (decide (tag = (t, k))) as [->|Hne]; [exact A|].
    unfold attemptOf. rewrite (B tag Hne). apply I3.
  - intros p fr Hpd Hfr. destruct (Hp p Hpd) as [-> Hout].
    apply (frame_ok_frame d1); [eapply C; eauto|rewrite Hh; apply heap_le_refl| |exact Htr].
    intros T HT. rewrite Hts. eauto.
Qed.

Lemma prog_inv_piece d d' :
  prog_inv d → piece hints_ok tick_ok d d' → prog_inv d'.
Proof.
  intros HI Hp.
  pose proof (tags_ok_piece _ _ _ _ (pi_tags _ HI) Hp) as G'.
  pose proof (registry_piece _ _ _ (pi_registry _ HI) Hp) as R'.
  destruct Hp.
  - apply (prog_inv_frame d); auto. intros t T HT. eauto.
  - apply (prog_inv_frame d); auto. intros t T HT. eauto.
  - apply (prog_inv_frame d); auto; [apply heap_le_refl|]. intros t T HT. eauto.
  - destruct (abort_fields t d) as (_ & _ & Hpd & _ & Hh & _ & Htr & _).
    apply (prog_inv_frame d); auto; [rewrite Hh; apply heap_le_refl|].
    intros t' T HT. unfold abort. destruct (tstore d !! t) as [T0|]; [|eauto]. simpl.
    apply alter_attempts; [|exact HT]. intros T1. reflexivity.
  - apply (prog_inv_frame d); auto; [apply heap_le_refl|].
    intros t T HT. exists T. simpl. rewrite lookup_app_l by (eapply lookup_lt_Some, HT). auto.
  - apply (prog_inv_frame d); auto; [apply heap_le_refl|].
    intros t' T HT. simpl. apply alter_attempts; [intros ?; apply flagsOnly_rearm|exact HT].
  - apply (prog_inv_frame d); auto; [apply heap_le_refl|]. intros t T HT. eauto.
  - unfold markBusy in *. destruct (doingTasks d); [exact HI|]. apply prog_inv_global; auto.
  - unfold markIdle in *. destruct (doingTasks d); [|exact HI]. apply prog_inv_global; auto.
  - match goal with H : start _ _ _ = Some _ |- _ =>
      pose proof (start_summary _ _ _ _ _ H)
        as (T & g & evs & HT & _ & _ & _ & _ & _ & _ & _ & _ & _ & _ & _ & Hpd);
      unfold start in H; destruct (doIt t d) as [[d1 out]|] eqn:Hd; simpl in H;
        [|discriminate];
      pose proof (doIt_prog t T d d1 out (pi_tags _ HI) (pi_registry _ HI) HT Hd) as Hbody;
      destruct out; injection H as <- <- end.
    + apply (prog_inv_body t (S (attempts T)) d d1 d1 Completed); auto.
      intros p Hp'. simpl in Hpd. congruence.
    + apply (prog_inv_body t (S (attempts T)) d d1 _ (Suspended ph)); auto.
      simpl. intros p Hp'. injection Hp' as <-. auto.
  - match goal with H : answer _ _ = Some _, K : tick_ok _ _ |- _ =>
      unfold answer in H; destruct (pending d) as [p|] eqn:Hpd; simpl in H; [|discriminate];
      destruct (callback _ _ _ _) as [[d1 out]|] eqn:Hc; simpl in H; [|discriminate];
      destruct (tg_pending d (pi_tags _ HI) p Hpd) as (T & HT & _);
      assert (Hbody : body_prog (p_task p) (attempts T) d d1 out);
      [ apply (callback_prog _ T (p_phase p) r d d1 out HT (pi_attempts _ HI _));
        [ intros fr Hfr; apply (pi_frame _ HI p fr Hpd Hfr)
        | intros fr el et Hph ->; simpl in K; destruct K as (K1 & K2 & K3);
          split; [exact K1|]; split; [exact K2|]; apply (K3 p fr Hpd Hph)
        | exact Hc ]
      | destruct out; injection H as <- <- ] end.
    + apply (prog_inv_body (p_task p) (attempts T) d d1 _ Completed); auto.
      simpl. discriminate.
    + apply (prog_inv_body (p_task p) (attempts T) d d1 _ (Suspended ph)); auto.
      simpl. intros p' Hp'. injection Hp' as <-. auto.
  - destruct (onComplete_fields t i d) as (Hts & Hpd & _ & Hh & _ & Htr & _).
    apply (prog_inv_frame d); auto; [rewrite Hh; apply heap_le_refl|].
    intros t' T HT. rewrite Hts. eauto.
  - apply (prog_inv_frame d); auto; [apply heap_le_refl|]. intros t T HT. eauto.
Qed.

Lemma prog_inv_pieces d d' :
  prog_inv d → rtc (piece hints_ok tick_ok) d d' → prog_inv d'.
Proof.
  intros HI Hp. induction Hp as [|x y z Hxy _ IH]; [exact HI|].
  apply IH. eapply prog_inv_piece; eauto.
Qed.

Lemma prog_inv_new : prog_inv newDAM.
Proof.
  constructor.
  - apply reachable_tags_ok, reachable_new.
  - intros n l Hl. simpl in Hl. rewrite lookup_empty in Hl. discriminate.
  - intros tag. unfold attemptOf. simpl. eauto.
  - intros p fr Hp. discriminate.
Qed.

(** A run whose inputs meet the assumptions keeps the invariant. *)
Lemma run_prog_inv ins : ∀ d d',
  quiescent d → prog_inv d → inputs_ok ins d → run ins d = Some d' → prog_inv d'.
Proof.
  induction ins as [|i ins IH]; simpl; intros d d' Q HI Hin H.
  - injection H as <-. exact HI.
  - destruct (step i d) as [d1|] eqn:Hs; [|discriminate]. simpl in H.
    destruct Hin as [Hi Hrest].
    destruct (step_ok hints_ok tick_ok i d d1 Hs Q Hi) as [Hp Q1].
    eapply (IH d1); eauto. eapply prog_inv_pieces; eauto.
Qed.

(** ** The assumptions, checked *)

Lemma mapM_numOf vs ws : mapM numOf vs = Some ws → vs = JNum <$> ws.
Proof.
  revert ws. induction vs as [|v vs IH]; intros ws H; simpl in H.
  - injection H as <-. reflexivity.
  - destruct v; try discriminate. simpl in H.
    destruct (mapM numOf vs) as [ws'|]; [|discriminate]. simpl in H. injection H as <-.
    simpl. f_equal. apply IH. reflexivity.
Qed.

Lemma hints_okb_sound b : hints_okb b = true → hints_ok b.
Proof.
  unfold hints_okb, hints_ok. destruct (mapM numOf (hintsOf b)) as [ws|] eqn:E; [|discriminate].
  intros H. apply andb_true_iff in H as [H1 H2]. exists ws.
  split; [apply mapM_numOf, E|]. split.
  - apply Forall_forall. intros w Hw. rewrite forallb_forall in H1.
    apply Z.leb_le, H1, list_elem_of_In, Hw.
  - apply orb_true_iff in H2 as [H2|H2].
    + left. apply bool_decide_eq_true in H2. exact H2.
    + right. apply Z.ltb_lt, H2.
Qed.

Lemma tick_okb_sound d r : tick_okb d r = true → tick_ok d r.
Proof.
  unfold tick_okb, tick_ok. destruct r as [| | | |[|] el et| |]; auto.
  intros H. apply andb_true_iff in H as [H H4]. apply andb_true_iff in H as [H H3].
  apply andb_true_iff in H as [H1 H2].
  apply Z.leb_le in H1, H2. apply Z.ltb_lt in H3.
  split; [lia|]. split; [exact H3|].
  intros p fr Hp Hph. rewrite Hp, Hph in H4. apply Qle_bool_iff, H4.
Qed.

Lemma input_okb_sound d i : input_okb d i = true → input_ok hints_ok tick_ok d i.
Proof.
  destruct i as [objs v|bname|bname| | |r]; simpl; auto.
  - intros H h copy b Hc Hb. rewrite Hc, Hb in H. apply hints_okb_sound, H.
  - apply tick_okb_sound.
Qed.

Lemma inputs_okb_sound ins : ∀ d, inputs_okb ins d = true → inputs_ok ins d.
Proof.
  induction ins as [|i ins IH]; intros d H; simpl in *; [exact I|].
  apply andb_true_iff in H as [H1 H2]. split; [apply input_okb_sound, H1|].
  intros d' Hs. rewrite Hs in H2. apply IH, H2.
Qed.

(** ** A canceled task sends nothing *)

Lemma error_canceled t T l msg rt d d' out :
  tstore d !! t = Some T → canceled T = true →
  error_ t l msg rt d = Some (d', out) → trace d' = trace d.
Proof.
  unfold error_. intros HT Hc H. rewrite HT in H. simpl in H.
  rewrite Hc, andb_false_r in H. injection H as <- <-. reflexivity.
Qed.

Lemma fileDone_canceled t T fr d d' out :
  tstore d !! t = Some T → canceled T = true →
  fileDone t fr d = Some (d', out) → trace d' = trace d.
Proof.
  unfold fileDone. intros HT Hc H. rewrite HT in H. simpl in H. rewrite Hc in H. simpl in H.
  rewrite (download_loop_canceled _ _ _ _ _ _ _ HT Hc) in H. eapply error_canceled; eauto.
Qed.

Lemma callback_canceled t T ph r d d' out :
  tstore d !! t = Some T → canceled T = true →
  callback t ph r d = Some (d', out) → trace d' = trace d.
Proof.
  intros HT Hc H. unfold callback in H.
  destruct ph as [fr|fr|fr|l k f lf|l k], r as [url| |c| |lc el et|url|err];
    try discriminate H.
  - eapply fileDone_canceled; eauto.
  - injection H as <- <-. reflexivity.
  - injection H as <- <-. reflexivity.
  - eapply error_canceled; eauto.
  - unfold onprogress in H. rewrite HT in H. simpl in H. rewrite Hc, andb_false_r in H.
    injection H as <- <-. reflexivity.
  - unfold _downloadSuccess in H.
    destruct (addLocalURL_fields (lf_remoteFile fr) url (updTask (set_ft false) t d))
      as (E1 & _ & E3).
    apply (fileDone_canceled t (set_ft false T)) in H; [rewrite H; exact E1| |exact Hc].
    rewrite E3. simpl. rewrite list_lookup_alter_eq, HT. reflexivity.
  - unfold _downloadFail in H. destruct (code err =? ABORT_ERR).
    + injection H as <- <-. reflexivity.
    + apply (error_canceled t (set_ft false T)) in H; [exact H| |exact Hc].
      simpl. rewrite list_lookup_alter_eq, HT. reflexivity.
  - unfold removeFound in H. injection H as <- <-.
    destruct (removeLocalURL_fields f (set_disk (disk d ∖ {[lf]}) d)) as (E1 & _). exact E1.
  - apply remove_loop_fp in H as ->. reflexivity.
  - apply remove_loop_fp in H as ->. reflexivity.
Qed.

Lemma canceled_silent_piece P R d d' t T :
  piece P R d d' → tags_ok d → tstore d !! t = Some T → canceled T = true →
  ∀ k, eventsOf (t, k) (trace d') = eventsOf (t, k) (trace d).
Proof.
  intros Hp G HT Hc k. destruct Hp; try reflexivity.
  - destruct (abort_fields t0 d) as (_ & _ & _ & _ & _ & _ & -> & _). reflexivity.
  - unfold markBusy. destruct (doingTasks d); [reflexivity|]. apply eventsOf_global.
  - unfold markIdle. destruct (doingTasks d); [|reflexivity]. apply eventsOf_global.
  - match goal with H : start _ _ _ = Some _ |- _ =>
      apply start_summary in H
        as (T0 & g & evs & HT0 & _ & _ & _ & _ & _ & _ & _ & _ & Htr & _) end.
    rewrite Htr, eventsOf_app. change (Exec t0 :: ?l) with ([Exec t0] ++ l).
    rewrite eventsOf_app, eventsOf_other, app_nil_r; [reflexivity|].
    intros E. injection E as -> _.
    match goal with H : isCanceled d t = false |- _ =>
      unfold isCanceled in H; rewrite HT, Hc in H; discriminate end.
  - match goal with H : answer _ _ = Some _ |- _ =>
      unfold answer in H; destruct (pending d) as [p|] eqn:Hpd; simpl in H; [|discriminate];
      destruct (callback _ _ _ _) as [[d1 out]|] eqn:Hcb; simpl in H; [|discriminate];
      assert (E : trace d' = trace d1) by (destruct out; injection H as <- <-; reflexivity) end.
    rewrite E. clear E. destruct (decide (p_task p = t)) as [Ht|Hne].
    + rewrite Ht in Hcb. rewrite (callback_canceled _ _ _ _ _ _ _ HT Hc Hcb). reflexivity.
    + apply callback_fp in Hcb. destruct (bf_trace _ _ _ Hcb) as (evs & _ & Htr & _).
      rewrite Htr, eventsOf_app, eventsOf_tagOf, app_nil_r; [reflexivity|].
      unfold tagOf. destruct (tstore d !! p_task p); simpl; congruence.
  - destruct (onComplete_fields t0 i d) as (_ & _ & _ & _ & _ & -> & _). reflexivity.
Qed.

Lemma canceled_silent_pieces P R d d' t T :
  rtc (piece P R) d d' → tags_ok d → tstore d !! t = Some T → canceled T = true →
  ∀ k, eventsOf (t, k) (trace d') = eventsOf (t, k) (trace d).
Proof.
  intros Hp. revert T. induction Hp as [|x y z Hxy _ IH]; intros T G HT Hc k; [reflexivity|].
  destruct (task_mono_piece _ _ _ _ Hxy t T HT) as (T' & HT' & _ & _ & _ & Hc' & _).
  rewrite (IH T' (tags_ok_piece _ _ _ _ G Hxy) HT' (Hc' Hc) k).
  eapply canceled_silent_piece; eauto.
Qed.

Lemma run_canceled_silent ins : ∀ d d' t T,
  reachable d → tstore d !! t = Some T → canceled T = true → run ins d = Some d' →
  ∀ k, eventsOf (t, k) (trace d') = eventsOf (t, k) (trace d).
Proof.
  induction ins as [|i ins IH]; simpl; intros d d' t T Hr HT Hc H k.
  - injection H as <-. reflexivity.
  - destruct (step i d) as [d1|] eqn:Hs; [|discriminate]. simpl in H.
    destruct (step_ok (fun _ => True) (fun _ _ => True) i d d1 Hs (reachable_quiescent _ Hr))
      as [Hp _].
    { destruct i; simpl; auto. }
    destruct (task_mono_pieces _ _ _ _ Hp t T HT) as (T' & HT' & _ & _ & _ & Hc' & _).
    rewrite (IH d1 d' t T' (reachable_step _ _ _ Hr Hs) HT' (Hc' Hc) H k).
    eapply canceled_silent_pieces; eauto. apply reachable_tags_ok, Hr.
Qed.




(** * C1: [addBundle] followed by [getBundle] *)

(** ** The writes of the scheduler to the heap *)

Lemma cells_le_refl h : cells_le h h.
Proof. split; [reflexivity|]. intros l. left. reflexivity. Qed.

Lemma cells_le_trans h1 h2 h3 : cells_le h1 h2 → cells_le h2 h3 → cells_le h1 h3.
Proof.
  intros [L12 H12] [L23 H23]. split; [congruence|]. intros l.
  destruct (H23 l) as [E|(ps & E2 & E3)].
  - rewrite E. apply H12.
  - destruct (H12 l) as [E'|(ps0 & E1 & E1')].
    + right. exists ps. rewrite <- E'. auto.
    + right. exists ps0. split; [exact E1|]. rewrite E3. rewrite E1' in E2.
      injection E2 as <-. rewrite insert_insert_eq. reflexivity.
Qed.

Lemma cells_le_setProp h l : cells_le h (setProp h l "loaded" (JBool true)).
Proof.
  unfold setProp. destruct (h !! l) as [[es|ps]|] eqn:Hl; try apply cells_le_refl.
  split; [apply length_insert|]. intros l'. destruct (decide (l' = l)) as [->|Hne].
  - right. exists ps. split; [exact Hl|].
    apply list_lookup_insert_eq. eapply lookup_lt_Some, Hl.
  - left. apply list_lookup_insert_ne. congruence.
Qed.

Lemma error_heap t l msg rt d d' out : error_ t l msg rt d = Some (d', out) → heap d' = heap d.
Proof.
  unfold error_. intros H.
  destruct (tstore d !! t) as [T|]; simpl in H; [|discriminate].
  destruct (negb rt && negb (canceled T)).
  - destruct (readBundle _ l) as [b|]; simpl in H; [|discriminate].
    injection H as <- <-. reflexivity.
  - injection H as <- <-. reflexivity.
Qed.

Lemma download_loop_cells t l ts td i d d' out :
  download_loop t l ts td i d = Some (d', out) → cells_le (heap d) (heap d').
Proof.
  unfold download_loop. intros H.
  destruct (tstore d !! t) as [T|]; simpl in H; [|discriminate].
  destruct (canceled T); [apply error_heap in H as ->; apply cells_le_refl|].
  destruct (readBundle (heap d) l) as [b|]; simpl in H; [|discriminate].
  destruct (i =? length (files b))%nat.
  - injection H as <- <-. apply cells_le_setProp.
  - destruct (files b !! i); simpl in H; [|discriminate]. injection H as <- <-.
    apply cells_le_refl.
Qed.

Lemma start_cells t i d d' c : start t i d = Some (d', c) → cells_le (heap d) (heap d').
Proof.
  unfold start, doIt. intros H.
  destruct (tstore d !! t) as [T|]; simpl in H; [|discriminate].
  assert (E : ∀ d1 out, (match type T with
                         | TASK_TYPE_LOAD => _downloadBundle t (noteExec t d)
                         | TASK_TYPE_REMOVE => _removeBundleFiles t (noteExec t d)
                         end) = Some (d1, out) → cells_le (heap d) (heap d1)).
  { intros d1 out E. destruct (type T).
    - unfold _downloadBundle in E.
      destruct (tstore (noteExec t d) !! t) as [T1|]; simpl in E; [|discriminate].
      destruct (bundles d !! bundleName T1) as [l|]; simpl in E; [|discriminate].
      destruct (readBundle (heap d) l) as [b|]; simpl in E; [|discriminate].
      apply download_loop_cells in E. exact E.
    - apply removeBundleFiles_fp in E as ->. apply cells_le_refl. }
  destruct (match type T with TASK_TYPE_LOAD => _ | TASK_TYPE_REMOVE => _ end)
    as [[d1 out]|] eqn:Hd; simpl in H; [|discriminate].
  specialize (E d1 out eq_refl). destruct out; injection H as <- <-; exact E.
Qed.

Lemma loop_cells fuel : ∀ d d',
  loop fuel d = Some d' → cells_le (heap d) (heap d') ∧ bundles d' = bundles d.
Proof.
  induction fuel as [|fuel IH]; intros d d' H; [discriminate|]. simpl in H.
  destruct (select (strip d)) as [[i t]|].
  - destruct (start t i (markBusy (strip d))) as [[d2 c]|] eqn:Hst; [|discriminate].
    pose proof (start_cells _ _ _ _ _ Hst) as Hc.
    apply start_summary in Hst as (T & g & evs & _ & _ & _ & Hb & _).
    destruct (markBusy_fields (strip d)) as (_ & _ & _ & Hh & Hb').
    rewrite Hh in Hc. simpl in Hc. rewrite Hb' in Hb. simpl in Hb.
    destruct c.
    + apply IH in H as [H1 H2].
      destruct (onComplete_fields t i d2) as (_ & _ & _ & Hh2 & Hb2 & _).
      rewrite Hh2 in H1. rewrite Hb2 in H2.
      split; [eapply cells_le_trans; eauto|congruence].
    + injection H as <-. auto.
  - injection H as <-. destruct (markIdle_fields (strip d)) as (_ & _ & _ & Hh & Hb).
    rewrite Hh, Hb. split; [apply cells_le_refl|reflexivity].
Qed.

Lemma doTasks_cells d d' :
  _doTasks d = Some d' → cells_le (heap d) (heap d') ∧ bundles d' = bundles d.
Proof.
  unfold _doTasks, drain. destruct (doingTasks d).
  - intros H. injection H as <-. split; [apply cells_le_refl|reflexivity].
  - apply loop_cells.
Qed.

(** ** The scheduler returns *)

Lemma start_total t i d :
  runnable d t → isCanceled d t = false → ∃ d' c, start t i d = Some (d', c).
Proof.
  intros (T & HT & Hrun) Hc. unfold isCanceled in Hc. rewrite HT in Hc.
  unfold start, doIt. rewrite HT. simpl.
  assert (HTn : tstore (noteExec t d) !! t = Some (set_attempts (S (attempts T)) T)).
  { simpl. rewrite list_lookup_alter_eq, HT. reflexivity. }
  destruct (type T).
  - destruct Hrun as (l & b & Hl & Hb).
    unfold _downloadBundle. rewrite HTn. simpl. rewrite Hl. simpl.
    change (heap (noteExec t d)) with (heap d). rewrite Hb. simpl.
    unfold download_loop. simpl. rewrite list_lookup_alter_eq, HT. simpl. rewrite Hc, Hb. simpl.
    destruct (files b) as [|f fs] eqn:Hf; simpl; eauto.
  - destruct Hrun as (l & b & Hl & Hb).
    unfold _removeBundleFiles. rewrite HTn. simpl. rewrite Hl. simpl.
    unfold remove_loop. rewrite HTn. simpl. rewrite Hc.
    change (heap (noteExec t d)) with (heap d). rewrite Hb. simpl.
    destruct (remove_scan _ _ _ _) as [[k f]|]; simpl; eauto.
Qed.

Section Counting.

Context {A : Type} (P P' : A → Prop) `{∀ x, Decision (P x)} `{∀ x, Decision (P' x)}.

Lemma filter_length_mono (l : list A) :
  (∀ x, P' x → P x) → (length (filter P' l) ≤ length (filter P l))%nat.
Proof.
  intros Hi. induction l as [|a l IH]; [reflexivity|]. rewrite !filter_cons.
  destruct (decide (P' a)) as [Ha|Ha].
  - destruct (decide (P a)) as [_|Hn]; [simpl; lia|]. exfalso. auto.
  - destruct (decide (P a)); simpl; lia.
Qed.

Lemma filter_length_drop (l : list A) i t :
  (∀ x, P' x → P x) → l !! i = Some t → P t → ¬ P' t →
  (length (filter P' l) < length (filter P l))%nat.
Proof.
  intros Hi. revert i. induction l as [|a l IH]; intros [|i] Hl Ht Hn; try discriminate.
  - injection Hl as ->. rewrite !filter_cons.
    destruct (decide (P' t)); [contradiction|]. destruct (decide (P t)); [|contradiction].
    simpl. pose proof (filter_length_mono l Hi). lia.
  - simpl in Hl. specialize (IH i Hl Ht Hn). rewrite !filter_cons.
    destruct (decide (P' a)) as [Ha|Ha].
    + destruct (decide (P a)) as [_|Hna]; [simpl; lia|]. exfalso. auto.
    + destruct (decide (P a)); simpl; lia.
Qed.

Lemma filter_length_delete (l : list A) i t :
  l !! i = Some t → P t → (length (filter P (delete i l)) < length (filter P l))%nat.
Proof.
  revert i. induction l as [|a l IH]; intros [|i] Hl Ht; try discriminate.
  - injection Hl as ->. simpl. rewrite filter_cons.
    destruct (decide (P t)); [simpl; lia|contradiction].
  - simpl in Hl. specialize (IH i Hl Ht). simpl. rewrite !filter_cons.
    destruct (decide (P a)); simpl; lia.
Qed.

End Counting.

Lemma candidates_filter d (l : list nat) :
  filter (candidate d) (filter (fun t => isCanceled d t = false) l) = filter (candidate d) l.
Proof.
  induction l as [|a l IH]; [reflexivity|].
  rewrite !filter_cons. destruct (decide (isCanceled d a = false)) as [Ha|Ha].
  - rewrite filter_cons. rewrite IH. reflexivity.
  - rewrite IH. destruct (decide (candidate d a)) as [[Hc _]|_]; [contradiction|reflexivity].
Qed.

Lemma candidates_strip d : candidates (strip d) = candidates d.
Proof. exact (candidates_filter d (tasks d)). Qed.

Lemma runnable_frame d d' t :
  runnable d t →
  (∀ T, tstore d !! t = Some T →
        ∃ T', tstore d' !! t = Some T' ∧ type T' = type T ∧ bundleName T' = bundleName T
              ∧ extra T' = extra T) →
  bundles d' = bundles d → heap_le (heap d) (heap d') →
  runnable d' t.
Proof.
  intros (T & HT & Hrun) Hts Hb Hh. destruct (Hts T HT) as (T' & HT' & E1 & E2 & E3).
  exists T'. split; [exact HT'|]. rewrite E1, E2, E3, Hb.
  destruct (type T); destruct Hrun as (l & b & Hl & Hrd);
    destruct (Hh _ _ Hrd) as (b' & Hrd' & _); eauto.
Qed.

(** One pass of [loop] whose task calls back at once. *)
Lemma loop_pass d i t d2 :
  tasks (strip d) !! i = Some t → isFailed d t = false →
  start t i (markBusy (strip d)) = Some (d2, true) →
  candidates_ok d →
  candidates_ok (onComplete t i d2)
  ∧ (length (candidates (onComplete t i d2)) < length (candidates d))%nat.
Proof.
  intros Hi Hf Hst Hok.
  assert (Hin : t ∈ tasks (strip d)) by (eapply list_elem_of_lookup_2, Hi).
  apply strip_elem in Hin as [Hc Hin].
  apply start_summary in Hst
    as (T & g & evs & HT & Ht & _ & Hb & _ & Hg & _ & Hts & _ & _ & _ & Hh & _).
  destruct (markBusy_fields (strip d)) as (Ht0 & Hts0 & _ & Hh0 & Hb0).
  rewrite Ht0 in Ht. rewrite Hts0 in HT, Hts. rewrite Hb0 in Hb. rewrite Hh0 in Hh.
  simpl in Ht, HT, Hts, Hb, Hh.
  set (dn := onComplete t i d2).
  destruct (onComplete_fields t i d2) as (Htsn & _ & _ & Hhn & Hbn & _).
  fold dn in Htsn, Hhn, Hbn.
  assert (Hcand : ∀ x, candidate dn x → candidate d x).
  { intros x [Hx1 Hx2]. destruct (decide (x = t)) as [->|Hne]; [split; assumption|].
    unfold candidate, isCanceled, isFailed in *. rewrite Htsn, Hts in Hx1, Hx2.
    rewrite list_lookup_alter_ne in Hx1, Hx2 by congruence. auto. }
  assert (Hsub : ∀ x, x ∈ tasks dn → x ∈ tasks d).
  { intros x Hx. assert (Hx' : x ∈ tasks d2).
    { unfold dn, onComplete, splice in Hx. destruct (tstore d2 !! t) as [T2|]; [|exact Hx].
      destruct (canceled T2); [exact Hx|].
      destruct (failed T2); [destruct (retry T2); [exact Hx|]|]; simpl in Hx;
        (eapply elem_of_sublist; [exact Hx|apply sublist_delete]). }
    rewrite Ht in Hx'. apply strip_elem in Hx' as [_ Hx']. exact Hx'. }
  split.
  - intros x Hx. apply list_elem_of_filter in Hx as [Hx1 Hx2].
    assert (Hr : runnable d x).
    { apply Hok. apply list_elem_of_filter. split; [apply Hcand, Hx1|apply Hsub, Hx2]. }
    apply (runnable_frame d dn x Hr); [|congruence|rewrite Hhn; exact Hh].
    intros T0 HT0. rewrite Htsn, Hts. destruct (decide (x = t)) as [->|Hne].
    + rewrite list_lookup_alter_eq, HT0. simpl. exists (g T0).
      destruct (Hg T0) as (E1 & E2 & E3 & _). auto.
    + rewrite list_lookup_alter_ne by congruence. eauto.
  - rewrite <- (candidates_strip d). unfold candidates.
    assert (Hct : candidate (strip d) t) by (split; assumption).
    assert (Hcand' : ∀ x, candidate dn x → candidate (strip d) x) by exact Hcand.
    assert (HT2 : tstore d2 !! t = Some (g T)).
    { rewrite Hts, list_lookup_alter_eq, HT. reflexivity. }
    assert (Hdrop : ¬ candidate dn t → tasks dn = tasks (strip d) →
                    (length (filter (candidate dn) (tasks dn))
                     < length (filter (candidate (strip d)) (tasks (strip d))))%nat).
    { intros Hn ->.
      apply (filter_length_drop (candidate (strip d)) (candidate dn) _ i t); assumption. }
    assert (Hdel : tasks dn = delete i (tasks (strip d)) →
                   (length (filter (candidate dn) (tasks dn))
                    < length (filter (candidate (strip d)) (tasks (strip d))))%nat).
    { intros ->.
      eapply Nat.le_lt_trans;
        [apply (filter_length_mono (candidate (strip d)) (candidate dn)), Hcand'|].
      apply (filter_length_delete (candidate (strip d)) _ i t); assumption. }
    unfold dn, onComplete, splice in *. rewrite HT2 in *.
    destruct (canceled (g T)) eqn:E1.
    { apply Hdrop; [|exact Ht]. intros [Hx _]. unfold isCanceled in Hx.
      rewrite HT2, E1 in Hx. discriminate. }
    destruct (failed (g T)) eqn:E2; [destruct (retry (g T))|].
    + apply Hdrop; [|exact Ht]. intros [_ Hx]. unfold isFailed in Hx.
      rewrite HT2, E2 in Hx. discriminate.
    + apply Hdel. simpl. rewrite Ht. reflexivity.
    + apply Hdel. simpl. rewrite Ht. reflexivity.
Qed.

Lemma loop_total fuel : ∀ d,
  candidates_ok d → (length (candidates d) < fuel)%nat → is_Some (loop fuel d).
Proof.
  induction fuel as [|fuel IH]; intros d Hok Hlt; [lia|]. simpl.
  destruct (select (strip d)) as [[i t]|] eqn:Hsel; [|eauto].
  apply select_Some in Hsel as [Hi Hf]. change (isFailed (strip d) t) with (isFailed d t) in Hf.
  assert (Hin : t ∈ tasks (strip d)) by (eapply list_elem_of_lookup_2, Hi).
  apply strip_elem in Hin as [Hc Hin].
  assert (Hr : runnable d t).
  { apply Hok. apply list_elem_of_filter. split; [split; assumption|exact Hin]. }
  destruct (markBusy_fields (strip d)) as (_ & Hts0 & _ & Hh0 & Hb0).
  destruct (start_total t i (markBusy (strip d))) as (d2 & c & Hst).
  { apply (runnable_frame d _ t Hr); [|exact Hb0|rewrite Hh0; apply heap_le_refl].
    intros T HT. rewrite Hts0. simpl. eauto. }
  { unfold isCanceled. rewrite Hts0. exact Hc. }
  rewrite Hst. destruct c; [|eauto].
  destruct (loop_pass d i t d2 Hi Hf Hst Hok) as [Hok' Hlt'].
  apply IH; [exact Hok'|lia].
Qed.

Lemma doTasks_total d : candidates_ok d → is_Some (_doTasks d).
Proof.
  intros Hok. unfold _doTasks, drain. destruct (doingTasks d); [eauto|].
  apply loop_total; [exact Hok|]. unfold candidates.
  pose proof (length_filter (candidate d) (tasks d)). lia.
Qed.

(** ** The stored record *)

Lemma readBundle_of_cells h l ps lf es n fs sz ld :
  h !! l = Some (JObject ps) →
  ps !! "name" = Some (JStr n) → ps !! "files" = Some (JRef lf) →
  h !! lf = Some (JArray es) → mapM asStr es = Some fs →
  (ps !! "fileSizes" = None ∧ sz = None
   ∨ ∃ ls ss, ps !! "fileSizes" = Some (JRef ls) ∧ h !! ls = Some (JArray ss) ∧ sz = Some ss) →
  ps !! "loaded" = Some (JBool ld) →
  readBundle h l = Some (Bundle n fs sz (Some ld)).
Proof.
  intros Hl Hn Hf Hlf Hfs Hsz Hld. unfold readBundle. rewrite Hl, Hn, Hf, Hlf, Hfs. simpl.
  destruct Hsz as [[-> ->]|(ls & ss & -> & -> & ->)]; simpl; rewrite Hld; reflexivity.
Qed.

(** The cells that [addBundle] allocates and fills. *)
Lemma stored_cells h nm fl fsz :
  ∃ ps,
    setProp (h ++ copyCells h nm fl fsz) (S (length h)) "loaded" (JBool false) !! length h
      = Some (JArray (elems h fl))
    ∧ setProp (h ++ copyCells h nm fl fsz) (S (length h)) "loaded" (JBool false) !! S (length h)
      = Some (JObject (<["loaded" := JBool false]> ps))
    ∧ ps !! "name" = Some nm ∧ ps !! "files" = Some (JRef (length h))
    ∧ (if truthy fsz
       then ps !! "fileSizes" = Some (JRef (S (S (length h))))
            ∧ setProp (h ++ copyCells h nm fl fsz) (S (length h)) "loaded" (JBool false)
                !! S (S (length h)) = Some (JArray (elems h fsz))
       else ps !! "fileSizes" = None)
    ∧ (length h + 2 ≤ length (setProp (h ++ copyCells h nm fl fsz) (S (length h)) "loaded"
                                (JBool false)))%nat.
Proof.
  assert (H1 : ∀ a b rest, (h ++ a :: b :: rest) !! S (length h) = Some b).
  { intros. rewrite lookup_app_r by lia.
    replace (S (length h) - length h)%nat with 1%nat by lia. reflexivity. }
  assert (E : ∀ a ps rest,
            setProp (h ++ a :: JObject ps :: rest) (S (length h)) "loaded" (JBool false)
            = h ++ a :: JObject (<["loaded" := JBool false]> ps) :: rest).
  { intros. unfold setProp. rewrite H1. rewrite insert_app_r_alt by lia.
    replace (S (length h) - length h)%nat with 1%nat by lia. reflexivity. }
  unfold copyCells. destruct (truthy fsz).
  - eexists. rewrite E. split.
    { rewrite lookup_app_r by lia. rewrite Nat.sub_diag. reflexivity. }
    split; [apply H1|]. split; [apply ps3_name|]. split; [apply ps3_files|].
    split; [split; [apply ps3_fileSizes|]|].
    + rewrite lookup_app_r by lia.
      replace (S (S (length h)) - length h)%nat with 2%nat by lia. reflexivity.
    + rewrite length_app. simpl. lia.
  - eexists. rewrite E. split.
    { rewrite lookup_app_r by lia. rewrite Nat.sub_diag. reflexivity. }
    split; [apply H1|]. split; [apply ps2_name|]. split; [apply ps2_files|].
    split; [apply ps2_fileSizes|]. rewrite length_app. simpl. lia.
Qed.

(** The stored record is read from the cells that [addBundle] allocated,
    whatever the other cells hold. *)
Lemma stored_read h n fl fsz fs hd :
  mapM asStr (elems h fl) = Some fs →
  cells_le (setProp (h ++ copyCells h (JStr n) fl fsz) (S (length h)) "loaded" (JBool false)) hd →
  ∃ ld, ∀ h',
    (∀ l, (length h ≤ l < length hd)%nat → h' !! l = hd !! l) →
    readBundle h' (S (length h))
    = Some (Bundle n fs (if truthy fsz then Some (elems h fsz) else None) (Some ld)).
Proof.
  intros Hfs [Hlen Hc].
  destruct (stored_cells h (JStr n) fl fsz) as (ps & C0 & C1 & Pn & Pf & Ps & Hl2).
  set (h1 := setProp (h ++ copyCells h (JStr n) fl fsz) (S (length h)) "loaded" (JBool false))
    in *.
  assert (A0 : hd !! length h = Some (JArray (elems h fl))).
  { destruct (Hc (length h)) as [E|(ps' & E & _)]; [congruence|]. rewrite C0 in E. discriminate. }
  assert (A1 : ∃ ld, hd !! S (length h) = Some (JObject (<["loaded" := JBool ld]> ps))).
  { destruct (Hc (S (length h))) as [E|(ps' & E & E')].
    - exists false. congruence.
    - exists true. rewrite C1 in E. injection E as <-. rewrite E', insert_insert_eq. reflexivity. }
  destruct A1 as [ld A1]. exists ld. intros h' Hag.
  apply (readBundle_of_cells h' _ (<["loaded" := JBool ld]> ps) (length h) (elems h fl)).
  - rewrite Hag by lia. exact A1.
  - rewrite lookup_insert_ne by discriminate. exact Pn.
  - rewrite lookup_insert_ne by discriminate. exact Pf.
  - rewrite Hag by lia. exact A0.
  - exact Hfs.
  - destruct (truthy fsz).
    + destruct Ps as [Ps C2]. right. exists (S (S (length h))), (elems h fsz).
      split; [rewrite lookup_insert_ne by discriminate; exact Ps|]. split; [|reflexivity].
      assert (Hlt : (S (S (length h)) < length h1)%nat) by (eapply lookup_lt_Some, C2).
      rewrite Hag by lia.
      destruct (Hc (S (S (length h)))) as [E|(ps' & E & _)]; [congruence|].
      rewrite C2 in E. discriminate.
    + left. split; [|reflexivity]. rewrite lookup_insert_ne by discriminate. exact Ps.
  - apply lookup_insert_eq.
Qed.

(** ** [addBundle] of a new, well-formed bundle *)

Lemma candidates_ok_push d n copy b :
  quiescent d → doingTasks d = false →
  bundles d !! n = Some copy → readBundle (heap d) copy = Some b →
  candidates_ok (pushTask (newTask n TASK_TYPE_LOAD None) d).
Proof.
  intros [Q1 Q2 Q3] Hd Hb Hrd t Ht. apply list_elem_of_filter in Ht as [[Hc Hf] Hin].
  simpl in Hin. apply elem_of_app in Hin as [Hin|Hin].
  - exfalso. pose proof (Q3 t Hin) as Hlt.
    unfold isCanceled, isFailed in Hc, Hf. simpl in Hc, Hf.
    rewrite lookup_app_l in Hc, Hf by exact Hlt.
    destruct (Q2 Hd t Hin) as [H|H]; unfold isCanceled, isFailed in H; congruence.
  - apply list_elem_of_singleton in Hin as ->.
    exists (newTask n TASK_TYPE_LOAD None). split.
    + simpl. rewrite lookup_app_r by lia. rewrite Nat.sub_diag. reflexivity.
    + simpl. eauto.
Qed.

Lemma addBundle_result d objs v n :
  quiescent d → wellFormed (heap d ++ objs) v →
  getProp (heap d ++ objs) v "name" = Some (JStr n) →
  bundles d !! n = None → n ≠ "__proto__" →
  ∃ d1 fl fsz fs,
    step (CallAddBundle objs v) d = Some d1
    ∧ getProp (heap d ++ objs) v "files" = Some fl
    ∧ elems (heap d ++ objs) fl = JStr <$> fs
    ∧ mapM asStr (elems (heap d ++ objs) fl) = Some fs
    ∧ getProp (heap d ++ objs) v "fileSizes" = Some fsz
    ∧ bundles d1 = <[n := S (length (heap d ++ objs))]> (bundles d)
    ∧ cells_le (setProp ((heap d ++ objs) ++ copyCells (heap d ++ objs) (JStr n) fl fsz)
                  (S (length (heap d ++ objs))) "loaded" (JBool false)) (heap d1).
Proof.
  intros Q Hwf Hn Hb Hnp. set (h0 := heap d ++ objs) in *.
  destruct (malformedBundle_wellFormed _ _ Hwf) as (l & -> & Hm).
  destruct (copyBundle_validated _ _ Hm)
    as (l' & n' & fl & fsz & fs & _ & Hl & Hn' & Hf & Ha & Hs & Hsz & Hfs & Hfs' & Hcopy & Hread).
  rewrite Hn in Hn'. injection Hn' as <-.
  set (h1 := setProp (h0 ++ copyCells h0 (JStr n) fl fsz) (S (length h0)) "loaded" (JBool false)).
  set (d2 := _cancelTask n TASK_TYPE_REMOVE (register n (S (length h0)) h1 (set_heap h0 d))).
  assert (Hrd : readBundle h1 (S (length h0))
                = Some (Bundle n fs (if truthy fsz then Some (elems h0 fsz) else None)
                          (Some false))).
  { unfold h1. specialize (Hread []). rewrite app_nil_r in Hread.
    rewrite (readBundle_setProp_loaded _ _ _ _ _ Hread).
    destruct (decide _); [reflexivity|contradiction]. }
  assert (Q2 : quiescent d2).
  { apply quiescent_cancelTask, quiescent_register, quiescent_heap, Q. }
  destruct (cancelTask_fields n TASK_TYPE_REMOVE (register n (S (length h0)) h1 (set_heap h0 d)))
    as (F1 & F2 & F3 & F4 & F5 & _).
  fold d2 in F1, F2, F3, F4, F5. simpl in F4, F5.
  assert (Hadd : ∃ d1, _maybeAddTask n TASK_TYPE_LOAD None d2 = Some d1
                       ∧ bundles d1 = bundles d2 ∧ cells_le (heap d2) (heap d1)).
  { unfold _maybeAddTask. destruct (liveTask n TASK_TYPE_LOAD d2).
    - exists d2. split; [reflexivity|]. split; [reflexivity|apply cells_le_refl].
    - assert (Hs' : is_Some (_doTasks (pushTask (newTask n TASK_TYPE_LOAD None) d2))).
      { destruct (doingTasks d2) eqn:Hd.
        - unfold _doTasks. simpl. rewrite Hd. eauto.
        - apply doTasks_total. eapply (candidates_ok_push d2 n (S (length h0)) _ Q2 Hd).
          + rewrite F5. apply lookup_insert_eq.
          + rewrite F4. exact Hrd. }
      destruct Hs' as [d1 Hd1]. exists d1. split; [exact Hd1|].
      apply doTasks_cells in Hd1 as [H1 H2]. auto. }
  destruct Hadd as (d1 & Hadd & Hb1 & Hc1).
  exists d1, fl, fsz, fs. split.
  { simpl. unfold addBundle. simpl. fold h0. rewrite Hm, Hn. simpl. rewrite Hb.
    apply String.eqb_neq in Hnp. rewrite Hnp, Hcopy. simpl. fold h1. fold d2.
    rewrite Hadd. reflexivity. }
  split; [exact Hf|]. split; [symmetry; exact Hfs'|]. split; [exact Hfs|].
  split; [exact Hs|]. split; [rewrite Hb1, F5; reflexivity|].
  rewrite F4 in Hc1. exact Hc1.
Qed.




(** * The digest: its arithmetic, and the block it leaves out *)

Section DigestArithmetic.
Import JsInt Sha1.

Lemma ToInt32_small x : - 2 ^ 31 <= x < 2 ^ 31 → ToInt32 x = x.
Proof. intros H. unfold ToInt32. rewrite Z.mod_small by lia. lia. Qed.

Lemma ToInt32_range x : - 2 ^ 31 <= ToInt32 x < 2 ^ 31.
Proof. unfold ToInt32. pose proof (Z.mod_pos_bound (x + 2 ^ 31) (2 ^ 32)). lia. Qed.

Lemma ToInt32_congr x y : x mod 2 ^ 32 = y mod 2 ^ 32 → ToInt32 x = ToInt32 y.
Proof. unfold ToInt32. intros H. Z.div_mod_to_equations. lia. Qed.

Lemma ToInt32_mod16 x : ToInt32 x mod 2 ^ 16 = x mod 2 ^ 16.
Proof. unfold ToInt32. Z.div_mod_to_equations. lia. Qed.

Lemma and_65535 x : and x 65535 = x mod 2 ^ 16.
Proof.
  unfold and. rewrite (ToInt32_small 65535) by lia.
  change 65535 with (Z.ones 16). rewrite Z.land_ones by lia. apply ToInt32_mod16.
Qed.

Lemma ushr_16 x : ushr x 16 = (x mod 2 ^ 32) / 2 ^ 16.
Proof.
  unfold ushr, ToUint32. change (16 mod 32) with 16. apply Z.shiftr_div_pow2. lia.
Qed.

Lemma shl_16 x : 0 <= x < 2 ^ 16 → shl x 16 = ToInt32 (x * 2 ^ 16).
Proof.
  intros H. unfold shl. rewrite (ToInt32_small x) by lia. change (16 mod 32) with 16.
  rewrite Z.shiftl_mul_pow2 by lia. reflexivity.
Qed.

(** Two halves of sixteen bits put together by [(hi << 16) | lo]. *)
Lemma or_halves hi lo :
  0 <= hi < 2 ^ 16 → 0 <= lo < 2 ^ 16 →
  or (ToInt32 (hi * 2 ^ 16)) lo = ToInt32 (hi * 2 ^ 16 + lo).
Proof.
  intros Hhi Hlo. unfold or.
  rewrite (ToInt32_small (ToInt32 _)) by apply ToInt32_range.
  rewrite (ToInt32_small lo) by lia.
  assert (Hk : ∃ k, ToInt32 (hi * 2 ^ 16) = k * 2 ^ 16).
  { unfold ToInt32.
    exists (hi - 2 ^ 16 * ((hi * 2 ^ 16 + 2 ^ 31) / 2 ^ 32)). Z.div_mod_to_equations. lia. }
  destruct Hk as [k Hk].
  assert (Hland : Z.land (k * 2 ^ 16) lo = 0).
  { apply Z.bits_inj'. intros n Hn. rewrite Z.land_spec, Z.bits_0.
    destruct (Z.ltb_spec n 16) as [Hlt|Hge].
    - rewrite Z.mul_pow2_bits_low by lia. reflexivity.
    - rewrite <- (Z.mod_small lo (2 ^ 16)) by lia.
      rewrite Z.mod_pow2_bits_high by lia. apply andb_false_r. }
  rewrite Hk, <- Z.lxor_lor, <- Z.add_nocarry_lxor by exact Hland.
  rewrite <- Hk. unfold ToInt32. Z.div_mod_to_equations. lia.
Qed.

(** X10: [A(a,b)] and the five-operand sum of the round function add modulo
    2^32, whatever numbers they are given: the sum by halves of sixteen bits
    loses no carry. *)
Theorem digest_adds_modulo_2_32 (a b c d e : Z) :
  A a b = ToInt32 (a + b) ∧ add5 a b c d e = ToInt32 (a + b + c + d + e).
Proof.
  split.
  - unfold A. rewrite !and_65535, !ushr_16.
    set (lo := b mod 2 ^ 16 + a mod 2 ^ 16).
    set (hi := (b mod 2 ^ 32) / 2 ^ 16 + (a mod 2 ^ 32) / 2 ^ 16 + (lo mod 2 ^ 32) / 2 ^ 16).
    rewrite shl_16 by (apply Z.mod_pos_bound; lia).
    rewrite or_halves by (apply Z.mod_pos_bound; lia).
    apply ToInt32_congr. subst hi lo. Z.div_mod_to_equations. lia.
  - unfold add5. rewrite !and_65535, !ushr_16.
    set (lo := e mod 2 ^ 16 + a mod 2 ^ 16 + b mod 2 ^ 16 + c mod 2 ^ 16 + d mod 2 ^ 16).
    set (hi := (e mod 2 ^ 32) / 2 ^ 16 + (a mod 2 ^ 32) / 2 ^ 16 + (b mod 2 ^ 32) / 2 ^ 16
               + (c mod 2 ^ 32) / 2 ^ 16 + (d mod 2 ^ 32) / 2 ^ 16 + (lo mod 2 ^ 32) / 2 ^ 16).
    rewrite shl_16 by (apply Z.mod_pos_bound; lia).
    rewrite or_halves by (apply Z.mod_pos_bound; lia).
    apply ToInt32_congr. subst hi lo. Z.div_mod_to_equations. lia.
Qed.

End DigestArithmetic.

Section DigestBlocks.
Import JsInt Sha1.

Lemma shr_small x n : 0 <= x < 2 ^ 31 → 0 <= n < 32 → shr x n = x / 2 ^ n.
Proof.
  intros Hx Hn. unfold shr. rewrite ToInt32_small by lia.
  rewrite (Z.mod_small n 32) by lia. apply Z.shiftr_div_pow2. lia.
Qed.

Lemma shl_small x n : 0 <= x → 0 <= n < 32 → x * 2 ^ n < 2 ^ 31 → shl x n = x * 2 ^ n.
Proof.
  intros Hx Hn Hlt. unfold shl.
  assert (x < 2 ^ 31).
  { assert (1 <= 2 ^ n) by (apply (Z.pow_le_mono_r 2 0 n); lia). nia. }
  rewrite (ToInt32_small x) by lia. rewrite (Z.mod_small n 32) by lia.
  rewrite Z.shiftl_mul_pow2 by lia. apply ToInt32_small.
  assert (0 <= x * 2 ^ n) by (apply Z.mul_nonneg_nonneg; lia). lia.
Qed.

(** Reading an array after a write. *)
Lemma aget_aset a i v j :
  0 <= i → 0 <= j → aget (aset a i v) j = if decide (i = j) then v else aget a j.
Proof.
  intros Hi Hj. unfold aget, aset. rewrite !nth_lookup.
  assert (Hij : i = j ↔ Z.to_nat i = Z.to_nat j) by lia.
  destruct (Nat.ltb_spec (Z.to_nat i) (length a)) as [Hlt|Hge].
  - destruct (decide (i = j)) as [->|Hne].
    + rewrite list_lookup_insert_eq by exact Hlt. reflexivity.
    + rewrite list_lookup_insert_ne by lia. reflexivity.
  - destruct (decide (i = j)) as [->|Hne].
    + rewrite lookup_app_r by lia. rewrite lookup_app_r by (rewrite length_replicate; lia).
      rewrite length_replicate.
      replace (Z.to_nat j - length a - (Z.to_nat j - length a))%nat with 0%nat by lia.
      reflexivity.
    + destruct (Nat.ltb_spec (Z.to_nat j) (length a)) as [Hj1|Hj1].
      * rewrite lookup_app_l by exact Hj1. reflexivity.
      * rewrite lookup_app_r by lia. rewrite (lookup_ge_None_2 a) by lia.
        destruct (Nat.ltb_spec (Z.to_nat j) (Z.to_nat i)) as [Hj2|Hj2].
        -- rewrite lookup_app_l by (rewrite length_replicate; lia).
           rewrite lookup_replicate_2 by lia. reflexivity.
        -- rewrite lookup_app_r by (rewrite length_replicate; lia).
           rewrite length_replicate.
           rewrite lookup_ge_None_2 by (simpl; lia). reflexivity.
Qed.

Lemma length_aset a i v :
  length (aset a i v) = Nat.max (length a) (S (Z.to_nat i)).
Proof.
  unfold aset. destruct (Nat.ltb_spec (Z.to_nat i) (length a)) as [Hlt|Hge].
  - rewrite length_insert. lia.
  - rewrite !length_app, length_replicate. simpl. lia.
Qed.

Lemma fold_left_ext_in {A X : Type} (f g : A → X → A) (xs : list X) :
  (∀ acc x, x ∈ xs → f acc x = g acc x) →
  ∀ init, fold_left f xs init = fold_left g xs init.
Proof.
  induction xs as [|x xs IH]; intros H init; [reflexivity|]. simpl.
  rewrite (H init x) by apply list_elem_of_here.
  apply IH. intros acc y Hy. apply H, list_elem_of_further, Hy.
Qed.

(** A block is made of the sixteen words at its place, and of nothing else. *)
Lemma block_ext a a' hs blk :
  (∀ j, 0 <= j < 16 → aget a (j + 16 * Z.of_nat blk) = aget a' (j + 16 * Z.of_nat blk)) →
  block a hs blk = block a' hs blk.
Proof.
  intros H. unfold block.
  rewrite (fold_left_ext_in (round a (16 * Z.of_nat blk)) (round a' (16 * Z.of_nat blk)));
    [reflexivity|].
  intros [W r] jn Hjn. unfold round.
  destruct (Z.ltb_spec (Z.of_nat jn) 16) as [Hlt|Hge]; [|reflexivity].
  rewrite H by lia. reflexivity.
Qed.

Lemma words_fold t : words t = fold_left (words_step t) (seq 0 (String.length t)) [].
Proof. reflexivity. Qed.

Lemma get_append_l s1 s2 k :
  (k < String.length s1)%nat → String.get k (s1 +:+ s2) = String.get k s1.
Proof.
  revert k. induction s1 as [|c s1 IH]; intros k Hk; simpl in *; [lia|].
  destruct k as [|k]; [reflexivity|]. apply IH. lia.
Qed.

Lemma get_append_r s1 s2 : String.get (String.length s1) (s1 +:+ s2) = String.get 0 s2.
Proof. induction s1 as [|c s1 IH]; simpl; [reflexivity|exact IH]. Qed.

Lemma words_length_step t a k :
  Z.of_nat k < 2 ^ 27 → length a = ((k + 3) / 4)%nat →
  length (words_step t a k) = ((S k + 3) / 4)%nat.
Proof.
  intros Hk Ha. unfold words_step. rewrite length_aset, Ha.
  rewrite shr_small by lia. change (2 ^ 5) with 32.
  assert (E : Z.to_nat (8 * Z.of_nat k / 32) = (k / 4)%nat).
  { rewrite <- (Nat2Z.id (k / 4)). f_equal. rewrite Nat2Z.inj_div. simpl.
    Z.div_mod_to_equations. lia. }
  rewrite E. clear E.
  pose proof (Nat.div_mod_eq k 4). pose proof (Nat.mod_upper_bound k 4).
  pose proof (Nat.div_mod_eq (k + 3) 4). pose proof (Nat.mod_upper_bound (k + 3) 4).
  pose proof (Nat.div_mod_eq (S k + 3) 4). pose proof (Nat.mod_upper_bound (S k + 3) 4).
  lia.
Qed.

Lemma words_length_prefix t n :
  (n ≤ String.length t)%nat → Z.of_nat n < 2 ^ 27 →
  length (fold_left (words_step t) (seq 0 n) []) = ((n + 3) / 4)%nat.
Proof.
  induction n as [|n IH]; intros Hn Hb; [reflexivity|].
  rewrite seq_S, fold_left_app. simpl. apply words_length_step; [lia|]. apply IH; lia.
Qed.

Lemma words_length t :
  Z.of_nat (String.length t) < 2 ^ 27 → length (words t) = ((String.length t + 3) / 4)%nat.
Proof. intros H. rewrite words_fold. apply words_length_prefix; [lia|exact H]. Qed.

End DigestBlocks.

Section DigestCollision.
Import JsInt Sha1.

Lemma words_step_append s t a k :
  (k < String.length s)%nat → words_step (s +:+ t) a k = words_step s a k.
Proof.
  intros Hk. unfold words_step, charCodeAt. rewrite get_append_l by exact Hk. reflexivity.
Qed.

(** The words of a string followed by the character 128 are the words of
    the string with the first byte of the padding written. *)
Lemma words_x80 s :
  words (s +:+ x80)
  = let b := Z.of_nat (String.length s) * 8 in
    aset (words s) (shr b 5) (or (aget (words s) (shr b 5)) (shl 128 (24 - b mod 32))).
Proof.
  rewrite !words_fold, append_length. simpl String.length.
  rewrite Nat.add_1_r, seq_S, fold_left_app. simpl.
  rewrite (fold_left_ext_in (words_step (s +:+ x80)) (words_step s)).
  2:{ intros acc k Hk. apply words_step_append. apply elem_of_seq in Hk. lia. }
  unfold words_step at 1. unfold charCodeAt. rewrite get_append_r. simpl String.get.
  change (and (Z.of_nat (nat_of_ascii (ascii_of_nat 128))) 255) with 128.
  rewrite (Z.mul_comm 8). reflexivity.
Qed.

(** A string whose length is 63 modulo 64 and the string with the character
    128 after it have one digest: the padding of the first starts with that
    character, and the block that holds the rest of the padding and the
    length is not read, since the number of blocks is taken from the words
    before the padding is written. *)
Lemma digest_x80 s :
  (String.length s mod 64 = 63)%nat → Z.of_nat (String.length s) < 2 ^ 27 →
  digest (words (s +:+ x80)) (Z.of_nat (String.length (s +:+ x80)) * 8)
  = digest (words s) (Z.of_nat (String.length s) * 8).
Proof.
  intros Hmod Hlen. rewrite words_x80, append_length. simpl String.length.
  set (n := String.length s) in *. set (w := words s).
  assert (Hw : length w = ((n + 3) / 4)%nat) by (apply words_length; exact Hlen).
  assert (Hn : ∃ m, n = (64 * m + 63)%nat).
  { exists (n / 64)%nat. pose proof (Nat.div_mod_eq n 64). lia. }
  destruct Hn as [m Hn].
  assert (Hh : length w = (16 * m + 16)%nat).
  { rewrite Hw, Hn. replace (64 * m + 63 + 3)%nat with ((4 * m + 4 + 12 * m + 12) * 4 + 2)%nat by lia.
    pose proof (Nat.div_mod_eq ((4 * m + 4 + 12 * m + 12) * 4 + 2) 4).
    pose proof (Nat.mod_upper_bound ((4 * m + 4 + 12 * m + 12) * 4 + 2) 4). lia. }
  assert (HN : Z.of_nat n = 64 * Z.of_nat m + 63) by lia.
  cbv zeta. unfold digest.
  set (w1 := aset w (shr (Z.of_nat n * 8) 5) _).
  assert (E1 : shr (Z.of_nat n * 8) 5 = 16 * Z.of_nat m + 15).
  { rewrite shr_small by lia. change (2 ^ 5) with 32. Z.div_mod_to_equations. lia. }
  assert (Hw1 : length w1 = length w).
  { subst w1. rewrite length_aset, E1, Hh. lia. }
  rewrite Hw1.
  assert (E2 : shl (shr (Z.of_nat n * 8 + 65) 9) 4 + 15 = 16 * Z.of_nat m + 31).
  { rewrite shr_small by lia. change (2 ^ 9) with 512.
    assert (E : (Z.of_nat n * 8 + 65) / 512 = Z.of_nat m + 1) by (Z.div_mod_to_equations; lia).
    rewrite E. rewrite shl_small by lia. lia. }
  assert (E3 : shr (Z.of_nat (n + 1) * 8) 5 = 16 * Z.of_nat m + 16).
  { rewrite shr_small by lia. change (2 ^ 5) with 32. Z.div_mod_to_equations. lia. }
  assert (E4 : shl (shr (Z.of_nat (n + 1) * 8 + 65) 9) 4 + 15 = 16 * Z.of_nat m + 31).
  { rewrite shr_small by lia. change (2 ^ 9) with 512.
    assert (E : (Z.of_nat (n + 1) * 8 + 65) / 512 = Z.of_nat m + 1)
      by (Z.div_mod_to_equations; lia).
    rewrite E. rewrite shl_small by lia. lia. }
  rewrite E2, E3, E4.
  apply fold_left_ext_in. intros hs blk Hblk. apply elem_of_seq in Hblk.
  assert (Hb : (blk < m + 1)%nat).
  { destruct Hblk as [_ Hblk]. rewrite Hh in Hblk.
    replace (16 * m + 16 + 15)%nat with (15 + (m + 1) * 16)%nat in Hblk by lia.
    rewrite Nat.div_add in Hblk by lia. simpl in Hblk. lia. }
  apply block_ext. intros j Hj.
  rewrite !aget_aset by lia.
  repeat (destruct (decide _) as [?|_]; [lia|]). reflexivity.
Qed.

Lemma fromLastDot_none_app s t :
  fromLastDot s = None → fromLastDot t = None → fromLastDot (s +:+ t) = None.
Proof.
  intros Hs Ht. induction s as [|c s IH]; simpl in *; [exact Ht|].
  destruct (fromLastDot s) as [e|]; [discriminate|]. rewrite IH by reflexivity.
  destruct (Ascii.eqb c "."); [discriminate|reflexivity].
Qed.

(** X2: the digest is not injective.  A string whose length is 63 modulo 64
    and the same string followed by the character with code 128 have the
    same digest, because the round loop runs over the blocks of the words
    counted before the padding is written; when the string has no dot the
    two remote files get the same local file name. *)
Theorem SHA1_leaves_out_last_block (s : string) :
  (String.length s mod 64 = 63)%nat → Z.of_nat (String.length s) < 2 ^ 27 →
  String.length (s +:+ x80) = S (String.length s)
  ∧ SHA1 (s +:+ x80) = SHA1 s
  ∧ (fromLastDot s = None → _localFileName (s +:+ x80) = _localFileName s).
Proof.
  intros Hmod Hlen.
  assert (E : SHA1 (s +:+ x80) = SHA1 s).
  { unfold SHA1. rewrite digest_x80 by assumption. reflexivity. }
  split; [rewrite append_length; simpl; lia|]. split; [exact E|].
  intros Hdot. rewrite !localFileName_extension, E. unfold extension.
  rewrite Hdot, fromLastDot_none_app; [reflexivity|exact Hdot|reflexivity].
Qed.

Lemma SHA1_leaves_out_last_block_witness :
  String.length (ex_uri63 +:+ x80) = S (String.length ex_uri63)
  ∧ SHA1 (ex_uri63 +:+ x80) = SHA1 ex_uri63
  ∧ (fromLastDot ex_uri63 = None → _localFileName (ex_uri63 +:+ x80) = _localFileName ex_uri63).
Proof.
  apply (SHA1_leaves_out_last_block ex_uri63); [reflexivity|]. vm_compute. reflexivity.
Defined.

End DigestCollision.

(** * The queue of events and the download wrapper *)

(** ** [_purgeEvents] *)

Lemma purge_loop_filter fuel bn : ∀ i q,
  (length q ≤ fuel + i)%nat →
  Forall (fun qe : Tag * Event => event_name qe.2 ≠ Some bn) (take i q) →
  purge_loop fuel bn i q = filter (fun qe : Tag * Event => event_name qe.2 ≠ Some bn) q.
Proof.
  induction fuel as [|fuel IH]; intros i q Hlen Hpre.
  - simpl. rewrite take_ge in Hpre by (simpl in Hlen; lia).
    symmetry. clear Hlen. induction Hpre as [|x l Hx _ IHl]; [reflexivity|].
    rewrite filter_cons. destruct (decide _) as [_|Hn]; [|contradiction].
    f_equal. exact IHl.
  - simpl. destruct (q !! i) as [qe|] eqn:Hq.
    + destruct (bool_decide (event_name qe.2 = Some bn)) eqn:Hb.
      * apply bool_decide_eq_true in Hb.
        rewrite IH.
        -- rewrite <- (take_drop_middle q i qe Hq) at 2.
           rewrite delete_take_drop, !filter_app, filter_cons.
           destruct (decide _) as [Hn|_]; [contradiction|]. reflexivity.
        -- pose proof (lookup_lt_Some _ _ _ Hq). rewrite length_delete by eauto. lia.
        -- assert (Hl : i = length (take i q))
             by (rewrite length_take; pose proof (lookup_lt_Some _ _ _ Hq); lia).
           rewrite delete_take_drop, take_app_length' by exact Hl. exact Hpre.
      * apply bool_decide_eq_false in Hb. apply IH; [lia|].
        rewrite (take_S_r _ _ _ Hq). apply Forall_app. split; [exact Hpre|].
        constructor; [exact Hb|constructor].
    + apply lookup_ge_None in Hq. rewrite take_ge in Hpre by lia.
      symmetry. clear Hlen Hq. induction Hpre as [|x l Hx _ IHl]; [reflexivity|].
      rewrite filter_cons. destruct (decide _) as [_|Hn]; [|contradiction].
      f_equal. exact IHl.
Qed.

(** X3: the loop of [_purgeEvents], which cuts events out of the queue in
    place, leaves exactly the events that do not bear the name of the
    bundle, in the order they had; the global events, which have no name,
    all stay. *)
Theorem purgeEvents_loop (d : DAM) (bundleName : string) :
  eventQueue (_purgeEvents bundleName d)
  = purge_loop (length (eventQueue d)) bundleName 0 (eventQueue d)
  ∧ (∀ qe, qe ∈ eventQueue (_purgeEvents bundleName d)
           ↔ qe ∈ eventQueue d ∧ event_name qe.2 ≠ Some bundleName)
  ∧ eventQueue (_purgeEvents bundleName d) `sublist_of` eventQueue d
  ∧ (∀ qe, qe ∈ eventQueue d → event_name qe.2 = None →
           qe ∈ eventQueue (_purgeEvents bundleName d)).
Proof.
  assert (E : eventQueue (_purgeEvents bundleName d)
              = filter (fun qe : Tag * Event => event_name qe.2 ≠ Some bundleName)
                  (eventQueue d)) by reflexivity.
  split; [|split; [|split]].
  - rewrite E. symmetry. apply purge_loop_filter; [lia|]. rewrite take_0. constructor.
  - intros qe. rewrite E, list_elem_of_filter. tauto.
  - rewrite E. apply sublist_filter.
  - intros qe Hin Hn. rewrite E. apply list_elem_of_filter. split; [|exact Hin].
    rewrite Hn. discriminate.
Qed.

(** ** The download with a timeout *)

(** After the timer has fired nothing is passed on, whatever happens. *)
Lemma download_run_timed_out uri localPath evs : ∀ w w' out,
  timed_out w = true → timeout_armed w = false →
  download_run uri localPath evs w = Some (w', out) →
  out = [] ∧ w' = w.
Proof.
  induction evs as [|ev evs IH]; intros w w' out Ht Ha H; simpl in H.
  - injection H as <- <-. auto.
  - destruct (download_step uri localPath ev w) as [[w1 out1]|] eqn:Hs; [|discriminate].
    simpl in H.
    destruct (download_run uri localPath evs w1) as [[w2 out2]|] eqn:Hr; [|discriminate].
    simpl in H. injection H as <- <-.
    assert (out1 = [] ∧ w1 = w) as [-> ->].
    { destruct ev; simpl in Hs; rewrite ?Ht, ?Ha in Hs; try discriminate;
        injection Hs as <- <-; auto. }
    apply IH in Hr as [-> ->]; auto.
Qed.

(** After the transfer has answered, with the timer cleared, nothing is
    passed on either. *)
Lemma download_run_answered uri localPath evs : ∀ w w' out,
  timed_out w = false → timeout_armed w = false → transport_ok true evs = true →
  download_run uri localPath evs w = Some (w', out) →
  out = [] ∧ w' = w.
Proof.
  induction evs as [|ev evs IH]; intros w w' out Ht Ha Hok H; simpl in H.
  - injection H as <- <-. auto.
  - destruct ev; simpl in Hok; try discriminate.
    simpl in H. rewrite Ha in H. discriminate.
Qed.

Lemma download_run_ok uri localPath evs : ∀ w w' out,
  timed_out w = false → transport_ok false evs = true →
  download_run uri localPath evs w = Some (w', out) →
  ∃ ps tl, out = ps ++ tl ∧ forallb isProgress ps = true
           ∧ (tl = [] ∧ timed_out w' = false
              ∨ ∃ r, tl = [r] ∧ isTerminal r = true ∧ timeout_armed w' = false).
Proof.
  induction evs as [|ev evs IH]; intros w w' out Ht Hok H; simpl in H.
  - injection H as <- <-. exists [], []. auto.
  - destruct (download_step uri localPath ev w) as [[w1 out1]|] eqn:Hs; [|discriminate].
    simpl in H.
    destruct (download_run uri localPath evs w1) as [[w2 out2]|] eqn:Hr; [|discriminate].
    simpl in H. injection H as <- <-.
    destruct ev as [lc el et|url|err|]; simpl in Hs, Hok; rewrite ?Ht in Hs.
    + injection Hs as <- <-.
      apply IH in Hr as (ps & tl & -> & Hps & Htl); [|reflexivity|exact Hok].
      exists (TransferProgress lc el et :: ps), tl. split; [reflexivity|]. split; [exact Hps|].
      exact Htl.
    + injection Hs as <- <-.
      apply download_run_answered in Hr as [-> ->]; [|reflexivity|reflexivity|exact Hok].
      exists [], [TransferSuccess url]. split; [reflexivity|]. split; [reflexivity|].
      right. eexists. eauto.
    + injection Hs as <- <-.
      apply download_run_answered in Hr as [-> ->]; [|reflexivity|reflexivity|exact Hok].
      exists [], [TransferFail err]. split; [reflexivity|]. split; [reflexivity|].
      right. eexists. eauto.
    + destruct (timeout_armed w); [|discriminate]. injection Hs as <- <-.
      apply download_run_timed_out in Hr as [-> ->]; [|reflexivity|reflexivity].
      exists [], [TransferFail (timeoutError uri localPath)].
      split; [reflexivity|]. split; [reflexivity|]. right. eexists. eauto.
Qed.

(** X4: a download passes on to the task the progress of the transfer and
    then at most one of success and failure, and nothing after it; once it
    has passed one on no timer is left.  The failure that the timer makes
    is one that [_downloadFail] marks for a retry. *)
Theorem download_calls_back_once (uri localPath : string) (evs : list TransportEvent)
    (w : Download) (out : list Reply) :
  transport_ok false evs = true →
  download_run uri localPath evs _cordova_download = Some (w, out) →
  (∃ ps tl, out = ps ++ tl ∧ forallb isProgress ps = true
            ∧ (tl = [] ∧ timed_out w = false
               ∨ ∃ r, tl = [r] ∧ isTerminal r = true ∧ timeout_armed w = false))
  ∧ (timed_out w = true → TransferFail (timeoutError uri localPath) ∈ out)
  ∧ retryable (timeoutError uri localPath) = true
  ∧ code (timeoutError uri localPath) ≠ ABORT_ERR.
Proof.
  intros Hok H. split; [eapply download_run_ok; eauto; reflexivity|].
  split; [|split; [reflexivity|discriminate]].
  assert (G : ∀ evs w0 w out, timed_out w0 = false →
              download_run uri localPath evs w0 = Some (w, out) → timed_out w = true →
              TransferFail (timeoutError uri localPath) ∈ out).
  { clear. induction evs as [|ev evs IH]; intros w0 w out Ht H Hw; simpl in H.
    - injection H as <- <-. congruence.
    - destruct (download_step uri localPath ev w0) as [[w1 out1]|] eqn:Hs; [|discriminate].
      simpl in H.
      destruct (download_run uri localPath evs w1) as [[w2 out2]|] eqn:Hr; [|discriminate].
      simpl in H. injection H as <- <-.
      destruct ev as [lc el et|url|err|]; simpl in Hs; rewrite ?Ht in Hs.
      + injection Hs as <- <-. apply elem_of_app. right.
        exact (IH (mkDownload false true) _ _ eq_refl Hr Hw).
      + injection Hs as <- <-. apply elem_of_app. right.
        exact (IH (mkDownload false false) _ _ eq_refl Hr Hw).
      + injection Hs as <- <-. apply elem_of_app. right.
        exact (IH (mkDownload false false) _ _ eq_refl Hr Hw).
      + destruct (timeout_armed w0); [|discriminate]. injection Hs as <- <-.
        apply elem_of_app. left. apply list_elem_of_here. }
  exact (G evs _cordova_download w out eq_refl H).
Qed.

Lemma download_calls_back_once_witness :
  (∃ ps tl,
     [TransferProgress true 50 100; TransferFail (timeoutError "http://h/a.png" "/a")]
       = ps ++ tl
     ∧ forallb isProgress ps = true
     ∧ (tl = [] ∧ timed_out (mkDownload true false) = false
        ∨ ∃ r, tl = [r] ∧ isTerminal r = true ∧ timeout_armed (mkDownload true false) = false))
  ∧ (timed_out (mkDownload true false) = true →
     TransferFail (timeoutError "http://h/a.png" "/a")
       ∈ [TransferProgress true 50 100; TransferFail (timeoutError "http://h/a.png" "/a")])
  ∧ retryable (timeoutError "http://h/a.png" "/a") = true
  ∧ code (timeoutError "http://h/a.png" "/a") ≠ ABORT_ERR.
Proof.
  apply (download_calls_back_once "http://h/a.png" "/a" ex_download); reflexivity.
Defined.

(** * Every step is a sequence of moves *)

Lemma loop_moves fuel : ∀ d d',
  loop fuel d = Some d' → pending d = None → rtc move d d'.
Proof.
  induction fuel as [|fuel IH]; intros d d' H Hp; [discriminate|].
  simpl in H.
  assert (Hps : pending (strip d) = None) by exact Hp.
  eapply rtc_l; [apply mv_strip, Hp|].
  destruct (select (strip d)) as [[i t]|] eqn:Hsel.
  - destruct (markBusy_fields (strip d)) as (Ht & Hts & Hpe & _).
    eapply rtc_l; [apply mv_busy, Hps|].
    destruct (start t i (markBusy (strip d))) as [[d2 c]|] eqn:Hst; [|discriminate].
    assert (Hsel' : select (markBusy (strip d)) = Some (i, t))
      by (rewrite (select_fields (strip d)); auto).
    assert (Hcan : isCanceled (markBusy (strip d)) t = false).
    { rewrite (isCanceled_tstore (strip d)) by exact Hts.
      apply select_Some in Hsel as [Hi _].
      apply list_elem_of_lookup_2, strip_elem in Hi as [Hc _]. exact Hc. }
    assert (Hpb : pending (markBusy (strip d)) = None) by (rewrite Hpe; exact Hps).
    destruct c.
    + eapply rtc_l; [eapply mv_start_done; eauto using markBusy_doing|].
      apply IH; [exact H|].
      destruct (onComplete_fields t i d2) as (_ & -> & _).
      apply start_summary in Hst
        as (T & g & evs & _ & _ & _ & _ & _ & _ & _ & _ & _ & _ & _ & _ & Hpd).
      rewrite Hpd. exact Hpb.
    + injection H as <-. apply rtc_once. eapply mv_start_wait; eauto using markBusy_doing.
  - injection H as <-. apply rtc_once. apply mv_idle; assumption.
Qed.

Lemma doTasks_moves d d' :
  _doTasks d = Some d' → (doingTasks d = true ↔ is_Some (pending d)) → rtc move d d'.
Proof.
  unfold _doTasks, drain. intros H Hq. destruct (doingTasks d) eqn:Hd.
  - injection H as <-. apply rtc_refl.
  - eapply loop_moves; [exact H|].
    destruct (pending d) eqn:E; [|reflexivity]. destruct Hq as [_ Hq]. discriminate Hq; eauto.
Qed.

Lemma step_moves i d d' :
  step i d = Some d' → quiescent d → rtc move d d'.
Proof.
  destruct i as [objs v|bname|bname| | |r]; simpl; intros H Q.
  - destruct (addBundle v (set_heap (heap d ++ objs) d)) as [[r d1]|] eqn:Ha; [|discriminate].
    injection H as <-. eapply rtc_l; [apply (mv_objs d objs)|].
    assert (Q0 : quiescent (set_heap (heap d ++ objs) d)) by (apply quiescent_heap, Q).
    revert Ha Q0. generalize (set_heap (heap d ++ objs) d). clear d Q. intros d0 Ha Q0.
    unfold addBundle in Ha.
    destruct (_malformedBundle (heap d0) v) as [[|]|e] eqn:Hm;
      try (injection Ha as <- <-; apply rtc_refl).
    destruct (copyBundle_validated _ _ Hm)
      as (l & n & fl & fsz & fs & -> & Hl & Hn & Hf & Hfa & Hs & Hsz & Hfs & Hfs' & Hcopy & Hread).
    rewrite Hn in Ha. simpl in Ha.
    destruct (bundles d0 !! n) as [l0|] eqn:Hreg.
    { injection Ha as <- <-. apply rtc_refl. }
    destruct (String.eqb n "__proto__") eqn:Hproto; [discriminate|].
    apply String.eqb_neq in Hproto.
    rewrite Hcopy in Ha. simpl in Ha.
    destruct (_maybeAddTask n TASK_TYPE_LOAD None _) as [d3|] eqn:Hadd; simpl in Ha;
      [|discriminate].
    injection Ha as <- <-. unfold _maybeAddTask in Hadd.
    destruct (liveTask n TASK_TYPE_LOAD _) eqn:Hlive.
    + injection Hadd as <-. apply rtc_once. eapply mv_add; eauto.
    + eapply rtc_l; [eapply mv_add_push; eauto|].
      eapply doTasks_moves; [exact Hadd|].
      pose proof (quiescent_cancelTask n TASK_TYPE_REMOVE _
                    (quiescent_register n (S (length (heap d0)))
                       (setProp (heap d0 ++ copyCells (heap d0) (JStr n) fl fsz)
                          (S (length (heap d0))) "loaded" (JBool false)) _ Q0)) as [Q1 _ _].
      exact Q1.
  - unfold removeBundle in H.
    destruct (bundles d !! bname) as [l|] eqn:Hreg; [|injection H as <-; apply rtc_refl].
    cbv zeta in H. unfold _maybeAddTask in H.
    destruct (liveTask bname TASK_TYPE_REMOVE _) eqn:Hlive.
    + injection H as <-. apply rtc_once. eapply mv_remove; eauto.
    + eapply rtc_l; [eapply mv_remove_push; eauto|].
      eapply doTasks_moves; [exact H|].
      pose proof (quiescent_cancelTask bname TASK_TYPE_LOAD _
                    (quiescent_unregister bname _ Q)) as [Q1 _ _].
      exact Q1.
  - unfold getBundle in H.
    destruct (bundles d !! bname) as [l|] eqn:Hreg; [|injection H as <-; apply rtc_refl].
    destruct (_copyBundle (heap d) (JRef l)) as [[h copy]|] eqn:Hc; simpl in H; [|discriminate].
    injection H as <-. apply rtc_once. eapply mv_copy; eauto.
  - destruct (eventTimer d) eqn:Het; [|discriminate]. injection H as <-.
    apply rtc_once, mv_flush, Het.
  - unfold kickStartTasks in H. eapply rtc_l; [apply mv_rearm|].
    eapply doTasks_moves; [exact H|].
    destruct (rearmAll_fields d) as (_ & Hd & Hp & _). rewrite Hd, Hp.
    destruct Q as [Q1 _ _]. exact Q1.
  - unfold resume in H.
    destruct (pending d) as [p|] eqn:Hp; simpl in H; [|discriminate].
    destruct (answer r d) as [[d1 c]|] eqn:Ha; [|discriminate].
    destruct c.
    + eapply rtc_l; [eapply mv_answer_done; eauto|].
      eapply loop_moves; [exact H|].
      destruct (onComplete_fields (p_task p) (p_i p) d1) as (_ & -> & _).
      apply answer_summary in Ha
        as (p' & g & evs & _ & _ & _ & _ & _ & _ & _ & _ & _ & _ & _ & Hpd).
      exact Hpd.
    + injection H as <-. apply rtc_once. eapply mv_answer_wait; eauto.
Qed.

(** What every move keeps holds in every reachable state. *)
Lemma reachable_moves (P : DAM → Prop) :
  P newDAM → (∀ d d', P d → move d d' → P d') → ∀ d, reachable d → P d.
Proof.
  intros Hnew Hmove d Hr. induction Hr as [|i d d' Hr IH Hstep]; [exact Hnew|].
  pose proof (step_moves i d d' Hstep (reachable_quiescent _ Hr)) as Hp.
  clear Hstep Hr. induction Hp as [|x y z Hxy _ IHp]; [exact IH|].
  apply IHp. eapply Hmove; eauto.
Qed.

(** * What the bodies of the tasks do to the state *)

Lemma neutral_refl t d : neutral t d d.
Proof.
  unfold neutral. conjs; try reflexivity. exists id. split.
  - symmetry. apply list_eq. intros i. destruct (decide (i = t)) as [->|Hne].
    + rewrite list_lookup_alter_eq. destruct (tstore d !! t); reflexivity.
    + rewrite list_lookup_alter_ne by congruence. reflexivity.
  - intros T. auto.
Qed.

Lemma neutral_trans t d1 d2 d3 : neutral t d1 d2 → neutral t d2 d3 → neutral t d1 d3.
Proof.
  intros (H1 & H2 & g1 & H3 & H4) (K1 & K2 & g2 & K3 & K4).
  unfold neutral. conjs; try congruence.
  exists (g2 ∘ g1). split.
  - rewrite K3, H3. apply list_alter_alter_eq.
  - intros T. simpl. destruct (K4 (g1 T)) as [-> ->]. apply H4.
Qed.

Lemma neutral_upd t g d :
  (∀ T, failed (g T) = failed T ∧ retry (g T) = retry T) → neutral t d (updTask g t d).
Proof. intros Hg. unfold neutral. conjs; try reflexivity. exists g. auto. Qed.

Lemma neutral_same t d d' :
  heap d' = heap d → storage d' = storage d → tstore d' = tstore d → neutral t d d'.
Proof.
  intros H1 H2 H3. destruct (neutral_refl t d) as (_ & _ & g & Hg1 & Hg2).
  unfold neutral. conjs; auto. exists g. split; [congruence|exact Hg2].
Qed.

Lemma neutral_send t tag e d : neutral t d (_sendEvent tag e d).
Proof. apply neutral_same; reflexivity. Qed.

Lemma neutral_addLocalURL t f u d : neutral t d (_addLocalURL f u d).
Proof.
  unfold _addLocalURL. destruct (localURLs d !! f); [apply neutral_refl|].
  destruct (String.eqb f "__proto__"); [apply neutral_refl|]. apply neutral_same; reflexivity.
Qed.

Lemma neutral_removeLocalURL t f d : neutral t d (_removeLocalURL f d).
Proof.
  unfold _removeLocalURL. destruct (localURLs d !! f); [|apply neutral_refl].
  apply neutral_same; reflexivity.
Qed.

Lemma neutral_noteExec t d : neutral t d (noteExec t d).
Proof.
  unfold noteExec, neutral. simpl. conjs; try reflexivity.
  eexists. split; [reflexivity|]. intros T. auto.
Qed.

(** The loop of a Load task stops to wait without a change of the state,
    at a file of the bundle. *)
Lemma download_loop_susp t l ts td i d d' ph :
  download_loop t l ts td i d = Some (d', Suspended ph) →
  d' = d
  ∧ ∃ b f, readBundle (heap d) l = Some b ∧ files b !! i = Some f
           ∧ ph = LoadProbe (mkLoadFrame l ts td i f (_localFileName f) 0).
Proof.
  unfold download_loop. intros H.
  destruct (tstore d !! t) as [T|]; simpl in H; [|discriminate].
  destruct (canceled T); [apply error_fp in H as [_ H]; discriminate|].
  destruct (readBundle (heap d) l) as [b|]; simpl in H; [|discriminate].
  destruct (i =? length (files b))%nat; [discriminate|].
  destruct (files b !! i) as [f|] eqn:Hf; simpl in H; [|discriminate].
  injection H as <- <-. split; [reflexivity|]. eauto.
Qed.

(** When it ends, it has failed without a change of the heap, or it has
    set the bundle loaded and written the registry to [localStorage]. *)
Lemma error_done t l msg rt d d' out :
  error_ t l msg rt d = Some (d', out) →
  out = Completed ∧ heap d' = heap d ∧ storage d' = storage d ∧ bundles d' = bundles d.
Proof.
  unfold error_. intros H.
  destruct (tstore d !! t) as [T|]; simpl in H; [|discriminate].
  destruct (negb rt && negb (canceled T)).
  - destruct (readBundle _ l) as [b|]; simpl in H; [|discriminate].
    injection H as <- <-. auto.
  - injection H as <- <-. auto.
Qed.

Lemma download_loop_done t l ts td i d d' :
  download_loop t l ts td i d = Some (d', Completed) →
  (heap d' = heap d ∧ storage d' = storage d)
  ∨ (mirrored d' ∧ heap d' = setProp (heap d) l "loaded" (JBool true)).
Proof.
  unfold download_loop. intros H.
  destruct (tstore d !! t) as [T|]; simpl in H; [|discriminate].
  destruct (canceled T); [apply error_done in H as (_ & ? & ? & _); auto|].
  destruct (readBundle (heap d) l) as [b|]; simpl in H; [|discriminate].
  destruct (i =? length (files b))%nat.
  - injection H as <-. right. split; reflexivity.
  - destruct (files b !! i) as [f|]; simpl in H; discriminate.
Qed.

Lemma download_loop_out t l ts td i d0 d d' out :
  neutral t d0 d → download_loop t l ts td i d = Some (d', out) → body_out t d0 d' out.
Proof.
  intros Hn H. destruct out as [|ph]; simpl.
  - destruct Hn as (E1 & E2 & _).
    apply download_loop_done in H as [[H1 H2]|[H1 H2]].
    + left. split; congruence.
    + right. split; [exact H1|]. exists l. rewrite H2, E1. reflexivity.
  - apply download_loop_susp in H as [-> _]. exact Hn.
Qed.

Lemma error_out t l msg rt d0 d d' out :
  neutral t d0 d → error_ t l msg rt d = Some (d', out) → body_out t d0 d' out.
Proof.
  intros (E1 & E2 & _) H. apply error_done in H as (-> & H1 & H2 & _).
  simpl. left. split; congruence.
Qed.

Lemma fileDone_out t fr d0 d d' out :
  neutral t d0 d → fileDone t fr d = Some (d', out) → body_out t d0 d' out.
Proof.
  unfold fileDone. intros Hn H.
  destruct (tstore d !! t) as [T|]; simpl in H; [|discriminate].
  destruct (negb (canceled T)).
  - destruct (readBundle (heap d) (lf_bundle fr)) as [b|]; simpl in H; [|discriminate].
    eapply download_loop_out; [|exact H].
    eapply neutral_trans; [exact Hn|apply neutral_send].
  - eapply download_loop_out; eauto.
Qed.

Lemma callback_out t ph r d d' out :
  callback t ph r d = Some (d', out) → body_out t d d' out.
Proof.
  unfold callback. intros H.
  destruct ph as [fr|fr|fr|l k f lf|l k], r as [url| |c| |lc el et|url|err];
    try discriminate H.
  - eapply fileDone_out; [apply neutral_refl|exact H].
  - injection H as <- <-. apply neutral_refl.
  - injection H as <- <-. simpl.
    eapply neutral_trans;
      [apply (neutral_upd t (set_ft true)); intros T; auto|apply neutral_same; reflexivity].
  - eapply error_out; [apply neutral_refl|exact H].
  - unfold onprogress in H.
    destruct (tstore d !! t) as [T|]; simpl in H; [|discriminate].
    destruct (lc && negb (canceled T)).
    + destruct (readBundle (heap d) (lf_bundle fr)) as [b|]; simpl in H; [|discriminate].
      injection H as <- <-. apply neutral_send.
    + injection H as <- <-. apply neutral_refl.
  - unfold _downloadSuccess in H. eapply fileDone_out; [|exact H].
    eapply neutral_trans;
      [apply (neutral_upd t (set_ft false)); intros T; auto|apply neutral_addLocalURL].
  - unfold _downloadFail in H. destruct (code err =? ABORT_ERR).
    + injection H as <- <-. simpl. left. auto.
    + eapply error_out; [|exact H].
      eapply neutral_trans;
        [apply (neutral_upd t (set_ft false)); intros T; auto|apply neutral_same; reflexivity].
  - unfold removeFound in H. injection H as <- <-. simpl.
    eapply neutral_trans; [|apply neutral_removeLocalURL]. apply neutral_same; reflexivity.
  - pose proof (remove_loop_fp _ _ _ _ _ _ H) as ->.
    destruct out; simpl; [left; auto|apply neutral_refl].
  - pose proof (remove_loop_fp _ _ _ _ _ _ H) as ->.
    destruct out; simpl; [left; auto|apply neutral_refl].
Qed.

Lemma doIt_out t d d' out :
  doIt t d = Some (d', out) → body_out t d d' out.
Proof.
  unfold doIt. intros H.
  destruct (tstore d !! t) as [T|]; simpl in H; [|discriminate].
  destruct (type T).
  - unfold _downloadBundle in H.
    destruct (tstore (noteExec t d) !! t) as [T1|]; simpl in H; [|discriminate].
    destruct (bundles d !! bundleName T1) as [l|]; simpl in H; [|discriminate].
    destruct (readBundle (heap d) l) as [b|]; simpl in H; [|discriminate].
    eapply download_loop_out; [|exact H].
    eapply neutral_trans; [apply neutral_noteExec|apply neutral_send].
  - pose proof (removeBundleFiles_fp _ _ _ _ H) as ->.
    destruct out; simpl; [left; auto|apply neutral_noteExec].
Qed.

(** ** [start] and [answer], taken apart *)

Lemma start_inv t i d d' c :
  start t i d = Some (d', c) →
  ∃ d1 out, doIt t d = Some (d1, out)
            ∧ (out = Completed ∧ c = true ∧ d' = d1
               ∨ ∃ ph, out = Suspended ph ∧ c = false
                       ∧ d' = set_pending (Some (mkPending t i ph)) d1).
Proof.
  unfold start. intros H. destruct (doIt t d) as [[d1 out]|] eqn:Hd; simpl in H; [|discriminate].
  exists d1, out. split; [reflexivity|].
  destruct out as [|ph]; injection H as <- <-; [left; auto|right; eauto].
Qed.

Lemma answer_inv r d d' c :
  answer r d = Some (d', c) →
  ∃ p d1 out, pending d = Some p ∧ callback (p_task p) (p_phase p) r d = Some (d1, out)
              ∧ (out = Completed ∧ c = true ∧ d' = set_pending None d1
                 ∨ ∃ ph, out = Suspended ph ∧ c = false
                         ∧ d' = set_pending (Some (mkPending (p_task p) (p_i p) ph)) d1).
Proof.
  unfold answer. intros H. destruct (pending d) as [p|]; simpl in H; [|discriminate].
  destruct (callback (p_task p) (p_phase p) r d) as [[d1 out]|] eqn:Hc; simpl in H;
    [|discriminate].
  exists p, d1, out. split; [reflexivity|]. split; [exact Hc|].
  destruct out as [|ph]; injection H as <- <-; [left; auto|right; eauto].
Qed.

(** ** [_cancelTask] and [kickStartTasks] on the Task objects *)

Lemma abort_tstore t d : tstore (abort t d) = alter (set_canceled true) t (tstore d).
Proof.
  unfold abort. destruct (tstore d !! t) eqn:E; simpl; [reflexivity|].
  symmetry. apply list_eq. intros i. destruct (decide (i = t)) as [->|Hne].
  - rewrite list_lookup_alter_eq, E. reflexivity.
  - rewrite list_lookup_alter_ne by congruence. reflexivity.
Qed.

Lemma cancelOne_canceled bname ty T :
  cancelOne bname ty (set_canceled true T) = set_canceled true T.
Proof. unfold cancelOne. destruct (sameTask _ _ _); reflexivity. Qed.

Lemma cancelFold_lookup bname ty ts : ∀ d t T,
  tstore d !! t = Some T →
  tstore (cancelFold bname ty ts d) !! t
  = Some (if bool_decide (t ∈ ts) then cancelOne bname ty T else T).
Proof.
  induction ts as [|a ts IH]; intros d t T HT; [exact HT|].
  change (cancelFold bname ty (a :: ts) d)
    with (cancelFold bname ty ts
            match tstore d !! a with
            | Some Ta => if sameTask bname ty Ta then abort a d else d
            | None => d
            end).
  destruct (decide (t = a)) as [->|Hne].
  - rewrite HT. rewrite (bool_decide_eq_true_2 (a ∈ a :: ts)) by apply list_elem_of_here.
    destruct (sameTask bname ty T) eqn:Es.
    + rewrite (IH _ a (set_canceled true T))
        by (rewrite abort_tstore, list_lookup_alter_eq, HT; reflexivity).
      rewrite cancelOne_canceled. unfold cancelOne. rewrite Es.
      destruct (bool_decide _); reflexivity.
    + rewrite (IH _ a T HT). unfold cancelOne. rewrite Es. destruct (bool_decide _); reflexivity.
  - assert (Hb : bool_decide (t ∈ a :: ts) = bool_decide (t ∈ ts)).
    { apply bool_decide_ext. rewrite elem_of_cons. tauto. }
    rewrite Hb. apply IH.
    destruct (tstore d !! a) as [Ta|]; [|exact HT].
    destruct (sameTask bname ty Ta); [|exact HT].
    rewrite abort_tstore, list_lookup_alter_ne by congruence. exact HT.
Qed.

Lemma cancelTask_lookup bname ty d t T :
  tstore d !! t = Some T →
  tstore (_cancelTask bname ty d) !! t
  = Some (if bool_decide (t ∈ tasks d) then cancelOne bname ty T else T).
Proof. rewrite cancelTask_fold. apply cancelFold_lookup. Qed.

Lemma cancelTask_lookup_inv bname ty d t T' :
  tstore (_cancelTask bname ty d) !! t = Some T' →
  ∃ T, tstore d !! t = Some T ∧ (T' = T ∨ T' = set_canceled true T).
Proof.
  intros H. destruct (tstore d !! t) as [T|] eqn:HT.
  - rewrite (cancelTask_lookup _ _ _ _ _ HT) in H. injection H as <-. exists T.
    split; [reflexivity|]. unfold cancelOne.
    destruct (bool_decide _); [|auto]. destruct (sameTask _ _ _); auto.
  - apply lookup_lt_Some in H. rewrite cancelTask_length in H.
    apply lookup_ge_None in HT. lia.
Qed.

Lemma rearmAll_lookup_inv d t T' :
  tstore (rearmAll d) !! t = Some T' →
  ∃ T, tstore d !! t = Some T ∧ (T' = T ∨ T' = rearm T).
Proof.
  intros H. destruct (tstore d !! t) as [T|] eqn:HT.
  - unfold rearmAll in H. change (fold_left _ (tasks d) d) with (rearmFold (tasks d) d) in H.
    rewrite (rearmFold_lookup _ _ _ _ HT) in H. injection H as <-. exists T.
    split; [reflexivity|]. destruct (bool_decide _); auto.
  - apply lookup_lt_Some in H. destruct (rearmAll_fields d) as (_ & _ & _ & Hl & _).
    rewrite Hl in H. apply lookup_ge_None in HT. lia.
Qed.

(** ** The queue and the running task *)

Lemma sched_keep d d' :
  sched_inv d →
  tasks d' = tasks d → pending d' = pending d → length (tstore d') = length (tstore d) →
  (∀ t T', tstore d' !! t = Some T' →
     ∃ T, tstore d !! t = Some T
          ∧ (failed T' = true →
             failed T = true ∧ (canceled T = true → canceled T' = true)
             ∧ (retry T = true → retry T' = true))) →
  sched_inv d'.
Proof.
  intros [I1 I2 I3 I4 I5] Ht Hp Hl Hf. constructor.
  - intros t Hin. rewrite Hl. apply I1. rewrite <- Ht. exact Hin.
  - rewrite Ht. exact I2.
  - intros p Hp'. rewrite Ht. apply I3. rewrite <- Hp. exact Hp'.
  - intros t T' Hin HT' Hfail. destruct (Hf _ _ HT') as (T & HT & Himp).
    destruct (Himp Hfail) as (F1 & F2 & F3). rewrite Ht in Hin.
    destruct (I4 _ _ Hin HT F1); auto.
  - intros p T' Hp' HT'. destruct (Hf _ _ HT') as (T & HT & Himp).
    destruct (failed T') eqn:E; [|reflexivity].
    destruct (Himp eq_refl) as (F1 & _). rewrite Hp in Hp'.
    rewrite (I5 _ _ Hp' HT) in F1. discriminate.
Qed.

Lemma sched_same d d' :
  sched_inv d → tasks d' = tasks d → pending d' = pending d → tstore d' = tstore d →
  sched_inv d'.
Proof.
  intros I Ht Hp Hs. apply (sched_keep d); auto; [congruence|].
  intros t T' HT'. exists T'. rewrite <- Hs. auto.
Qed.

Lemma sched_cancel bname ty d : sched_inv d → sched_inv (_cancelTask bname ty d).
Proof.
  intros I. destruct (cancelTask_fields bname ty d) as (Ht & _ & Hp & _).
  apply (sched_keep d); auto using cancelTask_length.
  intros t T' HT'. apply cancelTask_lookup_inv in HT' as (T & HT & [->| ->]); exists T; auto.
Qed.

Lemma sched_push bname ty ex d :
  sched_inv d → sched_inv (pushTask (newTask bname ty ex) d).
Proof.
  intros [I1 I2 I3 I4 I5]. constructor.
  - apply ids_ok_pushTask, I1.
  - simpl. apply NoDup_app. split; [exact I2|]. split; [|apply NoDup_singleton].
    intros t Hin Hn. apply list_elem_of_singleton in Hn as ->. apply I1 in Hin. lia.
  - intros p Hp. simpl in *. rewrite lookup_app_l; [apply I3, Hp|].
    eapply lookup_lt_Some, I3, Hp.
  - intros t T Hin HT Hfail. simpl in *. apply elem_of_app in Hin as [Hin|Hin].
    + rewrite lookup_app_l in HT by (apply I1, Hin). eauto.
    + apply list_elem_of_singleton in Hin as ->.
      rewrite lookup_app_r, Nat.sub_diag in HT by lia. injection HT as <-. discriminate.
  - intros p T Hp HT. simpl in *.
    assert (Hlt : (p_task p < length (tstore d))%nat).
    { apply I1. eapply list_elem_of_lookup_2, I3, Hp. }
    rewrite lookup_app_l in HT by exact Hlt. eauto.
Qed.

Lemma sched_sub d d' :
  sched_inv d → pending d = None → pending d' = None →
  tasks d' `sublist_of` tasks d → tstore d' = tstore d → sched_inv d'.
Proof.
  intros [I1 I2 I3 I4 I5] Hp Hp' Hsub Hs. constructor.
  - intros t Hin. rewrite Hs. apply I1. eapply elem_of_sublist; eauto.
  - exact (sublist_NoDup _ _ I2 Hsub).
  - intros p Hpp. congruence.
  - intros t T Hin HT. rewrite Hs in HT. apply (I4 t); [|exact HT]. eapply elem_of_sublist; eauto.
  - intros p T Hpp. congruence.
Qed.

Lemma NoDup_delete_notin (l : list nat) i t :
  NoDup l → l !! i = Some t → t ∉ delete i l.
Proof.
  intros Hnd Hi Hin. rewrite <- (take_drop_middle l i t Hi) in Hnd.
  rewrite delete_take_drop in Hin.
  apply NoDup_app in Hnd as (_ & H1 & H2). apply NoDup_cons in H2 as [H2 _].
  apply elem_of_app in Hin as [Hin|Hin]; [|contradiction].
  apply (H1 _ Hin). apply list_elem_of_here.
Qed.

(** The completion of task [t], found at [i], from a state where the body
    has changed that task alone. *)
Lemma sched_complete d d2 t i g :
  sched_inv d → tasks d !! i = Some t →
  tasks d2 = tasks d → tstore d2 = alter g t (tstore d) → pending d2 = None →
  sched_inv (onComplete t i d2).
Proof.
  intros [I1 I2 I3 I4 I5] Hi Ht Hs Hp.
  destruct (onComplete_fields t i d2) as (Os & Op & _).
  assert (Hsub : tasks (onComplete t i d2) `sublist_of` tasks d).
  { unfold onComplete. destruct (tstore d2 !! t) as [T2|]; [|rewrite Ht; reflexivity].
    destruct (canceled T2), (failed T2), (retry T2); simpl; rewrite Ht;
      first [reflexivity|apply sublist_delete]. }
  constructor.
  - intros t' Hin. rewrite Os, Hs, length_alter. apply I1. eapply elem_of_sublist; eauto.
  - exact (sublist_NoDup _ _ I2 Hsub).
  - intros p Hpp. rewrite Op, Hp in Hpp. discriminate.
  - intros t' T' Hin HT' Hfail. rewrite Os, Hs in HT'.
    destruct (decide (t' = t)) as [->|Hne].
    + unfold onComplete in Hin. rewrite Hs in Hin.
      rewrite list_lookup_alter_eq in HT', Hin.
      destruct (tstore d !! t) as [T|] eqn:HT; simpl in HT', Hin; [|discriminate].
      injection HT' as <-. rewrite Hfail in Hin.
      destruct (canceled (g T)); [auto|]. destruct (retry (g T)); [auto|].
      simpl in Hin. rewrite Ht in Hin. exfalso. eapply NoDup_delete_notin; eauto.
    + rewrite list_lookup_alter_ne in HT' by congruence.
      apply (I4 t'); [|exact HT'|exact Hfail]. eapply elem_of_sublist; eauto.
  - intros p T' Hpp. rewrite Op, Hp in Hpp. discriminate.
Qed.

Lemma sched_wait d d1 t i ph :
  sched_inv d → tasks d !! i = Some t → isFailed d t = false →
  (∀ p, pending d = Some p → p_task p = t ∧ p_i p = i) →
  tasks d1 = tasks d → neutral t d d1 →
  sched_inv (set_pending (Some (mkPending t i ph)) d1).
Proof.
  intros [I1 I2 I3 I4 I5] Hi Hf Hp Ht (_ & _ & g & Hs & Hg).
  assert (Hfl : ∀ T', tstore d1 !! t = Some T' → failed T' = false).
  { intros T' HT'. rewrite Hs, list_lookup_alter_eq in HT'.
    unfold isFailed in Hf. destruct (tstore d !! t) as [T|]; [|discriminate].
    injection HT' as <-. destruct (Hg T) as [-> _]. exact Hf. }
  constructor.
  - intros t' Hin. simpl in *. rewrite Hs, length_alter. apply I1. rewrite <- Ht. exact Hin.
  - simpl. rewrite Ht. exact I2.
  - intros p Hpp. simpl in *. injection Hpp as <-. simpl. rewrite Ht. exact Hi.
  - intros t' T' Hin HT' Hfail. simpl in *. destruct (decide (t' = t)) as [->|Hne].
    + rewrite (Hfl _ HT') in Hfail. discriminate.
    + rewrite Hs, list_lookup_alter_ne in HT' by congruence.
      apply (I4 t'); [rewrite <- Ht; exact Hin|exact HT'|exact Hfail].
  - intros p T' Hpp HT'. simpl in *. injection Hpp as <-. simpl in HT'. apply Hfl, HT'.
Qed.

Lemma sched_move d d' : sched_inv d → move d d' → sched_inv d'.
Proof.
  intros I Hm.
  destruct Hm as [d objs|d bname l h copy Hreg Hc|d v bname h copy Hm Hn Hreg Hp Hc Hl
                 |d v bname h copy Hm Hn Hreg Hp Hc Hl|d bname l Hreg Hl|d bname l Hreg Hl
                 |d|d Hp|d Hp|d Hp Hsel|d t i d' Hp Hd Hsel Hcan Hst
                 |d t i d' Hp Hd Hsel Hcan Hst|d r d' Ha|d r p d' Hp Ha|d Het].
  - apply (sched_same d); auto.
  - apply (sched_same d); auto.
  - apply sched_cancel. apply (sched_same d); auto.
  - apply sched_push, sched_cancel. apply (sched_same d); auto.
  - apply sched_cancel. apply (sched_same d); auto.
  - apply sched_push, sched_cancel. apply (sched_same d); auto.
  - destruct (rearmAll_fields d) as (Ht & _ & Hpe & Hlen & _).
    apply (sched_keep d); auto.
    intros t T' HT'. apply rearmAll_lookup_inv in HT' as (T & HT & [->| ->]); exists T; auto.
    split; [exact HT|]. unfold rearm.
    destruct (negb (canceled T) && failed T && retry T); simpl; [discriminate|auto].
  - apply (sched_sub d); auto. apply sublist_filter.
  - destruct (markBusy_fields d) as (Ht & Hs & Hpe & _). apply (sched_same d); auto.
  - destruct (markIdle_fields d) as (Ht & Hs & Hpe & _). apply (sched_same d); auto.
  - pose proof Hst as Hsum.
    apply start_summary in Hsum as (T & g & evs & _ & Ht & _).
    apply start_inv in Hst as (d1 & out & Hdo & [(_ & Hc & _)|(ph & -> & _ & ->)]);
      [discriminate|].
    apply select_Some in Hsel as [Hi Hf].
    apply (sched_wait d); auto.
    + intros p Hpp. congruence.
    + apply doIt_out in Hdo. exact Hdo.
  - apply start_summary in Hst
      as (T & g & evs & _ & Ht & _ & _ & _ & _ & _ & Hs & _ & _ & _ & _ & Hpe).
    apply select_Some in Hsel as [Hi Hf].
    eapply sched_complete; eauto. congruence.
  - pose proof Ha as Hsum.
    apply answer_summary in Hsum as (p & g & evs & Hp & Ht & _).
    apply answer_inv in Ha as (p' & d1 & out & Hp' & Hcb & [(_ & Hc & _)|(ph & -> & _ & ->)]);
      [discriminate|].
    assert (p' = p) as -> by congruence.
    destruct I as [I1 I2 I3 I4 I5].
    assert (Hf : isFailed d (p_task p) = false).
    { unfold isFailed. destruct (tstore d !! p_task p) as [T|] eqn:HT; [|reflexivity].
      eapply I5; eauto. }
    apply (sched_wait d); auto.
    + constructor; auto.
    + intros p0 Hp0. assert (p0 = p) as -> by congruence. auto.
    + apply callback_out in Hcb. exact Hcb.
  - apply answer_summary in Ha
      as (p' & g & evs & Hp' & Ht & _ & _ & _ & _ & Hs & _ & _ & _ & _ & Hpe).
    assert (p' = p) as -> by congruence.
    eapply sched_complete; eauto. destruct I as [_ _ I3 _ _]. apply I3, Hp.
  - apply (sched_same d); auto.
Qed.

Lemma sched_new : sched_inv newDAM.
Proof.
  constructor.
  - intros t Hin. simpl in Hin. inversion Hin.
  - simpl. constructor.
  - intros p Hp. discriminate.
  - intros t T Hin. simpl in Hin. inversion Hin.
  - intros p T Hp. discriminate.
Qed.

Lemma reachable_sched d : reachable d → sched_inv d.
Proof. apply reachable_moves; [exact sched_new|exact sched_move]. Qed.

(** * The manager is never stuck *)

Lemma remove_loop_susp t l i d d' ph :
  remove_loop t l i d = Some (d', Suspended ph) →
  is_Some (readBundle (heap d) l) ∧ ∃ k f lf, ph = RemoveLookup l k f lf.
Proof.
  unfold remove_loop. intros H.
  destruct (tstore d !! t) as [T|]; simpl in H; [|discriminate].
  destruct (canceled T); [discriminate|].
  destruct (readBundle (heap d) l) as [b|]; simpl in H; [|discriminate].
  destruct (remove_scan _ _ _ _) as [[k f]|]; [|discriminate].
  injection H as <- <-. split; eauto.
Qed.

Lemma phase_ok_le h h' ph : heap_le h h' → phase_ok h ph → phase_ok h' ph.
Proof.
  intros Hle. destruct ph as [fr|fr|fr|l k f lf|l k]; simpl;
    try (intros (b & Hb & Hf); destruct (Hle _ _ Hb) as (b' & Hb' & _ & Hfs & _);
         exists b'; rewrite Hfs; auto);
    intros [b Hb]; destruct (Hle _ _ Hb) as (b' & Hb' & _); eauto.
Qed.

Lemma doIt_phase t d d' ph :
  doIt t d = Some (d', Suspended ph) → phase_ok (heap d') ph.
Proof.
  unfold doIt. intros H.
  destruct (tstore d !! t) as [T|]; simpl in H; [|discriminate].
  destruct (type T).
  - unfold _downloadBundle in H.
    destruct (tstore (noteExec t d) !! t) as [T1|]; simpl in H; [|discriminate].
    destruct (bundles d !! bundleName T1) as [l|]; simpl in H; [|discriminate].
    destruct (readBundle (heap d) l) as [b|]; simpl in H; [|discriminate].
    apply download_loop_susp in H as (-> & b' & f & Hb & Hf & ->). simpl in *.
    exists b'. rewrite Hf. eauto.
  - unfold _removeBundleFiles in H.
    destruct (tstore (noteExec t d) !! t) as [T1|]; simpl in H; [|discriminate].
    destruct (extra T1) as [l|]; simpl in H; [|discriminate].
    pose proof (remove_loop_fp _ _ _ _ _ _ H) as ->.
    apply remove_loop_susp in H as (Hb & k & f & lf & ->). exact Hb.
Qed.

Lemma fileDone_phase t fr d d' ph :
  fileDone t fr d = Some (d', Suspended ph) → phase_ok (heap d') ph.
Proof.
  unfold fileDone. intros H.
  destruct (tstore d !! t) as [T|]; simpl in H; [|discriminate].
  destruct (negb (canceled T)).
  - destruct (readBundle (heap d) (lf_bundle fr)) as [b|]; simpl in H; [|discriminate].
    apply download_loop_susp in H as (-> & b' & f & Hb & Hf & ->). simpl in *.
    exists b'. rewrite Hf. eauto.
  - apply download_loop_susp in H as (-> & b' & f & Hb & Hf & ->). simpl in *.
    exists b'. rewrite Hf. eauto.
Qed.

Lemma callback_phase t ph r d d' ph' :
  callback t ph r d = Some (d', Suspended ph') →
  phase_ok (heap d) ph → phase_ok (heap d') ph'.
Proof.
  unfold callback. intros H Hok.
  destruct ph as [fr|fr|fr|l k f lf|l k], r as [url| |c| |lc el et|url|err];
    try discriminate H.
  - eapply fileDone_phase, H.
  - injection H as <- <-. exact Hok.
  - injection H as <- <-. exact Hok.
  - apply error_fp in H as [_ H]. discriminate.
  - unfold onprogress in H.
    destruct (tstore d !! t) as [T|]; simpl in H; [|discriminate].
    destruct (lc && negb (canceled T)).
    + destruct (readBundle (heap d) (lf_bundle fr)) as [b|]; simpl in H; [|discriminate].
      injection H as <- <-. exact Hok.
    + injection H as <- <-. exact Hok.
  - unfold _downloadSuccess in H. eapply fileDone_phase, H.
  - apply downloadFail_fp in H as [_ H]. discriminate.
  - unfold removeFound in H. injection H as <- <-.
    assert (E : heap (_removeLocalURL f (set_disk (disk d ∖ {[lf]}) d)) = heap d).
    { unfold _removeLocalURL. destruct (localURLs _ !! f); reflexivity. }
    simpl. rewrite E. exact Hok.
  - pose proof (remove_loop_fp _ _ _ _ _ _ H) as ->.
    apply remove_loop_susp in H as (Hb & k' & f' & lf' & ->). exact Hb.
  - pose proof (remove_loop_fp _ _ _ _ _ _ H) as ->.
    apply remove_loop_susp in H as (Hb & k' & f' & lf' & ->). exact Hb.
Qed.

(** ** What the moves keep *)

Lemma task_keys_same d d' : tstore d' = tstore d → task_keys d d'.
Proof. intros E t T HT. exists T. rewrite E. auto. Qed.

Lemma task_keys_alter g t d d' :
  keyOnly g → tstore d' = alter g t (tstore d) → task_keys d d'.
Proof.
  intros Hg E t' T HT. rewrite E. destruct (decide (t' = t)) as [->|Hne].
  - rewrite list_lookup_alter_eq, HT. simpl. exists (g T). destruct (Hg T) as (?&?&?&Hc).
    split; [reflexivity|]. rewrite Hc. auto.
  - rewrite list_lookup_alter_ne by congruence. exists T. auto.
Qed.

Lemma task_keys_cancel bname ty d : task_keys d (_cancelTask bname ty d).
Proof.
  intros t T HT. rewrite (cancelTask_lookup _ _ _ _ _ HT). eexists. split; [reflexivity|].
  unfold cancelOne. destruct (bool_decide _); [|auto]. destruct (sameTask _ _ _); simpl; auto.
Qed.

Lemma task_keys_rearm d : task_keys d (rearmAll d).
Proof.
  intros t T HT. unfold rearmAll.
  change (fold_left _ (tasks d) d) with (rearmFold (tasks d) d).
  rewrite (rearmFold_lookup _ _ _ _ HT). eexists. split; [reflexivity|].
  destruct (bool_decide _); [|auto]. unfold rearm.
  destruct (negb (canceled T) && failed T && retry T); simpl; auto.
Qed.

Lemma registry_ok_le d d' :
  registry_ok (fun _ => True) d → bundles d' = bundles d → heap_le (heap d) (heap d') →
  registry_ok (fun _ => True) d'.
Proof.
  intros R Hb Hle n l Hn. rewrite Hb in Hn.
  destruct (R _ _ Hn) as (b & Hr & Hname & Hs & _).
  destruct (Hle _ _ Hr) as (b' & Hr' & E1 & E2 & E3).
  exists b'. split; [exact Hr'|]. split; [congruence|]. split; [|exact I].
  intros ss Hss. rewrite E2. apply Hs. congruence.
Qed.

Lemma isCanceled_keys d d' t :
  task_keys d d' → isCanceled d' t = false → isCanceled d t = false.
Proof.
  intros K H. unfold isCanceled in *. destruct (tstore d !! t) as [T|] eqn:HT; [|reflexivity].
  destruct (K _ _ HT) as (T' & HT' & _ & _ & _ & Hc). rewrite HT' in H.
  destruct (canceled T); [|reflexivity]. rewrite Hc in H by reflexivity. discriminate.
Qed.

Lemma runnable_keys d d' t :
  runnable d t → task_keys d d' → bundles d' = bundles d → heap_le (heap d) (heap d') →
  runnable d' t.
Proof.
  intros Hr K Hb Hle. eapply runnable_frame; eauto.
  intros T HT. destruct (K _ _ HT) as (T' & HT' & ? & ? & ? & _). eauto.
Qed.

Lemma sv_frame d d' :
  serviceable d → bundles d' = bundles d → heap_le (heap d) (heap d') →
  tasks d' `sublist_of` tasks d → task_keys d d' →
  pending d' = pending d ∨ pending d' = None →
  serviceable d'.
Proof.
  intros [S1 S2 S3] Hb Hle Hsub K Hp. constructor.
  - eapply registry_ok_le; eauto.
  - intros t Hin Hc. eapply runnable_keys; eauto.
    apply S2; [eapply elem_of_sublist; eauto|eapply isCanceled_keys; eauto].
  - intros p Hpp. destruct Hp as [Hp|Hp]; [|congruence]. rewrite Hp in Hpp.
    destruct (S3 _ Hpp) as [[T HT] Hph]. split.
    + destruct (K _ _ HT) as (T' & HT' & _). eauto.
    + eapply phase_ok_le; eauto.
Qed.

Lemma sv_push_load bname l d :
  serviceable d → bundles d !! bname = Some l →
  serviceable (pushTask (newTask bname TASK_TYPE_LOAD None) d).
Proof.
  intros [S1 S2 S3] Hreg.
  assert (K : task_keys d (pushTask (newTask bname TASK_TYPE_LOAD None) d)).
  { intros t T HT. exists T. simpl. rewrite lookup_app_l by (eapply lookup_lt_Some; eauto). auto. }
  constructor.
  - exact S1.
  - intros t Hin Hc. simpl in Hin. apply elem_of_app in Hin as [Hin|Hin].
    + eapply runnable_keys; eauto using heap_le_refl.
      apply S2; [exact Hin|]. eapply isCanceled_keys; eauto.
    + apply list_elem_of_singleton in Hin as ->.
      exists (newTask bname TASK_TYPE_LOAD None). simpl.
      rewrite lookup_app_r, Nat.sub_diag by lia. split; [reflexivity|].
      destruct (S1 _ _ Hreg) as (b & Hb & _). eauto.
  - intros p Hpp. simpl in *. destruct (S3 _ Hpp) as [[T HT] Hph]. split; [|exact Hph].
    destruct (K _ _ HT) as (T' & HT' & _). eauto.
Qed.

Lemma sv_push_remove bname l b d :
  serviceable d → readBundle (heap d) l = Some b →
  serviceable (pushTask (newTask bname TASK_TYPE_REMOVE (Some l)) d).
Proof.
  intros [S1 S2 S3] Hb.
  assert (K : task_keys d (pushTask (newTask bname TASK_TYPE_REMOVE (Some l)) d)).
  { intros t T HT. exists T. simpl. rewrite lookup_app_l by (eapply lookup_lt_Some; eauto). auto. }
  constructor.
  - exact S1.
  - intros t Hin Hc. simpl in Hin. apply elem_of_app in Hin as [Hin|Hin].
    + eapply runnable_keys; eauto using heap_le_refl.
      apply S2; [exact Hin|]. eapply isCanceled_keys; eauto.
    + apply list_elem_of_singleton in Hin as ->.
      exists (newTask bname TASK_TYPE_REMOVE (Some l)). simpl.
      rewrite lookup_app_r, Nat.sub_diag by lia. split; [reflexivity|]. eauto.
  - intros p Hpp. simpl in *. destruct (S3 _ Hpp) as [[T HT] Hph]. split; [|exact Hph].
    destruct (K _ _ HT) as (T' & HT' & _). eauto.
Qed.

(** [addBundle] up to the registration. *)
Lemma sv_register d v bname h copy :
  serviceable d →
  _malformedBundle (heap d) v = Normal false →
  getProp (heap d) v "name" = Some (JStr bname) →
  bundles d !! bname = None →
  _copyBundle (heap d) v = Some (h, copy) →
  serviceable (register bname copy (setProp h copy "loaded" (JBool false)) d)
  ∧ ∃ b, readBundle (setProp h copy "loaded" (JBool false)) copy = Some b
         ∧ name b = bname ∧ loaded b = Some false
         ∧ heap_le (heap d) (setProp h copy "loaded" (JBool false)).
Proof.
  intros [S1 S2 S3] Hm Hn Hreg Hc.
  destruct (copyBundle_validated _ _ Hm)
    as (l & n & fl & fsz & fs & -> & Hl & Hn' & Hf & Ha & Hs & Hsz & Hfs & Hfs' & Hcopy & Hread).
  rewrite Hn in Hn'. injection Hn' as <-. rewrite Hcopy in Hc. injection Hc as <- <-.
  set (h1 := setProp (heap d ++ copyCells (heap d) (JStr bname) fl fsz) (S (length (heap d)))
               "loaded" (JBool false)) in *.
  assert (Hrd : readBundle h1 (S (length (heap d)))
                = Some (Bundle bname fs (if truthy fsz then Some (elems (heap d) fsz) else None)
                          (Some false))).
  { unfold h1. specialize (Hread []). rewrite app_nil_r in Hread.
    rewrite (readBundle_setProp_loaded _ _ _ _ _ Hread).
    destruct (decide _); [reflexivity|contradiction]. }
  assert (Hle : heap_le (heap d) h1) by (apply heap_le_copyCells; lia).
  split; [|eexists; split; [exact Hrd|auto]].
  constructor.
  - intros n' l' Hn'. simpl in Hn'. destruct (decide (n' = bname)) as [->|Hne].
    + rewrite lookup_insert_eq in Hn'. injection Hn' as <-. eexists. split; [exact Hrd|].
      simpl. split; [reflexivity|]. split; [|exact I].
      intros ss Hss. simpl in *. destruct Hsz as [->|[Hfa Hlen]]; [discriminate|].
      rewrite (truthy_array _ _ Hfa) in Hss. injection Hss as <-.
      rewrite Hlen, <- Hfs', length_fmap. reflexivity.
    + rewrite lookup_insert_ne in Hn' by congruence.
      destruct (S1 _ _ Hn') as (b & Hr & Hname & Hsok & _).
      destruct (Hle _ _ Hr) as (b' & Hr' & E1 & E2 & E3).
      exists b'. split; [exact Hr'|]. split; [congruence|]. split; [|exact I].
      intros ss Hss. rewrite E2. apply Hsok. congruence.
  - intros t Hin Hcan. destruct (S2 t Hin Hcan) as (T & HT & Hrun).
    exists T. split; [exact HT|]. simpl. destruct (type T).
    + destruct Hrun as (l' & b & Hl' & Hb).
      destruct (decide (bundleName T = bname)) as [E|Hne].
      * rewrite E, lookup_insert_eq. eauto.
      * rewrite lookup_insert_ne by congruence.
        destruct (Hle _ _ Hb) as (b' & Hb' & _). eauto.
    + destruct Hrun as (l' & b & Hl' & Hb). destruct (Hle _ _ Hb) as (b' & Hb' & _). eauto.
  - intros p Hpp. simpl in *. destruct (S3 _ Hpp) as [HT Hph]. split; [exact HT|].
    eapply phase_ok_le; eauto.
Qed.

(** [removeBundle] up to the cancellation of the Load tasks. *)
Lemma sv_unregister d bname :
  serviceable d → serviceable (_cancelTask bname TASK_TYPE_LOAD (unregister bname d)).
Proof.
  intros [S1 S2 S3].
  destruct (cancelTask_fields bname TASK_TYPE_LOAD (unregister bname d))
    as (Ht & _ & Hp & Hh & Hb & _).
  pose proof (task_keys_cancel bname TASK_TYPE_LOAD (unregister bname d)) as K.
  constructor.
  - intros n l Hn. rewrite Hb in Hn. simpl in Hn. apply lookup_delete_Some in Hn as [Hne Hn].
    rewrite Hh. simpl. destruct (S1 _ _ Hn) as (b & ? & ? & ? & _). eauto.
  - intros t Hin Hcan. rewrite Ht in Hin. simpl in Hin.
    assert (Hc0 : isCanceled d t = false).
    { apply (isCanceled_keys (unregister bname d) _ t K Hcan). }
    destruct (S2 t Hin Hc0) as (T & HT & Hrun).
    pose proof (cancelTask_lookup bname TASK_TYPE_LOAD (unregister bname d) t T HT) as HT2.
    rewrite bool_decide_eq_true_2 in HT2 by exact Hin.
    unfold isCanceled in Hcan. rewrite HT2 in Hcan.
    exists (cancelOne bname TASK_TYPE_LOAD T). split; [exact HT2|].
    unfold cancelOne in *. destruct (sameTask bname TASK_TYPE_LOAD T) eqn:Es; [discriminate|].
    rewrite Hb, Hh. simpl. destruct (type T) eqn:Ety.
    + destruct Hrun as (l & b & Hl & Hr). exists l, b. split; [|exact Hr].
      rewrite lookup_delete_ne; [exact Hl|].
      intros E. unfold sameTask in Es. rewrite Ety in Es.
      rewrite (bool_decide_eq_true_2 (bundleName T = bname)) in Es by congruence.
      rewrite bool_decide_eq_true_2 in Es by reflexivity. discriminate.
    + exact Hrun.
  - intros p Hpp. rewrite Hp in Hpp. simpl in Hpp. destruct (S3 _ Hpp) as [[T HT] Hph].
    rewrite Hh. split; [|exact Hph].
    destruct (K _ _ HT) as (T' & HT' & _). eauto.
Qed.

Lemma sv_wait d d1 t i ph g :
  serviceable d → tasks d1 = tasks d → bundles d1 = bundles d →
  heap_le (heap d) (heap d1) → keyOnly g → tstore d1 = alter g t (tstore d) →
  is_Some (tstore d !! t) → phase_ok (heap d1) ph →
  serviceable (set_pending (Some (mkPending t i ph)) d1).
Proof.
  intros S Ht Hb Hle Hg Hs HT Hph.
  assert (K : task_keys d d1) by (eapply task_keys_alter; eauto).
  assert (S' : serviceable (set_pending None d1)).
  { apply (sv_frame d); simpl; auto. rewrite Ht. reflexivity. }
  destruct S' as [S1 S2 S3]. constructor; [exact S1|exact S2|].
  intros p Hpp. simpl in *. injection Hpp as <-. simpl. split; [|exact Hph].
  destruct HT as [T HT]. destruct (K _ _ HT) as (T' & HT' & _). eauto.
Qed.

Lemma sv_complete d d1 t i g :
  serviceable d → tasks d1 = tasks d → bundles d1 = bundles d →
  heap_le (heap d) (heap d1) → keyOnly g → tstore d1 = alter g t (tstore d) →
  pending d1 = None →
  serviceable (onComplete t i d1).
Proof.
  intros S Ht Hb Hle Hg Hs Hp.
  destruct (onComplete_fields t i d1) as (Os & Op & _ & Oh & Ob & _).
  apply (sv_frame d).
  - exact S.
  - congruence.
  - rewrite Oh. exact Hle.
  - unfold onComplete. destruct (tstore d1 !! t) as [T|]; [|rewrite Ht; reflexivity].
    destruct (canceled T), (failed T), (retry T); simpl; rewrite Ht;
      first [reflexivity|apply sublist_delete].
  - apply (task_keys_alter g t); [exact Hg|]. rewrite Os. exact Hs.
  - right. rewrite Op. exact Hp.
Qed.

Lemma flagsOnly_keys g : flagsOnly g → keyOnly g.
Proof. intros H T. destruct (H T) as (?&?&?&?&?). auto. Qed.

Lemma sv_move d d' : serviceable d → move d d' → serviceable d'.
Proof.
  intros S Hm.
  destruct Hm as [d objs|d bname l h copy Hreg Hc|d v bname h copy Hm Hn Hreg Hp Hc Hl
                 |d v bname h copy Hm Hn Hreg Hp Hc Hl|d bname l Hreg Hl|d bname l Hreg Hl
                 |d|d Hp|d Hp|d Hp Hsel|d t i d' Hp Hd Hsel Hcan Hst
                 |d t i d' Hp Hd Hsel Hcan Hst|d r d' Ha|d r p d' Hp Ha|d Het].
  - apply (sv_frame d); simpl; auto using heap_le_app, task_keys_same.
  - apply heap_le_copyBundle in Hc as [cells ->].
    apply (sv_frame d); simpl; auto using heap_le_app, task_keys_same.
  - destruct (sv_register _ _ _ _ _ S Hm Hn Hreg Hc) as [S' _].
    destruct (cancelTask_fields bname TASK_TYPE_REMOVE
                (register bname copy (setProp h copy "loaded" (JBool false)) d))
      as (Ht & _ & Hpe & Hh & Hb & _).
    apply (sv_frame _ _ S'); auto using task_keys_cancel.
    + rewrite Hh. apply heap_le_refl.
    + rewrite Ht. reflexivity.
  - destruct (sv_register _ _ _ _ _ S Hm Hn Hreg Hc) as [S' _].
    destruct (cancelTask_fields bname TASK_TYPE_REMOVE
                (register bname copy (setProp h copy "loaded" (JBool false)) d))
      as (Ht & _ & Hpe & Hh & Hb & _).
    apply (sv_push_load bname copy).
    + apply (sv_frame _ _ S'); auto using task_keys_cancel.
      * rewrite Hh. apply heap_le_refl.
      * rewrite Ht. reflexivity.
    + rewrite Hb. simpl. apply lookup_insert_eq.
  - apply sv_unregister, S.
  - destruct (sv_registry _ S _ _ Hreg) as (b & Hb & _).
    apply (sv_push_remove bname l b); [apply sv_unregister, S|].
    destruct (cancelTask_fields bname TASK_TYPE_LOAD (unregister bname d))
      as (_ & _ & _ & Hh & _).
    rewrite Hh. exact Hb.
  - destruct (rearmAll_fields d) as (Ht & _ & Hpe & _ & Hh & Hb & _).
    apply (sv_frame d); auto using task_keys_rearm.
    + rewrite Hh. apply heap_le_refl.
    + rewrite Ht. reflexivity.
  - apply (sv_frame d); simpl; auto using heap_le_refl, task_keys_same. apply sublist_filter.
  - destruct (markBusy_fields d) as (Ht & Hs & Hpe & Hh & Hb).
    apply (sv_frame d); auto using task_keys_same.
    + rewrite Hh. apply heap_le_refl.
    + rewrite Ht. reflexivity.
  - destruct (markIdle_fields d) as (Ht & Hs & Hpe & Hh & Hb).
    apply (sv_frame d); auto using task_keys_same.
    + rewrite Hh. apply heap_le_refl.
    + rewrite Ht. reflexivity.
  - pose proof Hst as Hsum.
    apply start_summary in Hsum
      as (T & g & evs & HT & Ht & _ & Hb & _ & Hg & _ & Hs & _ & _ & _ & Hle & _).
    apply start_inv in Hst as (d1 & out & Hdo & [(_ & Hc & _)|(ph & -> & _ & ->)]);
      [discriminate|].
    simpl in *. eapply sv_wait; eauto. eapply doIt_phase; eauto.
  - apply start_summary in Hst
      as (T & g & evs & HT & Ht & _ & Hb & _ & Hg & _ & Hs & _ & _ & _ & Hle & Hpe).
    eapply sv_complete; eauto. congruence.
  - pose proof Ha as Hsum.
    apply answer_summary in Hsum
      as (p & g & evs & Hp & Ht & _ & Hb & _ & Hg & Hs & _ & _ & _ & Hle & _).
    apply answer_inv in Ha as (p' & d1 & out & Hp' & Hcb & [(_ & Hc & _)|(ph & -> & _ & ->)]);
      [discriminate|].
    assert (p' = p) as -> by congruence.
    destruct (sv_pending _ S _ Hp) as [HT Hph].
    simpl in *. eapply sv_wait; eauto using flagsOnly_keys. eapply callback_phase; eauto.
  - apply answer_summary in Ha
      as (p' & g & evs & Hp' & Ht & _ & Hb & _ & Hg & Hs & _ & _ & _ & Hle & Hpe).
    assert (p' = p) as -> by congruence.
    eapply sv_complete; eauto using flagsOnly_keys.
  - apply (sv_frame d); simpl; auto using heap_le_refl, task_keys_same.
Qed.

Lemma sv_new : serviceable newDAM.
Proof.
  constructor.
  - intros n l Hn. simpl in Hn. rewrite lookup_empty in Hn. discriminate.
  - intros t Hin. simpl in Hin. inversion Hin.
  - intros p Hp. discriminate.
Qed.

Lemma reachable_serviceable d : reachable d → serviceable d.
Proof. apply reachable_moves; [exact sv_new|exact sv_move]. Qed.

(** ** Every body and every callback finds what it reads *)

Lemma error_total t l msg rt d :
  is_Some (tstore d !! t) →
  (rt = false → isCanceled d t = false → is_Some (readBundle (heap d) l)) →
  is_Some (error_ t l msg rt d).
Proof.
  intros [T HT] Hr. unfold error_. rewrite HT. simpl.
  destruct rt; simpl; [eauto|].
  destruct (canceled T) eqn:Hc; simpl; [eauto|].
  destruct Hr as [b Hb]; [reflexivity|unfold isCanceled; rewrite HT; exact Hc|].
  rewrite Hb. simpl. eauto.
Qed.

Lemma download_loop_total t l ts td i d :
  is_Some (tstore d !! t) →
  (isCanceled d t = false →
   ∃ b, readBundle (heap d) l = Some b ∧ (i ≤ length (files b))%nat) →
  is_Some (download_loop t l ts td i d).
Proof.
  intros [T HT] Hr. unfold download_loop. rewrite HT. simpl.
  destruct (canceled T) eqn:Hc.
  - apply error_total; [eauto|]. intros _ Hn. unfold isCanceled in Hn. rewrite HT in Hn.
    congruence.
  - destruct Hr as (b & Hb & Hi); [unfold isCanceled; rewrite HT; exact Hc|].
    rewrite Hb. simpl. destruct (Nat.eqb_spec i (length (files b))) as [E|Hne]; [eauto|].
    destruct (lookup_lt_is_Some_2 (files b) i) as [f Hf]; [lia|]. rewrite Hf. simpl. eauto.
Qed.

Lemma fileDone_total t fr d :
  is_Some (tstore d !! t) → phase_ok (heap d) (LoadProbe fr) → is_Some (fileDone t fr d).
Proof.
  intros [T HT] (b & Hb & Hf). unfold fileDone. rewrite HT. simpl.
  apply lookup_lt_is_Some_1 in Hf.
  destruct (canceled T) eqn:Hc; simpl.
  - apply download_loop_total; [eauto|]. intros Hn. unfold isCanceled in Hn. rewrite HT in Hn.
    congruence.
  - rewrite Hb. simpl. apply download_loop_total; simpl; [eauto|]. intros _. exists b.
    split; [exact Hb|lia].
Qed.

Lemma remove_loop_total t l i d :
  is_Some (tstore d !! t) → is_Some (readBundle (heap d) l) → is_Some (remove_loop t l i d).
Proof.
  intros [T HT] [b Hb]. unfold remove_loop. rewrite HT. simpl.
  destruct (canceled T); [eauto|]. rewrite Hb. simpl.
  destruct (remove_scan _ _ _ _) as [[k f]|]; eauto.
Qed.

Lemma callback_total t ph r d :
  is_Some (tstore d !! t) → phase_ok (heap d) ph → fits ph r = true →
  is_Some (callback t ph r d).
Proof.
  intros HT Hph Hfit. pose proof HT as [T HT'].
  destruct ph as [fr|fr|fr|l k f lf|l k], r as [url| |c| |lc el et|url|err];
    try discriminate Hfit; unfold callback.
  - apply fileDone_total; assumption.
  - eauto.
  - eauto.
  - apply error_total; [exact HT|]. intros _ _. destruct Hph as (b & Hb & _). eauto.
  - unfold onprogress. rewrite HT'. simpl. destruct (lc && negb (canceled T)); [|eauto].
    destruct Hph as (b & Hb & _). rewrite Hb. simpl. eauto.
  - unfold _downloadSuccess.
    destruct (addLocalURL_fields (lf_remoteFile fr) url (updTask (set_ft false) t d))
      as (_ & Eh & Es).
    apply fileDone_total.
    + rewrite Es. simpl. rewrite list_lookup_alter_eq, HT'. simpl. eauto.
    + simpl. rewrite Eh. exact Hph.
  - unfold _downloadFail. destruct (code err =? ABORT_ERR); [eauto|].
    apply error_total; simpl.
    + rewrite list_lookup_alter_eq, HT'. simpl. eauto.
    + intros _ _. destruct Hph as (b & Hb & _). eauto.
  - eauto.
  - apply remove_loop_total; assumption.
  - apply remove_loop_total; assumption.
Qed.

Lemma serviceable_candidates d : serviceable d → candidates_ok d.
Proof.
  intros S t Hin. unfold candidates in Hin. apply list_elem_of_filter in Hin as [[Hc _] Hin].
  apply (sv_tasks _ S); assumption.
Qed.

Lemma drain_total d : candidates_ok d → is_Some (drain d).
Proof.
  intros H. unfold drain. apply loop_total; [exact H|].
  unfold candidates. pose proof (length_filter (candidate d) (tasks d)). lia.
Qed.

Lemma step_total (d : DAM) (i : Input) :
  reachable d → expected d i → is_Some (step i d).
Proof.
  intros Hr Hexp.
  pose proof (reachable_serviceable _ Hr) as S.
  pose proof (reachable_quiescent _ Hr) as Q.
  destruct i as [objs v|bname|bname| | |r]; simpl in *.
  - pose proof (sv_move _ _ S (mv_objs d objs)) as S0.
    pose proof (quiescent_heap (heap d ++ objs) _ Q) as Q0.
    assert (Hexp' : getProp (heap (set_heap (heap d ++ objs) d)) v "name"
                    ≠ Some (JStr "__proto__")) by exact Hexp.
    clear Hexp. revert Hexp' S0 Q0.
    generalize (set_heap (heap d ++ objs) d). clear d Hr S Q. intros d Hexp S Q.
    unfold addBundle.
    destruct (_malformedBundle (heap d) v) as [[|]|e] eqn:Hm; simpl; eauto.
    destruct (copyBundle_validated _ _ Hm)
      as (l & n & fl & fsz & fs & -> & Hl & Hn & Hf & Hfa & Hs & Hsz & Hfs & Hfs' & Hcopy & Hread).
    rewrite Hn. simpl.
    destruct (bundles d !! n) as [l0|] eqn:Hreg; simpl; [eauto|].
    destruct (String.eqb_spec n "__proto__") as [->|Hne]; [contradiction|].
    rewrite Hcopy. simpl. unfold _maybeAddTask.
    destruct (liveTask n TASK_TYPE_LOAD _) eqn:Hlive; simpl; [eauto|].
    match goal with |- context [_doTasks ?X] =>
      assert (SX : serviceable X) by (eapply sv_move; [exact S|eapply mv_add_push; eauto]);
      destruct (doTasks_total X (serviceable_candidates _ SX)) as [d3 ->]
    end.
    simpl. eauto.
  - unfold removeBundle. destruct (bundles d !! bname) as [l|] eqn:Hreg; [|eauto].
    cbv zeta. unfold _maybeAddTask.
    destruct (liveTask bname TASK_TYPE_REMOVE _) eqn:Hlive; [eauto|].
    apply doTasks_total, serviceable_candidates.
    eapply sv_move; [exact S|eapply mv_remove_push; eauto].
  - unfold getBundle. destruct (bundles d !! bname) as [l|] eqn:Hreg; simpl; [|eauto].
    destruct (sv_registry _ S _ _ Hreg) as (b & Hb & _).
    destruct (copyBundle_record _ _ _ Hb) as (cells & -> & _). simpl. eauto.
  - rewrite Hexp. eauto.
  - unfold kickStartTasks. apply doTasks_total, serviceable_candidates.
    eapply sv_move; [exact S|apply mv_rearm].
  - destruct Hexp as (p & Hp & Hfit). unfold resume. rewrite Hp. simpl.
    destruct (sv_pending _ S _ Hp) as [HT Hph].
    destruct (callback_total _ _ r d HT Hph Hfit) as [[d1 out] Hcb].
    assert (Ha : answer r d
                 = match out with
                   | Suspended ph =>
                       Some (set_pending (Some (mkPending (p_task p) (p_i p) ph)) d1, false)
                   | Completed => Some (set_pending None d1, true)
                   end).
    { unfold answer. rewrite Hp. simpl. rewrite Hcb. reflexivity. }
    rewrite Ha. destruct out as [|ph]; [|eauto].
    apply drain_total, serviceable_candidates.
    eapply sv_move; [exact S|eapply mv_answer_done; eauto].
Qed.



(** X6: the queue of the scheduler.  In every reachable state no task is
    queued twice; the index that the completion callback of the running
    task holds is the place of that task in the queue, so that its
    [splice(i, 1)] takes out that task and no other; the running task is
    not marked failed; and a queued task that is marked failed is canceled
    or waits for the retry timer: a task that failed for good has left the
    queue. *)
Theorem scheduler_queue_invariant (d : DAM) :
  reachable d →
  NoDup (tasks d)
  ∧ (∀ p, pending d = Some p →
          tasks d !! p_i p = Some (p_task p)
          ∧ (p_task p ∉ delete (p_i p) (tasks d))
          ∧ isFailed d (p_task p) = false)
  ∧ (∀ t T, t ∈ tasks d → tstore d !! t = Some T → failed T = true →
            canceled T = true ∨ retry T = true).
Proof.
  intros Hr. destruct (reachable_sched _ Hr) as [I1 I2 I3 I4 I5].
  split; [exact I2|]. split; [|exact I4].
  intros p Hp. split; [apply I3, Hp|]. split.
  - apply NoDup_delete_notin; [exact I2|apply I3, Hp].
  - unfold isFailed. destruct (tstore d !! p_task p) as [T|] eqn:HT; [|reflexivity].
    eapply I5; eauto.
Qed.

Lemma scheduler_queue_invariant_witness :
  NoDup (tasks ex_mid)
  ∧ (∀ p, pending ex_mid = Some p →
          tasks ex_mid !! p_i p = Some (p_task p)
          ∧ (p_task p ∉ delete (p_i p) (tasks ex_mid))
          ∧ isFailed ex_mid (p_task p) = false)
  ∧ (∀ t T, t ∈ tasks ex_mid → tstore ex_mid !! t = Some T → failed T = true →
            canceled T = true ∨ retry T = true).
Proof. apply (scheduler_queue_invariant ex_mid). exact ex_mid_reachable. Defined.

(** * [localStorage] mirrors the registry *)

Lemma abort_storage t d : storage (abort t d) = storage d.
Proof. unfold abort. destruct (tstore d !! t); reflexivity. Qed.

Lemma cancelTask_storage bname ty d : storage (_cancelTask bname ty d) = storage d.
Proof.
  rewrite cancelTask_fold.
  apply (cancelFold_ind (fun d' => storage d' = storage d)); [|reflexivity].
  intros t d' H. rewrite abort_storage. exact H.
Qed.

Lemma rearmAll_storage d : storage (rearmAll d) = storage d.
Proof.
  unfold rearmAll. change (fold_left _ (tasks d) d) with (rearmFold (tasks d) d).
  apply (rearmFold_ind (fun d' => storage d' = storage d)); [|reflexivity].
  intros t d' H. exact H.
Qed.

Lemma onComplete_storage t i d : storage (onComplete t i d) = storage d.
Proof.
  unfold onComplete. destruct (tstore d !! t) as [T|]; [|reflexivity].
  destruct (canceled T), (failed T), (retry T); reflexivity.
Qed.

Lemma markBusy_storage d : storage (markBusy d) = storage d.
Proof. unfold markBusy. destruct (doingTasks d); reflexivity. Qed.

Lemma markIdle_storage d : storage (markIdle d) = storage d.
Proof. unfold markIdle. destruct (doingTasks d); reflexivity. Qed.

Lemma wt_same d d' :
  write_through d → heap d' = heap d → bundles d' = bundles d → storage d' = storage d →
  write_through d'.
Proof. unfold write_through. intros H -> -> ->. exact H. Qed.

Lemma wt_mirrored d : mirrored d → write_through d.
Proof. unfold mirrored, write_through. intros ->. reflexivity. Qed.

(** New cells do not change what is read of the registry. *)
Lemma wt_app d cells :
  registry_ok (fun _ => True) d → write_through d →
  write_through (set_heap (heap d ++ cells) d).
Proof.
  unfold write_through. simpl. intros R H. destruct (storage d) as [m|]; [|exact H].
  rewrite H. apply map_eq. intros n. rewrite !lookup_omap.
  destruct (bundles d !! n) as [l|] eqn:Hn; [|reflexivity]. simpl.
  destruct (R _ _ Hn) as (b & Hb & _). rewrite Hb. symmetry. apply readBundle_app, Hb.
Qed.

Lemma wt_body_out t d d1 out :
  write_through d → bundles d1 = bundles d → body_out t d d1 out → write_through d1.
Proof.
  intros H Hb Ho. destruct out as [|ph]; simpl in Ho.
  - destruct Ho as [[E1 E2]|[Hm _]]; [apply (wt_same d); auto|apply wt_mirrored, Hm].
  - destruct Ho as (E1 & E2 & _). apply (wt_same d); auto.
Qed.

Lemma wt_move d d' : serviceable d → write_through d → move d d' → write_through d'.
Proof.
  intros S W Hm.
  destruct Hm as [d objs|d bname l h copy Hreg Hc|d v bname h copy Hm Hn Hreg Hp Hc Hl
                 |d v bname h copy Hm Hn Hreg Hp Hc Hl|d bname l Hreg Hl|d bname l Hreg Hl
                 |d|d Hp|d Hp|d Hp Hsel|d t i d' Hp Hd Hsel Hcan Hst
                 |d t i d' Hp Hd Hsel Hcan Hst|d r d' Ha|d r p d' Hp Ha|d Het].
  - apply wt_app; [apply (sv_registry _ S)|exact W].
  - apply heap_le_copyBundle in Hc as [cells ->].
    apply wt_app; [apply (sv_registry _ S)|exact W].
  - destruct (cancelTask_fields bname TASK_TYPE_REMOVE
                (register bname copy (setProp h copy "loaded" (JBool false)) d))
      as (_ & _ & _ & Hh & Hb & _).
    eapply wt_same; [apply wt_mirrored|exact Hh|exact Hb|apply cancelTask_storage].
    reflexivity.
  - destruct (cancelTask_fields bname TASK_TYPE_REMOVE
                (register bname copy (setProp h copy "loaded" (JBool false)) d))
      as (_ & _ & _ & Hh & Hb & _).
    eapply wt_same; [apply wt_mirrored| | |].
    + instantiate (1 := register bname copy (setProp h copy "loaded" (JBool false)) d).
      reflexivity.
    + simpl. exact Hh.
    + simpl. exact Hb.
    + simpl. apply cancelTask_storage.
  - destruct (cancelTask_fields bname TASK_TYPE_LOAD (unregister bname d))
      as (_ & _ & _ & Hh & Hb & _).
    eapply wt_same; [apply wt_mirrored|exact Hh|exact Hb|apply cancelTask_storage].
    reflexivity.
  - destruct (cancelTask_fields bname TASK_TYPE_LOAD (unregister bname d))
      as (_ & _ & _ & Hh & Hb & _).
    eapply wt_same; [apply wt_mirrored| | |].
    + instantiate (1 := unregister bname d). reflexivity.
    + simpl. exact Hh.
    + simpl. exact Hb.
    + simpl. apply cancelTask_storage.
  - destruct (rearmAll_fields d) as (_ & _ & _ & _ & Hh & Hb & _).
    apply (wt_same d); auto using rearmAll_storage.
  - apply (wt_same d); auto.
  - destruct (markBusy_fields d) as (_ & _ & _ & Hh & Hb).
    apply (wt_same d); auto using markBusy_storage.
  - destruct (markIdle_fields d) as (_ & _ & _ & Hh & Hb).
    apply (wt_same d); auto using markIdle_storage.
  - pose proof Hst as Hsum.
    apply start_summary in Hsum as (T & g & evs & _ & _ & _ & Hb & _).
    apply start_inv in Hst as (d1 & out & Hdo & [(_ & Hc & _)|(ph & -> & _ & ->)]);
      [discriminate|].
    apply doIt_out in Hdo. apply (wt_same d1); auto.
    eapply wt_body_out; eauto.
  - pose proof Hst as Hsum.
    apply start_summary in Hsum as (T & g & evs & _ & _ & _ & Hb & _).
    apply start_inv in Hst as (d1 & out & Hdo & [(-> & _ & ->)|(ph & _ & Hc & _)]);
      [|discriminate].
    apply doIt_out in Hdo.
    destruct (onComplete_fields t i d1) as (_ & _ & _ & Oh & Ob & _).
    apply (wt_same d1); auto using onComplete_storage.
    eapply wt_body_out; eauto.
  - pose proof Ha as Hsum.
    apply answer_summary in Hsum as (p & g & evs & Hp & _ & _ & Hb & _).
    apply answer_inv in Ha as (p' & d1 & out & Hp' & Hcb & [(_ & Hc & _)|(ph & -> & _ & ->)]);
      [discriminate|].
    apply callback_out in Hcb. apply (wt_same d1); auto.
    eapply wt_body_out; eauto.
  - pose proof Ha as Hsum.
    apply answer_summary in Hsum as (p0 & g & evs & Hp0 & _ & _ & Hb & _).
    apply answer_inv in Ha as (p' & d1 & out & Hp' & Hcb & [(-> & _ & ->)|(ph & _ & Hc & _)]);
      [|discriminate].
    apply callback_out in Hcb.
    destruct (onComplete_fields (p_task p) (p_i p) (set_pending None d1))
      as (_ & _ & _ & Oh & Ob & _).
    apply (wt_same (set_pending None d1)); auto using onComplete_storage.
    apply (wt_same d1); auto. eapply wt_body_out; eauto.
  - apply (wt_same d); auto.
Qed.

Lemma reachable_write_through d : reachable d → serviceable d ∧ write_through d.
Proof.
  apply (reachable_moves (fun d => serviceable d ∧ write_through d)).
  - split; [exact sv_new|reflexivity].
  - intros d0 d1 [S W] Hm. split; [eapply sv_move; eauto|eapply wt_move; eauto].
Qed.



(** * The way of an event: sent, queued, handed over *)

Lemma timer_kept_refl d : timer_kept d d.
Proof. left. auto. Qed.

Lemma timer_kept_trans d1 d2 d3 : timer_kept d1 d2 → timer_kept d2 d3 → timer_kept d1 d3.
Proof.
  intros [[E1 E2]|E] [[F1 F2]|F]; unfold timer_kept; try (right; congruence).
  left. split; congruence.
Qed.

Lemma timer_kept_same d d' :
  eventQueue d' = eventQueue d → eventTimer d' = eventTimer d → timer_kept d d'.
Proof. left. auto. Qed.

Lemma timer_kept_send tag e d : timer_kept d (_sendEvent tag e d).
Proof. right. reflexivity. Qed.

Lemma timer_kept_addLocalURL f u d : timer_kept d (_addLocalURL f u d).
Proof.
  unfold _addLocalURL. destruct (localURLs d !! f); [apply timer_kept_refl|].
  destruct (String.eqb f "__proto__"); apply timer_kept_same; reflexivity.
Qed.

Lemma timer_kept_removeLocalURL f d : timer_kept d (_removeLocalURL f d).
Proof.
  unfold _removeLocalURL. destruct (localURLs d !! f); apply timer_kept_same; reflexivity.
Qed.

Lemma error_timer t l msg rt d0 d d' out :
  timer_kept d0 d → error_ t l msg rt d = Some (d', out) → timer_kept d0 d'.
Proof.
  unfold error_. intros K H.
  destruct (tstore d !! t) as [T|]; simpl in H; [|discriminate].
  destruct (negb rt && negb (canceled T)).
  - destruct (readBundle _ l) as [b|]; simpl in H; [|discriminate].
    injection H as <- <-. right. reflexivity.
  - injection H as <- <-. eapply timer_kept_trans; [exact K|]. apply timer_kept_same; reflexivity.
Qed.

Lemma download_loop_timer t l ts td i d0 d d' out :
  timer_kept d0 d → download_loop t l ts td i d = Some (d', out) → timer_kept d0 d'.
Proof.
  unfold download_loop. intros K H.
  destruct (tstore d !! t) as [T|]; simpl in H; [|discriminate].
  destruct (canceled T); [eapply error_timer; eauto|].
  destruct (readBundle (heap d) l) as [b|]; simpl in H; [|discriminate].
  destruct (i =? length (files b))%nat.
  - injection H as <- <-. right. reflexivity.
  - destruct (files b !! i); simpl in H; [|discriminate]. injection H as <- <-. exact K.
Qed.

Lemma fileDone_timer t fr d0 d d' out :
  timer_kept d0 d → fileDone t fr d = Some (d', out) → timer_kept d0 d'.
Proof.
  unfold fileDone. intros K H.
  destruct (tstore d !! t) as [T|]; simpl in H; [|discriminate].
  destruct (negb (canceled T)).
  - destruct (readBundle (heap d) (lf_bundle fr)) as [b|]; simpl in H; [|discriminate].
    eapply download_loop_timer; [|exact H]. right. reflexivity.
  - eapply download_loop_timer; eauto.
Qed.

Lemma callback_timer t ph r d d' out :
  callback t ph r d = Some (d', out) → timer_kept d d'.
Proof.
  unfold callback. intros H.
  destruct ph as [fr|fr|fr|l k f lf|l k], r as [url| |c| |lc el et|url|err];
    try discriminate H.
  - eapply fileDone_timer; [apply timer_kept_refl|exact H].
  - injection H as <- <-. apply timer_kept_refl.
  - injection H as <- <-. apply timer_kept_same; reflexivity.
  - eapply error_timer; [apply timer_kept_refl|exact H].
  - unfold onprogress in H.
    destruct (tstore d !! t) as [T|]; simpl in H; [|discriminate].
    destruct (lc && negb (canceled T)).
    + destruct (readBundle (heap d) (lf_bundle fr)) as [b|]; simpl in H; [|discriminate].
      injection H as <- <-. right. reflexivity.
    + injection H as <- <-. apply timer_kept_refl.
  - unfold _downloadSuccess in H. eapply fileDone_timer; [|exact H].
    eapply timer_kept_trans; [|apply timer_kept_addLocalURL]. apply timer_kept_same; reflexivity.
  - unfold _downloadFail in H. destruct (code err =? ABORT_ERR).
    + injection H as <- <-. apply timer_kept_same; reflexivity.
    + eapply error_timer; [|exact H]. apply timer_kept_same; reflexivity.
  - unfold removeFound in H. injection H as <- <-.
    eapply timer_kept_trans; [|apply timer_kept_removeLocalURL].
    apply timer_kept_same; reflexivity.
  - pose proof (remove_loop_fp _ _ _ _ _ _ H) as ->. apply timer_kept_refl.
  - pose proof (remove_loop_fp _ _ _ _ _ _ H) as ->. apply timer_kept_refl.
Qed.

Lemma doIt_timer t d d' out : doIt t d = Some (d', out) → timer_kept d d'.
Proof.
  unfold doIt. intros H.
  destruct (tstore d !! t) as [T|]; simpl in H; [|discriminate].
  destruct (type T).
  - unfold _downloadBundle in H.
    destruct (tstore (noteExec t d) !! t) as [T1|]; simpl in H; [|discriminate].
    destruct (bundles d !! bundleName T1) as [l|]; simpl in H; [|discriminate].
    destruct (readBundle (heap d) l) as [b|]; simpl in H; [|discriminate].
    eapply download_loop_timer; [|exact H]. right. reflexivity.
  - pose proof (removeBundleFiles_fp _ _ _ _ H) as ->. apply timer_kept_same; reflexivity.
Qed.

Lemma start_timer t i d d' c : start t i d = Some (d', c) → timer_kept d d'.
Proof.
  intros H. apply start_inv in H as (d1 & out & Hdo & [(_ & _ & ->)|(ph & _ & _ & ->)]);
    apply doIt_timer in Hdo; [exact Hdo|].
  eapply timer_kept_trans; [exact Hdo|]. apply timer_kept_same; reflexivity.
Qed.

Lemma answer_timer r d d' c : answer r d = Some (d', c) → timer_kept d d'.
Proof.
  intros H. apply answer_inv in H
    as (p & d1 & out & _ & Hcb & [(_ & _ & ->)|(ph & _ & _ & ->)]);
    apply callback_timer in Hcb;
    (eapply timer_kept_trans; [exact Hcb|]); apply timer_kept_same; reflexivity.
Qed.

(** ** The queue of events *)

Lemma sentQ_app tr tr' : sentQ (tr ++ tr') = sentQ tr ++ sentQ tr'.
Proof. apply omap_app. Qed.

Lemma sentQ_map tag evs : sentQ (map (Sent tag) evs) = map (pair tag) evs.
Proof. induction evs as [|e evs IH]; [reflexivity|]. simpl. unfold sentQ in *. simpl. f_equal. exact IH. Qed.

Lemma abort_queue t d :
  eventQueue (abort t d) `sublist_of` eventQueue d ∧ eventTimer (abort t d) = eventTimer d.
Proof.
  unfold abort. destruct (tstore d !! t) as [T|]; [|split; reflexivity].
  split; [|reflexivity]. simpl. apply sublist_filter.
Qed.

Lemma cancelTask_queue bname ty d :
  eventQueue (_cancelTask bname ty d) `sublist_of` eventQueue d
  ∧ eventTimer (_cancelTask bname ty d) = eventTimer d.
Proof.
  rewrite cancelTask_fold.
  apply (cancelFold_ind (fun d' => eventQueue d' `sublist_of` eventQueue d
                                   ∧ eventTimer d' = eventTimer d)); [|split; reflexivity].
  intros t d' [H1 H2]. destruct (abort_queue t d') as [A1 A2].
  split; [etransitivity; eauto|congruence].
Qed.

Lemma rearmAll_queue d :
  eventQueue (rearmAll d) = eventQueue d ∧ eventTimer (rearmAll d) = eventTimer d
  ∧ delivered (rearmAll d) = delivered d.
Proof.
  unfold rearmAll. change (fold_left _ (tasks d) d) with (rearmFold (tasks d) d).
  apply (rearmFold_ind (fun d' => eventQueue d' = eventQueue d ∧ eventTimer d' = eventTimer d
                                  ∧ delivered d' = delivered d)); [|auto].
  intros t d' H. exact H.
Qed.

Lemma queue_inv_same d d' :
  queue_inv d → trace d' = trace d → delivered d' = delivered d →
  eventQueue d' `sublist_of` eventQueue d → eventTimer d' = eventTimer d →
  queue_inv d'.
Proof.
  intros [Q1 Q2] Ht Hd Hq He. split.
  - rewrite Ht, Hd. etransitivity; [|exact Q1]. apply sublist_app; [reflexivity|exact Hq].
  - intros Hne. rewrite He. apply Q2. intros E. rewrite E in Hq.
    apply sublist_nil_r in Hq. contradiction.
Qed.

Lemma queue_inv_sent d d' tr evs tag :
  queue_inv d → timer_kept d d' → delivered d' = delivered d →
  trace d' = trace d ++ tr ++ map (Sent tag) evs → sentQ tr = [] →
  eventQueue d' = eventQueue d ++ map (pair tag) evs →
  queue_inv d'.
Proof.
  intros [Q1 Q2] K Hd Ht Htr Hq. split.
  - rewrite Ht, Hd, Hq, !sentQ_app, Htr, sentQ_map. simpl.
    rewrite app_assoc. apply sublist_app; [exact Q1|reflexivity].
  - intros Hne. destruct K as [[K1 K2]|K]; [|exact K].
    rewrite K2. apply Q2. congruence.
Qed.

Lemma queue_inv_send d e :
  queue_inv d → queue_inv (_sendEvent None e d).
Proof.
  intros Q. apply (queue_inv_sent d _ [] [e] None); auto.
  right. reflexivity.
Qed.

Lemma queue_inv_move d d' : queue_inv d → move d d' → queue_inv d'.
Proof.
  intros Q Hm.
  destruct Hm as [d objs|d bname l h copy Hreg Hc|d v bname h copy Hm Hn Hreg Hp Hc Hl
                 |d v bname h copy Hm Hn Hreg Hp Hc Hl|d bname l Hreg Hl|d bname l Hreg Hl
                 |d|d Hp|d Hp|d Hp Hsel|d t i d' Hp Hd Hsel Hcan Hst
                 |d t i d' Hp Hd Hsel Hcan Hst|d r d' Ha|d r p d' Hp Ha|d Het].
  - apply (queue_inv_same d); auto.
  - apply (queue_inv_same d); auto.
  - destruct (cancelTask_fields bname TASK_TYPE_REMOVE
                (register bname copy (setProp h copy "loaded" (JBool false)) d))
      as (_ & _ & _ & _ & _ & Ht & _ & Hd).
    destruct (cancelTask_queue bname TASK_TYPE_REMOVE
                (register bname copy (setProp h copy "loaded" (JBool false)) d)) as [Hq He].
    apply (queue_inv_same d); auto.
  - destruct (cancelTask_fields bname TASK_TYPE_REMOVE
                (register bname copy (setProp h copy "loaded" (JBool false)) d))
      as (_ & _ & _ & _ & _ & Ht & _ & Hd).
    destruct (cancelTask_queue bname TASK_TYPE_REMOVE
                (register bname copy (setProp h copy "loaded" (JBool false)) d)) as [Hq He].
    apply (queue_inv_same d); auto.
  - destruct (cancelTask_fields bname TASK_TYPE_LOAD (unregister bname d))
      as (_ & _ & _ & _ & _ & Ht & _ & Hd).
    destruct (cancelTask_queue bname TASK_TYPE_LOAD (unregister bname d)) as [Hq He].
    apply (queue_inv_same d); auto.
  - destruct (cancelTask_fields bname TASK_TYPE_LOAD (unregister bname d))
      as (_ & _ & _ & _ & _ & Ht & _ & Hd).
    destruct (cancelTask_queue bname TASK_TYPE_LOAD (unregister bname d)) as [Hq He].
    apply (queue_inv_same d); auto.
  - destruct (rearmAll_fields d) as (_ & _ & _ & _ & _ & _ & Ht & _).
    destruct (rearmAll_queue d) as (Hq & He & Hd).
    apply (queue_inv_same d); auto. rewrite Hq. reflexivity.
  - apply (queue_inv_same d); auto.
  - unfold markBusy. destruct (doingTasks d); [exact Q|].
    apply (queue_inv_send (set_doingTasks true d)). exact Q.
  - unfold markIdle. destruct (doingTasks d); [|exact Q].
    apply (queue_inv_send (set_doingTasks false d)). exact Q.
  - pose proof (start_timer _ _ _ _ _ Hst) as K.
    apply start_summary in Hst
      as (T & g & evs & _ & _ & _ & _ & Hdl & _ & _ & _ & _ & Htr & Hq & _).
    apply (queue_inv_sent d _ [Exec t] evs (Some (t, S (attempts T)))); auto.
  - pose proof (start_timer _ _ _ _ _ Hst) as K.
    apply start_summary in Hst
      as (T & g & evs & _ & _ & _ & _ & Hdl & _ & _ & _ & _ & Htr & Hq & _).
    destruct (onComplete_fields t i d') as (_ & _ & _ & _ & _ & Otr & Oq & Od & _).
    apply (queue_inv_same d').
    + apply (queue_inv_sent d _ [Exec t] evs (Some (t, S (attempts T)))); auto.
    + exact Otr.
    + exact Od.
    + rewrite Oq. reflexivity.
    + unfold onComplete. destruct (tstore d' !! t) as [T'|]; [|reflexivity].
      destruct (canceled T'), (failed T'), (retry T'); reflexivity.
  - pose proof (answer_timer _ _ _ _ Ha) as K.
    apply answer_summary in Ha
      as (p & g & evs & _ & _ & _ & _ & Hdl & _ & _ & _ & Htr & Hq & _).
    apply (queue_inv_sent d _ [] evs (tagOf (p_task p) d)); auto.
  - pose proof (answer_timer _ _ _ _ Ha) as K.
    apply answer_summary in Ha
      as (p0 & g & evs & _ & _ & _ & _ & Hdl & _ & _ & _ & Htr & Hq & _).
    destruct (onComplete_fields (p_task p) (p_i p) d') as (_ & _ & _ & _ & _ & Otr & Oq & Od & _).
    apply (queue_inv_same d').
    + apply (queue_inv_sent d _ [] evs (tagOf (p_task p0) d)); auto.
    + exact Otr.
    + exact Od.
    + rewrite Oq. reflexivity.
    + unfold onComplete. destruct (tstore d' !! p_task p) as [T'|]; [|reflexivity].
      destruct (canceled T'), (failed T'), (retry T'); reflexivity.
  - destruct Q as [Q1 Q2]. split; simpl.
    + rewrite app_nil_r. exact Q1.
    + intros Hne. contradiction.
Qed.

Lemma reachable_queue_inv d : reachable d → queue_inv d.
Proof.
  apply reachable_moves; [|exact queue_inv_move].
  split; simpl; [reflexivity|intros H; contradiction].
Qed.

(** ** Nothing but the timer hands events over *)

Lemma markBusy_delivered d : delivered (markBusy d) = delivered d.
Proof. unfold markBusy. destruct (doingTasks d); reflexivity. Qed.

Lemma markIdle_delivered d : delivered (markIdle d) = delivered d.
Proof. unfold markIdle. destruct (doingTasks d); reflexivity. Qed.

Lemma loop_delivered fuel : ∀ d d', loop fuel d = Some d' → delivered d' = delivered d.
Proof.
  induction fuel as [|fuel IH]; intros d d' H; [discriminate|]. simpl in H.
  destruct (select (strip d)) as [[i t]|].
  - destruct (start t i (markBusy (strip d))) as [[d2 c]|] eqn:Hst; [|discriminate].
    apply start_summary in Hst as (T & g & evs & _ & _ & _ & _ & Hd & _).
    rewrite markBusy_delivered in Hd. simpl in Hd.
    destruct c.
    + apply IH in H. destruct (onComplete_fields t i d2) as (_ & _ & _ & _ & _ & _ & _ & Od & _).
      congruence.
    + injection H as <-. exact Hd.
  - injection H as <-. exact (markIdle_delivered (strip d)).
Qed.

Lemma doTasks_delivered d d' : _doTasks d = Some d' → delivered d' = delivered d.
Proof.
  unfold _doTasks, drain. destruct (doingTasks d); [congruence|apply loop_delivered].
Qed.

Lemma maybeAddTask_delivered bname ty ex d d' :
  _maybeAddTask bname ty ex d = Some d' → delivered d' = delivered d.
Proof.
  unfold _maybeAddTask. destruct (liveTask bname ty d); [congruence|].
  intros H. apply doTasks_delivered in H. exact H.
Qed.

Lemma step_delivered i d d' :
  step i d = Some d' → i ≠ EventTimer → delivered d' = delivered d.
Proof.
  destruct i as [objs v|bname|bname| | |r]; simpl; intros H Hne; try contradiction.
  - destruct (addBundle v (set_heap (heap d ++ objs) d)) as [[r d1]|] eqn:Ha; [|discriminate].
    injection H as <-. unfold addBundle in Ha.
    destruct (_malformedBundle _ v) as [[|]|e]; try (injection Ha as <- <-; reflexivity).
    destruct (getProp _ v "name") as [nm|]; simpl in Ha; [|discriminate].
    destruct (asStr nm) as [bname|]; simpl in Ha; [|discriminate].
    destruct (bundles d !! bname); [injection Ha as <- <-; reflexivity|].
    destruct (String.eqb bname "__proto__"); [discriminate|].
    destruct (_copyBundle _ v) as [[h copy]|]; simpl in Ha; [|discriminate].
    destruct (_maybeAddTask bname TASK_TYPE_LOAD None _) as [d3|] eqn:Hadd; simpl in Ha;
      [|discriminate].
    injection Ha as <- <-. apply maybeAddTask_delivered in Hadd. rewrite Hadd.
    match goal with |- delivered (_cancelTask ?b ?ty ?X) = _ =>
      destruct (cancelTask_fields b ty X) as (_ & _ & _ & _ & _ & _ & _ & ->) end.
    reflexivity.
  - unfold removeBundle in H. destruct (bundles d !! bname); [|congruence].
    cbv zeta in H. apply maybeAddTask_delivered in H. rewrite H.
    destruct (cancelTask_fields bname TASK_TYPE_LOAD (unregister bname d))
      as (_ & _ & _ & _ & _ & _ & _ & ->).
    reflexivity.
  - unfold getBundle in H. destruct (bundles d !! bname); [|injection H as <-; reflexivity].
    destruct (_copyBundle _ _) as [[h copy]|]; simpl in H; [|discriminate].
    injection H as <-. reflexivity.
  - unfold kickStartTasks in H. apply doTasks_delivered in H. rewrite H.
    apply rearmAll_queue.
  - unfold resume in H. destruct (pending d) as [p|]; simpl in H; [|discriminate].
    destruct (answer r d) as [[d1 c]|] eqn:Ha; [|discriminate].
    apply answer_summary in Ha as (p0 & g & evs & _ & _ & _ & _ & Hd & _).
    destruct c.
    + apply loop_delivered in H.
      destruct (onComplete_fields (p_task p) (p_i p) d1) as (_ & _ & _ & _ & _ & _ & _ & Od & _).
      congruence.
    + injection H as <-. exact Hd.
Qed.



(** * The frame of the running Load task *)

Lemma doneUpTo_S b k : doneUpTo b (S k) = js_add (doneUpTo b k) (weight b k).
Proof. unfold doneUpTo. rewrite seq_S, map_app, fold_left_app. reflexivity. Qed.

Lemma weight_le b b' k : fileSizes b' = fileSizes b → weight b' k = weight b k.
Proof. unfold weight. intros ->. reflexivity. Qed.

Lemma doneUpTo_le b b' k : fileSizes b' = fileSizes b → doneUpTo b' k = doneUpTo b k.
Proof.
  intros E. unfold doneUpTo. f_equal. apply map_ext. intros i. apply weight_le, E.
Qed.

Lemma totalSizeOf_le b b' :
  fileSizes b' = fileSizes b → files b' = files b → totalSizeOf b' = totalSizeOf b.
Proof. unfold totalSizeOf. intros -> ->. reflexivity. Qed.

(** The frame of the next request, from the frame of this one. *)
Lemma fileDone_frame t fr d d' ph :
  fileDone t fr d = Some (d', Suspended ph) →
  ∃ T b f, tstore d !! t = Some T ∧ canceled T = false
           ∧ readBundle (heap d) (lf_bundle fr) = Some b
           ∧ files b !! S (lf_index fr) = Some f
           ∧ ph = LoadProbe (mkLoadFrame (lf_bundle fr) (lf_totalSize fr)
                               (js_add (lf_totalDoneSize fr) (weight b (lf_index fr)))
                               (S (lf_index fr)) f (_localFileName f) 0).
Proof.
  unfold fileDone. intros H.
  destruct (tstore d !! t) as [T|] eqn:HT; simpl in H; [|discriminate].
  destruct (canceled T) eqn:Hc; simpl in H.
  - unfold download_loop in H. rewrite HT in H. simpl in H. rewrite Hc in H.
    apply error_fp in H as [_ H]. discriminate.
  - destruct (readBundle (heap d) (lf_bundle fr)) as [b|] eqn:Hb; simpl in H; [|discriminate].
    apply download_loop_susp in H as (_ & b' & f & Hb' & Hf & ->). simpl in Hb'.
    assert (b' = b) as -> by congruence. exists T, b, f. auto.
Qed.

Lemma callback_frame t ph r d d' ph' fr' :
  callback t ph r d = Some (d', Suspended ph') → loadFrame ph' = Some fr' →
  ∃ fr, loadFrame ph = Some fr
        ∧ lf_bundle fr' = lf_bundle fr ∧ lf_totalSize fr' = lf_totalSize fr
        ∧ (lf_index fr' = lf_index fr ∧ lf_totalDoneSize fr' = lf_totalDoneSize fr
           ∧ lf_remoteFile fr' = lf_remoteFile fr ∧ lf_localName fr' = lf_localName fr
           ∨ ∃ b, readBundle (heap d) (lf_bundle fr) = Some b
                  ∧ lf_index fr' = S (lf_index fr)
                  ∧ lf_totalDoneSize fr'
                    = js_add (lf_totalDoneSize fr) (weight b (lf_index fr))
                  ∧ files b !! S (lf_index fr) = Some (lf_remoteFile fr')
                  ∧ lf_localName fr' = _localFileName (lf_remoteFile fr')).
Proof.
  unfold callback. intros H Hfr.
  destruct ph as [fr|fr|fr|l k f lf|l k], r as [url| |c| |lc el et|url|err];
    try discriminate H.
  - apply fileDone_frame in H as (T & b & f & _ & _ & Hb & Hf & ->).
    injection Hfr as <-. exists fr. simpl. split; [reflexivity|]. split; [reflexivity|].
    split; [reflexivity|]. right. exists b. auto.
  - injection H as <- <-. injection Hfr as <-. exists fr. auto 10.
  - injection H as <- <-. injection Hfr as <-. exists fr. auto 10.
  - apply error_fp in H as [_ H]. discriminate.
  - unfold onprogress in H.
    destruct (tstore d !! t) as [T|]; simpl in H; [|discriminate].
    destruct (lc && negb (canceled T)).
    + destruct (readBundle (heap d) (lf_bundle fr)) as [b|]; simpl in H; [|discriminate].
      injection H as <- <-. injection Hfr as <-. exists fr. simpl. auto 10.
    + injection H as <- <-. injection Hfr as <-. exists fr. simpl. auto 10.
  - unfold _downloadSuccess in H.
    apply fileDone_frame in H as (T & b & f & _ & _ & Hb & Hf & ->).
    destruct (addLocalURL_fields (lf_remoteFile fr) url (updTask (set_ft false) t d))
      as (_ & Eh & _).
    rewrite Eh in Hb. simpl in Hb.
    injection Hfr as <-. exists fr. simpl. split; [reflexivity|]. split; [reflexivity|].
    split; [reflexivity|]. right. exists b. auto.
  - apply downloadFail_fp in H as [_ H]. discriminate.
  - unfold removeFound in H. injection H as <- <-. discriminate.
  - apply remove_loop_susp in H as (_ & k' & f' & lf' & ->). discriminate.
  - apply remove_loop_susp in H as (_ & k' & f' & lf' & ->). discriminate.
Qed.

Lemma doIt_frame t d d' ph fr :
  registry_ok (fun _ => True) d →
  doIt t d = Some (d', Suspended ph) → loadFrame ph = Some fr →
  ∃ T b, tstore d !! t = Some T ∧ type T = TASK_TYPE_LOAD
         ∧ bundles d !! bundleName T = Some (lf_bundle fr)
         ∧ readBundle (heap d) (lf_bundle fr) = Some b
         ∧ name b = bundleName T
         ∧ lf_totalSize fr = totalSizeOf b ∧ lf_totalDoneSize fr = Some 0
         ∧ lf_index fr = 0%nat
         ∧ files b !! 0%nat = Some (lf_remoteFile fr)
         ∧ lf_localName fr = _localFileName (lf_remoteFile fr).
Proof.
  intros R H Hfr. unfold doIt in H.
  destruct (tstore d !! t) as [T|] eqn:HT; simpl in H; [|discriminate].
  destruct (type T) eqn:Ety.
  - unfold _downloadBundle in H. simpl in H. rewrite list_lookup_alter_eq, HT in H.
    simpl in H.
    destruct (bundles d !! bundleName T) as [l|] eqn:Hl; simpl in H; [|discriminate].
    destruct (readBundle (heap d) l) as [b|] eqn:Hb; simpl in H; [|discriminate].
    apply download_loop_susp in H as (_ & b' & f & Hb' & Hf & ->). simpl in Hb'.
    assert (b' = b) as -> by congruence.
    injection Hfr as <-. simpl. exists T, b.
    destruct (R _ _ Hl) as (b0 & Hb0 & Hname & _).
    assert (b0 = b) as -> by congruence. auto 10.
  - unfold _removeBundleFiles in H.
    destruct (tstore (noteExec t d) !! t) as [T1|]; simpl in H; [|discriminate].
    destruct (extra T1) as [l|]; simpl in H; [|discriminate].
    apply remove_loop_susp in H as (_ & k' & f' & lf' & ->). discriminate.
Qed.

(** ** The moves keep the frame *)

Lemma frame_keep d d' :
  frame_inv d → pending d' = pending d → heap_le (heap d) (heap d') →
  (∀ n l, bundles d !! n = Some l → bundles d' !! n = Some l) →
  (∀ p T', pending d = Some p → tstore d' !! p_task p = Some T' →
     ∃ T, tstore d !! p_task p = Some T ∧ bundleName T' = bundleName T ∧ type T' = type T
          ∧ (canceled T' = false → canceled T = false)) →
  frame_inv d'.
Proof.
  intros F Hp Hle Hb Hk p fr T' Hpp Hfr HT'. rewrite Hp in Hpp.
  destruct (Hk _ _ Hpp HT') as (T & HT & En & Ety & Hc).
  destruct (F _ _ _ Hpp Hfr HT) as (F0 & F1 & b & Hr & F2 & F3 & F4 & F5 & F6).
  split; [congruence|]. split.
  - intros Hc'. rewrite En. apply Hb, F1, Hc, Hc'.
  - destruct (Hle _ _ Hr) as (b' & Hr' & E1 & E2 & E3).
    exists b'. split; [exact Hr'|]. split; [congruence|].
    split; [rewrite F3; symmetry; apply totalSizeOf_le; assumption|].
    split; [rewrite F4; symmetry; apply doneUpTo_le; assumption|].
    split; [rewrite E2; exact F5|exact F6].
Qed.

Lemma frame_same d d' :
  frame_inv d → pending d' = pending d → heap_le (heap d) (heap d') →
  bundles d' = bundles d → tstore d' = tstore d → frame_inv d'.
Proof.
  intros F Hp Hle Hb Hs. apply (frame_keep d); auto.
  - intros n l. rewrite Hb. auto.
  - intros p T' _ HT'. exists T'. rewrite <- Hs. auto.
Qed.

Lemma frame_none d : pending d = None → frame_inv d.
Proof. intros Hp p fr T Hpp. congruence. Qed.

Lemma frame_cancel bname ty d :
  frame_inv d → frame_inv (_cancelTask bname ty d).
Proof.
  intros F. destruct (cancelTask_fields bname ty d) as (_ & _ & Hp & Hh & Hb & _).
  apply (frame_keep d); auto.
  - rewrite Hh. apply heap_le_refl.
  - intros n l. rewrite Hb. auto.
  - intros p T' _ HT'. apply cancelTask_lookup_inv in HT' as (T & HT & [->| ->]);
      exists T; simpl; auto. split; [exact HT|]. split; [reflexivity|].
    split; [reflexivity|discriminate].
Qed.

Lemma frame_push T0 d :
  (∀ p, pending d = Some p → (p_task p < length (tstore d))%nat) →
  frame_inv d → frame_inv (pushTask T0 d).
Proof.
  intros S F. apply (frame_keep d); simpl; auto using heap_le_refl.
  intros p T' Hp HT'. rewrite lookup_app_l in HT' by (apply S, Hp).
  exists T'. auto.
Qed.

Lemma pending_lt d :
  serviceable d → ∀ p, pending d = Some p → (p_task p < length (tstore d))%nat.
Proof.
  intros S p Hp. destruct (sv_pending _ S _ Hp) as [[T HT] _]. eapply lookup_lt_Some; eauto.
Qed.

(** [removeBundle] cancels the running Load task of the bundle it removes. *)
Lemma frame_remove d bname :
  sched_inv d → serviceable d → frame_inv d →
  frame_inv (_cancelTask bname TASK_TYPE_LOAD (unregister bname d)).
Proof.
  intros I S F p fr T2 Hpp Hfr HT2.
  destruct (cancelTask_fields bname TASK_TYPE_LOAD (unregister bname d))
    as (_ & _ & Hp & Hh & Hb & _).
  rewrite Hp in Hpp. simpl in Hpp.
  destruct (sv_pending _ S _ Hpp) as [[T HT] _].
  rewrite (cancelTask_lookup bname TASK_TYPE_LOAD (unregister bname d) _ T HT) in HT2.
  rewrite bool_decide_eq_true_2 in HT2
    by (simpl; eapply list_elem_of_lookup_2, (si_index _ I), Hpp).
  injection HT2 as <-.
  destruct (F _ _ _ Hpp Hfr HT) as (F0 & F1 & b & Hr & F2 & F3 & F4 & F5 & F6).
  rewrite Hh, Hb. simpl. unfold cancelOne, sameTask. rewrite F0.
  rewrite (bool_decide_eq_true_2 (TASK_TYPE_LOAD = TASK_TYPE_LOAD)) by reflexivity.
  rewrite andb_true_r.
  destruct (bool_decide (bundleName T = bname)) eqn:Eb; simpl.
  - split; [exact F0|]. split; [discriminate|]. exists b. auto 10.
  - apply bool_decide_eq_false in Eb.
    split; [exact F0|]. split; [|exists b; auto 10].
    intros Hc. rewrite lookup_delete_ne by congruence. apply F1, Hc.
Qed.

Lemma frame_move d d' : all_inv d → move d d' → frame_inv d'.
Proof.
  intros (I & S & F) Hm.
  destruct Hm as [d objs|d bname l h copy Hreg Hc|d v bname h copy Hm Hn Hreg Hp Hc Hl
                 |d v bname h copy Hm Hn Hreg Hp Hc Hl|d bname l Hreg Hl|d bname l Hreg Hl
                 |d|d Hp|d Hp|d Hp Hsel|d t i d' Hp Hd Hsel Hcan Hst
                 |d t i d' Hp Hd Hsel Hcan Hst|d r d' Ha|d r p d' Hp Ha|d Het].
  - apply (frame_same d); auto. apply heap_le_app.
  - apply heap_le_copyBundle in Hc as [cells ->]. apply (frame_same d); auto. apply heap_le_app.
  - destruct (sv_register _ _ _ _ _ S Hm Hn Hreg Hc) as (_ & b & _ & _ & _ & Hle).
    apply frame_cancel. apply (frame_keep d); simpl; auto.
    + intros n l Hl'. rewrite lookup_insert_ne; [exact Hl'|congruence].
    + intros p T' _ HT'. exists T'. auto.
  - destruct (sv_register _ _ _ _ _ S Hm Hn Hreg Hc) as (_ & b & _ & _ & _ & Hle).
    apply frame_push.
    + intros p Hpp.
      destruct (cancelTask_fields bname TASK_TYPE_REMOVE
                  (register bname copy (setProp h copy "loaded" (JBool false)) d))
        as (_ & _ & Hpe & _).
      rewrite Hpe in Hpp. rewrite cancelTask_length. simpl in *. eapply pending_lt; eauto.
    + apply frame_cancel. apply (frame_keep d); simpl; auto.
      * intros n l Hl'. rewrite lookup_insert_ne; [exact Hl'|congruence].
      * intros p T' _ HT'. exists T'. auto.
  - apply (frame_remove d bname); assumption.
  - apply frame_push.
    + intros p Hpp.
      destruct (cancelTask_fields bname TASK_TYPE_LOAD (unregister bname d))
        as (_ & _ & Hpe & _).
      rewrite Hpe in Hpp. rewrite cancelTask_length. simpl in *. eapply pending_lt; eauto.
    + apply (frame_remove d bname); assumption.
  - destruct (rearmAll_fields d) as (_ & _ & Hpe & _ & Hh & Hb & _).
    apply (frame_keep d); auto.
    + rewrite Hh. apply heap_le_refl.
    + intros n l. rewrite Hb. auto.
    + intros p T' _ HT'. apply rearmAll_lookup_inv in HT' as (T & HT & [->| ->]);
        exists T; auto. split; [exact HT|]. unfold rearm.
      destruct (negb (canceled T) && failed T && retry T); simpl; auto.
  - apply frame_none. exact Hp.
  - apply frame_none. destruct (markBusy_fields d) as (_ & _ & -> & _). exact Hp.
  - apply frame_none. destruct (markIdle_fields d) as (_ & _ & -> & _). exact Hp.
  - pose proof Hst as Hsum.
    apply start_summary in Hsum
      as (T & g & evs & HT & _ & _ & Hb & _ & Hg & _ & Hs & _).
    apply start_inv in Hst as (d1 & out & Hdo & [(_ & Hc & _)|(ph & -> & _ & ->)]);
      [discriminate|].
    pose proof (doIt_out _ _ _ _ Hdo) as Hout. simpl in Hout. destruct Hout as (Hh & _).
    intros p fr T' Hpp Hfr HT'. simpl in *. injection Hpp as <-. simpl in *.
    destruct (doIt_frame _ _ _ _ _ (sv_registry _ S) Hdo Hfr)
      as (T0 & b & HT0 & Ety & Hl & Hr & Hname & F3 & F4 & F5 & F6 & F7).
    assert (T0 = T) as -> by congruence.
    rewrite Hs, list_lookup_alter_eq, HT in HT'. simpl in HT'. injection HT' as <-.
    destruct (Hg T) as (K1 & K2 & K3 & K4).
    split; [congruence|]. split; [intros _; rewrite K1, Hb; exact Hl|].
    exists b. rewrite Hh, K1, F5, F4. auto 10.
  - apply frame_none. destruct (onComplete_fields t i d') as (_ & -> & _).
    apply start_summary in Hst
      as (T & g & evs & _ & _ & _ & _ & _ & _ & _ & _ & _ & _ & _ & _ & Hpe).
    congruence.
  - pose proof Ha as Hsum.
    apply answer_summary in Hsum
      as (p & g & evs & Hp & _ & _ & Hb & _ & Hg & Hs & _).
    apply answer_inv in Ha as (p' & d1 & out & Hp' & Hcb & [(_ & Hc & _)|(ph & -> & _ & ->)]);
      [discriminate|].
    assert (p' = p) as -> by congruence.
    pose proof (callback_out _ _ _ _ _ _ Hcb) as Hout. simpl in Hout.
    destruct Hout as (Hh & _).
    intros p0 fr' T' Hpp Hfr HT'. simpl in *. injection Hpp as <-. simpl in *.
    destruct (callback_frame _ _ _ _ _ _ _ Hcb Hfr) as (fr & Hfr0 & E1 & E2 & Hcase).
    destruct (sv_pending _ S _ Hp) as [[T HT] _].
    rewrite Hs, list_lookup_alter_eq, HT in HT'. simpl in HT'. injection HT' as <-.
    destruct (Hg T) as (K1 & K2 & K3 & K4 & _).
    destruct (F _ _ _ Hp Hfr0 HT) as (F0 & F1 & b & Hr & F2 & F3 & F4 & F5 & F6).
    split; [congruence|]. split; [rewrite K4, K1, Hb, E1; exact F1|].
    exists b. rewrite Hh, E1, E2, K1. split; [exact Hr|]. split; [exact F2|].
    split; [exact F3|].
    destruct Hcase as [(C1 & C2 & C3 & C4)|(b0 & Hr0 & C1 & C2 & C3 & C4)].
    + rewrite C1, C2, C3, C4. auto.
    + assert (b0 = b) as -> by congruence.
      rewrite C1, C2, F4, doneUpTo_S. auto.
  - apply frame_none. destruct (onComplete_fields (p_task p) (p_i p) d') as (_ & -> & _).
    apply answer_summary in Ha
      as (p0 & g & evs & _ & _ & _ & _ & _ & _ & _ & _ & _ & _ & _ & Hpe).
    exact Hpe.
  - apply (frame_same d); auto. apply heap_le_refl.
Qed.

Lemma reachable_all_inv d : reachable d → all_inv d.
Proof.
  apply reachable_moves.
  - split; [exact sched_new|]. split; [exact sv_new|]. apply frame_none. reflexivity.
  - intros d0 d1 (I & S & F) Hm. split; [eapply sched_move; eauto|].
    split; [eapply sv_move; eauto|]. eapply frame_move; eauto. split; auto.
Qed.

(** * A bundle whose files are in the cache *)

(** A pass of the scheduler does not run a task that is not queued. *)
Lemma eventsOf_cons_exec tag t tr : eventsOf tag (Exec t :: tr) = eventsOf tag tr.
Proof. reflexivity. Qed.

Lemma eventsOf_cons_global tag e tr : eventsOf tag (Sent None e :: tr) = eventsOf tag tr.
Proof. reflexivity. Qed.

Lemma markBusy_eventsOf tag d : eventsOf tag (trace (markBusy d)) = eventsOf tag (trace d).
Proof.
  unfold markBusy. destruct (doingTasks d); [reflexivity|]. simpl. apply eventsOf_global.
Qed.

Lemma markIdle_eventsOf tag d : eventsOf tag (trace (markIdle d)) = eventsOf tag (trace d).
Proof.
  unfold markIdle. destruct (doingTasks d); [|reflexivity]. simpl. apply eventsOf_global.
Qed.

Lemma onComplete_sublist t i d : tasks (onComplete t i d) `sublist_of` tasks d.
Proof.
  unfold onComplete. destruct (tstore d !! t) as [T|]; [|reflexivity].
  destruct (canceled T), (failed T), (retry T); simpl; first [reflexivity|apply sublist_delete].
Qed.

Lemma loop_quiet fuel t : ∀ d d',
  loop fuel d = Some d' → t ∉ tasks d →
  (∀ k, eventsOf (t, k) (trace d') = eventsOf (t, k) (trace d))
  ∧ tasks d' `sublist_of` tasks d.
Proof.
  induction fuel as [|fuel IH]; intros d d' H Hnot; [discriminate|]. simpl in H.
  assert (Hsub : tasks (strip d) `sublist_of` tasks d) by apply sublist_filter.
  destruct (select (strip d)) as [[i t']|] eqn:Hsel.
  - destruct (start t' i (markBusy (strip d))) as [[d2 c]|] eqn:Hst; [|discriminate].
    apply select_Some in Hsel as [Hi _].
    assert (Hne : t' ≠ t).
    { intros ->. apply Hnot. eapply elem_of_sublist; [|exact Hsub].
      eapply list_elem_of_lookup_2, Hi. }
    destruct (markBusy_fields (strip d)) as (Bt & _).
    apply start_summary in Hst
      as (T & g & evs & _ & Ht2 & _ & _ & _ & _ & _ & _ & _ & Htr & _).
    assert (Hev : ∀ k, eventsOf (t, k) (trace d2) = eventsOf (t, k) (trace d)).
    { intros k. rewrite Htr, eventsOf_app, eventsOf_cons_exec, eventsOf_other, app_nil_r
        by congruence.
      apply (markBusy_eventsOf (t, k) (strip d)). }
    assert (Hs2 : tasks d2 `sublist_of` tasks d) by (rewrite Ht2, Bt; exact Hsub).
    destruct c.
    + apply IH in H as [H1 H2].
      * split.
        -- intros k. rewrite H1. destruct (onComplete_fields t' i d2) as (_&_&_&_&_& -> &_).
           apply Hev.
        -- etransitivity; [exact H2|]. etransitivity; [apply onComplete_sublist|exact Hs2].
      * intros Hin. apply Hnot. eapply elem_of_sublist; [exact Hin|].
        etransitivity; [apply onComplete_sublist|exact Hs2].
    + injection H as <-. split; [exact Hev|exact Hs2].
  - injection H as <-. split.
    + intros k. apply (markIdle_eventsOf (t, k) (strip d)).
    + destruct (markIdle_fields (strip d)) as (-> & _). exact Hsub.
Qed.

(** The answer that a file is in the cache, to the probe of a Load task
    that is not canceled. *)
Lemma probe_found_step d p fr T b u :
  pending d = Some p → p_phase p = LoadProbe fr →
  tstore d !! p_task p = Some T → canceled T = false →
  readBundle (heap d) (lf_bundle fr) = Some b →
  (lf_index fr < length (files b))%nat →
  let done' := js_add (lf_totalDoneSize fr) (weight b (lf_index fr)) in
  let tag := Some (p_task p, attempts T) in
  let d1 := _sendEvent tag (BUNDLE_EVENT_PROGRESS (name b) (js_div done' (lf_totalSize fr))) d in
  (S (lf_index fr) = length (files b)
   ∧ step (Answer (FileFound u)) d
     = drain (onComplete (p_task p) (p_i p)
                (set_pending None
                   (_sendEvent tag (BUNDLE_EVENT_LOADED (name b))
                      (persist (set_heap (setProp (heap d) (lf_bundle fr) "loaded"
                                            (JBool true)) d1))))))
  ∨ (∃ f, files b !! S (lf_index fr) = Some f
          ∧ step (Answer (FileFound u)) d
            = Some (set_pending
                      (Some (mkPending (p_task p) (p_i p)
                               (LoadProbe (mkLoadFrame (lf_bundle fr) (lf_totalSize fr) done'
                                             (S (lf_index fr)) f (_localFileName f) 0))))
                      d1)).
Proof.
  intros Hp Hph HT Hc Hb Hi. cbv zeta.
  assert (Htag : tagOf (p_task p) d = Some (p_task p, attempts T))
    by (unfold tagOf; rewrite HT; reflexivity).
  simpl. unfold resume, answer. rewrite Hp. simpl. rewrite Hph. simpl.
  unfold fileDone. rewrite HT. simpl. rewrite Hc. simpl. rewrite Hb. simpl.
  rewrite Htag. unfold download_loop. simpl. rewrite HT. simpl. rewrite Hc, Hb. simpl.
  destruct (length (files b)) as [|m] eqn:Elen; [lia|].
  destruct (Nat.eqb_spec (lf_index fr) m) as [E|Hne].
  - left. split; [congruence|]. unfold tagOf. simpl. rewrite HT. reflexivity.
  - right. destruct (lookup_lt_is_Some_2 (files b) (S (lf_index fr))) as [f Hf]; [lia|].
    exists f. split; [exact Hf|]. rewrite Hf. reflexivity.
Qed.

Lemma loaded_after h hz h' l b :
  readBundle h l = Some b → hz = setProp h l "loaded" (JBool true) → cells_le hz h' →
  getProp h' (JRef l) "loaded" = Some (JBool true).
Proof.
  intros Hb -> [_ Hc]. unfold readBundle in Hb.
  destruct (h !! l) as [[es|ps]|] eqn:Hl; try discriminate. clear Hb.
  assert (Hz : setProp h l "loaded" (JBool true) !! l
               = Some (JObject (<["loaded" := JBool true]> ps))).
  { unfold setProp. rewrite Hl. apply list_lookup_insert_eq. eapply lookup_lt_Some; eauto. }
  unfold getProp. destruct (Hc l) as [E|(ps' & E1 & E2)].
  - rewrite E, Hz, lookup_insert_eq. reflexivity.
  - rewrite E2, lookup_insert_eq. reflexivity.
Qed.

Lemma run_cons i ins d : run (i :: ins) d = step i d ≫= run ins.
Proof. reflexivity. Qed.

Lemma drain_quiet d t d' :
  drain d = Some d' → t ∉ tasks d →
  (∀ k, eventsOf (t, k) (trace d') = eventsOf (t, k) (trace d)) ∧ tasks d' `sublist_of` tasks d.
Proof. unfold drain. apply loop_quiet. Qed.

Lemma drain_cells d d' : drain d = Some d' → cells_le (heap d) (heap d') ∧ bundles d' = bundles d.
Proof. unfold drain. apply loop_cells. Qed.

Lemma drain_urls d d' : drain d = Some d' → pending d = None → localURLs d' = localURLs d.
Proof.
  unfold drain. intros H Hp.
  exact (urls_pieces (fun _ => True) _ _
           (loop_pieces (fun _ => True) (fun _ _ => False) _ _ _ H Hp)).
Qed.

Lemma cached_run us : ∀ d p fr T b,
  reachable d → pending d = Some p → p_phase p = LoadProbe fr →
  tstore d !! p_task p = Some T → canceled T = false →
  readBundle (heap d) (lf_bundle fr) = Some b →
  length us = (length (files b) - lf_index fr)%nat →
  ∃ d', run ((fun u => Answer (FileFound u)) <$> us) d = Some d'
        ∧ bundleLoaded (bundleName T) d' = Some (JBool true)
        ∧ localURLs d' = localURLs d
        ∧ eventsOf (p_task p, attempts T) (trace d')
          = eventsOf (p_task p, attempts T) (trace d)
            ++ cachedProgress b (lf_totalSize fr) (lf_totalDoneSize fr) (lf_index fr) (length us)
            ++ [BUNDLE_EVENT_LOADED (name b)]
        ∧ (p_task p ∉ tasks d').
Proof.
  induction us as [|u us IH]; intros d p fr T b Hr Hp Hph HT Hc Hb Hlen.
  - exfalso. destruct (reachable_all_inv _ Hr) as (_ & _ & F).
    assert (Hfr : loadFrame (p_phase p) = Some fr) by (rewrite Hph; reflexivity).
    destruct (F _ _ _ Hp Hfr HT) as (_ & _ & b0 & Hb0 & _ & _ & _ & Hf & _).
    assert (b0 = b) as -> by congruence.
    apply lookup_lt_Some in Hf. simpl in Hlen. lia.
  - destruct (reachable_all_inv _ Hr) as (I & Sv & F).
    assert (Hfr : loadFrame (p_phase p) = Some fr) by (rewrite Hph; reflexivity).
    destruct (F _ _ _ Hp Hfr HT) as (F0 & F1 & b0 & Hb0 & F2 & F3 & F4 & F5 & F6).
    assert (b0 = b) as -> by congruence. clear Hb0.
    pose proof (lookup_lt_Some _ _ _ F5) as Hi.
    rewrite fmap_cons, run_cons.
    destruct (probe_found_step d p fr T b u Hp Hph HT Hc Hb Hi) as [[E Hstep]|(f & Hf & Hstep)].
    + assert (us = []) as -> by (destruct us; [reflexivity|simpl in Hlen; lia]).
      destruct (step_total d (Answer (FileFound u)) Hr) as [d' Hd'].
      { exists p. rewrite Hph. auto. }
      rewrite Hd'. simpl. exists d'. split; [reflexivity|].
      rewrite Hstep in Hd'.
      match type of Hd' with
      | drain (onComplete _ _ ?X) = _ => remember X as d2 eqn:Ed2
      end.
      assert (Ht : tstore d2 = tstore d) by (subst d2; reflexivity).
      assert (Hk : tasks d2 = tasks d) by (subst d2; reflexivity).
      assert (Hh : heap d2 = setProp (heap d) (lf_bundle fr) "loaded" (JBool true))
        by (subst d2; reflexivity).
      assert (Hb2 : bundles d2 = bundles d) by (subst d2; reflexivity).
      assert (Hu : localURLs d2 = localURLs d) by (subst d2; reflexivity).
      assert (Hpn : pending d2 = None) by (subst d2; reflexivity).
      assert (Htr : trace d2
                    = trace d ++ map (Sent (Some (p_task p, attempts T)))
                                   [BUNDLE_EVENT_PROGRESS (name b)
                                      (js_div (js_add (lf_totalDoneSize fr)
                                                 (weight b (lf_index fr)))
                                         (lf_totalSize fr));
                                    BUNDLE_EVENT_LOADED (name b)]).
      { subst d2. simpl. rewrite <- app_assoc. reflexivity. }
      clear Ed2 Hstep.
      destruct (onComplete_fields (p_task p) (p_i p) d2)
        as (Os & Op & Od & Oh & Ob & Otr & Oq & Odl & Ou).
      assert (Hnot : p_task p ∉ tasks (onComplete (p_task p) (p_i p) d2)).
      { unfold onComplete. rewrite Ht, HT, Hc, (si_running _ I _ _ Hp HT).
        unfold splice. simpl. rewrite Hk.
        apply NoDup_delete_notin; [apply (si_nodup _ I)|apply (si_index _ I), Hp]. }
      destruct (drain_quiet _ (p_task p) _ Hd' Hnot) as [Hev Hsub].
      destruct (drain_cells _ _ Hd') as [Hcells Hbs].
      split; [|split; [|split]].
      * unfold bundleLoaded. rewrite Hbs, Ob, Hb2, (F1 Hc). simpl.
        apply (loaded_after (heap d) (heap (onComplete (p_task p) (p_i p) d2)) (heap d')
                 (lf_bundle fr) b Hb); [rewrite Oh; exact Hh|exact Hcells].
      * rewrite <- Hu, <- Ou. apply (drain_urls _ _ Hd'). rewrite Op. exact Hpn.
      * rewrite Hev, Otr, Htr, eventsOf_app, eventsOf_same. reflexivity.
      * intros Hin. apply Hnot. eapply elem_of_sublist; eauto.
    + rewrite Hstep. simpl.
      set (tag := Some (p_task p, attempts T)) in *.
      set (done' := js_add (lf_totalDoneSize fr) (weight b (lf_index fr))) in *.
      set (ev := BUNDLE_EVENT_PROGRESS (name b) (js_div done' (lf_totalSize fr))) in *.
      set (fr' := mkLoadFrame (lf_bundle fr) (lf_totalSize fr) done' (S (lf_index fr)) f
                    (_localFileName f) 0) in *.
      set (p' := mkPending (p_task p) (p_i p) (LoadProbe fr')) in *.
      set (dn := set_pending (Some p') (_sendEvent tag ev d)) in *.
      assert (Hrn : reachable dn) by (eapply reachable_step; eauto).
      assert (Hlen' : length us = (length (files b) - lf_index fr')%nat)
        by (simpl in Hlen |- *; lia).
      destruct (IH dn p' fr' T b Hrn eq_refl eq_refl HT Hc Hb Hlen')
        as (d' & Hrun & L1 & L2 & L3 & L4).
      exists d'. split; [exact Hrun|]. split; [exact L1|]. split; [exact L2|].
      split; [|exact L4].
      change (p_task p') with (p_task p) in L3.
      change (trace dn) with (trace d ++ [Sent tag ev]) in L3.
      rewrite L3, eventsOf_app.
      change [Sent tag ev] with (map (Sent (Some (p_task p, attempts T))) [ev]).
      rewrite eventsOf_same, <- app_assoc. reflexivity.
Qed.

Lemma doneUpTo_unweighted b k : fileSizes b = None → doneUpTo b k = Some (Z.of_nat k).
Proof.
  intros Hs. induction k as [|k IH]; [reflexivity|].
  rewrite doneUpTo_S, IH. unfold weight. rewrite Hs. simpl. f_equal. lia.
Qed.

Lemma cachedProgress_unweighted b n : ∀ i,
  fileSizes b = None → files b ≠ [] →
  cachedProgress b (totalSizeOf b) (Some (Z.of_nat i)) i n
  = map (fun k => BUNDLE_EVENT_PROGRESS (name b)
                    (Some (inject_Z (Z.of_nat (S k)) / inject_Z (Z.of_nat (length (files b))))%Q))
      (seq i n).
Proof.
  induction n as [|n IH]; intros i Hs Hne; [reflexivity|].
  assert (E : js_add (Some (Z.of_nat i)) (weight b i) = Some (Z.of_nat (S i))).
  { unfold weight. rewrite Hs. simpl. f_equal. lia. }
  cbn [cachedProgress seq map]. cbv zeta. rewrite E, (IH (S i) Hs Hne). f_equal. f_equal.
  unfold totalSizeOf. rewrite Hs. unfold js_div. cbn [mbind option_bind].
  destruct (Z.eqb_spec (Z.of_nat (length (files b))) 0) as [E0|_]; [|reflexivity].
  destruct (files b); [congruence|simpl in E0; lia].
Qed.


Lemma ex_probe_reachable : reachable ex_probe.
Proof.
  apply (run_reachable ex_probe_calls newDAM); [apply reachable_new|vm_compute; reflexivity].
Qed.


(** * Start-up: the check of the cache *)

Lemma set_localURLs_id d : d = set_localURLs (localURLs d) d.
Proof. destruct d. reflexivity. Qed.

Lemma addLocalURL_shape f u d :
  _addLocalURL f u d = set_localURLs (localURLs (_addLocalURL f u d)) d.
Proof.
  unfold _addLocalURL. destruct (localURLs d !! f); [apply set_localURLs_id|].
  destruct (String.eqb f "__proto__"); [apply set_localURLs_id|reflexivity].
Qed.

Lemma addLocalURL_keeps f u d g v :
  localURLs d !! g = Some v → localURLs (_addLocalURL f u d) !! g = Some v.
Proof.
  intros H. unfold _addLocalURL. destruct (localURLs d !! f) eqn:Hf; [exact H|].
  destruct (String.eqb f "__proto__"); [exact H|]. simpl.
  rewrite lookup_insert_ne; [exact H|]. intros ->. congruence.
Qed.

Lemma addLocalURL_origin f u d g v :
  localURLs (_addLocalURL f u d) !! g = Some v →
  localURLs d !! g = Some v ∨ (g = f ∧ v = u).
Proof.
  unfold _addLocalURL. destruct (localURLs d !! f) eqn:Hf; [auto|].
  destruct (String.eqb f "__proto__"); [auto|]. simpl.
  destruct (decide (g = f)) as [->|Hne].
  - rewrite lookup_insert_eq. intros [= <-]. auto.
  - rewrite lookup_insert_ne by congruence. auto.
Qed.

Lemma addLocalURL_enters f u d :
  f ≠ "__proto__" → is_Some (localURLs (_addLocalURL f u d) !! f).
Proof.
  intros Hf. unfold _addLocalURL. destruct (localURLs d !! f) eqn:E; [rewrite E; eauto|].
  destruct (String.eqb_spec f "__proto__") as [->|_]; [contradiction|]. simpl.
  rewrite lookup_insert_eq. eauto.
Qed.

Lemma checkStatus_loop_spec cache fs : ∀ d st d',
  checkStatus_loop cache fs d = (st, d') →
  st_success st = true
  ∧ st_loaded st = cachedAll cache fs
  ∧ d' = set_localURLs (localURLs d') d
  ∧ (∀ f u, localURLs d !! f = Some u → localURLs d' !! f = Some u)
  ∧ (∀ f u, localURLs d' !! f = Some u →
            localURLs d !! f = Some u ∨ (f ∈ fs ∧ cache (_localFileName f) = Some u))
  ∧ (st_loaded st = true → ∀ f, f ∈ fs → f ≠ "__proto__" → is_Some (localURLs d' !! f)).
Proof.
  induction fs as [|f fs IH]; intros d st d' H; simpl in H.
  - injection H as <- <-. simpl. split; [reflexivity|]. split; [reflexivity|].
    split; [apply set_localURLs_id|]. split; [auto|]. split; [auto|].
    intros _ f Hf. apply elem_of_nil in Hf. contradiction.
  - unfold cachedAll. simpl. destruct (cache (_localFileName f)) as [u|] eqn:Hc.
    + destruct (IH _ _ _ H) as (I1 & I2 & I3 & I4 & I5 & I6).
      split; [exact I1|]. split.
      { rewrite I2. unfold cachedAll. rewrite bool_decide_eq_true_2 by eauto. reflexivity. }
      split.
      { rewrite I3 at 1. rewrite (addLocalURL_shape f u d). destruct d. reflexivity. }
      split; [intros g v Hg; apply I4, addLocalURL_keeps, Hg|].
      split.
      * intros g v Hg. destruct (I5 _ _ Hg) as [Hg'|[Hin Hcg]].
        -- destruct (addLocalURL_origin _ _ _ _ _ Hg') as [?|[-> ->]]; [auto|].
           right. split; [apply list_elem_of_here|exact Hc].
        -- right. split; [apply list_elem_of_further, Hin|exact Hcg].
      * intros Hl g Hg Hp. apply elem_of_cons in Hg as [->|Hg]; [|apply I6; assumption].
        destruct (addLocalURL_enters f u d Hp) as [v Hv]. exists v. apply I4, Hv.
    + injection H as <- <-. simpl. split; [reflexivity|].
      split; [reflexivity|].
      split; [apply set_localURLs_id|]. split; [auto|]. split; [auto|]. discriminate.
Qed.

Lemma cachedAll_spec cache fs :
  cachedAll cache fs = true ↔ ∀ f, f ∈ fs → is_Some (cache (_localFileName f)).
Proof.
  unfold cachedAll. rewrite forallb_forall. split.
  - intros H f Hf. apply list_elem_of_In in Hf. apply H in Hf.
    apply bool_decide_eq_true in Hf. exact Hf.
  - intros H f Hf. apply list_elem_of_In in Hf. apply bool_decide_eq_true, H, Hf.
Qed.

Lemma cellsOf_cons d n rest l :
  bundles d !! n = Some l → cellsOf d (n :: rest) = l :: cellsOf d rest.
Proof. intros H. unfold cellsOf. simpl. rewrite H. reflexivity. Qed.

Lemma cellsOf_bundles d d' names : bundles d' = bundles d → cellsOf d' names = cellsOf d names.
Proof. intros H. unfold cellsOf. rewrite H. reflexivity. Qed.

Lemma cellsOf_elem d names l : l ∈ cellsOf d names ↔ ∃ n, n ∈ names ∧ bundles d !! n = Some l.
Proof. unfold cellsOf. rewrite list_elem_of_omap. reflexivity. Qed.

Lemma set_loaded_twice v w b : set_loaded v (set_loaded w b) = set_loaded v b.
Proof. reflexivity. Qed.

Lemma checkAll_loop_spec cache names : ∀ aL aS d,
  (∀ n, n ∈ names → ∃ l b, bundles d !! n = Some l ∧ readBundle (heap d) l = Some b) →
  ∃ st d', checkAll_loop cache names aL aS d = Some (st, d')
    ∧ st_success st = aS
    ∧ d' = persist (set_localURLs (localURLs d') (set_heap (heap d') d))
    ∧ (∀ l b, readBundle (heap d) l = Some b →
         readBundle (heap d') l
         = Some (if decide (l ∈ cellsOf d names)
                 then set_loaded (Some (cachedAll cache (files b))) b else b))
    ∧ (∀ f u, localURLs d !! f = Some u → localURLs d' !! f = Some u)
    ∧ (∀ f u, localURLs d' !! f = Some u →
              localURLs d !! f = Some u
              ∨ cache (_localFileName f) = Some u
                ∧ ∃ l b, l ∈ cellsOf d names ∧ readBundle (heap d) l = Some b ∧ f ∈ files b)
    ∧ (∀ l b, l ∈ cellsOf d names → readBundle (heap d) l = Some b →
         cachedAll cache (files b) = true →
         ∀ f, f ∈ files b → f ≠ "__proto__" → is_Some (localURLs d' !! f)).
Proof.
  induction names as [|n rest IH]; intros aL aS d Hreg.
  - exists (mkStatus aS aL), (persist d). split; [reflexivity|]. split; [reflexivity|].
    split; [destruct d; reflexivity|]. split.
    { intros l b Hb. simpl. destruct (decide (l ∈ [])) as [Hin|_]; [|exact Hb].
      apply elem_of_nil in Hin. contradiction. }
    split; [auto|]. split; [auto|].
    intros l b Hin. apply elem_of_nil in Hin. contradiction.
  - destruct (Hreg n (list_elem_of_here _ _)) as (l & b & Hl & Hb).
    rewrite (cellsOf_cons _ _ _ _ Hl).
    cbn [checkAll_loop]. rewrite Hl. cbn [mbind option_bind].
    unfold _checkBundleLoadStatus. rewrite Hb. cbn [mbind option_bind].
    destruct (checkStatus_loop cache (files b) d) as [st1 d1] eqn:Hcs.
    destruct (checkStatus_loop_spec _ _ _ _ _ Hcs) as (S1 & S2 & S3 & S4 & S5 & S6).
    assert (Hh1 : heap d1 = heap d) by (rewrite S3; reflexivity).
    assert (Hb1 : bundles d1 = bundles d) by (rewrite S3; reflexivity).
    rewrite S1, andb_true_r, Hh1.
    set (v := st_loaded st1) in *.
    set (d2 := set_heap (setProp (heap d) l "loaded" (JBool v)) d1).
    assert (Hread : ∀ l' b', readBundle (heap d) l' = Some b' →
                    readBundle (heap d2) l'
                    = Some (if decide (l' = l) then set_loaded (Some v) b' else b')).
    { intros l' b' Hb'. apply readBundle_setProp_loaded, Hb'. }
    assert (Hcells : ∀ ns, cellsOf d2 ns = cellsOf d ns).
    { intros ns. apply cellsOf_bundles. exact Hb1. }
    destruct (IH (aL && v) aS d2) as (st & d' & R0 & R1 & R2 & R3 & R4 & R5 & R6).
    { intros n' Hn'. destruct (Hreg n' (list_elem_of_further _ _ _ Hn')) as (l' & b' & Hl' & Hb').
      exists l'. eexists. split; [simpl; rewrite Hb1; exact Hl'|]. apply Hread, Hb'. }
    exists st, d'. split; [exact R0|]. split; [exact R1|]. split.
    { rewrite R2 at 1. subst d2. rewrite S3. destruct d. reflexivity. }
    split; [|split; [|split]].
    + intros l' b' Hb'. rewrite (R3 _ _ (Hread _ _ Hb')), Hcells.
      destruct (decide (l' = l)) as [->|Hne].
      * assert (b' = b) as -> by congruence.
        rewrite (decide_True (P := l ∈ l :: cellsOf d rest)) by apply list_elem_of_here.
        subst v. rewrite S2.
        destruct (decide (l ∈ cellsOf d rest)); reflexivity.
      * destruct (decide (l' ∈ cellsOf d rest)) as [Hin|Hnin].
        -- rewrite decide_True by (apply list_elem_of_further, Hin). reflexivity.
        -- rewrite decide_False; [reflexivity|].
           intros Hin. apply elem_of_cons in Hin as [?|?]; contradiction.
    + intros f u Hf. apply R4. simpl. apply S4, Hf.
    + intros f u Hf. destruct (R5 _ _ Hf) as [Hf'|(Hc & l' & b' & Hin & Hb' & Hfb)].
      * simpl in Hf'. destruct (S5 _ _ Hf') as [?|[Hin Hc]]; [auto|].
        right. split; [exact Hc|]. exists l, b. split; [apply list_elem_of_here|auto].
      * right. split; [exact Hc|]. rewrite Hcells in Hin.
        apply cellsOf_elem in Hin as (n' & Hn' & Hl').
        destruct (Hreg n' (list_elem_of_further _ _ _ Hn')) as (l0 & b0 & Hl0 & Hb0).
        assert (l0 = l') as -> by congruence.
        exists l', b0. split.
        { apply list_elem_of_further, cellsOf_elem. eauto. }
        split; [exact Hb0|]. rewrite (Hread _ _ Hb0) in Hb'.
        destruct (decide (l' = l)); injection Hb' as <-; exact Hfb.
    + intros l' b' Hin Hb' Hok f Hf Hp. apply elem_of_cons in Hin as [->|Hin].
      * assert (b' = b) as -> by congruence.
        assert (Hv : v = true) by (rewrite S2; exact Hok).
        destruct (S6 Hv f Hf Hp) as [u Hu]. exists u. apply R4. exact Hu.
      * apply (R6 l' (if decide (l' = l) then set_loaded (Some v) b' else b')).
        -- rewrite Hcells. exact Hin.
        -- apply Hread, Hb'.
        -- destruct (decide (l' = l)); exact Hok.
        -- destruct (decide (l' = l)); exact Hf.
        -- exact Hp.
Qed.

Lemma maybeAddTask_first n d l b f fs :
  tasks d = [] → tstore d = [] → doingTasks d = false →
  bundles d !! n = Some l → readBundle (heap d) l = Some b → files b = f :: fs →
  ∃ d', _maybeAddTask n TASK_TYPE_LOAD None d = Some d'
        ∧ heap d' = heap d ∧ bundles d' = bundles d ∧ localURLs d' = localURLs d
        ∧ storage d' = storage d
        ∧ tasks d' = [0%nat]
        ∧ tstore d' = [set_attempts 1 (newTask n TASK_TYPE_LOAD None)]
        ∧ doingTasks d' = true
        ∧ pending d' = Some (mkPending 0 0
                               (LoadProbe (mkLoadFrame l (totalSizeOf b) (Some 0) 0 f
                                             (_localFileName f) 0)))
        ∧ eventQueue d' = eventQueue d ++ [(None, GLOBAL_EVENT_BUSY);
                                           (Some (0%nat, 1%nat), BUNDLE_EVENT_LOADING (name b))]
        ∧ eventTimer d' = true.
Proof.
  intros Ht Hs Hd Hl Hb Hf.
  destruct d as [h bs us ts st dt eq et sg pd dk tr dl]. simpl in *. subst ts st dt.
  unfold _maybeAddTask, liveTask. simpl. unfold _doTasks. simpl.
  unfold drain. simpl. unfold start, doIt. simpl. unfold _downloadBundle. simpl.
  rewrite Hl. simpl. rewrite Hb. simpl. unfold download_loop. simpl. rewrite Hb. simpl.
  rewrite Hf. simpl.
  eexists. split; [reflexivity|]. simpl. repeat split; try reflexivity.
  rewrite <- app_assoc. reflexivity.
Qed.

Lemma boot_liveTask d0 pre d n :
  boot_inv d0 pre d → n ∉ pre → liveTask n TASK_TYPE_LOAD d = false.
Proof.
  intros I Hn. unfold liveTask. apply not_true_is_false. intros H.
  apply existsb_exists in H as (t & _ & H).
  destruct (tstore d !! t) as [T|] eqn:HT; [|discriminate].
  destruct (bi_tstore _ _ _ I _ _ HT) as (_ & _ & _ & Hin & _).
  unfold sameTask in H. apply andb_true_iff in H as [H _].
  apply andb_true_iff in H as [H _]. apply bool_decide_eq_true in H.
  rewrite H in Hin. contradiction.
Qed.

Lemma boot_inv_event d0 pre d n :
  boot_inv d0 pre d → flagOf d0 n ≠ Some false →
  boot_inv d0 (pre ++ [n]) (_sendEvent None (BUNDLE_EVENT_LOADED n) d).
Proof.
  intros [I1 I2 I3 I4 I5 I6 I7 I8 I9 I10 I11 I12] Hflag.
  split; simpl; try assumption.
  - intros t T HT. destruct (I6 _ _ HT) as (? & ? & ? & ? & ?).
    repeat split; try assumption. apply elem_of_app. auto.
  - intros n' Hn' Hf. apply elem_of_app in Hn' as [Hn'|Hn']; [eauto|].
    apply list_elem_of_singleton in Hn' as ->. contradiction.
  - intros n' Hn' Hf. apply elem_of_app in Hn' as [Hn'|Hn'].
    + apply elem_of_app. left. eauto.
    + apply list_elem_of_singleton in Hn' as ->. apply elem_of_app. right.
      apply list_elem_of_here.
  - intros tag n' Hin. apply elem_of_app in Hin as [Hin|Hin].
    + destruct (I11 _ _ Hin) as (? & ? & ?). repeat split; try assumption.
      apply elem_of_app. auto.
    + apply list_elem_of_singleton in Hin. injection Hin as -> ->.
      repeat split; [|exact Hflag]. apply elem_of_app. right. apply list_elem_of_here.
  - reflexivity.
Qed.

Lemma boot_inv_later d0 pre d n :
  boot_inv d0 pre d → flagOf d0 n = Some false → tstore d ≠ [] →
  boot_inv d0 (pre ++ [n]) (pushTask (newTask n TASK_TYPE_LOAD None) d).
Proof.
  intros [I1 I2 I3 I4 I5 I6 I7 I8 I9 I10 I11 I12] Hflag Hne.
  split; simpl; try assumption.
  - rewrite I5, length_app. simpl. rewrite Nat.add_1_r, seq_S. reflexivity.
  - intros t T HT. apply lookup_app_Some in HT as [HT|[_ HT]].
    + destruct (I6 _ _ HT) as (? & ? & ? & ? & ?).
      repeat split; try assumption. apply elem_of_app. auto.
    + apply list_lookup_singleton_Some in HT as [_ <-]. simpl.
      repeat split; [|exact Hflag]. apply elem_of_app. right. apply list_elem_of_here.
  - intros n' Hn' Hf. apply elem_of_app in Hn' as [Hn'|Hn'].
    + destruct (I7 _ Hn' Hf) as (t & T & HT & HB). exists t, T.
      split; [apply lookup_app_l_Some, HT|exact HB].
    + apply list_elem_of_singleton in Hn' as ->.
      exists (length (tstore d)), (newTask n TASK_TYPE_LOAD None).
      split; [|reflexivity]. rewrite lookup_app_r by lia.
      rewrite Nat.sub_diag. reflexivity.
  - rewrite I8. destruct (tstore d); [contradiction|]. reflexivity.
  - rewrite I9. split; intros _; [|exact Hne]. destruct (tstore d); discriminate.
  - intros n' Hn' Hf. apply elem_of_app in Hn' as [Hn'|Hn']; [eauto|].
    apply list_elem_of_singleton in Hn' as ->. contradiction.
  - intros tag n' Hin. destruct (I11 _ _ Hin) as (? & ? & ?). repeat split; try assumption.
    apply elem_of_app. auto.
Qed.

Lemma boot_inv_first d0 pre d d' n b :
  boot_inv d0 pre d → flagOf d0 n = Some false → tstore d = [] →
  heap d' = heap d → bundles d' = bundles d → localURLs d' = localURLs d →
  storage d' = storage d → tasks d' = [0%nat] →
  tstore d' = [set_attempts 1 (newTask n TASK_TYPE_LOAD None)] →
  doingTasks d' = true → is_Some (pending d') →
  eventQueue d' = eventQueue d ++ [(None, GLOBAL_EVENT_BUSY);
                                   (Some (0%nat, 1%nat), BUNDLE_EVENT_LOADING (name b))] →
  eventTimer d' = true →
  boot_inv d0 (pre ++ [n]) d'.
Proof.
  intros [I1 I2 I3 I4 I5 I6 I7 I8 I9 I10 I11 I12] Hflag He H1 H2 H3 H4 H5 H6 H7 H8 H9 H10.
  split; try congruence.
  - rewrite H5, H6. reflexivity.
  - intros t T HT. rewrite H6 in HT. apply list_lookup_singleton_Some in HT as [_ <-]. simpl.
    repeat split; [|exact Hflag]. apply elem_of_app. right. apply list_elem_of_here.
  - intros n' Hn' Hf. apply elem_of_app in Hn' as [Hn'|Hn'].
    + destruct (I7 _ Hn' Hf) as (t & T & HT & _). rewrite He in HT. discriminate.
    + apply list_elem_of_singleton in Hn' as ->. exists 0%nat. eexists. rewrite H6.
      split; reflexivity.
  - rewrite H7, H6. reflexivity.
  - rewrite H6. split; intros _; [discriminate|exact H8].
  - intros n' Hn' Hf. rewrite H9. apply elem_of_app. left.
    apply elem_of_app in Hn' as [Hn'|Hn']; [eauto|].
    apply list_elem_of_singleton in Hn' as ->. contradiction.
  - intros tag n' Hin. rewrite H9 in Hin. apply elem_of_app in Hin as [Hin|Hin].
    + destruct (I11 _ _ Hin) as (? & ? & ?). repeat split; try assumption.
      apply elem_of_app. auto.
    + apply elem_of_cons in Hin as [Hin|Hin]; [discriminate|].
      apply list_elem_of_singleton in Hin. discriminate.
Qed.

Lemma init_loop_spec d0 names : ∀ pre d,
  boot_inv d0 pre d → NoDup (pre ++ names) →
  (∀ n, n ∈ names → ∃ l b, bundles d0 !! n = Some l ∧ readBundle (heap d0) l = Some b
                           ∧ name b = n ∧ (loaded b = Some false → files b ≠ [])) →
  ∃ d', init_loop names d = Some d' ∧ boot_inv d0 (pre ++ names) d'.
Proof.
  induction names as [|n rest IH]; intros pre d I Hnd Hreg.
  - exists d. rewrite app_nil_r. auto.
  - destruct (Hreg n (list_elem_of_here _ _)) as (l & b & Hl & Hb & Hname & Hfiles).
    assert (Hn : n ∉ pre).
    { apply NoDup_app in Hnd as (_ & Hd & _). intros Hin. apply (Hd _ Hin).
      apply list_elem_of_here. }
    assert (Hflag : flagOf d0 n = loaded b).
    { unfold flagOf. rewrite Hl. simpl. rewrite Hb. reflexivity. }
    assert (Hnext : ∀ d1, boot_inv d0 (pre ++ [n]) d1 →
                    ∃ d', init_loop rest d1 = Some d' ∧ boot_inv d0 (pre ++ n :: rest) d').
    { intros d1 I1. rewrite cons_middle, app_assoc. apply IH; [exact I1| |].
      - rewrite <- app_assoc. exact Hnd.
      - intros n' Hn'. apply Hreg, list_elem_of_further, Hn'. }
    cbn [init_loop]. rewrite (bi_bundles _ _ _ I), Hl. cbn [mbind option_bind].
    rewrite (bi_heap _ _ _ I), Hb. cbn [mbind option_bind]. rewrite Hname.
    destruct (loaded b) as [[|]|] eqn:Hld.
    + cbn [mbind option_bind]. apply Hnext, boot_inv_event; [exact I|]. rewrite Hflag. discriminate.
    + unfold _maybeAddTask at 1. rewrite (boot_liveTask _ _ _ _ I Hn).
      destruct (tstore d) as [|T0 ts0] eqn:Hts.
      * destruct (files b) as [|f fs] eqn:Hf; [exfalso; apply Hfiles; reflexivity|].
        destruct (maybeAddTask_first n d l b f fs)
          as (d1 & E & H1 & H2 & H3 & H4 & H5 & H6 & H7 & H8 & H9 & H10); try assumption.
        { rewrite (bi_tasks _ _ _ I), Hts. reflexivity. }
        { rewrite (bi_doing _ _ _ I), Hts. reflexivity. }
        { rewrite (bi_bundles _ _ _ I). exact Hl. }
        { rewrite (bi_heap _ _ _ I). exact Hb. }
        unfold _maybeAddTask in E. rewrite (boot_liveTask _ _ _ _ I Hn) in E.
        rewrite E. cbn [mbind option_bind].
        assert (Hfl : flagOf d0 n = Some false) by (rewrite Hflag; reflexivity).
        assert (Hpe : is_Some (pending d1)) by (rewrite H8; eauto).
        apply Hnext.
        exact (boot_inv_first d0 pre d d1 n b I Hfl Hts H1 H2 H3 H4 H5 H6 H7 Hpe H9 H10).
      * assert (Hd : doingTasks d = true) by (rewrite (bi_doing _ _ _ I), Hts; reflexivity).
        unfold _doTasks. simpl. rewrite Hd. cbn [mbind option_bind].
        apply Hnext. apply boot_inv_later; [exact I|rewrite Hflag; reflexivity|].
        rewrite Hts. discriminate.
    + cbn [mbind option_bind]. apply Hnext, boot_inv_event; [exact I|]. rewrite Hflag. discriminate.
Qed.

Lemma readBundle_loaded h l b v :
  readBundle h l = Some b → loaded b = Some v →
  getProp h (JRef l) "loaded" = Some (JBool v).
Proof.
  unfold readBundle, getProp. intros H Hv.
  destruct (h !! l) as [[es|ps]|]; try discriminate.
  destruct (ps !! "name") as [[| | | |n|]|]; try discriminate.
  destruct (ps !! "files") as [[| | | | |lf]|]; try discriminate.
  destruct (h !! lf) as [[es|ps']|]; try discriminate.
  destruct (mapM asStr es) as [fs|]; [|discriminate]. simpl in H.
  destruct (match ps !! "fileSizes" with
            | None | Some JUndefined => Some None
            | Some (JRef ls) =>
                match h !! ls with
                | Some (JArray ss) => Some (Some ss)
                | _ => None
                end
            | _ => None
            end) as [sz|]; [|discriminate]. simpl in H.
  destruct (ps !! "loaded") as [[| |x| | |]|]; simpl in H; try discriminate.
  - injection H as <-. simpl in Hv. injection Hv as ->. reflexivity.
  - injection H as <-. discriminate.
Qed.



Lemma cachedAll_nil cache : cachedAll cache [] = true.
Proof. reflexivity. Qed.

Lemma boot_inv_start d : 
  tasks d = [] → tstore d = [] → doingTasks d = false → pending d = None →
  eventQueue d = [] → boot_inv d [] d.
Proof.
  intros H1 H2 H3 H4 H5. split; try reflexivity.
  - rewrite H1, H2. reflexivity.
  - intros t T HT. rewrite H2 in HT. discriminate.
  - intros n Hn. apply elem_of_nil in Hn. contradiction.
  - rewrite H3, H2. reflexivity.
  - rewrite H4, H2. split; [intros [? ?]; discriminate|intros H; contradiction].
  - intros n Hn. apply elem_of_nil in Hn. contradiction.
  - intros tag n Hin. rewrite H5 in Hin. apply elem_of_nil in Hin. contradiction.
  - intros H. contradiction.
Qed.


Lemma ex_boot_registry n l :
  ex_boot_bundles !! n = Some l →
  n = "b1" ∧ l = 1%nat ∨ n = "b2" ∧ l = 3%nat.
Proof.
  unfold ex_boot_bundles. intros H.
  apply lookup_insert_Some in H as [[<- <-]|[_ H]]; [auto|].
  apply lookup_singleton_Some in H as [<- <-]. auto.
Qed.

Lemma ex_boot_names n :
  n = "b1" ∨ n = "b2" ↔ is_Some (ex_boot_bundles !! n).
Proof.
  split.
  - intros [->| ->]; eexists; reflexivity.
  - intros [l Hl]. destruct (ex_boot_registry _ _ Hl) as [[? _]|[? _]]; auto.
Qed.


(** * Whose events wait in the queue *)

Lemma keyOnly_id : keyOnly (fun T => T).
Proof. intros T. auto. Qed.

Lemma keyOnly_compose g1 g2 : keyOnly g1 → keyOnly g2 → keyOnly (g2 ∘ g1).
Proof.
  intros H1 H2 T. destruct (H1 T) as (A1 & A2 & A3 & A4).
  destruct (H2 (g1 T)) as (B1 & B2 & B3 & B4). simpl.
  repeat split; congruence.
Qed.

Lemma alter_id_list (ts : list Task) t : alter (fun T => T) t ts = ts.
Proof.
  apply list_eq. intros i. destruct (decide (i = t)) as [->|Hne].
  - rewrite list_lookup_alter_eq. destruct (ts !! t); reflexivity.
  - rewrite list_lookup_alter_ne by congruence. reflexivity.
Qed.

Lemma own_refl t d : own_body t d d.
Proof.
  split; [|auto]. exists (fun T => T). split; [apply keyOnly_id|].
  symmetry. apply alter_id_list.
Qed.

Lemma own_trans t d1 d2 d3 : own_body t d1 d2 → own_body t d2 d3 → own_body t d1 d3.
Proof.
  intros [(g1 & K1 & E1) Q1] [(g2 & K2 & E2) Q2]. split.
  - exists (g2 ∘ g1). split; [apply keyOnly_compose; assumption|].
    rewrite E2, E1. apply list_alter_alter_eq.
  - intros q Hq. destruct (Q2 q Hq) as [Hq2|(k & T & Hk & HT & Hty & Hc & Hn)]; [auto|].
    right. rewrite E1, list_lookup_alter_eq in HT.
    destruct (tstore d1 !! t) as [T1|] eqn:HT1; [|discriminate]. injection HT as <-.
    destruct (K1 T1) as (A1 & A2 & A3 & A4).
    exists k, T1. repeat split; congruence.
Qed.

Lemma own_same t d d' :
  tstore d' = tstore d → eventQueue d' = eventQueue d → own_body t d d'.
Proof.
  intros Ht Hq. split.
  - exists (fun T => T). split; [apply keyOnly_id|]. rewrite Ht. symmetry. apply alter_id_list.
  - intros q H. left. rewrite <- Hq. exact H.
Qed.

Lemma own_upd t g d : keyOnly g → own_body t d (updTask g t d).
Proof. intros K. split; [exists g; auto|auto]. Qed.

Lemma own_send t e d T :
  tstore d !! t = Some T → type T = TASK_TYPE_LOAD → canceled T = false →
  event_name e = Some (bundleName T) →
  own_body t d (_sendEvent (tagOf t d) e d).
Proof.
  intros HT Hty Hc Hn. split.
  - exists (fun T => T). split; [apply keyOnly_id|]. simpl. symmetry. apply alter_id_list.
  - intros q Hq. simpl in Hq. apply elem_of_app in Hq as [Hq|Hq]; [auto|].
    apply list_elem_of_singleton in Hq as ->. right. exists (attempts T), T.
    unfold tagOf. rewrite HT. auto.
Qed.

Lemma own_addLocalURL t f u d : own_body t d (_addLocalURL f u d).
Proof. apply own_same; rewrite (addLocalURL_shape f u d); reflexivity. Qed.

Lemma own_removeLocalURL t f d : own_body t d (_removeLocalURL f d).
Proof.
  unfold _removeLocalURL. destruct (localURLs d !! f); [apply own_same; reflexivity|apply own_refl].
Qed.

Lemma own_cell_same t l d d' :
  tstore d' !! t = tstore d !! t → heap d' = heap d → own_cell t l d → own_cell t l d'.
Proof. intros Ht Hh H T b. rewrite Ht, Hh. apply H. Qed.

Lemma own_cell_upd t l g d : keyOnly g → own_cell t l d → own_cell t l (updTask g t d).
Proof.
  intros K H T' b HT' Hb. simpl in HT'. rewrite list_lookup_alter_eq in HT'.
  destruct (tstore d !! t) as [T|] eqn:HT; [|discriminate]. injection HT' as <-.
  destruct (K T) as (A1 & A2 & _). destruct (H T b HT Hb) as [B1 B2].
  split; congruence.
Qed.

Lemma error_own t l msg rt d0 d d' out :
  own_body t d0 d → own_cell t l d → error_ t l msg rt d = Some (d', out) → own_body t d0 d'.
Proof.
  unfold error_. intros K C H.
  destruct (tstore d !! t) as [T|] eqn:HT; simpl in H; [|discriminate].
  set (g := fun T => set_retry rt (set_error (Some msg) (set_failed true T))) in *.
  assert (Kg : keyOnly g) by (intros T0; simpl; auto).
  pose proof (own_upd t g d Kg) as K1.
  destruct (negb rt && negb (canceled T)) eqn:E.
  - destruct (readBundle _ l) as [b|] eqn:Hb; simpl in H; [|discriminate].
    injection H as <- <-. apply andb_true_iff in E as [_ E]. apply negb_true_iff in E.
    destruct (C T b HT Hb) as [Hty Hn].
    eapply own_trans; [exact K|]. eapply own_trans; [exact K1|].
    apply (own_send t _ _ (g T)).
    + simpl. rewrite list_lookup_alter_eq, HT. reflexivity.
    + exact Hty.
    + exact E.
    + simpl. rewrite Hn. reflexivity.
  - injection H as <- <-. eapply own_trans; eauto.
Qed.

Lemma download_loop_own t l ts td i d0 d d' out :
  own_body t d0 d → own_cell t l d → download_loop t l ts td i d = Some (d', out) →
  own_body t d0 d'.
Proof.
  unfold download_loop. intros K C H.
  destruct (tstore d !! t) as [T|] eqn:HT; simpl in H; [|discriminate].
  destruct (canceled T) eqn:Hc; [eapply error_own; eauto|].
  destruct (readBundle (heap d) l) as [b|] eqn:Hb; simpl in H; [|discriminate].
  destruct (C T b HT Hb) as [Hty Hn].
  destruct (i =? length (files b))%nat.
  - injection H as <- <-. eapply own_trans; [exact K|].
    set (d2 := persist (set_heap (setProp (heap d) l "loaded" (JBool true)) d)).
    apply (own_trans t d d2); [apply own_same; reflexivity|].
    apply (own_send t _ d2 T); simpl; auto. rewrite Hn. reflexivity.
  - destruct (files b !! i); simpl in H; [|discriminate]. injection H as <- <-. exact K.
Qed.

Lemma fileDone_own t fr d0 d d' out :
  own_body t d0 d → own_cell t (lf_bundle fr) d → fileDone t fr d = Some (d', out) →
  own_body t d0 d'.
Proof.
  unfold fileDone. intros K C H.
  destruct (tstore d !! t) as [T|] eqn:HT; simpl in H; [|discriminate].
  destruct (canceled T) eqn:Hc; simpl in H.
  - eapply download_loop_own; eauto.
  - destruct (readBundle (heap d) (lf_bundle fr)) as [b|] eqn:Hb; simpl in H; [|discriminate].
    destruct (C T b HT Hb) as [Hty Hn].
    eapply download_loop_own; [| |exact H].
    + eapply own_trans; [exact K|]. apply (own_send t _ _ T); simpl; auto.
      rewrite Hn. reflexivity.
    + eapply own_cell_same; [| |exact C]; reflexivity.
Qed.

Lemma callback_own t ph r d d' out :
  (∀ fr, loadFrame ph = Some fr → own_cell t (lf_bundle fr) d) →
  callback t ph r d = Some (d', out) → own_body t d d'.
Proof.
  unfold callback. intros C H.
  destruct ph as [fr|fr|fr|l k f lf|l k], r as [url| |c| |lc el et|url|err];
    try discriminate H; try specialize (C fr eq_refl).
  - eapply fileDone_own; [apply own_refl|exact C|exact H].
  - injection H as <- <-. apply own_refl.
  - injection H as <- <-. eapply own_trans; [apply (own_upd t (set_ft true))|].
    + intros T. simpl. auto.
    + apply own_same; reflexivity.
  - eapply error_own; [apply own_refl|exact C|exact H].
  - unfold onprogress in H.
    destruct (tstore d !! t) as [T|] eqn:HT; simpl in H; [|discriminate].
    destruct (lc && negb (canceled T)) eqn:E.
    + destruct (readBundle (heap d) (lf_bundle fr)) as [b|] eqn:Hb; simpl in H; [|discriminate].
      injection H as <- <-. apply andb_true_iff in E as [_ E]. apply negb_true_iff in E.
      destruct (C T b HT Hb) as [Hty Hn].
      apply (own_send t _ _ T); simpl; auto. rewrite Hn. reflexivity.
    + injection H as <- <-. apply own_refl.
  - unfold _downloadSuccess in H.
    assert (Kf : keyOnly (set_ft false)) by (intros T; simpl; auto).
    eapply fileDone_own; [| |exact H].
    + eapply own_trans; [apply (own_upd t (set_ft false) d Kf)|]. apply own_addLocalURL.
    + eapply own_cell_same; [| |apply (own_cell_upd t _ (set_ft false) d Kf C)].
      * destruct (addLocalURL_fields (lf_remoteFile fr) url (updTask (set_ft false) t d))
          as (_ & _ & ->). reflexivity.
      * destruct (addLocalURL_fields (lf_remoteFile fr) url (updTask (set_ft false) t d))
          as (_ & -> & _). reflexivity.
  - unfold _downloadFail in H.
    assert (Kf : keyOnly (set_ft false)) by (intros T; simpl; auto).
    destruct (code err =? ABORT_ERR).
    + injection H as <- <-. eapply own_trans; [apply (own_upd t (set_ft false) d Kf)|].
      apply own_same; reflexivity.
    + eapply error_own; [| |exact H].
      * eapply own_trans; [apply (own_upd t (set_ft false) d Kf)|]. apply own_same; reflexivity.
      * eapply own_cell_same; [| |apply (own_cell_upd t _ (set_ft false) d Kf C)]; reflexivity.
  - unfold removeFound in H. injection H as <- <-.
    eapply own_trans; [|apply own_removeLocalURL]. apply own_same; reflexivity.
  - pose proof (remove_loop_fp _ _ _ _ _ _ H) as ->. apply own_refl.
  - pose proof (remove_loop_fp _ _ _ _ _ _ H) as ->. apply own_refl.
Qed.

Lemma keyOnly_attempts : keyOnly (fun T => set_attempts (S (attempts T)) T).
Proof. intros T. simpl. auto. Qed.

Lemma doIt_own t d d' out :
  registry_ok (fun _ => True) d → isCanceled d t = false →
  doIt t d = Some (d', out) → own_body t d d'.
Proof.
  unfold doIt, isCanceled. intros R Hc H.
  destruct (tstore d !! t) as [T|] eqn:HT; simpl in H; [|discriminate].
  assert (K0 : own_body t d (noteExec t d)).
  { eapply own_trans; [apply (own_upd t _ d keyOnly_attempts)|]. apply own_same; reflexivity. }
  destruct (type T) eqn:Hty.
  - unfold _downloadBundle in H.
    destruct (tstore (noteExec t d) !! t) as [T1|] eqn:HT1; simpl in H; [|discriminate].
    assert (T1 = set_attempts (S (attempts T)) T) as ->.
    { simpl in HT1. rewrite list_lookup_alter_eq, HT in HT1. injection HT1 as <-. reflexivity. }
    simpl in H.
    destruct (bundles d !! bundleName T) as [l|] eqn:Hl; simpl in H; [|discriminate].
    destruct (readBundle (heap d) l) as [b|] eqn:Hb; simpl in H; [|discriminate].
    destruct (R _ _ Hl) as (b0 & Hb0 & Hn & _). assert (b0 = b) as -> by congruence.
    assert (C : own_cell t l (noteExec t d)).
    { intros T' b' HT' Hb'. rewrite HT1 in HT'. injection HT' as <-. simpl in Hb'.
      assert (b' = b) as -> by congruence. simpl. auto. }
    eapply download_loop_own; [| |exact H].
    + eapply own_trans; [exact K0|].
      apply (own_send t _ _ (set_attempts (S (attempts T)) T)); simpl; auto.
      rewrite Hn. reflexivity.
    + eapply own_cell_same; [| |exact C]; reflexivity.
  - pose proof (removeBundleFiles_fp _ _ _ _ H) as ->. exact K0.
Qed.

Lemma start_own t i d d' c :
  registry_ok (fun _ => True) d → isCanceled d t = false →
  start t i d = Some (d', c) → own_body t d d'.
Proof.
  intros R Hc H. apply start_inv in H as (d1 & out & Hdo & [(_ & _ & ->)|(ph & _ & _ & ->)]);
    apply (doIt_own _ _ _ _ R Hc) in Hdo; [exact Hdo|].
  eapply own_trans; [exact Hdo|]. apply own_same; reflexivity.
Qed.

Lemma answer_own r d d' c p :
  frame_inv d → pending d = Some p → answer r d = Some (d', c) → own_body (p_task p) d d'.
Proof.
  intros F Hp H. apply answer_inv in H as (p' & d1 & out & Hp' & Hcb & Hout).
  assert (p' = p) as -> by congruence.
  assert (K : own_body (p_task p) d d1).
  { eapply callback_own; [|exact Hcb]. intros fr Hfr T b HT Hb.
    destruct (F _ _ _ Hp Hfr HT) as (Hty & _ & b0 & Hb0 & Hn & _).
    assert (b0 = b) as -> by congruence. auto. }
  destruct Hout as [(_ & _ & ->)|(ph & _ & _ & ->)];
    (eapply own_trans; [exact K|]); apply own_same; reflexivity.
Qed.

(** ** The invariant *)

Lemma owned_keep d d' :
  (∀ q, q ∈ eventQueue d' → q ∈ eventQueue d ∨ event_name q.2 = None) →
  (∀ t T, tstore d !! t = Some T →
          ∃ T', tstore d' !! t = Some T' ∧ bundleName T' = bundleName T
                ∧ type T' = type T ∧ canceled T' = canceled T) →
  owned d → owned d'.
Proof.
  intros Hq Ht O tag e m Hin Hn.
  destruct (Hq _ Hin) as [Hold|Hnone]; [|simpl in Hnone; congruence].
  destruct (O _ _ _ Hold Hn) as (t & k & T & -> & HT & A1 & A2 & A3).
  destruct (Ht _ _ HT) as (T' & HT' & B1 & B2 & B3).
  exists t, k, T'. repeat split; congruence.
Qed.

Lemma owned_same d d' :
  tstore d' = tstore d → eventQueue d' = eventQueue d → owned d → owned d'.
Proof.
  intros Ht Hq. apply owned_keep.
  - intros q H. left. rewrite <- Hq. exact H.
  - intros t T HT. exists T. rewrite Ht. auto.
Qed.

Lemma owned_body t d d' : owned d → own_body t d d' → owned d'.
Proof.
  intros O [(g & K & E) Q] tag e m Hin Hn.
  destruct (Q _ Hin) as [Hold|(k & T & Hk & HT & Hty & Hc & Hname)].
  - destruct (O _ _ _ Hold Hn) as (t' & k & T & -> & HT & A1 & A2 & A3).
    destruct (decide (t' = t)) as [->|Hne].
    + destruct (K T) as (B1 & B2 & _ & B4).
      exists t, k, (g T). rewrite E, list_lookup_alter_eq, HT. repeat split; congruence.
    + exists t', k, T. rewrite E, list_lookup_alter_ne by congruence. auto.
  - simpl in Hk, Hname. destruct (K T) as (B1 & B2 & _ & B4).
    exists t, k, (g T). rewrite E, list_lookup_alter_eq, HT. repeat split; congruence.
Qed.

Lemma owned_abort t d : owned d → owned (abort t d).
Proof.
  intros O. unfold abort. destruct (tstore d !! t) as [T|] eqn:HT; [|exact O].
  intros tag e m Hin Hn. simpl in Hin. apply list_elem_of_filter in Hin as [Hne Hin].
  simpl in Hne. destruct (O _ _ _ Hin Hn) as (t' & k & T' & -> & HT' & A1 & A2 & A3).
  exists t', k, T'. split; [reflexivity|]. split; [|auto]. simpl.
  rewrite list_lookup_alter_ne; [exact HT'|].
  intros <-. apply Hne. rewrite Hn. congruence.
Qed.

Lemma owned_cancel bname ty d : owned d → owned (_cancelTask bname ty d).
Proof. intros O. rewrite cancelTask_fold. apply cancelFold_ind; [apply owned_abort|exact O]. Qed.

Lemma owned_push T d : owned d → owned (pushTask T d).
Proof.
  apply owned_keep; [auto|]. intros t T0 HT. exists T0.
  split; [simpl; apply lookup_app_l_Some, HT|auto].
Qed.

Lemma keyOnly_rearm : keyOnly rearm.
Proof.
  intros T. unfold rearm. destruct (negb (canceled T) && failed T && retry T); simpl; auto.
Qed.

Lemma owned_rearm d : owned d → owned (rearmAll d).
Proof.
  intros O. unfold rearmAll. change (fold_left _ (tasks d) d) with (rearmFold (tasks d) d).
  apply rearmFold_ind; [|exact O].
  intros t d0 O0. eapply owned_body; [exact O0|]. apply own_upd, keyOnly_rearm.
Qed.

Lemma owned_global e d : event_name e = None → owned d → owned (_sendEvent None e d).
Proof.
  intros He. apply owned_keep.
  - intros q Hq. simpl in Hq. apply elem_of_app in Hq as [Hq|Hq]; [auto|].
    apply list_elem_of_singleton in Hq as ->. auto.
  - intros t T HT. exists T. auto.
Qed.

Lemma owned_move d d' : all_inv d → owned d → move d d' → owned d'.
Proof.
  intros (I & S & F) O Hm.
  destruct Hm as [d objs|d bname l h copy Hreg Hc|d v bname h copy Hm Hn Hreg Hp Hc Hl
                 |d v bname h copy Hm Hn Hreg Hp Hc Hl|d bname l Hreg Hl|d bname l Hreg Hl
                 |d|d Hp|d Hp|d Hp Hsel|d t i d' Hp Hd Hsel Hcan Hst
                 |d t i d' Hp Hd Hsel Hcan Hst|d r d' Ha|d r p d' Hp Ha|d Het].
  - eapply owned_same; [| |exact O]; reflexivity.
  - eapply owned_same; [| |exact O]; reflexivity.
  - apply owned_cancel. eapply owned_same; [| |exact O]; reflexivity.
  - apply owned_push, owned_cancel. eapply owned_same; [| |exact O]; reflexivity.
  - apply owned_cancel. eapply owned_same; [| |exact O]; reflexivity.
  - apply owned_push, owned_cancel. eapply owned_same; [| |exact O]; reflexivity.
  - apply owned_rearm, O.
  - eapply owned_same; [| |exact O]; reflexivity.
  - unfold markBusy. destruct (doingTasks d); [exact O|].
    apply owned_global; [reflexivity|]. eapply owned_same; [| |exact O]; reflexivity.
  - unfold markIdle. destruct (doingTasks d); [|exact O].
    apply owned_global; [reflexivity|]. eapply owned_same; [| |exact O]; reflexivity.
  - eapply owned_body; [exact O|]. eapply start_own; [apply (sv_registry _ S)|exact Hcan|exact Hst].
  - destruct (onComplete_fields t i d') as (Os & _ & _ & _ & _ & _ & Oq & _).
    eapply owned_same; [exact Os|exact Oq|].
    eapply owned_body; [exact O|]. eapply start_own; [apply (sv_registry _ S)|exact Hcan|exact Hst].
  - assert (Hp : ∃ p, pending d = Some p).
    { unfold answer in Ha. destruct (pending d) as [p|]; [eauto|discriminate]. }
    destruct Hp as [p Hp]. eapply owned_body; [exact O|]. eapply answer_own; eauto.
  - destruct (onComplete_fields (p_task p) (p_i p) d') as (Os & _ & _ & _ & _ & _ & Oq & _).
    eapply owned_same; [exact Os|exact Oq|].
    eapply owned_body; [exact O|]. eapply answer_own; eauto.
  - intros tag e m Hin. simpl in Hin. apply elem_of_nil in Hin. contradiction.
Qed.

Lemma reachable_owned d : reachable d → owned d.
Proof.
  intros Hr. revert d Hr.
  assert (G : ∀ d, reachable d → all_inv d ∧ owned d); [|intros d Hr; apply G, Hr].
  apply (reachable_moves (fun d => all_inv d ∧ owned d)).
  - split; [apply reachable_all_inv, reachable_new|].
    intros tag e m Hin. apply elem_of_nil in Hin. contradiction.
  - intros d0 d1 [(I & S & F) O] Hm. split.
    + split; [eapply sched_move; eauto|].
      split; [eapply sv_move; eauto|]. eapply frame_move; eauto. split; auto.
    + eapply owned_move; eauto. split; auto.
Qed.

Lemma removeBundle_cancels d n l d' :
  quiescent d → bundles d !! n = Some l → removeBundle n d = Some d' →
  ∀ t T', t ∈ tasks d → tstore d' !! t = Some T' → bundleName T' = n →
          type T' = TASK_TYPE_LOAD → canceled T' = true.
Proof.
  intros Q Hl H t T' Hin HT' Hn Hty. unfold removeBundle in H. rewrite Hl in H.
  set (d1 := _cancelTask n TASK_TYPE_LOAD (unregister n d)) in *.
  assert (Q1 : quiescent d1) by (apply quiescent_cancelTask, quiescent_unregister, Q).
  destruct (maybeAddTask_ok (fun _ => True) (fun _ _ => True) _ _ _ _ _ H Q1) as [Hp _].
  pose proof (task_mono_pieces _ _ _ _ Hp) as M.
  destruct (lookup_lt_is_Some_2 (tstore d) t) as [T HT]; [apply (q_ids _ Q), Hin|].
  assert (H1 : tstore d1 !! t = Some (cancelOne n TASK_TYPE_LOAD T)).
  { unfold d1. rewrite (cancelTask_lookup _ _ _ _ T) by exact HT.
    rewrite bool_decide_eq_true_2 by exact Hin. reflexivity. }
  destruct (M _ _ H1) as (T'' & HT'' & A1 & A2 & _ & A4 & _).
  assert (T'' = T') as -> by congruence.
  assert (Hs : sameTask n TASK_TYPE_LOAD T = true).
  { unfold cancelOne in A1, A2. unfold sameTask.
    destruct (sameTask n TASK_TYPE_LOAD T) eqn:E; simpl in A1, A2.
    - unfold sameTask in E. exact E.
    - rewrite !bool_decide_eq_true_2 by congruence. reflexivity. }
  apply A4. unfold cancelOne. rewrite Hs. reflexivity.
Qed.


Lemma ex_loaded_reachable : reachable ex_loaded.
Proof.
  apply (run_reachable ex_loaded_calls newDAM); [apply reachable_new|vm_compute; reflexivity].
Qed.


(** * A Remove task, to its end *)

Lemma referenced_same d d' bname g :
  bundles d' = bundles d → heap d' = heap d → referenced d' bname g = referenced d bname g.
Proof. intros Hb Hh. unfold referenced. rewrite Hb, Hh. reflexivity. Qed.

Lemma remove_scan_same d d' bname fs : ∀ k,
  bundles d' = bundles d → heap d' = heap d →
  remove_scan d' bname fs k = remove_scan d bname fs k.
Proof.
  induction fs as [|g fs IH]; intros k Hb Hh; [reflexivity|]. simpl.
  rewrite (referenced_same d d' bname g Hb Hh), (IH (S k) Hb Hh). reflexivity.
Qed.

Lemma remove_answers_same found d d' bname fs : ∀ k,
  bundles d' = bundles d → heap d' = heap d →
  remove_answers found d' bname fs k = remove_answers found d bname fs k.
Proof.
  induction fs as [|g fs IH]; intros k Hb Hh; [reflexivity|]. simpl.
  rewrite (referenced_same d d' bname g Hb Hh), (IH (S k) Hb Hh). reflexivity.
Qed.

(** What the scan of the loop finds: the first file from [k] on that no
    other bundle lists. *)
Lemma remove_scan_spec found d bname fs : ∀ k,
  match remove_scan d bname fs k with
  | None => (∀ g, g ∈ fs → referenced d bname g = true)
            ∧ remove_answers found d bname fs k = []
  | Some (k', g) =>
      ∃ pre post, fs = pre ++ g :: post ∧ k' = (k + length pre)%nat
                  ∧ (∀ x, x ∈ pre → referenced d bname x = true)
                  ∧ referenced d bname g = false
                  ∧ remove_answers found d bname fs k
                    = answers_of (found k') ++ remove_answers found d bname post (S k')
  end.
Proof.
  induction fs as [|g fs IH]; intros k; simpl.
  - split; [|reflexivity]. intros g Hg. apply elem_of_nil in Hg. contradiction.
  - destruct (referenced d bname g) eqn:Hr.
    + specialize (IH (S k)). destruct (remove_scan d bname fs (S k)) as [[k' g']|].
      * destruct IH as (pre & post & -> & -> & Hpre & Hg' & Ha).
        exists (g :: pre), post. split; [reflexivity|]. split; [simpl; lia|].
        split; [|split; [exact Hg'|exact Ha]].
        intros x Hx. apply elem_of_cons in Hx as [->|Hx]; auto.
      * destruct IH as [Hall Ha]. split; [|exact Ha].
        intros x Hx. apply elem_of_cons in Hx as [->|Hx]; auto.
    + exists [], fs. split; [reflexivity|]. split; [simpl; lia|].
      split; [|split; [exact Hr|]].
      * intros x Hx. apply elem_of_nil in Hx. contradiction.
      * reflexivity.
Qed.

Lemma remove_loop_eq t l k d T b :
  tstore d !! t = Some T → canceled T = false → readBundle (heap d) l = Some b →
  remove_loop t l k d
  = Some (d, match remove_scan d (name b) (drop k (files b)) k with
             | None => Completed
             | Some (k', g) => Suspended (RemoveLookup l k' g (_localFileName g))
             end).
Proof.
  intros HT Hc Hb. unfold remove_loop. rewrite HT. simpl. rewrite Hc, Hb. simpl.
  destruct (remove_scan d (name b) (drop k (files b)) k) as [[k' g]|]; reflexivity.
Qed.

Lemma continue_step d p r l k T b :
  pending d = Some p → continues (p_phase p) r l k →
  tstore d !! p_task p = Some T → canceled T = false → readBundle (heap d) l = Some b →
  step (Answer r) d
  = match remove_scan d (name b) (drop (S k) (files b)) (S k) with
    | None => drain (onComplete (p_task p) (p_i p) (set_pending None d))
    | Some (k', g) =>
        Some (set_pending
                (Some (mkPending (p_task p) (p_i p) (RemoveLookup l k' g (_localFileName g)))) d)
    end.
Proof.
  intros Hp Hcont HT Hc Hb. simpl. unfold resume, answer. rewrite Hp. simpl.
  assert (Hcb : callback (p_task p) (p_phase p) r d = remove_loop (p_task p) l (S k) d).
  { destruct (p_phase p) as [fr|fr|fr|l' k' f lf|l' k'], r; simpl in Hcont;
      try contradiction; destruct Hcont as [-> ->]; reflexivity. }
  rewrite Hcb, (remove_loop_eq _ _ _ _ _ _ HT Hc Hb). simpl.
  destruct (remove_scan d (name b) (drop (S k) (files b)) (S k)) as [[k' g]|]; reflexivity.
Qed.

Lemma lookup_found_step d p l k f lf u :
  pending d = Some p → p_phase p = RemoveLookup l k f lf →
  step (Answer (FileFound u)) d
  = Some (set_pending (Some (mkPending (p_task p) (p_i p) (RemoveDelete l k)))
            (_removeLocalURL f (set_disk (disk d ∖ {[lf]}) d))).
Proof.
  intros Hp Hph. simpl. unfold resume, answer. rewrite Hp. simpl. rewrite Hph. reflexivity.
Qed.

Lemma removeLocalURL_bundles f d : bundles (_removeLocalURL f d) = bundles d.
Proof. unfold _removeLocalURL. destruct (localURLs d !! f); reflexivity. Qed.

Lemma removeLocalURL_pending f d : pending (_removeLocalURL f d) = pending d.
Proof. unfold _removeLocalURL. destruct (localURLs d !! f); reflexivity. Qed.

(** The end of the task: every file that is left is listed by another
    bundle. *)
Lemma removed_after_end found b d d' p T k :
  sched_inv d → pending d = Some p → tstore d !! p_task p = Some T → canceled T = false →
  (∀ g, g ∈ drop (S k) (files b) → referenced d (name b) g = true) →
  drain (onComplete (p_task p) (p_i p) (set_pending None d)) = Some d' →
  removed_after found b (p_task p) k d d'.
Proof.
  intros I Hp HT Hc Hall Hd.
  remember (set_pending None d) as d2 eqn:Ed2.
  assert (Ht : tstore d2 = tstore d) by (subst d2; reflexivity).
  assert (Hk : tasks d2 = tasks d) by (subst d2; reflexivity).
  assert (Hu : localURLs d2 = localURLs d) by (subst d2; reflexivity).
  assert (Htr : trace d2 = trace d) by (subst d2; reflexivity).
  assert (Hpn : pending d2 = None) by (subst d2; reflexivity).
  clear Ed2.
  destruct (onComplete_fields (p_task p) (p_i p) d2)
    as (Os & Op & Od & Oh & Ob & Otr & Oq & Odl & Ou).
  assert (Hnot : p_task p ∉ tasks (onComplete (p_task p) (p_i p) d2)).
  { unfold onComplete. rewrite Ht, HT, Hc, (si_running _ I _ _ Hp HT).
    unfold splice. simpl. rewrite Hk.
    apply NoDup_delete_notin; [apply (si_nodup _ I)|apply (si_index _ I), Hp]. }
  destruct (drain_quiet _ (p_task p) _ Hd Hnot) as [Hev Hsub].
  assert (Hurls : localURLs d' = localURLs d).
  { rewrite <- Hu, <- Ou. apply (drain_urls _ _ Hd). rewrite Op. exact Hpn. }
  split; [intros Hin; apply Hnot; eapply elem_of_sublist; eauto|].
  split; [intros j; rewrite Hev, Otr, Htr; reflexivity|].
  split; [intros g u; rewrite Hurls; auto|].
  split; [|intros g _; rewrite Hurls; reflexivity].
  intros j g Hj Hf Hr _. exfalso.
  assert (Hin : g ∈ drop (S k) (files b)).
  { apply list_elem_of_lookup. exists (j - S k)%nat. rewrite lookup_drop.
    replace (S k + (j - S k))%nat with j by lia. exact Hf. }
  rewrite (Hall g Hin) in Hr. discriminate.
Qed.

(** One more file: the files of [pre] are listed by other bundles, and
    the cached file of [g], at the index [k'], has been looked for. *)
Lemma removed_after_step found b t k k' g pre post d dm d' :
  drop (S k) (files b) = pre ++ g :: post → k' = (S k + length pre)%nat →
  (∀ x, x ∈ pre → referenced d (name b) x = true) →
  referenced d (name b) g = false →
  bundles dm = bundles d → heap dm = heap d → trace dm = trace d →
  (localURLs dm = localURLs d ∧ found k' = None
   ∨ localURLs dm = delete g (localURLs d) ∧ is_Some (found k')) →
  removed_after found b t k' dm d' → removed_after found b t k d d'.
Proof.
  intros Hfs -> Hpre Hg Hb Hh Htr Hu (R1 & R2 & R3 & R4 & R5).
  assert (Hat : ∀ j, (k < j)%nat → files b !! j = (pre ++ g :: post) !! (j - S k)%nat).
  { intros j Hj. rewrite <- Hfs, lookup_drop. f_equal. lia. }
  assert (Hk' : files b !! (S k + length pre)%nat = Some g).
  { rewrite Hat by lia. replace (S k + length pre - S k)%nat with (length pre) by lia.
    rewrite lookup_app_r by lia. rewrite Nat.sub_diag. reflexivity. }
  assert (Hlow : ∀ j x, (k < j < S k + length pre)%nat → files b !! j = Some x →
                 referenced d (name b) x = true).
  { intros j x Hj Hx. rewrite Hat in Hx by lia. rewrite lookup_app_l in Hx by lia.
    apply Hpre. eapply list_elem_of_lookup_2. exact Hx. }
  assert (Href : ∀ x, referenced dm (name b) x = referenced d (name b) x).
  { intros x. apply referenced_same; assumption. }
  assert (Hsub : ∀ x u, localURLs dm !! x = Some u → localURLs d !! x = Some u).
  { intros x u Hx. destruct Hu as [[E _]|[E _]]; rewrite E in Hx; [exact Hx|].
    apply lookup_delete_Some in Hx as [_ Hx]. exact Hx. }
  split; [exact R1|]. split; [intros j; rewrite R2, Htr; reflexivity|].
  split; [intros x u Hx; apply Hsub, R3, Hx|]. split.
  - intros j x Hj Hx Hr Hfound.
    destruct (lt_eq_lt_dec j (S k + length pre)) as [[Hlt| ->]|Hgt].
    + rewrite (Hlow j x) in Hr by (try lia; exact Hx). discriminate.
    + assert (x = g) as -> by congruence.
      destruct Hu as [[_ Hn]|[Hd _]]; [rewrite Hn in Hfound; destruct Hfound; discriminate|].
      destruct (localURLs d' !! g) as [u|] eqn:E; [|reflexivity].
      apply R3 in E. rewrite Hd, lookup_delete_eq in E. discriminate.
    + apply (R4 j x); [lia|exact Hx|rewrite Href; exact Hr|exact Hfound].
  - intros x Hx. rewrite R5.
    + destruct Hu as [[-> _]|[-> Hfound]]; [reflexivity|].
      apply lookup_delete_ne. intros <-.
      assert (Hlt : (k < S k + length pre)%nat) by lia.
      destruct (Hx _ Hlt Hk') as [Hr|Hn]; [congruence|].
      rewrite Hn in Hfound. destruct Hfound; discriminate.
    + intros j Hj Hxj. rewrite Href. apply Hx; [lia|exact Hxj].
Qed.

Lemma drop_after (fs pre post : list string) (g : string) k :
  drop (S k) fs = pre ++ g :: post → drop (S (S k + length pre)) fs = post.
Proof.
  intros H. replace (S (S k + length pre)) with (S k + S (length pre))%nat by lia.
  rewrite <- drop_drop, H.
  replace (S (length pre)) with (length pre + 1)%nat by lia.
  rewrite <- drop_drop, drop_app_length. reflexivity.
Qed.


Lemma continues_fits ph r l k : continues ph r l k → fits ph r = true.
Proof. destruct ph, r; simpl; try contradiction; reflexivity. Qed.

Lemma remove_continue found l b n : ∀ d p r k T,
  (length (drop (S k) (files b)) ≤ n)%nat →
  reachable d → pending d = Some p → continues (p_phase p) r l k →
  tstore d !! p_task p = Some T → canceled T = false →
  readBundle (heap d) l = Some b →
  ∃ d', run (Answer <$> (r :: remove_answers found d (name b) (drop (S k) (files b)) (S k))) d
        = Some d'
        ∧ removed_after found b (p_task p) k d d'.
Proof.
  induction n as [|n IH]; intros d p r k T Hlen Hr Hp Hcont HT Hc Hb;
    pose proof (continue_step _ _ _ _ _ _ _ Hp Hcont HT Hc Hb) as Hstep;
    pose proof (remove_scan_spec found d (name b) (drop (S k) (files b)) (S k)) as Hscan;
    (destruct (step_total d (Answer r) Hr) as [d1 Hd1];
       [exists p; split; [exact Hp|eapply continues_fits; eauto]|]);
    destruct (reachable_all_inv _ Hr) as (I & _ & _);
    pose proof (reachable_step _ _ _ Hr Hd1) as Hr1;
    rewrite fmap_cons, run_cons, Hd1; cbn [mbind option_bind];
    rewrite Hstep in Hd1; clear Hstep;
    destruct (remove_scan d (name b) (drop (S k) (files b)) (S k)) as [[k' g]|].
  - destruct Hscan as (pre & post & Hfs & _). rewrite Hfs, length_app in Hlen.
    simpl in Hlen. lia.
  - destruct Hscan as [Hall Ha]. rewrite Ha. exists d1. split; [reflexivity|].
    exact (removed_after_end found b d d1 p T k I Hp HT Hc Hall Hd1).
  - destruct Hscan as (pre & post & Hfs & Hk' & Hpre & Hg & Ha).
    injection Hd1 as Hd1.
    assert (Hp1 : pending d1
                  = Some (mkPending (p_task p) (p_i p) (RemoveLookup l k' g (_localFileName g))))
      by (rewrite <- Hd1; reflexivity).
    assert (Ht1 : tstore d1 = tstore d) by (rewrite <- Hd1; reflexivity).
    assert (Hh1 : heap d1 = heap d) by (rewrite <- Hd1; reflexivity).
    assert (Hb1 : bundles d1 = bundles d) by (rewrite <- Hd1; reflexivity).
    assert (Htr1 : trace d1 = trace d) by (rewrite <- Hd1; reflexivity).
    assert (Hu1 : localURLs d1 = localURLs d) by (rewrite <- Hd1; reflexivity).
    clear Hd1.
    assert (Hpost : drop (S k') (files b) = post) by (rewrite Hk'; eapply drop_after; eauto).
    assert (Hlen' : (length (drop (S k') (files b)) ≤ n)%nat).
    { rewrite Hpost. rewrite Hfs, length_app in Hlen. simpl in Hlen. lia. }
    rewrite Ha. destruct (found k') as [u|] eqn:Hfk; cbn [answers_of app].
    + rewrite fmap_cons, run_cons,
        (lookup_found_step d1 _ l k' g (_localFileName g) u Hp1 eq_refl).
      cbn [mbind option_bind p_task p_i].
      remember (set_pending (Some (mkPending (p_task p) (p_i p) (RemoveDelete l k')))
                  (_removeLocalURL g (set_disk (disk d1 ∖ {[_localFileName g]}) d1)))
        as dW eqn:EW.
      assert (HpW : pending dW = Some (mkPending (p_task p) (p_i p) (RemoveDelete l k')))
        by (rewrite EW; reflexivity).
      assert (HtW : tstore dW = tstore d).
      { rewrite EW. simpl.
        destruct (removeLocalURL_fields g (set_disk (disk d1 ∖ {[_localFileName g]}) d1))
          as (_ & _ & ->). exact Ht1. }
      assert (HhW : heap dW = heap d).
      { rewrite EW. simpl.
        destruct (removeLocalURL_fields g (set_disk (disk d1 ∖ {[_localFileName g]}) d1))
          as (_ & -> & _). exact Hh1. }
      assert (HbW : bundles dW = bundles d).
      { rewrite EW. simpl. rewrite removeLocalURL_bundles. exact Hb1. }
      assert (HtrW : trace dW = trace d).
      { rewrite EW. simpl.
        destruct (removeLocalURL_fields g (set_disk (disk d1 ∖ {[_localFileName g]}) d1))
          as (-> & _ & _). exact Htr1. }
      assert (HuW : localURLs dW = delete g (localURLs d)).
      { rewrite EW. simpl. rewrite removeLocalURL_urls. simpl. rewrite Hu1. reflexivity. }
      assert (HrW : reachable dW).
      { eapply reachable_step; [exact Hr1|].
        rewrite (lookup_found_step d1 _ l k' g (_localFileName g) u Hp1 eq_refl), EW.
        reflexivity. }
      clear EW.
      destruct (IH dW (mkPending (p_task p) (p_i p) (RemoveDelete l k')) FileRemoved k' T
                  Hlen' HrW HpW) as (d' & Hrun & Hafter).
      { split; reflexivity. }
      { rewrite HtW. exact HT. }
      { exact Hc. }
      { rewrite HhW. exact Hb. }
      exists d'. split.
      * rewrite (remove_answers_same found d dW _ _ _ HbW HhW), Hpost in Hrun. exact Hrun.
      * eapply (removed_after_step found b (p_task p) k k' g pre post d dW d'); eauto.
    + destruct (IH d1 (mkPending (p_task p) (p_i p) (RemoveLookup l k' g (_localFileName g)))
                  FileMissing k' T Hlen' Hr1 Hp1) as (d' & Hrun & Hafter).
      { split; reflexivity. }
      { rewrite Ht1. exact HT. }
      { exact Hc. }
      { rewrite Hh1. exact Hb. }
      exists d'. split.
      * rewrite (remove_answers_same found d d1 _ _ _ Hb1 Hh1), Hpost in Hrun. exact Hrun.
      * eapply (removed_after_step found b (p_task p) k k' g pre post d d1 d'); eauto.
  - destruct Hscan as [Hall Ha]. rewrite Ha. exists d1. split; [reflexivity|].
    exact (removed_after_end found b d d1 p T k I Hp HT Hc Hall Hd1).
Qed.


Lemma ex_removing_reachable : reachable ex_removing.
Proof.
  apply (run_reachable ex_removing_calls newDAM); [apply reachable_new|vm_compute; reflexivity].
Qed.


